(* ===== verification/_CoqProject ===== *)
-Q . S2P
Prelude.v
Sorting.v
Types.v
Diagnostics.v
SubmissionState.v
Identity.v
Coordination.v
Generation.v
Confirmation.v
StoreRow.v
StoreRowFacts.v
Store.v
StoreFacts.v
StoreInvariant.v
Protocol.v
Tree.v
Recovery.v
Coordinator.v
CoordinatorFacts.v
CoordinatorPass.v
NoteBundling.v
ShareTiming.v
SharePlacement.v
LifecyclePlanning.v
Ballot.v
Phases.v
ShareDelivery.v
RoundSnapshot.v
RoundUnits.v
RoundPlanning.v
RoundRules.v
RoundRuleTable.v
RoundClassification.v
RoundProjection.v
RoundPresentation.v
VoteRecovery.v
WalletTables.v
WalletFacts.v
WalletHistory.v
RoundLoading.v
RoundReading.v
RoundSubmissions.v
ShareWire.v
HelperClient.v
HelperClientFacts.v
ShareRecords.v
ShareEvidence.v
ShareDispatch.v
ShareDispatchFacts.v
ShareDelivered.v
