(* ===== verification/Prelude.v ===== *)
(** * A verification library for librustvoting

    librustvoting is the Rust library behind shielded voting wallets.  A wallet splits its
    notes into bundles, delegates each bundle's weight, casts votes, and hands encrypted
    shares of each vote to helper servers.  Delegations and votes are transactions on a vote
    chain.  The hard part is submitting each of them once: a POST may have landed although
    its answer was lost, the process may stop anywhere, and the only durable memory is one
    SQLite database.

    ** Parts of the program and the files that model them

    Paths are under [src/zcash_voting/src] unless they start with a crate name.

    - Foundations.  [Prelude] (this file): fallible computations, bytes, text, integers at
      their width, list lemmas, tactics and hint databases.  [Sorting]: Rust's stable sort.
      [Types]: [VotingError] and number formatting ([types.rs]).
    - The submission lifecycle, [chain_submission/].  [Diagnostics] is [result.rs],
      [SubmissionState] is [state.rs], [Identity] is [identity.rs], [Coordination] is
      [coordination.rs], [Generation] is [generation.rs] with the batch assembly of [vote.rs],
      [Confirmation] is [confirmation.rs].  [StoreRow] and [Store] are [store.rs],
      [store/sqlite.rs] and the table, indexes and triggers of
      [storage/migrations/001_init.sql]; [StoreRowFacts], [StoreFacts] and [StoreInvariant]
      hold their proofs.  [Protocol] is [transport.rs] and [protocol.rs], [Tree] is
      [vote-commitment-tree/src/hash.rs], [Recovery] is [recovery.rs].  [Coordinator] is
      [coordinator.rs], with [CoordinatorFacts] and [CoordinatorPass] for its proofs.
      [LifecyclePlanning] is [planning.rs].
    - Wallet planning.  [NoteBundling] is [note_bundling.rs].
    - Round planning.  [Ballot] is the ballot vocabulary of [session.rs] with the limits of
      [types.rs].  [Phases] is the phase vocabulary of [phases.rs] and
      [round_planning/lifecycle.rs].  [RoundSnapshot] is the data of
      [round_planning/snapshot.rs] and the grouping of [round_planning/vote_units.rs], with
      [RoundUnits] for its proofs.  [RoundPlanning] is [round_planning/classify.rs] with the
      payload recovery of [share.rs] it calls; [RoundRules] turns its loops into effects,
      [RoundRuleTable] states the rules of [docs/round_orchestration_invariants.md], and
      [RoundClassification] joins them.  [RoundProjection] is
      [round_planning/projection.rs], with [RoundPresentation] for its proofs.
    - The wallet database.  [VoteRecovery] is the stored form of a signed vote ([vote.rs]).
      [WalletTables] holds the rows of the wallet tables of [001_init.sql] with the queries
      of [storage/queries/mod.rs], the writes of [confirmation.rs], and the reads, positions
      and retirement of [vote.rs] and [delegate_and_vote_batch/preparation.rs]; it implements
      the interfaces the lifecycle is proved against.  [WalletFacts] is the invariant of the
      tables and [WalletHistory] that of the database.  [RoundLoading] is the read
      transaction of round planning: [phases.rs], [phases/authoritative_batch.rs], the share
      records of [storage/queries/share_delegations.rs], the ballot of [session.rs] and
      [load_round_snapshot] of [round_planning/snapshot.rs].  [RoundReading] states what a
      load says of the tables, and [RoundSubmissions] joins store, tables, loader and
      planner.
    - Helper shares.  [ShareTiming] is [share_policy/timing.rs] and
      [share_policy/submission_schedule.rs].  [SharePlacement] is
      [share_policy/server_order.rs] and [share_policy/initial_placement.rs].
      [ShareDelivery] is [share_tracking/delivery_plan.rs],
      [share_tracking/immediate_designation.rs] and [helper/url.rs].  [ShareRecords] is
      the writes of [storage/queries/share_delegations.rs] with the delivery state of
      [share.rs], by several connections; [ShareEvidence] holds their proofs.  [ShareWire]
      is the helper-share body of [wire.rs] and [wire_codec.rs].  [HelperClient] is
      [helper/client.rs], [helper/health.rs] and the errors of [helper/transport.rs], with
      [HelperClientFacts] for its proofs.  [ShareDispatch] is
      [share_tracking/initial_delivery.rs] and [share_tracking/configured_fleet.rs] with the
      calls of [share.rs] they make; its proofs are [ShareDispatchFacts], a program logic for
      deliveries, and [ShareDelivered].

    The parts meet as they do in the code.  A pass of the coordinator derives a generation
    ([Generation]), takes its locks ([Coordination]), reserves an attempt in the store
    ([Store]), posts through the protocol client ([Protocol]), records an observation
    ([SubmissionState] through [Store]), and looks for lost outcomes in the tree
    ([Recovery]).  The round planner reads the phases those records project ([Phases]) and the
    hashes they report ([LifecyclePlanning]), and decides what is submitted, cast or delivered
    next ([RoundPlanning]).  It reads them in one transaction ([RoundLoading]) from the tables
    that confirmed submissions are projected onto ([WalletTables]).  A delivery plan is made by the placement planner ([SharePlacement]), which
    draws its times from [ShareTiming].  A delivery ([ShareDispatch]) checks such a plan, makes
    the body to send ([ShareWire]), reserves each helper on the share's record
    ([ShareRecords]), posts, and writes the outcome the client reports ([HelperClient]).

    ** How code becomes definitions

    A Rust function is a Rocq function of the same name.  [Result] is [result], with the
    code's error values and messages.  Unsigned integers are [N], their wrapping, saturating
    or checked arithmetic written out.  Enums are inductive types and structs are records.
    Strings are lists of Unicode scalar values ([text]).  Tables are finite maps by primary
    key, and a transaction is a function on the database that leaves it unchanged when it
    fails.  A race of futures is one choice of the environment.  Helper calls and deliveries
    are state-passing monads ([client], [task]); what the outside answers, clocks and
    cancellation included, is a function of how often it was asked, and other connections may
    change the records between any two steps.  The concurrent POSTs of one wave are taken one
    after the other with such changes between them: each only reads the record, and the code
    writes the outcomes in wave order after all of them.

    Third-party crates are type classes: hex, SHA-256, base64, [rusqlite] errors, [serde_json],
    [url], Poseidon, the Pallas field encoding and the tree frontier.  What the lifecycle
    reads and writes of other tables are classes too ([GenerationTables],
    [ConfirmationTables], [StoreTables], [ProjectionColumns]), so that its theorems hold for
    any such tables; [WalletTables] gives the code's own.  The laws a class states are the documented behaviour of the code
    behind it.  Every theorem that needs one has a witness with a concrete instance.

    ** What the theorems show

    - State machine: evidence of a possible dispatch persists until settled, confirmations by
      hash and rejections have their provenance, terminal states absorb.
    - Stored votes: a signed vote survives storage, and a document that parses is the stored
      form of its vote.
    - Identity and generation: the durable key and the digest transcript are injective, the
      in-memory key agrees with the durable one, derived batches list their members.
    - Coordination: admitted operations exclude each other, the lock order cannot deadlock,
      the in-flight registry is exact.
    - Confirmation and protocol: accepted evidence fits the locked layout, each
      classification is justified by the answer, the rejection ledger counts its streak.
    - Store: an invariant of every reachable database, what one operation may do to a record,
      permanence of terminal outcomes until their round is deleted, and that the schema never
      refuses a legal transition.  Deleting rounds, which cascades to their submissions, is
      one of the steps.
    - Recovery: the scan ends, and its match is exact for the leaves the endpoint served.
    - Coordinator: every POST follows its own durable reservation and a control sample, the
      pass always ends, and its report is true of the record on file.
    - Planning projections: the reported hash refines the records, and the two ways to read
      it agree.
    - Round planning: the votes of a round are partitioned into the units the chain
      dispatches; the classifier implements the rule table exactly, fails only where the
      durable state cannot be planned and never panics; the plan a host sees presents those
      obligations, each once, in order, with the prerequisites the classifier set.
    - Rounds and submissions: the snapshot loaded from any database a wallet's history leads
      to is one the planner can plan, and the plan accounts for every submission on record.
      A history is any sequence of store operations, of writes by other components that keep
      the rows submissions stand on ([wallet_other] states which), and of round deletions.
    - Note bundles: the plan cuts the sorted notes into consecutive full or threshold-closed
      bundles, drops only dust and a tail within the trim budget, counts what it drops, and
      does not depend on the order of its input; every policy the crate builds is valid.
    - Helper shares: placement is balanced under the quota, every shuffle is reachable,
      schedules avoid the last moment, polling continues while a share is open, a round has
      at most one immediate share, and a fresh delivery plan passes its own validation.
    - Delivery records: whatever the interleaving of connections, what is known of a helper
      never weakens, a helper is not reserved twice without a definite failure between, a
      reservation respects the placement target, and a call never touches another
      generation.  An iteration undisturbed by others answers ([prepare_settles]).
    - Deliveries: the client is called at most once per configured helper, after the helper's
      own reservation, with the committed share; of the requests of a call all but the last
      were refused.  The report is true of the record on file, and deliveries always end.
      These hold whatever other connections write.  That outcomes are on record when the
      delivery returns, and possible deliveries after any failure, assumes of the other
      connections that while the lock of the share is held they clear no reservation and do
      not re-create its record ([respects_lock]).  All of these but termination assume that
      the configured helpers are fixed points of canonicalization ([stable]), which the
      canonical form of a host with two trailing dots is not.
    - Helper client: a share POST that may have been received is never sent again by the
      client, a body is sent as it was made and carries its payload, and a helper is demoted
      exactly while its failures say so.

    ** Bounds and fuel

    Recursion is structural except in a few loops.  The attempt loop of a pass runs on
    [pass_fuel], one more than the policy's number of attempts; [pass_ends_cleanly] proves
    that it never runs out.  The page loop of the scan runs on [scan_fuel], which covers the
    code's request bound; the scan theorem states that it returns.  The two loops of a delivery
    run on the number of helpers left, which each turn lowers; the delivery theorems exclude
    running out.  Retries of the client recurse on the list of delays.  Digit printers take the
    digit count of their width.  The privacy trim recurses on the bundles.

    ** Not modelled

    - Circuits, proofs, keys, signing and Poseidon: external cryptographic crates.
    - HTTP, threads and async plumbing, the round driver, tree synchronisation, private
      information retrieval, configuration fetching: I/O around the modelled decisions.
    - Writers of the wallet tables other than the submission lifecycle (delegation setup,
      casting, share delivery): they are the [wallet_other] steps of a history, although
      [ShareRecords] and [ShareDispatch] model the delivery records by themselves.  SQL
      statements that fail for reasons outside the schema.
    - Share payload construction, the readiness race of helpers, share confirmation and
      recovery drives, delegation and vote construction.
    - [f64]-driven variants of share scheduling, kept for foreign callers.
    - Benchmarks, examples and conformance harnesses. *)

From Stdlib Require Export Lia.
From Stdlib.Strings Require Byte.
From stdpp Require Export base option strings gmap numbers sorting list.
From stdpp Require Import options.

#[global] Set Default Goal Selector "1".
#[global] Set Warnings "-clear-no-such-hyp".

(** ** Fallible computations

    Rust's [Result<A, E>]. The error type comes first so that [result E] is a
    monad and stdpp's do-notation applies. *)

Inductive result (E A : Type) : Type :=
| Ok (a : A)
| Err (e : E).
Arguments Ok {E A} a.
Arguments Err {E A} e.

#[export] Instance result_ret E : MRet (result E) := fun A a => Ok a.
#[export] Instance result_bind E : MBind (result E) :=
  fun A B f m => match m with Ok a => f a | Err e => Err e end.
#[export] Instance result_fmap E : FMap (result E) :=
  fun A B f m => match m with Ok a => Ok (f a) | Err e => Err e end.

(** [Result::map_err]. *)
Definition map_err {E F A} (f : E -> F) (m : result E A) : result F A :=
  match m with Ok a => Ok a | Err e => Err (f e) end.

(** [Option::ok_or]. *)
Definition ok_or {E A} (o : option A) (e : E) : result E A :=
  match o with Some a => Ok a | None => Err e end.

Definition is_ok {E A} (m : result E A) : bool :=
  match m with Ok _ => true | Err _ => false end.

(** A failing branch taken when [b] holds: [if b { return Err(e) }]. *)
Definition fail_if {E} (b : bool) (e : E) : result E unit :=
  if b then Err e else Ok tt.

#[export] Instance result_eq_dec {E A} `{EqDecision E, EqDecision A} :
  EqDecision (result E A).
Proof. solve_decision. Defined.

Section result_lemmas.
Context {E A B : Type}.

Lemma result_bind_Ok (m : result E A) (f : A -> result E B) b :
  m ≫= f = Ok b <-> exists a, m = Ok a /\ f a = Ok b.
Proof.
  destruct m as [a|e]; cbn; split.
  - intros H. eauto.
  - intros (a' & [= ->] & H). exact H.
  - discriminate.
  - intros (a' & H & _). discriminate H.
Qed.

Lemma map_err_Ok {F} (f : E -> F) (m : result E A) a :
  map_err f m = Ok a <-> m = Ok a.
Proof. destruct m; cbn; split; congruence. Qed.

Lemma ok_or_Ok (o : option A) (e : E) a : ok_or o e = Ok a <-> o = Some a.
Proof. destruct o; cbn; split; congruence. Qed.

Lemma fail_if_Ok (b : bool) (e : E) u : fail_if b e = Ok u <-> b = false.
Proof. destruct b, u; cbn; split; congruence. Qed.
End result_lemmas.

(** Collecting an iterator of results: the first error wins. *)
Fixpoint collect_results {E A B} (f : A -> result E B) (l : list A) : result E (list B) :=
  match l with
  | [] => Ok []
  | a :: l' => b ← f a; bs ← collect_results f l'; Ok (b :: bs)
  end.

(** A loop that carries a state and stops at the first error. *)
Fixpoint fold_results {E A S} (f : S -> A -> result E S) (s : S) (l : list A) : result E S :=
  match l with
  | [] => Ok s
  | a :: l' => s' ← f s a; fold_results f s' l'
  end.

Lemma collect_results_Ok {E A B} (f : A -> result E B) l bs :
  collect_results f l = Ok bs <-> Forall2 (fun a b => f a = Ok b) l bs.
Proof.
  revert bs. induction l as [|a l IH]; intros bs; cbn.
  - split; [intros [= <-]; constructor | by inversion 1].
  - split.
    + intros (b & Hb & (bs' & Hbs & [= <-])%result_bind_Ok)%result_bind_Ok.
      constructor; [done | by apply IH].
    + inversion 1 as [|? b ? bs' Hb Hbs]; subst.
      apply result_bind_Ok. exists b. split; [done|].
      apply result_bind_Ok. exists bs'. split; [by apply IH | done].
Qed.

Lemma collect_results_map {E A B} (f : A -> result E B) (g : A -> B) l :
  (forall x, x ∈ l -> f x = Ok (g x)) -> collect_results f l = Ok (map g l).
Proof.
  intros H. apply collect_results_Ok. induction l as [|x l IH]; constructor; [apply H; by left|].
  apply IH. intros y Hy. apply H. by right.
Qed.

Lemma NoDup_concat_map {A B} (f : A -> list B) l :
  NoDup l -> (forall x, x ∈ l -> NoDup (f x)) -> (forall x y z, x ∈ l -> y ∈ l -> z ∈ f x -> z ∈ f y -> x = y) -> NoDup (concat (map f l)).
Proof.
  induction 1 as [|x l Hnew _ IH]; intros Hone Hdis; cbn; [constructor|]. apply NoDup_app. split; [apply Hone; by left|]. split.
  - intros z Hz Hin. apply list_elem_of_In, in_concat in Hin as (fy & Hfy & Hzy). apply list_elem_of_In in Hfy, Hzy.
    apply list_elem_of_fmap in Hfy as (y & -> & Hy). apply Hnew. rewrite (Hdis x y z); [done|by left|by right|done|done].
  - apply IH; [intros; apply Hone; by right|]. intros a b z Ha Hb. apply Hdis; by right.
Qed.

Lemma elem_of_concat_map {A B} (f : A -> list B) l z : z ∈ concat (map f l) <-> exists x, x ∈ l /\ z ∈ f x.
Proof.
  rewrite list_elem_of_In, in_concat. setoid_rewrite <- list_elem_of_In. split.
  - intros (fx & (x & -> & Hx)%list_elem_of_fmap & Hz). eauto.
  - intros (x & Hx & Hz). exists (f x). split; [by apply list_elem_of_fmap_2|done].
Qed.

(** A loop keeps an invariant of the items it has passed. *)
Lemma fold_results_invariant {E A S} (f : S -> A -> result E S) (P : list A -> S -> Prop) l s s' :
  P [] s -> (forall pre x st st', pre ++ [x] `prefix_of` l -> P pre st -> f st x = Ok st' -> P (pre ++ [x]) st') ->
  fold_results f s l = Ok s' -> P l s'.
Proof.
  intros H0 Hstep. assert (forall pre rest st, pre ++ rest = l -> P pre st ->
    fold_results f st rest = Ok s' -> P l s') as Hgen; [|by apply (Hgen [] l s)].
  intros pre rest. revert pre. induction rest as [|x rest IH]; intros pre st Hl HP H; cbn [fold_results] in H.
  { injection H as <-. rewrite app_nil_r in Hl. by subst. }
  apply result_bind_Ok in H as (st' & Hf & H). apply (IH (pre ++ [x]) st'); [by rewrite <- app_assoc| |done].
  eapply Hstep; [|done|done]. exists rest. by rewrite <- app_assoc.
Qed.

(** It stops only where an item fails. *)
Lemma fold_results_Err {E A S} (f : S -> A -> result E S) l s e :
  fold_results f s l = Err e -> exists x st, x ∈ l /\ f st x = Err e.
Proof.
  revert s. induction l as [|x l IH]; intros s H; cbn [fold_results] in H; [done|].
  destruct (f s x) as [st|e'] eqn:Hx; cbn in H.
  - destruct (IH st H) as (y & st' & Hy & Hf). exists y, st'. split; [by right|done].
  - exists x, s. split; [by left|congruence].
Qed.

Lemma fold_results_app {E A S} (f : S -> A -> result E S) l k s :
  fold_results f s (l ++ k) = (s' ← fold_results f s l; fold_results f s' k).
Proof. revert s. induction l as [|x l IH]; intros s; cbn [fold_results app]; [done|]. destruct (f s x); cbn; [apply IH|done]. Qed.

Lemma fold_results_ext {E A B S} (f : S -> A -> result E S) (g : S -> B -> result E S) (h : A -> B) l s :
  (forall st x, x ∈ l -> f st x = g st (h x)) -> fold_results f s l = fold_results g s (map h l).
Proof.
  revert s. induction l as [|x l IH]; intros s H; cbn [fold_results map]; [done|].
  rewrite (H s x) by by left. destruct (g s (h x)); cbn; [|done]. apply IH. intros st y Hy. apply H. by right.
Qed.

Lemma or_iff_both (A B A' B' : Prop) : A <-> A' -> B <-> B' -> A \/ B <-> A' \/ B'.
Proof. tauto. Qed.

Lemma filter_all {A} (P : A -> Prop) `{!forall x, Decision (P x)} (l : list A) : Forall P l -> filter P l = l.
Proof. induction 1 as [|x l Hx _ IH]; [done|]. by rewrite filter_cons_True, IH. Qed.

Lemma filter_none_in {A} (P : A -> Prop) `{!forall x, Decision (P x)} (l : list A) :
  (forall x, x ∈ l -> ~ P x) -> filter P l = [].
Proof.
  induction l as [|x l IH]; intros Hno; [done|]. rewrite filter_cons_False by (apply Hno; by left).
  apply IH. intros y Hy. apply Hno. by right.
Qed.

Lemma Forall_filter_keep {A} (P Q : A -> Prop) `{!forall x, Decision (P x)} (l : list A) :
  Forall Q l -> Forall Q (filter P l).
Proof. rewrite !Forall_forall. intros Hall x Hx. apply list_elem_of_filter in Hx as [_ Hx]. by apply Hall. Qed.

Lemma elem_of_take_1 {A} (x : A) n l : x ∈ take n l -> x ∈ l.
Proof. intros H. rewrite <- (take_drop n l). apply elem_of_app. by left. Qed.

Lemma NoDup_take {A} n (l : list A) : NoDup l -> NoDup (take n l).
Proof. intros H. rewrite <- (take_drop n l) in H. by apply NoDup_app in H as [? _]. Qed.

(** [Iterator::any]. *)
Lemma existsb_elem_of {A} (f : A -> bool) l : existsb f l = true <-> exists x, x ∈ l /\ f x = true.
Proof. rewrite existsb_exists. by setoid_rewrite list_elem_of_In. Qed.

Lemma existsb_false {A} (f : A -> bool) l : existsb f l = false <-> forall x, x ∈ l -> f x = false.
Proof.
  rewrite <- not_true_iff_false, existsb_elem_of. split.
  - intros H x Hx. destruct (f x) eqn:Hf; [|done]. exfalso. eauto.
  - intros H (x & Hx & Hf). rewrite (H x Hx) in Hf. done.
Qed.

(** ** Machine integers

    Unsigned Rust integers are values of [N]. [N.sub] truncates at zero, which
    is [saturating_sub]; every other operation that can leave the width is
    written out. *)

Definition u32_max : N := 4294967295.
Definition u64_max : N := 18446744073709551615.
Definition i64_max : N := 9223372036854775807.

Definition saturating_add64 (a b : N) : N := N.min (a + b) u64_max.
Definition checked_add64 (a b : N) : option N :=
  if bool_decide (a + b <= u64_max)%N then Some (a + b)%N else None.
Definition checked_sub (a b : N) : option N :=
  if bool_decide (b <= a)%N then Some (a - b)%N else None.
Definition wrapping_add64 (a b : N) : N := (a + b) mod (u64_max + 1).

(** ** Bytes *)

Abbreviation byte := Byte.byte.
Abbreviation bytes := (list byte).

#[export] Instance byte_eq_dec : EqDecision byte := Byte.byte_eq_dec.
#[export] Instance byte_countable : Countable byte :=
  inj_countable Byte.to_N Byte.of_N Byte.of_to_N.

(** The byte [v as u8]. *)
Definition byte_of_N (v : N) : byte := default Byte.x00 (Byte.of_N (v mod 256)).

Lemma byte_of_N_to_N b : byte_of_N (Byte.to_N b) = b.
Proof.
  unfold byte_of_N. pose proof (Byte.to_N_bounded b).
  rewrite N.mod_small by lia. by rewrite Byte.of_to_N.
Qed.

#[export] Instance byte_to_N_inj : Inj (=) (=) Byte.to_N.
Proof. intros x y Hxy%(f_equal byte_of_N). by rewrite !byte_of_N_to_N in Hxy. Qed.

Lemma to_N_byte_of_N v : Byte.to_N (byte_of_N v) = (v mod 256)%N.
Proof.
  unfold byte_of_N. destruct (Byte.of_N (v mod 256)) as [b|] eqn:Hb; cbn.
  - by apply Byte.to_of_N.
  - apply Byte.of_N_None_iff in Hb.
    pose proof (N.mod_lt v 256 ltac:(done)). lia.
Qed.

(** *** Fixed-width integer encodings *)

(** [v.to_le_bytes()] at a width of [n] bytes. *)
Fixpoint le_bytes (n : nat) (v : N) : bytes :=
  match n with
  | O => []
  | S n' => byte_of_N v :: le_bytes n' (v / 256)
  end.

(** [from_le_bytes]. *)
Fixpoint le_value (l : bytes) : N :=
  match l with
  | [] => 0
  | b :: l' => Byte.to_N b + 256 * le_value l'
  end.

(** [v.to_be_bytes()] and [from_be_bytes]. *)
Definition be_bytes (n : nat) (v : N) : bytes := reverse (le_bytes n v).
Definition be_value (l : bytes) : N := le_value (reverse l).

Lemma length_le_bytes n v : length (le_bytes n v) = n.
Proof. revert v. induction n as [|n IH]; intros v; cbn; [done | by rewrite IH]. Qed.

Lemma length_be_bytes n v : length (be_bytes n v) = n.
Proof. unfold be_bytes. by rewrite length_reverse, length_le_bytes. Qed.

Lemma le_value_le_bytes n v :
  (v < 256 ^ N.of_nat n)%N -> le_value (le_bytes n v) = v.
Proof.
  revert v. induction n as [|n IH]; intros v Hv; cbn [le_bytes le_value].
  - change (256 ^ N.of_nat 0)%N with 1%N in Hv. lia.
  - rewrite Nat2N.inj_succ, N.pow_succ_r' in Hv.
    rewrite IH, to_N_byte_of_N.
    + pose proof (N.div_mod v 256 ltac:(done)). lia.
    + apply N.Div0.div_lt_upper_bound. lia.
Qed.

Lemma le_bytes_le_value l : le_bytes (length l) (le_value l) = l.
Proof.
  induction l as [|b l IH]; cbn [le_bytes le_value length]; [done|].
  pose proof (Byte.to_N_bounded b) as Hb.
  rewrite (N.mul_comm 256), N.div_add, N.div_small, N.add_0_l, IH by lia.
  f_equal. rewrite <- (byte_of_N_to_N b) at 2. unfold byte_of_N.
  by rewrite N.Div0.mod_add.
Qed.

Lemma le_value_bound l : (le_value l < 256 ^ N.of_nat (length l))%N.
Proof.
  induction l as [|b l IH]; [done|]. cbn [le_value length]. rewrite Nat2N.inj_succ, N.pow_succ_r'.
  pose proof (Byte.to_N_bounded b). lia.
Qed.

Lemma be_value_be_bytes n v :
  (v < 256 ^ N.of_nat n)%N -> be_value (be_bytes n v) = v.
Proof. intros Hv. unfold be_value, be_bytes. rewrite reverse_involutive. by apply le_value_le_bytes. Qed.

Lemma be_bytes_be_value l : be_bytes (length l) (be_value l) = l.
Proof.
  unfold be_value, be_bytes. rewrite <- (length_reverse l), le_bytes_le_value.
  apply reverse_involutive.
Qed.

Lemma be_bytes_inj n v w :
  (v < 256 ^ N.of_nat n)%N -> (w < 256 ^ N.of_nat n)%N ->
  be_bytes n v = be_bytes n w -> v = w.
Proof. intros Hv Hw H. rewrite <- (be_value_be_bytes n v), H by done. by apply be_value_be_bytes. Qed.

Lemma u64_max_pow v : (v <= u64_max)%N <-> (v < 256 ^ N.of_nat 8)%N.
Proof. unfold u64_max. change (256 ^ N.of_nat 8)%N with 18446744073709551616%N. lia. Qed.

Lemma u32_max_pow v : (v <= u32_max)%N <-> (v < 256 ^ N.of_nat 4)%N.
Proof. unfold u32_max. change (256 ^ N.of_nat 4)%N with 4294967296%N. lia. Qed.

(** A value prefixed with its length as a big-endian [u64]. *)
Definition length_prefixed (value : bytes) : bytes :=
  be_bytes 8 (N.of_nat (length value)) ++ value.

(** Rust slices are never longer than [isize::MAX] bytes. *)
Definition sized (value : bytes) : Prop := (N.of_nat (length value) <= i64_max)%N.

#[export] Instance sized_dec value : Decision (sized value).
Proof. unfold sized. apply _. Defined.

(** Splitting two concatenations whose heads have the same fixed length. *)
Lemma fixed_app_inj (a b x y : bytes) :
  length a = length b -> a ++ x = b ++ y -> a = b /\ x = y.
Proof. apply app_inj_1. Qed.

Lemma be_bytes_app_inj n v w x y :
  (v < 256 ^ N.of_nat n)%N -> (w < 256 ^ N.of_nat n)%N ->
  be_bytes n v ++ x = be_bytes n w ++ y -> v = w /\ x = y.
Proof.
  intros Hv Hw [Hb ->]%fixed_app_inj; [| by rewrite !length_be_bytes].
  split; [by eapply be_bytes_inj | done].
Qed.

Lemma length_prefixed_app_inj a b x y :
  sized a -> sized b -> length_prefixed a ++ x = length_prefixed b ++ y -> a = b /\ x = y.
Proof.
  unfold length_prefixed, sized, i64_max. intros Ha Hb. rewrite <- !app_assoc.
  intros [Hlen Htail]%be_bytes_app_inj; [| apply u64_max_pow; unfold u64_max; lia..].
  apply Nat2N.inj in Hlen. by apply fixed_app_inj.
Qed.

(** *** Thirty-two byte arrays

    [[u8; 32]]: a byte list whose length is checked by a boolean, so that two
    arrays are equal when their bytes are and closed arrays still compute. *)

Record bytes32 : Type := Bytes32 {
  bytes32_bytes :> bytes;
  bytes32_length : Nat.eqb (length bytes32_bytes) 32 = true
}.

Lemma bytes32_eq (a b : bytes32) : bytes32_bytes a = bytes32_bytes b -> a = b.
Proof.
  destruct a as [la Ha], b as [lb Hb]; cbn. intros ->.
  f_equal. apply (proof_irrel _ _).
Qed.

#[export] Instance bytes32_eq_dec : EqDecision bytes32.
Proof.
  intros a b. destruct (decide (bytes32_bytes a = bytes32_bytes b)) as [H|H].
  - left. by apply bytes32_eq.
  - right. by intros ->.
Defined.

Lemma length_bytes32 (a : bytes32) : length a = 32.
Proof. apply Nat.eqb_eq, bytes32_length. Qed.

(** [<[u8; 32]>::try_from]. *)
Definition try_into_bytes32 (l : bytes) : option bytes32 :=
  (match Nat.eqb (length l) 32 as b return (Nat.eqb (length l) 32 = b -> option bytes32) with
   | true => fun H => Some (Bytes32 l H)
   | false => fun _ => None
   end) eq_refl.

Lemma try_into_bytes32_Some l a : try_into_bytes32 l = Some a <-> bytes32_bytes a = l.
Proof.
  unfold try_into_bytes32.
  generalize (eq_refl (Nat.eqb (length l) 32)).
  generalize (Nat.eqb (length l) 32) at 2 3. intros [] Hb; split.
  - by intros [= <-].
  - intros H. f_equal. by apply bytes32_eq.
  - discriminate.
  - intros <-. pose proof (bytes32_length a). congruence.
Qed.

(** The array [[b; 32]]. *)
Definition bytes32_fill (b : byte) : bytes32 :=
  {| bytes32_bytes := replicate 32 b; bytes32_length := eq_refl |}.

(** *** Text

    Names and identifiers are byte strings ([string]). Diagnostic messages are
    handled by the code one [char] at a time, so they are sequences of Unicode
    scalar values. *)

Abbreviation text := (list N).

Definition chars (s : string) : text := Ascii.N_of_ascii <$> String.list_ascii_of_string s.

(** [str::as_bytes]. *)
Definition as_bytes (s : string) : bytes := String.list_byte_of_string s.

Lemma as_bytes_inj s t : as_bytes s = as_bytes t -> s = t.
Proof.
  intros H. rewrite <- (String.string_of_list_byte_of_string s).
  unfold as_bytes in H. rewrite H. apply String.string_of_list_byte_of_string.
Qed.

(** One lowercase hexadecimal digit, and two digits per byte. *)
Definition hex_digit (n : N) : Ascii.ascii :=
  Ascii.ascii_of_N (if bool_decide (n < 10)%N then 48 + n else 87 + n)%N.

Fixpoint lower_hex (l : bytes) : string :=
  match l with
  | [] => EmptyString
  | b :: l' =>
      String (hex_digit (Byte.to_N b / 16)) (String (hex_digit (Byte.to_N b mod 16)) (lower_hex l'))
  end.

(** Reading the digits back. *)
Definition lower_hex_value (c : N) : option N :=
  if bool_decide (48 <= c <= 57)%N then Some (c - 48)%N
  else if bool_decide (97 <= c <= 102)%N then Some (c - 87)%N
  else None.

Fixpoint decode_lower_hex (t : text) : option bytes :=
  match t with
  | [] => Some []
  | hi :: rest =>
      match rest with
      | [] => None
      | lo :: rest' =>
          h ← lower_hex_value hi; l ← lower_hex_value lo; tail ← decode_lower_hex rest';
          Some (byte_of_N (16 * h + l) :: tail)
      end
  end.

Lemma lower_hex_value_digit n : (n < 16)%N -> lower_hex_value (Ascii.N_of_ascii (hex_digit n)) = Some n.
Proof.
  intros Hn. unfold hex_digit, lower_hex_value.
  destruct (decide (n < 10)%N);
    [rewrite (bool_decide_true (n < 10)%N) by done | rewrite (bool_decide_false (n < 10)%N) by done];
    rewrite Ascii.N_ascii_embedding by lia.
  - rewrite bool_decide_true by lia. f_equal. lia.
  - rewrite bool_decide_false, bool_decide_true by lia. f_equal. lia.
Qed.

Lemma decode_lower_hex_encode l : decode_lower_hex (chars (lower_hex l)) = Some l.
Proof.
  induction l as [|b l IH]; [done|]. pose proof (Byte.to_N_bounded b).
  unfold chars in *. cbn [lower_hex String.list_ascii_of_string fmap list_fmap decode_lower_hex].
  rewrite !lower_hex_value_digit;
    [| apply N.Div0.div_lt_upper_bound; lia | by apply N.mod_lt].
  cbn [mbind option_bind]. rewrite IH. cbn. f_equal. f_equal.
  rewrite <- (byte_of_N_to_N b) at 3. f_equal. rewrite (N.div_mod (Byte.to_N b) 16) at 3 by done. lia.
Qed.

(** ** Proof automation *)

Create HintDb voting discriminated.

(** Split the equations a successful fallible computation leaves behind. *)
Ltac inv_ok_step :=
  match goal with
  | H : Ok _ = Ok _ |- _ => injection H as H
  | H : Err _ = Err _ |- _ => injection H as H
  | H : Ok _ = Err _ |- _ => discriminate H
  | H : Err _ = Ok _ |- _ => discriminate H
  | H : Some _ = Some _ |- _ => injection H as H
  | H : Some _ = None |- _ => discriminate H
  | H : None = Some _ |- _ => discriminate H
  | H : mbind _ _ = Ok _ |- _ =>
      let a := fresh "a" in let Ha := fresh "Ha" in
      apply result_bind_Ok in H as (a & Ha & H)
  | H : map_err _ _ = Ok _ |- _ => apply map_err_Ok in H
  | H : ok_or _ _ = Ok _ |- _ => apply ok_or_Ok in H
  | H : fail_if _ _ = Ok _ |- _ => apply fail_if_Ok in H
  | H : bool_decide _ = true |- _ => apply bool_decide_eq_true in H
  | H : bool_decide _ = false |- _ => apply bool_decide_eq_false in H
  | H : _ && _ = true |- _ => apply andb_true_iff in H; destruct H
  | H : _ || _ = false |- _ => apply orb_false_iff in H; destruct H
  | H : negb _ = true |- _ => apply negb_true_iff in H
  | H : negb _ = false |- _ => apply negb_false_iff in H
  end.
Ltac inv_ok := repeat (inv_ok_step; subst; cbn beta in *).
