(* ===== verification/Sorting.v ===== *)
(** * Stable sorting

    Rust's [sort_by] and [sort_by_key]: a stable sort by a total preorder. The
    result is the sorted permutation, and it does not depend on the input order
    where the order is antisymmetric on the items. *)

From S2P Require Import Prelude.

Section sort_by.
Context {A : Type} (le : A -> A -> bool).

(** Insert before the first item that is not smaller. *)
Fixpoint insert_by (x : A) (l : list A) : list A :=
  match l with
  | [] => [x]
  | y :: rest => if le x y then x :: l else y :: insert_by x rest
  end.

Definition sort_by (l : list A) : list A := foldr insert_by [] l.

Lemma insert_by_Permutation x l : insert_by x l ≡ₚ x :: l.
Proof.
  induction l as [|y l IH]; [done|]. cbn. destruct (le x y); [done|]. rewrite IH. apply perm_swap.
Qed.

Lemma sort_by_Permutation l : sort_by l ≡ₚ l.
Proof. induction l as [|x l IH]; [done|]. cbn. by rewrite insert_by_Permutation, IH. Qed.

Lemma elem_of_sort_by x l : x ∈ sort_by l <-> x ∈ l.
Proof. by rewrite sort_by_Permutation. Qed.

Lemma length_sort_by l : length (sort_by l) = length l.
Proof. by rewrite sort_by_Permutation. Qed.

Context (le_total : forall x y, le x y = true \/ le y x = true).
Context (le_trans : forall x y z, le x y = true -> le y z = true -> le x z = true).

Lemma insert_by_sorted x l : StronglySorted le l -> StronglySorted le (insert_by x l).
Proof.
  induction 1 as [|y l Hl IH Hy]; cbn; [repeat constructor|].
  destruct (le x y) eqn:Hxy.
  - constructor; [by constructor|]. constructor; [by rewrite Hxy|].
    eapply Forall_impl; [exact Hy|]. intros z Hz. apply Is_true_eq_true in Hz. apply Is_true_eq_left. eauto.
  - constructor; [done|]. rewrite insert_by_Permutation. constructor; [|done].
    apply Is_true_eq_left. destruct (le_total x y); congruence.
Qed.

Lemma sort_by_sorted l : StronglySorted le (sort_by l).
Proof. induction l; [constructor|]. cbn. by apply insert_by_sorted. Qed.

(** Two sorted permutations are equal where ties are equal items. *)
Lemma sorted_unique l k :
  StronglySorted le l -> StronglySorted le k -> l ≡ₚ k ->
  (forall x y, x ∈ l -> y ∈ l -> le x y = true -> le y x = true -> x = y) -> l = k.
Proof.
  revert k. induction l as [|x l IH]; intros k Hl Hk Hp Hanti; [by apply Permutation_nil_l in Hp|].
  destruct k as [|y k]; [by apply Permutation_nil_r in Hp|].
  apply StronglySorted_inv in Hl as [Hl Hx]. apply StronglySorted_inv in Hk as [Hk Hy].
  rewrite Forall_forall in Hx, Hy.
  assert (x = y) as <-.
  { assert (x ∈ y :: k) as Hxk by (rewrite <- Hp; set_solver).
    assert (y ∈ x :: l) as Hyl by (rewrite Hp; set_solver).
    apply elem_of_cons in Hxk as [|Hxk]; [done|]. apply elem_of_cons in Hyl as [|Hyl]; [done|].
    apply Hanti; [set_solver|set_solver| |]; apply Is_true_eq_true; auto. }
  f_equal. apply Permutation_cons_inv in Hp. apply IH; [done|done|done|].
  intros a b Ha Hb. apply Hanti; set_solver.
Qed.

Lemma sort_by_unique l k :
  l ≡ₚ k -> (forall x y, x ∈ l -> y ∈ l -> le x y = true -> le y x = true -> x = y) -> sort_by l = sort_by k.
Proof.
  intros Hp Hanti. apply sorted_unique; [apply sort_by_sorted|apply sort_by_sorted| |].
  - by rewrite !sort_by_Permutation.
  - intros x y Hx Hy. rewrite elem_of_sort_by in Hx, Hy. auto.
Qed.
End sort_by.

(** Distinct numbers end in strictly ascending order. *)
Lemma sort_N_strict (l : list N) : NoDup l -> StronglySorted N.lt (sort_by N.leb l).
Proof.
  intros Hnd. assert (StronglySorted N.leb (sort_by N.leb l)) as Hs.
  { apply sort_by_sorted; [intros x y; rewrite !N.leb_le; lia|intros x y z; rewrite !N.leb_le; lia]. }
  rewrite <- (sort_by_Permutation N.leb l) in Hnd. revert Hnd. induction Hs as [|x k _ IH Hx]; intros Hnd; [constructor|].
  apply NoDup_cons in Hnd as [Hnew Hnd]. constructor; [by apply IH|]. rewrite Forall_forall in Hx |- *. intros y Hy.
  specialize (Hx y Hy). apply Is_true_eq_true, N.leb_le in Hx. assert (x <> y) by (intros ->; done). lia.
Qed.

Lemma filter_sorted {A} (R : A -> A -> Prop) (P : A -> Prop) `{!forall x, Decision (P x)} (l : list A) :
  StronglySorted R l -> StronglySorted R (filter P l).
Proof.
  induction 1 as [|x l _ IH Hx]; [constructor|]. rewrite filter_cons. case_decide; [|done].
  constructor; [done|]. by apply Forall_filter_keep.
Qed.
