(* ===== verification/Types.v ===== *)
(** * Shared error type, number formatting and third-party encoders

    Models the part of [types.rs] the lifecycle uses: [VotingError] with its
    [Display] form. The [hex] and [sha2] crates are interfaces. *)

From stdpp Require Export pretty.
From S2P Require Import Prelude.

(** [format!("{n}")] for an unsigned and for a signed integer. *)
Definition decimal (n : N) : text := chars (pretty n).
Definition decimal_Z (z : Z) : text := chars (pretty z).
Definition decimal_nat (n : nat) : text := decimal (N.of_nat n).

(** [VotingError]; [OtherVotingError] stands for the variants the lifecycle only
    displays, by their displayed text. *)
Inductive VotingError : Type :=
| VeInvalidInput (message : text)
| VeStorage (message : text)
| VeInternal (message : text)
| OtherVotingError (displayed : text).

(** [Display for VotingError]. *)
Definition voting_error_text (e : VotingError) : text :=
  match e with
  | VeInvalidInput message => chars "Invalid input: " ++ message
  | VeStorage message => chars "Storage error: " ++ message
  | VeInternal message => chars "Internal error: " ++ message
  | OtherVotingError displayed => displayed
  end.

(** [governance.rs]: one ballot in zatoshi, and the note slots of a bundle. *)
Definition BALLOT_DIVISOR : N := 12500000.
Definition BUNDLE_NOTE_SLOTS : nat := 5.

(** The [hex] crate: decoding inverts encoding. *)
Class HexCrate : Type := {
  hex_encode : bytes -> string;
  hex_decode : text -> option bytes;
  hex_decode_encode : forall b, hex_decode (chars (hex_encode b)) = Some b
}.

Lemma hex_encode_injective `{HexCrate} a b : hex_encode a = hex_encode b -> a = b.
Proof. intros E. pose proof (hex_decode_encode a) as Ha. rewrite E, hex_decode_encode in Ha. congruence. Qed.

(** The [sha2] crate. *)
Class Sha256Crate : Type := { sha256 : bytes -> bytes32 }.

(** [u32::try_from] and [u64::try_from] on an [i64]. *)
Definition u32_try_from (z : Z) : option N :=
  if bool_decide (0 <= z <= 4294967295)%Z then Some (Z.to_N z) else None.
Definition u64_try_from (z : Z) : option N :=
  if bool_decide (0 <= z)%Z then Some (Z.to_N z) else None.
