(* ===== verification/Diagnostics.v ===== *)
(** * Lifecycle vocabulary: states, diagnostics, confirmations, failures

    Models [chain_submission/result.rs]: the durable state labels, the bounded
    redacted diagnostic text, the terminal confirmation value with its SQLite
    range check, and the failure type every lifecycle operation returns.

    Constructors that Rust distinguishes by their enum carry a prefix here:
    [Durable*] for [ChainSubmissionState], [Pending*] for
    [ChainSubmissionPending] and [Result*] for [ChainSubmissionResult]. *)

From S2P Require Import Prelude.

Definition MAX_CHAIN_SUBMISSION_DIAGNOSTIC_BYTES : nat := 512.

Inductive ChainSubmissionState : Type :=
| DurableSubmitting
| DurableTracking
| DurableRecovering
| DurableSubmittedWithoutHash
| DurableConfirmed
| DurableRejected.

Inductive ChainSubmissionDiagnosticKind : Type :=
| AmbiguousDispatch
| AmbiguousAttemptsExhausted
| NullifierAlreadySpent
| TrackingWindowExpired
| ChainRejected
| ReconciliationPending
| InvalidProtocolResponse
| StorageFailure
| EndpointUnsupported
| RouteAnswerReplaced.

#[export] Instance ChainSubmissionState_eq_dec : EqDecision ChainSubmissionState.
Proof. solve_decision. Defined.
#[export] Instance ChainSubmissionDiagnosticKind_eq_dec : EqDecision ChainSubmissionDiagnosticKind.
Proof. solve_decision. Defined.

(** [ChainSubmissionDiagnosticKind::as_str]. *)
Definition as_str (k : ChainSubmissionDiagnosticKind) : string :=
  match k with
  | AmbiguousDispatch => "ambiguous_dispatch"
  | AmbiguousAttemptsExhausted => "ambiguous_attempts_exhausted"
  | NullifierAlreadySpent => "nullifier_already_spent"
  | TrackingWindowExpired => "tracking_window_expired"
  | ChainRejected => "chain_rejected"
  | ReconciliationPending => "reconciliation_pending"
  | InvalidProtocolResponse => "invalid_protocol_response"
  | StorageFailure => "storage_failure"
  | EndpointUnsupported => "endpoint_unsupported"
  | RouteAnswerReplaced => "route_answer_replaced"
  end.

(** [ChainSubmissionDiagnosticKind::from_stable_name]. *)
Definition from_stable_name (value : string) : option ChainSubmissionDiagnosticKind :=
  if String.eqb value "ambiguous_dispatch" then Some AmbiguousDispatch
  else if String.eqb value "ambiguous_attempts_exhausted" then Some AmbiguousAttemptsExhausted
  else if String.eqb value "nullifier_already_spent" then Some NullifierAlreadySpent
  else if String.eqb value "tracking_window_expired" then Some TrackingWindowExpired
  else if String.eqb value "chain_rejected" then Some ChainRejected
  else if String.eqb value "reconciliation_pending" then Some ReconciliationPending
  else if String.eqb value "invalid_protocol_response" then Some InvalidProtocolResponse
  else if String.eqb value "storage_failure" then Some StorageFailure
  else if String.eqb value "endpoint_unsupported" then Some EndpointUnsupported
  else if String.eqb value "route_answer_replaced" then Some RouteAnswerReplaced
  else None.

Lemma from_stable_name_as_str k : from_stable_name (as_str k) = Some k.
Proof. by destruct k. Qed.

(** ** Bounded redacted text *)

(** Lowercase hexadecimal digits of a scalar value, most significant first,
    without leading zeros; [fuel] bounds the digit count. *)
Fixpoint hex_digits (fuel : nat) (n : N) (acc : text) : text :=
  match fuel with
  | O => acc
  | S fuel' =>
      let acc' := Ascii.N_of_ascii (hex_digit (n mod 16)) :: acc in
      if bool_decide (n < 16)%N then acc' else hex_digits fuel' (n / 16) acc'
  end.

(** [char::escape_default]: the standard two-character escapes, printable ASCII
    unchanged, and [\u{..}] for everything else. A scalar value has at most six
    hexadecimal digits. *)
Definition escape_default (c : N) : text :=
  if bool_decide (c = 9%N) then chars "\t"
  else if bool_decide (c = 13%N) then chars "\r"
  else if bool_decide (c = 10%N) then chars "\n"
  else if bool_decide (c = 39 \/ c = 34 \/ c = 92)%N then [92%N; c]
  else if bool_decide (32 <= c /\ c <= 126)%N then [c]
  else chars "\u{" ++ hex_digits 6 c [] ++ chars "}".

(** The loop of [bounded_redacted_text]: [used] is [bounded.len()]. Every
    emitted character is ASCII, so its UTF-8 length is one. *)
Fixpoint bounded_redacted_loop (used : nat) (message : text) : text :=
  match message with
  | [] => []
  | c :: rest =>
      let escaped := escape_default c in
      if bool_decide (MAX_CHAIN_SUBMISSION_DIAGNOSTIC_BYTES < used + length escaped)
      then []
      else escaped ++ bounded_redacted_loop (used + length escaped) rest
  end.

Definition bounded_redacted_text (message : text) : text := bounded_redacted_loop 0 message.

Record ChainSubmissionDiagnostic : Type := {
  diagnostic_kind : ChainSubmissionDiagnosticKind;
  diagnostic_message : text
}.

#[export] Instance ChainSubmissionDiagnostic_eq_dec : EqDecision ChainSubmissionDiagnostic.
Proof. solve_decision. Defined.

Definition from_redacted_message (k : ChainSubmissionDiagnosticKind) (message : text) :
  ChainSubmissionDiagnostic :=
  {| diagnostic_kind := k; diagnostic_message := bounded_redacted_text message |}.

(** ** Confirmations *)

Abbreviation CandidateTransactionHash := bytes32.
Abbreviation ChainSubmissionGenerationDigest := bytes32.

Inductive ChainSubmissionConfirmationSource : Type := SourceHash | SourceTree.

Record ChainSubmissionConfirmation : Type := {
  confirmation_source : ChainSubmissionConfirmationSource;
  confirmation_transaction_hash : option CandidateTransactionHash;
  final_van_position : N;
  vote_commitment_positions : list N
}.

(** [ValidatedChainSubmissionConfirmation]. *)
Inductive ValidatedConfirmation : Type :=
| HashConfirmation (c : ChainSubmissionConfirmation)
| TreeConfirmation (c : ChainSubmissionConfirmation).

#[export] Instance ChainSubmissionConfirmationSource_eq_dec :
  EqDecision ChainSubmissionConfirmationSource.
Proof. solve_decision. Defined.
#[export] Instance ChainSubmissionConfirmation_eq_dec : EqDecision ChainSubmissionConfirmation.
Proof. solve_decision. Defined.
#[export] Instance ValidatedConfirmation_eq_dec : EqDecision ValidatedConfirmation.
Proof. solve_decision. Defined.

(** [ValidatedChainSubmissionConfirmation::confirmation] and [into_public]. *)
Definition confirmation_payload (v : ValidatedConfirmation) : ChainSubmissionConfirmation :=
  match v with HashConfirmation c | TreeConfirmation c => c end.

Inductive ChainSubmissionConfirmationError : Type := PositionOutOfRange.

(** The [Display] form of [ChainSubmissionConfirmationError]. *)
Definition confirmation_error_text (e : ChainSubmissionConfirmationError) : text :=
  match e with
  | PositionOutOfRange => chars "chain tree positions must fit SQLite's signed integer range"
  end.

Definition validate_sqlite_positions (van : N) (positions : list N) :
  result ChainSubmissionConfirmationError unit :=
  if bool_decide (i64_max < van)%N || existsb (fun p => bool_decide (i64_max < p)%N) positions
  then Err PositionOutOfRange
  else Ok tt.

Definition confirmation_from_hash (h : CandidateTransactionHash) (van : N) (positions : list N) :
  result ChainSubmissionConfirmationError ValidatedConfirmation :=
  _ ← validate_sqlite_positions van positions;
  Ok (HashConfirmation {| confirmation_source := SourceHash;
                          confirmation_transaction_hash := Some h;
                          final_van_position := van;
                          vote_commitment_positions := positions |}).

Definition confirmation_from_tree (van : N) (positions : list N) :
  result ChainSubmissionConfirmationError ValidatedConfirmation :=
  _ ← validate_sqlite_positions van positions;
  Ok (TreeConfirmation {| confirmation_source := SourceTree;
                          confirmation_transaction_hash := None;
                          final_van_position := van;
                          vote_commitment_positions := positions |}).

(** ** Results and failures *)

Inductive ChainSubmissionPending : Type :=
| PendingTracking (candidate : CandidateTransactionHash)
| PendingRecovering (candidate : option CandidateTransactionHash)
    (diagnostic : ChainSubmissionDiagnostic).

Inductive ChainSubmissionResult : Type :=
| ResultConfirmed (c : ChainSubmissionConfirmation)
| ResultPending (p : ChainSubmissionPending)
| ResultSubmittedWithoutHash (d : ChainSubmissionDiagnostic)
| ResultRejected (d : ChainSubmissionDiagnostic)
| ResultCancelled.

(** [ChainSubmissionResult::durable_state]. *)
Definition result_durable_state (r : ChainSubmissionResult) : option ChainSubmissionState :=
  match r with
  | ResultConfirmed _ => Some DurableConfirmed
  | ResultPending (PendingTracking _) => Some DurableTracking
  | ResultPending (PendingRecovering _ _) => Some DurableRecovering
  | ResultSubmittedWithoutHash _ => Some DurableSubmittedWithoutHash
  | ResultRejected _ => Some DurableRejected
  | ResultCancelled => None
  end.

Inductive ChainSubmissionFailureKind : Type :=
| InvalidInput
| InvariantViolation
| Storage
| Transport
| Protocol.

Inductive ChainSubmissionStateEvidence : Type :=
| EvidenceDurable
| KnownPossiblyDispatched.

Record ChainSubmissionFailureState : Type := {
  failure_state : ChainSubmissionState;
  failure_evidence : ChainSubmissionStateEvidence
}.

Record ChainSubmissionFailure : Type := {
  failure_kind : ChainSubmissionFailureKind;
  strongest_state : option ChainSubmissionFailureState;
  failure_message : text
}.

Definition without_state (k : ChainSubmissionFailureKind) (message : text) :
  ChainSubmissionFailure :=
  {| failure_kind := k; strongest_state := None;
     failure_message := bounded_redacted_text message |}.

Definition with_durable_state (k : ChainSubmissionFailureKind) (s : ChainSubmissionState)
  (message : text) : ChainSubmissionFailure :=
  {| failure_kind := k;
     strongest_state := Some {| failure_state := s; failure_evidence := EvidenceDurable |};
     failure_message := bounded_redacted_text message |}.

Definition with_known_possible_dispatch (k : ChainSubmissionFailureKind) (message : text) :
  ChainSubmissionFailure :=
  {| failure_kind := k;
     strongest_state := Some {| failure_state := DurableRecovering;
                                failure_evidence := KnownPossiblyDispatched |};
     failure_message := bounded_redacted_text message |}.

(** ** The redaction bound *)

Definition printable (c : N) : Prop := (32 <= c <= 126)%N.

#[export] Instance printable_dec c : Decision (printable c).
Proof. unfold printable. apply _. Defined.

(** Characters [escape_default] leaves alone. *)
Definition stable_char (c : N) : Prop := printable c /\ c <> 39%N /\ c <> 34%N /\ c <> 92%N.

#[export] Instance stable_char_dec c : Decision (stable_char c).
Proof. unfold stable_char, printable. apply _. Defined.

(** How many characters of a text [escape_default] lengthens. *)
Definition escaped_count (t : text) : nat := length (filter (fun c => ~ stable_char c) t).

Lemma hex_digit_printable n : (n < 16)%N -> printable (Ascii.N_of_ascii (hex_digit n)).
Proof.
  intros Hn. unfold hex_digit, printable.
  case_bool_decide; rewrite Ascii.N_ascii_embedding by lia; lia.
Qed.

Lemma hex_digits_printable fuel n acc :
  Forall printable acc -> Forall printable (hex_digits fuel n acc).
Proof.
  revert n acc. induction fuel as [|fuel IH]; intros n acc Hacc; cbn; [done|].
  assert (Forall printable (Ascii.N_of_ascii (hex_digit (n mod 16)) :: acc)) as Hcons.
  { constructor; [|done]. by apply hex_digit_printable, N.mod_lt. }
  case_bool_decide; auto.
Qed.

Lemma escape_default_printable c : Forall printable (escape_default c).
Proof.
  unfold escape_default.
  repeat case_bool_decide.
  1-3: apply (bool_decide_unpack _); vm_compute; exact I.
  - repeat apply Forall_cons_2; [unfold printable; lia.. | done].
  - repeat apply Forall_cons_2; [unfold printable; lia | done].
  - apply Forall_app_2; [apply (bool_decide_unpack _); vm_compute; exact I|].
    apply Forall_app_2; [by apply hex_digits_printable|].
    apply (bool_decide_unpack _); vm_compute; exact I.
Qed.

Lemma escape_default_stable c : stable_char c -> escape_default c = [c].
Proof.
  unfold stable_char, printable, escape_default. intros Hc.
  repeat case_bool_decide; try done; lia.
Qed.

Lemma escape_default_unstable c : printable c -> ~ stable_char c -> escape_default c = [92%N; c].
Proof.
  unfold stable_char, printable, escape_default. intros Hc Hn.
  repeat case_bool_decide; try done; lia.
Qed.

Lemma length_bounded_redacted_loop used m :
  used <= MAX_CHAIN_SUBMISSION_DIAGNOSTIC_BYTES ->
  used + length (bounded_redacted_loop used m) <= MAX_CHAIN_SUBMISSION_DIAGNOSTIC_BYTES.
Proof.
  revert used. induction m as [|c m IH]; intros used Hused; cbn [bounded_redacted_loop].
  - cbn. lia.
  - case_bool_decide as Hfit; [cbn; lia|].
    rewrite length_app. specialize (IH (used + length (escape_default c))). lia.
Qed.

Lemma bounded_redacted_loop_printable used m : Forall printable (bounded_redacted_loop used m).
Proof.
  revert used. induction m as [|c m IH]; intros used; cbn [bounded_redacted_loop]; [done|].
  case_bool_decide; [done|]. apply Forall_app_2; [apply escape_default_printable | apply IH].
Qed.

Lemma length_bounded_redacted_text m :
  length (bounded_redacted_text m) <= MAX_CHAIN_SUBMISSION_DIAGNOSTIC_BYTES.
Proof. apply (length_bounded_redacted_loop 0 m). unfold MAX_CHAIN_SUBMISSION_DIAGNOSTIC_BYTES. lia. Qed.

Lemma bounded_redacted_loop_stable used m :
  Forall stable_char m -> used + length m <= MAX_CHAIN_SUBMISSION_DIAGNOSTIC_BYTES ->
  bounded_redacted_loop used m = m.
Proof.
  intros Hm. revert used. induction Hm as [|c m Hc Hm IH]; intros used Hlen; cbn [bounded_redacted_loop]; [done|].
  rewrite escape_default_stable by done. cbn in *.
  rewrite bool_decide_false by lia. by rewrite IH by lia.
Qed.

Lemma bounded_redacted_loop_length_fit used m :
  Forall printable m ->
  used + length m + escaped_count m <= MAX_CHAIN_SUBMISSION_DIAGNOSTIC_BYTES ->
  length (bounded_redacted_loop used m) = length m + escaped_count m.
Proof.
  intros Hm. revert used. induction Hm as [|c m Hc Hm IH]; intros used Hlen; cbn [bounded_redacted_loop]; [done|].
  unfold escaped_count in *. rewrite filter_cons in Hlen |- *.
  destruct (decide (stable_char c)) as [Hs|Hs].
  - rewrite decide_False in Hlen |- * by tauto. rewrite escape_default_stable by done. cbn in *.
    rewrite bool_decide_false by lia. cbn. rewrite IH; lia.
  - rewrite decide_True in Hlen |- * by done. rewrite escape_default_unstable by done. cbn in *.
    rewrite bool_decide_false by lia. cbn. rewrite IH; lia.
Qed.

(** A diagnostic message that survives re-redaction unchanged. *)
Definition stable_text (t : text) : Prop :=
  Forall stable_char t /\ length t <= MAX_CHAIN_SUBMISSION_DIAGNOSTIC_BYTES.

Lemma bounded_redacted_text_stable t : stable_text t -> bounded_redacted_text t = t.
Proof. intros [Ht Hlen]. by apply bounded_redacted_loop_stable. Qed.

Definition stable_diagnostic (d : ChainSubmissionDiagnostic) : Prop :=
  stable_text (diagnostic_message d).

Lemma from_redacted_message_stable d :
  stable_diagnostic d -> from_redacted_message (diagnostic_kind d) (diagnostic_message d) = d.
Proof.
  intros Hd. unfold from_redacted_message. rewrite bounded_redacted_text_stable by done.
  by destruct d.
Qed.

Lemma validate_sqlite_positions_Ok van positions u :
  validate_sqlite_positions van positions = Ok u <->
  (van <= i64_max)%N /\ Forall (fun p => (p <= i64_max)%N) positions.
Proof.
  unfold validate_sqlite_positions. destruct u.
  case_bool_decide as Hvan; cbn; [split; [done | intros []; lia]|].
  destruct (existsb _ positions) eqn:He.
  - split; [done|]. intros [_ Hall].
    apply existsb_elem_of in He as (p & Hp & Hlt%bool_decide_eq_true).
    rewrite Forall_forall in Hall. apply Hall in Hp. lia.
  - split; [intros _ | done]. split; [lia|]. apply Forall_forall. intros p Hp.
    rewrite existsb_false in He. apply He, bool_decide_eq_false in Hp. lia.
Qed.
