(* ===== verification/SubmissionState.v ===== *)
(** * The chain-submission state machine

    Models [chain_submission/state.rs]: the typed state of one semantic
    generation, the observations the coordinator classifies, and the pure
    transition function both stores apply. [None] is an absent row. *)

From S2P Require Import Prelude Diagnostics.

(** ** States *)

Inductive SubmissionRecordState : Type :=
| Submitting
| Tracking (candidate_transaction_hash : CandidateTransactionHash)
| Recovering (candidate_transaction_hash : option CandidateTransactionHash)
    (ambiguity_diagnostic : ChainSubmissionDiagnostic)
| SubmittedWithoutHash (d : ChainSubmissionDiagnostic)
| Confirmed (v : ValidatedConfirmation)
| Rejected (d : ChainSubmissionDiagnostic).

#[export] Instance SubmissionRecordState_eq_dec : EqDecision SubmissionRecordState.
Proof. solve_decision. Defined.

Definition permits_ambiguous_retry (s : SubmissionRecordState) : bool :=
  match s with
  | Recovering None d =>
      match diagnostic_kind d with
      | AmbiguousDispatch | InvalidProtocolResponse
      | EndpointUnsupported | RouteAnswerReplaced => true
      | _ => false
      end
  | _ => false
  end.

Definition has_unresolved_dispatch (s : SubmissionRecordState) : bool :=
  match s with
  | Recovering _ d =>
      match diagnostic_kind d with
      | AmbiguousDispatch | InvalidProtocolResponse
      | EndpointUnsupported | RouteAnswerReplaced | TrackingWindowExpired => true
      | _ => false
      end
  | _ => false
  end.

Definition durable_state (s : SubmissionRecordState) : ChainSubmissionState :=
  match s with
  | Submitting => DurableSubmitting
  | Tracking _ => DurableTracking
  | Recovering _ _ => DurableRecovering
  | SubmittedWithoutHash _ => DurableSubmittedWithoutHash
  | Confirmed _ => DurableConfirmed
  | Rejected _ => DurableRejected
  end.

(** ** Observations *)

Inductive SubmissionObservation : Type :=
| ObsReserveFreshSubmission
| ObsDefinitelyUnsent
| ObsUsableCandidateHash (h : CandidateTransactionHash)
| ObsPossiblyDispatched (d : ChainSubmissionDiagnostic)
| ObsDefiniteRejection (d : ChainSubmissionDiagnostic)
| ObsTerminalRejection (d : ChainSubmissionDiagnostic)
| ObsSubmittedWithoutHash (d : ChainSubmissionDiagnostic)
| ObsCandidatePending
| ObsTrackingWindowExpired (d : ChainSubmissionDiagnostic)
| ObsCandidateCommittedFailure (d : ChainSubmissionDiagnostic)
| ObsTerminalCandidateFailure (d : ChainSubmissionDiagnostic)
| ObsConfirmed (v : ValidatedConfirmation)
| ObsContinueRecovery
| ObsAbandonedSubmitting (d : ChainSubmissionDiagnostic).

(** [SubmissionObservation::name]. *)
Definition observation_name (o : SubmissionObservation) : string :=
  match o with
  | ObsReserveFreshSubmission => "reserve_fresh_submission"
  | ObsDefinitelyUnsent => "definitely_unsent"
  | ObsUsableCandidateHash _ => "usable_candidate_hash"
  | ObsPossiblyDispatched _ => "possibly_dispatched"
  | ObsDefiniteRejection _ => "definite_rejection"
  | ObsTerminalRejection _ => "terminal_rejection"
  | ObsSubmittedWithoutHash _ => "submitted_without_hash"
  | ObsCandidatePending => "candidate_pending"
  | ObsTrackingWindowExpired _ => "tracking_window_expired"
  | ObsCandidateCommittedFailure _ => "candidate_committed_failure"
  | ObsTerminalCandidateFailure _ => "terminal_candidate_failure"
  | ObsConfirmed _ => "confirmed"
  | ObsContinueRecovery => "continue_recovery"
  | ObsAbandonedSubmitting _ => "abandoned_submitting"
  end.

Inductive SubmissionTransitionError : Type :=
| IllegalTransition (from : option ChainSubmissionState) (observation : string)
| ConflictingCandidateHash
| ConfirmationDoesNotMatchCandidate
| ConflictingConfirmation.

(** The [Debug] form of [Option<ChainSubmissionState>]. *)
Definition debug_state (s : option ChainSubmissionState) : string :=
  match s with
  | None => "None"
  | Some DurableSubmitting => "Some(Submitting)"
  | Some DurableTracking => "Some(Tracking)"
  | Some DurableRecovering => "Some(Recovering)"
  | Some DurableSubmittedWithoutHash => "Some(SubmittedWithoutHash)"
  | Some DurableConfirmed => "Some(Confirmed)"
  | Some DurableRejected => "Some(Rejected)"
  end.

(** The [Display] form of [SubmissionTransitionError]. *)
Definition transition_error_text (e : SubmissionTransitionError) : text :=
  match e with
  | IllegalTransition from observation =>
      chars "illegal chain submission transition from " ++ chars (debug_state from)
        ++ chars " after " ++ chars observation
  | ConflictingCandidateHash =>
      chars "candidate transaction hash conflicts with the durable candidate"
  | ConfirmationDoesNotMatchCandidate =>
      chars "hash confirmation does not match the durable candidate transaction"
  | ConflictingConfirmation =>
      chars "terminal confirmation conflicts with the durable confirmation"
  end.

(** ** Transitions *)

Definition require_hash_confirmation_for_candidate (v : ValidatedConfirmation)
  (candidate : CandidateTransactionHash) : result SubmissionTransitionError unit :=
  match v with
  | HashConfirmation c =>
      if bool_decide (confirmation_transaction_hash c = Some candidate)
      then Ok tt else Err ConfirmationDoesNotMatchCandidate
  | TreeConfirmation _ => Err ConfirmationDoesNotMatchCandidate
  end.

Definition require_valid_recovery_confirmation (v : ValidatedConfirmation)
  (candidate : option CandidateTransactionHash) : result SubmissionTransitionError unit :=
  match v with
  | HashConfirmation _ =>
      match candidate with
      | None => Err ConfirmationDoesNotMatchCandidate
      | Some candidate => require_hash_confirmation_for_candidate v candidate
      end
  | TreeConfirmation _ => Ok tt
  end.

Definition apply_submission_observation
  (current : option SubmissionRecordState) (observation : SubmissionObservation) :
  result SubmissionTransitionError (option SubmissionRecordState) :=
  match current, observation with
  | None, ObsReserveFreshSubmission => Ok (Some Submitting)

  | Some Submitting, ObsDefinitelyUnsent => Ok None
  | Some Submitting, ObsUsableCandidateHash candidate => Ok (Some (Tracking candidate))
  | Some Submitting, ObsPossiblyDispatched diagnostic
  | Some Submitting, ObsAbandonedSubmitting diagnostic
  | Some Submitting, ObsDefiniteRejection diagnostic => Ok (Some (Recovering None diagnostic))
  | Some Submitting, ObsTerminalRejection diagnostic => Ok (Some (Rejected diagnostic))
  | Some Submitting, ObsSubmittedWithoutHash diagnostic
  | Some (Recovering _ _), ObsSubmittedWithoutHash diagnostic =>
      Ok (Some (SubmittedWithoutHash diagnostic))

  | Some (Tracking _ as state), ObsCandidatePending => Ok (Some state)
  | Some (Tracking candidate), ObsTrackingWindowExpired diagnostic =>
      Ok (Some (Recovering (Some candidate) diagnostic))
  | Some (Tracking _), ObsCandidateCommittedFailure diagnostic =>
      Ok (Some (Recovering None diagnostic))
  | Some (Tracking _), ObsTerminalCandidateFailure diagnostic
  | Some (Recovering _ _), ObsTerminalCandidateFailure diagnostic =>
      Ok (Some (Rejected diagnostic))
  | Some (Tracking candidate), ObsConfirmed confirmation =>
      _ ← require_hash_confirmation_for_candidate confirmation candidate;
      Ok (Some (Confirmed confirmation))

  | Some (Recovering None _), ObsUsableCandidateHash candidate => Ok (Some (Tracking candidate))
  | Some (Recovering (Some existing) d), ObsUsableCandidateHash candidate =>
      if bool_decide (existing = candidate)
      then Ok (Some (Recovering (Some existing) d))
      else Err ConflictingCandidateHash
  | Some (Recovering None _), ObsPossiblyDispatched diagnostic =>
      Ok (Some (Recovering None diagnostic))
  | Some (Recovering _ _ as state), ObsContinueRecovery
  | Some (Recovering _ _ as state), ObsPossiblyDispatched _
  | Some (Recovering _ _ as state), ObsDefiniteRejection _
  | Some (Recovering _ _ as state), ObsDefinitelyUnsent => Ok (Some state)
  | Some (Recovering (Some _) _ as state), ObsCandidatePending => Ok (Some state)
  | Some (Recovering (Some _) _), ObsCandidateCommittedFailure diagnostic =>
      Ok (Some (Recovering None diagnostic))
  | Some (Recovering candidate _), ObsConfirmed confirmation =>
      _ ← require_valid_recovery_confirmation confirmation candidate;
      Ok (Some (Confirmed confirmation))

  | Some (Confirmed existing), ObsConfirmed replayed =>
      if bool_decide (existing = replayed)
      then Ok (Some (Confirmed existing))
      else Err ConflictingConfirmation
  | _, _ => Err (IllegalTransition (durable_state <$> current) (observation_name observation))
  end.

(** A sequence of observations applied to one row, oldest first. *)
Fixpoint apply_observations (current : option SubmissionRecordState)
  (observations : list SubmissionObservation) :
  result SubmissionTransitionError (option SubmissionRecordState) :=
  match observations with
  | [] => Ok current
  | o :: rest => next ← apply_submission_observation current o; apply_observations next rest
  end.

(** ** Provenance predicates *)

(** States no chain observation leaves. *)
Definition terminal_state (s : SubmissionRecordState) : bool :=
  match s with
  | SubmittedWithoutHash _ | Confirmed _ | Rejected _ => true
  | _ => false
  end.

(** The observation carries the diagnostic kind its variant stands for: the
    kinds the coordinator and the stores attach when they classify. *)
Definition dispatch_evidence_kind (k : ChainSubmissionDiagnosticKind) : bool :=
  match k with
  | AmbiguousDispatch | InvalidProtocolResponse | EndpointUnsupported | RouteAnswerReplaced => true
  | _ => false
  end.

Definition well_classified (o : SubmissionObservation) : bool :=
  match o with
  | ObsPossiblyDispatched d | ObsAbandonedSubmitting d => dispatch_evidence_kind (diagnostic_kind d)
  | ObsDefiniteRejection d | ObsTerminalRejection d | ObsCandidateCommittedFailure d
  | ObsTerminalCandidateFailure d => bool_decide (diagnostic_kind d = ChainRejected)
  | ObsTrackingWindowExpired d => bool_decide (diagnostic_kind d = TrackingWindowExpired)
  | ObsSubmittedWithoutHash d => bool_decide (diagnostic_kind d = NullifierAlreadySpent)
  | _ => true
  end.

(** Observations that resolve what an unresolved dispatch became. *)
Definition resolves_dispatch (o : SubmissionObservation) : bool :=
  match o with
  | ObsUsableCandidateHash _ | ObsConfirmed _ | ObsSubmittedWithoutHash _
  | ObsCandidateCommittedFailure _ | ObsTerminalCandidateFailure _ => true
  | _ => false
  end.

(** What a hash in the row proves about the observations that led to it. *)
Definition hash_was_observed (os : list SubmissionObservation) (h : CandidateTransactionHash) : Prop :=
  ObsUsableCandidateHash h ∈ os.

Definition hashes_observed (os : list SubmissionObservation) (s : option SubmissionRecordState) : Prop :=
  match s with
  | Some (Tracking h) | Some (Recovering (Some h) _) => hash_was_observed os h
  | Some (Confirmed (HashConfirmation c)) =>
      exists h, confirmation_transaction_hash c = Some h /\ hash_was_observed os h
  | _ => True
  end.

(** ** Lemmas on one transition *)

(** Case analysis over the whole transition table. *)
Ltac transition_cases :=
  repeat match goal with
  | s : option SubmissionRecordState |- _ => destruct s as [s|]
  | s : SubmissionRecordState |- _ => destruct s as [|?|oc ?|?|?|?]
  | oc : option CandidateTransactionHash |- _ => destruct oc as [?|]
  | o : SubmissionObservation |- _ => destruct o
  | H : apply_submission_observation _ _ = _ |- _ => cbn in H
  end.

Lemma require_hash_confirmation_Ok v h u :
  require_hash_confirmation_for_candidate v h = Ok u <->
  exists c, v = HashConfirmation c /\ confirmation_transaction_hash c = Some h.
Proof.
  destruct u, v as [c|c]; cbn.
  - case_bool_decide; split; naive_solver.
  - split; [done | intros (? & [=] & _)].
Qed.

Lemma require_valid_recovery_Ok v oc u :
  require_valid_recovery_confirmation v oc = Ok u <->
  (exists c, v = TreeConfirmation c) \/
  (exists c h, v = HashConfirmation c /\ oc = Some h /\ confirmation_transaction_hash c = Some h).
Proof.
  destruct u, v as [c|c]; cbn.
  - destruct oc as [h|].
    + rewrite (require_hash_confirmation_Ok (HashConfirmation c) h tt). naive_solver.
    + split; [done|]. intros [(?&[=]) | (?&?&?&[=]&?)].
  - split; [eauto | done].
Qed.

Lemma apply_observations_snoc current os o final :
  apply_observations current (os ++ [o]) = Ok final <->
  exists mid, apply_observations current os = Ok mid /\ apply_submission_observation mid o = Ok final.
Proof.
  revert current. induction os as [|o' os IH]; intros current; cbn [app apply_observations].
  - rewrite result_bind_Ok. cbn. naive_solver.
  - rewrite !result_bind_Ok. setoid_rewrite IH. setoid_rewrite result_bind_Ok. naive_solver.
Qed.

(** Forward reasoning over a whole observation history. *)
Lemma apply_observations_ind (P : list SubmissionObservation -> option SubmissionRecordState -> Prop) start :
  P [] start ->
  (forall os o mid final, apply_observations start os = Ok mid -> P os mid ->
     apply_submission_observation mid o = Ok final -> P (os ++ [o]) final) ->
  forall os final, apply_observations start os = Ok final -> P os final.
Proof.
  intros Hnil Hstep os. induction os as [|o os IH] using rev_ind; intros final Hrun.
  - cbn in Hrun. by injection Hrun as <-.
  - apply apply_observations_snoc in Hrun as (mid & Hmid & Hlast). eauto.
Qed.

Lemma hashes_observed_step os o mid final :
  hashes_observed os mid -> apply_submission_observation mid o = Ok final ->
  hashes_observed (os ++ [o]) final.
Proof.
  unfold hashes_observed, hash_was_observed. intros Hmid Hstep.
  transition_cases; inv_ok; try case_bool_decide; inv_ok; try done; try set_solver.
  all: lazymatch goal with
    | H : require_hash_confirmation_for_candidate _ _ = _ |- _ =>
        apply require_hash_confirmation_Ok in H as (c & -> & Hc)
    | H : require_valid_recovery_confirmation _ _ = _ |- _ =>
        apply require_valid_recovery_Ok in H as [(c & ->) | (c & h' & -> & [= <-] & Hc)]
    | v : ValidatedConfirmation |- _ => destruct v
    end; set_solver.
Qed.

(** ** Correctness of the state machine *)

(** Hash confirmations are earned. Whatever sequence of observations a fresh
    row goes through, a row confirmed by transaction hash names a hash that
    one of the row's own POSTs returned as its candidate. *)
Theorem hash_confirmation_provenance os c :
  apply_observations None os = Ok (Some (Confirmed (HashConfirmation c))) ->
  exists h, confirmation_transaction_hash c = Some h /\ hash_was_observed os h.
Proof.
  intros Hrun.
  apply (apply_observations_ind hashes_observed None) in Hrun; [done..|].
  intros os' o mid final _. apply hashes_observed_step.
Qed.

(** A row is terminally [Rejected] only on definite evidence: either its very
    first POST was answered by a terminal rejection, directly after the
    reservation and before any attempt was possibly dispatched, or a candidate
    it had submitted failed terminally. *)
Theorem rejection_provenance os o d :
  apply_observations None (os ++ [o]) = Ok (Some (Rejected d)) ->
  (o = ObsTerminalRejection d /\ exists before, os = before ++ [ObsReserveFreshSubmission]) \/
  o = ObsTerminalCandidateFailure d.
Proof.
  intros (mid & Hmid & Hlast)%apply_observations_snoc.
  transition_cases; try case_bool_decide; inv_ok; try naive_solver.
  left. split; [done|].
  destruct os as [|o' os _] using rev_ind; [discriminate Hmid|].
  apply apply_observations_snoc in Hmid as (first & _ & Hreserve).
  exists os. f_equal. f_equal. transition_cases; try case_bool_decide; inv_ok; done.
Qed.

(** Terminal states absorb: the only observation a terminal row accepts leaves
    it exactly as it is, so no chain answer can reopen or rewrite it. *)
Theorem terminal_states_absorb s o next :
  terminal_state s = true ->
  apply_submission_observation (Some s) o = Ok next ->
  next = Some s /\ exists v, s = Confirmed v /\ o = ObsConfirmed v.
Proof.
  intros Hs Hstep. transition_cases; try discriminate; try case_bool_decide; inv_ok; naive_solver.
Qed.

Lemma unresolved_dispatch_step s o next :
  well_classified o = true -> has_unresolved_dispatch s = true -> resolves_dispatch o = false ->
  apply_submission_observation (Some s) o = Ok next ->
  exists s', next = Some s' /\ has_unresolved_dispatch s' = true.
Proof.
  intros Ho Hs Hr Hstep. transition_cases; try discriminate; inv_ok; eauto.
  all: eexists; split; [done|]; cbn in *; by repeat case_match.
Qed.

(** C20. Dispatch ambiguity is never forgotten. Starting from a row whose POST may
    have landed with an unknown outcome, a history of correctly classified
    observations that leaves the row without that evidence (or without a row)
    contains an observation that settles the dispatch: a usable hash, a
    confirmation, a code-2 answer, or a failure of the submitted candidate. *)
Theorem dispatch_ambiguity_persists s os final :
  has_unresolved_dispatch s = true ->
  Forall (fun o => well_classified o = true) os ->
  apply_observations (Some s) os = Ok final ->
  (forall s', final = Some s' -> has_unresolved_dispatch s' = false) ->
  Exists (fun o => resolves_dispatch o = true) os.
Proof.
  intros Hs Hos. revert s Hs. induction Hos as [|o os Ho Hos IH]; intros s Hs Hrun Hfinal; cbn in Hrun.
  - inv_ok. specialize (Hfinal s eq_refl). congruence.
  - destruct (resolves_dispatch o) eqn:Hr; [by left|]. right.
    apply result_bind_Ok in Hrun as (next & Hstep & Hrun).
    destruct (unresolved_dispatch_step s o next) as (s' & -> & Hs'); eauto.
Qed.

(** ** Witnesses *)

Definition sample_hash : CandidateTransactionHash := bytes32_fill Byte.x01.
Definition sample_confirmation : ChainSubmissionConfirmation :=
  {| confirmation_source := SourceHash; confirmation_transaction_hash := Some sample_hash;
     final_van_position := 7; vote_commitment_positions := [] |}.
Definition sample_diagnostic (k : ChainSubmissionDiagnosticKind) : ChainSubmissionDiagnostic :=
  from_redacted_message k (chars "sample").

(** An ambiguous first POST, a retry that returns a hash, an expired tracking
    window, and a late confirmation by that hash. *)
Definition sample_history : list SubmissionObservation :=
  [ObsReserveFreshSubmission; ObsPossiblyDispatched (sample_diagnostic AmbiguousDispatch);
   ObsUsableCandidateHash sample_hash; ObsCandidatePending;
   ObsTrackingWindowExpired (sample_diagnostic TrackingWindowExpired);
   ObsConfirmed (HashConfirmation sample_confirmation)].

Lemma hash_confirmation_provenance_witness :
  exists h, confirmation_transaction_hash sample_confirmation = Some h /\
    hash_was_observed sample_history h.
Proof. apply (hash_confirmation_provenance sample_history sample_confirmation). vm_compute. reflexivity. Defined.

Lemma rejection_provenance_witness :
  let d := sample_diagnostic ChainRejected in
  (ObsTerminalRejection d = ObsTerminalRejection d /\
   exists before, [ObsReserveFreshSubmission; ObsDefinitelyUnsent; ObsReserveFreshSubmission]
     = before ++ [ObsReserveFreshSubmission]) \/
  ObsTerminalRejection d = ObsTerminalCandidateFailure d.
Proof.
  apply (rejection_provenance
    [ObsReserveFreshSubmission; ObsDefinitelyUnsent; ObsReserveFreshSubmission]
    (ObsTerminalRejection (sample_diagnostic ChainRejected)) (sample_diagnostic ChainRejected)).
  vm_compute. reflexivity.
Defined.

Lemma terminal_states_absorb_witness :
  let v := HashConfirmation sample_confirmation in
  Some (Confirmed v) = Some (Confirmed v) /\
  exists v', Confirmed v = Confirmed v' /\ ObsConfirmed v = ObsConfirmed v'.
Proof.
  apply (terminal_states_absorb (Confirmed (HashConfirmation sample_confirmation))
    (ObsConfirmed (HashConfirmation sample_confirmation))
    (Some (Confirmed (HashConfirmation sample_confirmation)))); vm_compute; reflexivity.
Defined.

Lemma dispatch_ambiguity_persists_witness :
  Exists (fun o => resolves_dispatch o = true) (drop 2 sample_history).
Proof.
  apply (dispatch_ambiguity_persists (Recovering None (sample_diagnostic AmbiguousDispatch))
    (drop 2 sample_history) (Some (Confirmed (HashConfirmation sample_confirmation)))).
  - vm_compute. reflexivity.
  - repeat constructor.
  - vm_compute. reflexivity.
  - intros s' [= <-]. reflexivity.
Defined.
