(* ===== verification/Identity.v ===== *)
(** * Submission identities and their durable key

    Models [chain_submission/identity.rs]: the target and identity of a
    submission, identity validation, the primary key every store uses, and the
    semantic generation. The canonicality test of [pallas::Base::from_repr]
    belongs to the [pasta_curves] crate and is an argument. *)

From S2P Require Import Prelude.

Definition MIN_PROPOSAL_ID : N := 1.
Definition MAX_PROPOSAL_ID : N := 50.

Inductive Network : Type := Testnet | Mainnet | Regtest.

#[export] Instance Network_eq_dec : EqDecision Network.
Proof. solve_decision. Defined.

Inductive ChainSubmissionTarget : Type :=
| TargetDelegation
| TargetVote (proposal_id : N)
| TargetVoteBatch (ordered_batch_digest : bytes32)
| TargetDelegateAndVoteBatch (ordered_batch_digest : bytes32).

#[export] Instance ChainSubmissionTarget_eq_dec : EqDecision ChainSubmissionTarget.
Proof. solve_decision. Defined.

Definition batch_digest (t : ChainSubmissionTarget) : option bytes32 :=
  match t with
  | TargetVoteBatch digest | TargetDelegateAndVoteBatch digest => Some digest
  | _ => None
  end.

Definition is_combined (t : ChainSubmissionTarget) : bool :=
  match t with TargetDelegateAndVoteBatch _ => true | _ => false end.

Record ChainSubmissionIdentity : Type := {
  wallet_id : string;
  network : Network;
  vote_round_id : bytes32;
  bundle_index : N;
  target : ChainSubmissionTarget
}.

#[export] Instance ChainSubmissionIdentity_eq_dec : EqDecision ChainSubmissionIdentity.
Proof. solve_decision. Defined.

Inductive ChainSubmissionIdentityError : Type :=
| EmptyWalletId
| InvalidVoteRoundId
| InvalidProposalId (proposal_id : N).

(** [ChainSubmissionIdentity::new]; [canonical] is whether
    [pallas::Base::from_repr] accepts the round id. *)
Definition identity_new (canonical : bytes32 -> bool) (w : string) (n : Network) (r : bytes32)
  (b : N) (t : ChainSubmissionTarget) : result ChainSubmissionIdentityError ChainSubmissionIdentity :=
  _ ← fail_if (bool_decide (w = EmptyString)) EmptyWalletId;
  _ ← fail_if (negb (canonical r)) InvalidVoteRoundId;
  _ ← match t with
      | TargetVote proposal_id =>
          fail_if (negb (bool_decide (MIN_PROPOSAL_ID <= proposal_id <= MAX_PROPOSAL_ID)%N))
            (InvalidProposalId proposal_id)
      | _ => Ok tt
      end;
  Ok {| wallet_id := w; network := n; vote_round_id := r; bundle_index := b; target := t |}.

Definition network_name (n : Network) : string :=
  match n with Mainnet => "mainnet" | Testnet => "testnet" | Regtest => "regtest" end.

(** [b"zcash_voting.chain_submission.identity.v1\0"]. *)
Definition identity_key_domain : bytes :=
  as_bytes "zcash_voting.chain_submission.identity.v1" ++ [Byte.x00].

Definition target_key (t : ChainSubmissionTarget) : bytes :=
  match t with
  | TargetDelegation => [Byte.x00]
  | TargetVote proposal_id => Byte.x01 :: be_bytes 4 proposal_id
  | TargetVoteBatch digest | TargetDelegateAndVoteBatch digest =>
      (if is_combined t then Byte.x03 else Byte.x02) :: bytes32_bytes digest
  end.

Definition submission_identity_key (i : ChainSubmissionIdentity) : bytes :=
  identity_key_domain
    ++ length_prefixed (as_bytes (wallet_id i))
    ++ length_prefixed (as_bytes (network_name (network i)))
    ++ length_prefixed (vote_round_id i)
    ++ be_bytes 4 (bundle_index i)
    ++ target_key (target i).

Record ChainSubmissionGeneration : Type := {
  generation_identity : ChainSubmissionIdentity;
  generation_digest : bytes32
}.

#[export] Instance ChainSubmissionGeneration_eq_dec : EqDecision ChainSubmissionGeneration.
Proof. solve_decision. Defined.

(** ** Machine ranges

    The values a Rust [ChainSubmissionIdentity] can hold: [u32] fields, and a
    wallet id no longer than a Rust string can be. *)

Definition target_in_range (t : ChainSubmissionTarget) : Prop :=
  match t with TargetVote proposal_id => (proposal_id <= u32_max)%N | _ => True end.

Definition identity_in_range (i : ChainSubmissionIdentity) : Prop :=
  sized (as_bytes (wallet_id i)) /\ (bundle_index i <= u32_max)%N /\ target_in_range (target i).

#[export] Instance target_in_range_dec t : Decision (target_in_range t).
Proof. destruct t; apply _. Defined.
#[export] Instance identity_in_range_dec i : Decision (identity_in_range i).
Proof. unfold identity_in_range. apply _. Defined.

(** ** Lemmas *)

Lemma network_name_inj m n : network_name m = network_name n -> m = n.
Proof. by destruct m, n. Qed.

Lemma target_key_inj t u :
  target_in_range t -> target_in_range u -> target_key t = target_key u -> t = u.
Proof.
  destruct t as [|p|d|d], u as [|q|e|e]; cbn [target_key is_combined]; intros Ht Hu H;
    try discriminate H; [done| |..].
  - apply (f_equal tail), be_bytes_inj in H; [by subst | by apply u32_max_pow..].
  - injection H as H. by apply bytes32_eq in H as ->.
  - injection H as H. by apply bytes32_eq in H as ->.
Qed.

Lemma sized_bytes32 (a : bytes32) : sized a.
Proof. unfold sized. rewrite length_bytes32. by vm_compute. Qed.

Lemma sized_network_name n : sized (as_bytes (network_name n)).
Proof. destruct n; by vm_compute. Qed.

#[export] Hint Resolve sized_bytes32 sized_network_name : voting.

Lemma submission_identity_key_inj i j :
  identity_in_range i -> identity_in_range j ->
  submission_identity_key i = submission_identity_key j -> i = j.
Proof.
  intros (Hwi & Hbi & Hti) (Hwj & Hbj & Htj). unfold submission_identity_key.
  intros H%app_inv_head.
  apply length_prefixed_app_inj in H as [Hw H]; [|done..].
  apply length_prefixed_app_inj in H as [Hn H]; [|auto with voting..].
  apply length_prefixed_app_inj in H as [Hr H]; [|auto with voting..].
  apply be_bytes_app_inj in H as [Hb Ht]; [|by apply u32_max_pow..].
  destruct i, j; cbn in *. f_equal; [by apply as_bytes_inj | by apply network_name_inj, as_bytes_inj |
    by apply bytes32_eq | done | by apply target_key_inj].
Qed.

(** ** Identity correctness *)

(** The durable primary key identifies a submission: two in-range identities
    have the same key exactly when every field agrees, so no two submissions
    can collide by moving bytes between the variable-length fields. *)
Theorem submission_identity_key_faithful i j :
  identity_in_range i -> identity_in_range j ->
  submission_identity_key i = submission_identity_key j <-> i = j.
Proof. intros Hi Hj. split; [by apply submission_identity_key_inj | by intros ->]. Qed.

(** Two wallets whose names overlap the network field's bytes. *)
Definition sample_identity (w : string) : ChainSubmissionIdentity :=
  {| wallet_id := w; network := Testnet; vote_round_id := bytes32_fill Byte.x01;
     bundle_index := 3; target := TargetVote 1 |}.

Lemma submission_identity_key_faithful_witness :
  submission_identity_key (sample_identity "wallet") = submission_identity_key (sample_identity "wallettestnet")
  <-> sample_identity "wallet" = sample_identity "wallettestnet".
Proof.
  apply (submission_identity_key_faithful (sample_identity "wallet") (sample_identity "wallettestnet"));
    apply (bool_decide_unpack _); vm_compute; exact I.
Defined.
