(* ===== verification/Coordination.v ===== *)
(** * Process-local coordination

    Models [chain_submission/coordination.rs]: the operation keys, the lock
    acquisition order shared by every lifecycle operation, the non-blocking
    exclusive leases, and the in-flight registry. The lock registries only
    hand out the one lock of a key, so a lock is identified with its key. *)

From stdpp Require Import lexico.
From S2P Require Import Prelude Diagnostics Identity.

(** ** Keys *)

Record RoundOperationKey : Type := {
  round_wallet_id : string;
  round_network : N;
  round_vote_round_id : bytes32
}.

Record BundleOperationKey : Type := {
  bundle_round : RoundOperationKey;
  bundle_bundle_index : N
}.

Record SubmissionOperationKey : Type := {
  operation_bundle : BundleOperationKey;
  target_kind : N;
  target_value : bytes
}.

#[export] Instance RoundOperationKey_eq_dec : EqDecision RoundOperationKey.
Proof. solve_decision. Defined.
#[export] Instance BundleOperationKey_eq_dec : EqDecision BundleOperationKey.
Proof. solve_decision. Defined.
#[export] Instance SubmissionOperationKey_eq_dec : EqDecision SubmissionOperationKey.
Proof. solve_decision. Defined.

#[export] Instance RoundOperationKey_countable : Countable RoundOperationKey.
Proof.
  refine (inj_countable (fun k => (round_wallet_id k, round_network k, bytes32_bytes (round_vote_round_id k)))
    (fun t => r ← try_into_bytes32 t.2; Some {| round_wallet_id := t.1.1; round_network := t.1.2;
                                                round_vote_round_id := r |}) _).
  intros [w n r]; cbn. by rewrite (proj2 (try_into_bytes32_Some r r) eq_refl).
Defined.
#[export] Instance BundleOperationKey_countable : Countable BundleOperationKey.
Proof.
  refine (inj_countable' (fun k => (bundle_round k, bundle_bundle_index k))
    (fun t => {| bundle_round := t.1; bundle_bundle_index := t.2 |}) _).
  by intros [].
Defined.
#[export] Instance SubmissionOperationKey_countable : Countable SubmissionOperationKey.
Proof.
  refine (inj_countable' (fun k => (operation_bundle k, target_kind k, target_value k))
    (fun t => {| operation_bundle := t.1.1; target_kind := t.1.2; target_value := t.2 |}) _).
  by intros [].
Defined.

Definition network_rank (n : Network) : N :=
  match n with Mainnet => 0 | Testnet => 1 | Regtest => 2 end.

Definition round_key (i : ChainSubmissionIdentity) : RoundOperationKey :=
  {| round_wallet_id := wallet_id i; round_network := network_rank (network i);
     round_vote_round_id := vote_round_id i |}.

(** [BundleOperationKey::from_identity]. *)
Definition bundle_key (i : ChainSubmissionIdentity) : BundleOperationKey :=
  {| bundle_round := round_key i; bundle_bundle_index := bundle_index i |}.

(** [SubmissionOperationKey::from_identity]. *)
Definition operation_key (i : ChainSubmissionIdentity) : SubmissionOperationKey :=
  let '(kind, value) :=
    match target i with
    | TargetDelegation => (0%N, [])
    | TargetVote proposal_id => (1%N, be_bytes 4 proposal_id)
    | TargetVoteBatch digest => (2%N, bytes32_bytes digest)
    | TargetDelegateAndVoteBatch digest => (3%N, bytes32_bytes digest)
    end in
  {| operation_bundle := {| bundle_round := round_key i; bundle_bundle_index := bundle_index i |};
     target_kind := kind; target_value := value |}.

(** The derived [Ord]: fields in declaration order, byte strings and arrays
    lexicographically. *)
Abbreviation key_tuple := (list N * N * list N * N * N * list N)%type.

Definition key_rank (k : SubmissionOperationKey) : key_tuple :=
  let b := operation_bundle k in let r := bundle_round b in
  (Byte.to_N <$> as_bytes (round_wallet_id r), round_network r,
   Byte.to_N <$> bytes32_bytes (round_vote_round_id r),
   bundle_bundle_index b, target_kind k, Byte.to_N <$> target_value k).

Definition key_le (k l : SubmissionOperationKey) : Prop := ~ lexico (key_rank l) (key_rank k).

#[export] Instance key_le_dec : RelDecision key_le.
Proof.
  intros k l. unfold key_le.
  destruct (trichotomyT lexico (key_rank l) (key_rank k)) as [[H|H]|H].
  - right. tauto.
  - left. rewrite H. apply irreflexivity, _.
  - left. intros H'. apply (irreflexivity lexico (key_rank l)). by etrans.
Defined.

(** [Vec::dedup]. *)
Fixpoint dedup {A} `{EqDecision A} (l : list A) : list A :=
  match l with
  | [] => []
  | x :: l' =>
      match l' with
      | y :: _ => if bool_decide (x = y) then dedup l' else x :: dedup l'
      | [] => [x]
      end
  end.

Definition sorted_identity_keys (i : ChainSubmissionIdentity)
  (applicable : list ChainSubmissionIdentity) : list SubmissionOperationKey :=
  dedup (merge_sort key_le (map operation_key applicable ++ [operation_key i])).

(** ** Locks *)

Inductive LockId : Type :=
| AccountGate (wallet : string)
| RoundGate (k : RoundOperationKey)
| BundleLock (k : BundleOperationKey)
| IdentityLock (k : SubmissionOperationKey).

Inductive LockMode : Type := Shared | Exclusive.

#[export] Instance LockId_eq_dec : EqDecision LockId.
Proof. solve_decision. Defined.
#[export] Instance LockMode_eq_dec : EqDecision LockMode.
Proof. solve_decision. Defined.

Abbreviation Claim := (LockId * LockMode)%type.

(** The waits of [SubmissionCoordination::acquire], in order: shared account and
    round gates, the bundle mutex, then every identity mutex. *)
Definition acquire_plan (i : ChainSubmissionIdentity)
  (applicable : list ChainSubmissionIdentity) : list Claim :=
  [(AccountGate (wallet_id i), Shared); (RoundGate (round_key i), Shared);
   (BundleLock (bundle_key i), Exclusive)]
  ++ map (fun k => (IdentityLock k, Exclusive)) (sorted_identity_keys i applicable).

(** The claims of the leases that are tried and never waited for. *)
Definition try_account_exclusive_plan (wallet : string) : list Claim := [(AccountGate wallet, Exclusive)].
Definition try_round_exclusive_plan (i : ChainSubmissionIdentity) : list Claim :=
  [(RoundGate (round_key i), Exclusive)].
Definition try_delegation_setup_plan (i : ChainSubmissionIdentity) : list Claim :=
  [(AccountGate (wallet_id i), Shared); (RoundGate (round_key i), Shared);
   (BundleLock (bundle_key i), Exclusive)].

(** Two holders conflict on a lock unless both share it. *)
Definition conflicts (a b : Claim) : bool :=
  bool_decide (a.1 = b.1) && negb (bool_decide (a.2 = Shared /\ b.2 = Shared)).

(** One task: what it holds and what it still waits for, next first. *)
Record Task : Type := { held : list Claim; pending : list Claim }.

Definition blocked_by (c : Claim) (other : Task) : bool := existsb (conflicts c) (held other).

(** Whether the task at position [t] can take its next lock now. *)
Definition can_acquire (tasks : list Task) (t : nat) : Prop :=
  exists task c rest, tasks !! t = Some task /\ pending task = c :: rest /\
    forall u other, tasks !! u = Some other -> u <> t -> blocked_by c other = false.

(** A task runs [acquire], or holds a lease it obtained without waiting. *)
Definition lifecycle_task (t : Task) : Prop :=
  (exists i applicable, held t ++ pending t = acquire_plan i applicable) \/ pending t = [].

(** Steps of the lock system. A finished task (nothing pending) may release, and
    a task's future may be dropped at any point. *)
Inductive lock_step : list Task -> list Task -> Prop :=
| step_start tasks i applicable :
    lock_step tasks ({| held := []; pending := acquire_plan i applicable |} :: tasks)
| step_acquire tasks t task c rest :
    tasks !! t = Some task -> pending task = c :: rest -> can_acquire tasks t ->
    lock_step tasks (<[t := {| held := held task ++ [c]; pending := rest |}]> tasks)
| step_try tasks plan :
    (exists w, plan = try_account_exclusive_plan w) \/ (exists i, plan = try_round_exclusive_plan i)
      \/ (exists i, plan = try_delegation_setup_plan i) ->
    (forall c other, c ∈ plan -> other ∈ tasks -> blocked_by c other = false) ->
    lock_step tasks ({| held := plan; pending := [] |} :: tasks)
| step_release tasks t task :
    tasks !! t = Some task -> pending task = [] ->
    lock_step tasks (delete t tasks)
| step_cancel tasks t task :
    tasks !! t = Some task -> lock_step tasks (delete t tasks).

(** ** The in-flight registry *)

Record InFlightRegistry : Type := {
  poisoned : bool;
  in_flight : gmap SubmissionOperationKey nat
}.

(** [*entry(key).or_default() += 1]. *)
Definition increment (k : SubmissionOperationKey) (m : gmap SubmissionOperationKey nat) :
  gmap SubmissionOperationKey nat :=
  <[k := default 0 (m !! k) + 1]> m.

(** The body of [InFlightSubmission::drop] on an unpoisoned registry. *)
Definition decrement (k : SubmissionOperationKey) (m : gmap SubmissionOperationKey nat) :
  gmap SubmissionOperationKey nat :=
  match m !! k with
  | Some count =>
      let count' := count - 1 in
      if bool_decide (count' = 0) then delete k m else <[k := count']> m
  | None => m
  end.

Definition register_in_flight (r : InFlightRegistry) (i : ChainSubmissionIdentity) :
  result ChainSubmissionFailure (InFlightRegistry * SubmissionOperationKey) :=
  if poisoned r
  then Err (without_state InvariantViolation
              (chars "chain submission in-flight registry is poisoned"))
  else Ok ({| poisoned := false; in_flight := increment (operation_key i) (in_flight r) |},
           operation_key i).

(** [Drop for InFlightSubmission]. *)
Definition drop_in_flight (r : InFlightRegistry) (k : SubmissionOperationKey) : InFlightRegistry :=
  if poisoned r then r
  else {| poisoned := false; in_flight := decrement k (in_flight r) |}.

Definition has_in_flight_for_round (r : InFlightRegistry) (i : ChainSubmissionIdentity) :
  result ChainSubmissionFailure bool :=
  if poisoned r
  then Err (without_state InvariantViolation
              (chars "chain submission in-flight registry is poisoned"))
  else Ok (existsb (fun e => bool_decide (bundle_round (operation_bundle e.1) = round_key i))
             (map_to_list (in_flight r))).

(** Guards come and go: the trace of [register_in_flight] and [drop]. *)
Inductive guard_step : InFlightRegistry * list SubmissionOperationKey ->
                       InFlightRegistry * list SubmissionOperationKey -> Prop :=
| guard_register r r' k live i :
    register_in_flight r i = Ok (r', k) -> guard_step (r, live) (r', k :: live)
| guard_drop r live live1 live2 k :
    live = live1 ++ k :: live2 -> guard_step (r, live) (drop_in_flight r k, live1 ++ live2).

Definition empty_registry : InFlightRegistry := {| poisoned := false; in_flight := ∅ |}.

(** ** Keys identify submissions *)

Lemma network_rank_inj m n : network_rank m = network_rank n -> m = n.
Proof. by destruct m, n. Qed.

Lemma operation_key_inj i j :
  identity_in_range i -> identity_in_range j -> operation_key i = operation_key j -> i = j.
Proof.
  intros (_ & Hbi & Hti) (_ & Hbj & Htj) H.
  destruct i as [wi ni ri bi ti], j as [wj nj rj bj tj].
  unfold operation_key, round_key in H.
  assert (wi = wj /\ ni = nj /\ ri = rj /\ bi = bj) as (-> & -> & -> & ->).
  { destruct ti, tj; cbn in H; injection H as; subst; auto using network_rank_inj. }
  f_equal. destruct ti as [|p|d|d], tj as [|q|e|e]; cbn -[be_bytes] in *; try discriminate H; [done|..].
  - apply (f_equal target_value) in H. apply be_bytes_inj in H; [by subst | by apply u32_max_pow..].
  - apply (f_equal target_value) in H. by apply bytes32_eq in H as ->.
  - apply (f_equal target_value) in H. by apply bytes32_eq in H as ->.
Qed.

Lemma to_N_list_inj (l l' : bytes) : Byte.to_N <$> l = Byte.to_N <$> l' -> l = l'.
Proof. apply (inj (fmap Byte.to_N)). Qed.

Lemma key_rank_inj k l : key_rank k = key_rank l -> k = l.
Proof.
  destruct k as [[[w n r] b] t v], l as [[[w' n' r'] b'] t' v']. unfold key_rank; cbn.
  intros [= Hw Hn Hr Hb Ht Hv].
  apply to_N_list_inj, as_bytes_inj in Hw. apply to_N_list_inj, bytes32_eq in Hr.
  apply to_N_list_inj in Hv. by subst.
Qed.

#[export] Instance key_le_total : Total key_le.
Proof.
  intros k l. unfold key_le. destruct (decide (lexico (key_rank l) (key_rank k))) as [H|H]; [|by left].
  right. intros H'. apply (irreflexivity lexico (key_rank l)). by etrans.
Qed.

Lemma key_le_lt k l : key_le k l -> k <> l -> lexico (key_rank k) (key_rank l).
Proof.
  intros Hle Hne. destruct (trichotomyT lexico (key_rank k) (key_rank l)) as [[H|H]|H]; [done| |done].
  by apply key_rank_inj in H.
Qed.

#[export] Instance key_le_trans : Transitive key_le.
Proof.
  intros k l m Hkl Hlm Hmk. destruct (decide (k = l)) as [->|Hne]; [done|].
  apply key_le_lt in Hkl; [|done]. apply Hlm. by etrans.
Qed.

(** ** The lock order *)

Definition lock_rank (l : LockId) : N * key_tuple :=
  match l with
  | AccountGate _ => (0%N, ([], 0%N, [], 0%N, 0%N, []))
  | RoundGate _ => (1%N, ([], 0%N, [], 0%N, 0%N, []))
  | BundleLock _ => (2%N, ([], 0%N, [], 0%N, 0%N, []))
  | IdentityLock k => (3%N, key_rank k)
  end.

Definition lock_before (a b : Claim) : Prop := lexico (lock_rank a.1) (lock_rank b.1).

Lemma elem_of_dedup {A} `{EqDecision A} (x : A) l : x ∈ dedup l <-> x ∈ l.
Proof.
  induction l as [|y l IH]; cbn [dedup]; [done|]. destruct l as [|z l]; [done|].
  case_bool_decide; subst; rewrite ?elem_of_cons, IH; set_solver.
Qed.

Lemma dedup_StronglySorted l :
  StronglySorted key_le l ->
  StronglySorted (fun k k' => lexico (key_rank k) (key_rank k')) (dedup l).
Proof.
  induction l as [|k l IH]; intros Hl; cbn [dedup]; [constructor|].
  inversion Hl as [|? ? Hl' Hk]; subst. destruct l as [|k' l]; [repeat constructor|].
  case_bool_decide as Heq; [by apply IH|]. constructor; [by apply IH|].
  apply Forall_forall. intros m Hm. rewrite elem_of_dedup in Hm.
  assert (key_le k k') as Hkk' by (by inversion Hk).
  apply key_le_lt in Hkk'; [|done].
  apply elem_of_cons in Hm as [->|Hm]; [done|].
  inversion Hl' as [|? ? _ Hk'']; subst. rewrite Forall_forall in Hk''.
  apply Hk'' in Hm.
  destruct (decide (k' = m)) as [->|Hne]; [done|]. etrans; [done | by apply key_le_lt].
Qed.

Lemma sorted_identity_keys_strict i applicable :
  StronglySorted (fun k k' => lexico (key_rank k) (key_rank k')) (sorted_identity_keys i applicable).
Proof. apply dedup_StronglySorted, (StronglySorted_merge_sort key_le). Qed.

Lemma acquire_plan_ordered i applicable : StronglySorted lock_before (acquire_plan i applicable).
Proof.
  unfold acquire_plan. cbn [app].
  assert (StronglySorted lock_before
    (map (fun k => (IdentityLock k, Exclusive)) (sorted_identity_keys i applicable))) as Hids.
  { pose proof (sorted_identity_keys_strict i applicable) as H.
    induction H as [|k l Hl IH Hk]; cbn; [constructor|]. constructor; [done|].
    apply Forall_map. eapply Forall_impl; [exact Hk|]. intros k' Hlt. right. done. }
  assert (forall l, Forall (fun c => (N.lt 2 (lock_rank c.1).1)) l ->
    forall a, (N.le (lock_rank a.1).1 2) -> Forall (lock_before a) l) as Hlow.
  { intros l Hl a Ha. eapply Forall_impl; [exact Hl|]. intros c Hc. left.
    unfold lexico, N_lexico. cbn in *. lia. }
  assert (Forall (fun c : Claim => (N.lt 2 (lock_rank c.1).1))
    (map (fun k => (IdentityLock k, Exclusive)) (sorted_identity_keys i applicable))) as Hhigh.
  { apply Forall_map, Forall_forall. intros k _. cbn. lia. }
  repeat constructor; try done; try (by apply Hlow; cbn; [done|lia]).
  all: left; unfold lexico, N_lexico; cbn; lia.
Qed.

(** A nonempty family of locks has a last one. *)
Lemma last_lock_exists (l : list Claim) :
  l <> [] -> exists m, m ∈ l /\ forall x, x ∈ l -> ~ lock_before m x.
Proof.
  induction l as [|a l IH]; [done|]. intros _. destruct (decide (l = [])) as [->|Hne].
  - exists a. split; [set_solver|]. intros x ->%list_elem_of_singleton.
    apply (irreflexivity lexico (lock_rank a.1)).
  - destruct (IH Hne) as (m & Hm & Hmax).
    destruct (decide (lexico (lock_rank m.1) (lock_rank a.1))) as [Hlt|Hnlt].
    + exists a. split; [set_solver|]. intros x [->|Hx]%elem_of_cons Hax.
      * by apply (irreflexivity lexico (lock_rank a.1)).
      * apply (Hmax x Hx). unfold lock_before. by etrans.
    + exists m. split; [set_solver|]. intros x [->|Hx]%elem_of_cons; [done | by apply Hmax].
Qed.

(** What a waiting lifecycle task holds comes before what it waits for. *)
Lemma held_before_pending t c rest h :
  lifecycle_task t -> pending t = c :: rest -> h ∈ held t -> lock_before h c.
Proof.
  intros [(i & applicable & Hplan) | Hnil] Hp Hh; [|congruence].
  pose proof (acquire_plan_ordered i applicable) as Hsorted.
  rewrite <- Hplan, Hp in Hsorted.
  apply (StronglySorted_app_1_elem_of lock_before _ _ h c Hsorted); set_solver.
Qed.

Lemma lock_step_lifecycle tasks tasks' :
  Forall lifecycle_task tasks -> lock_step tasks tasks' -> Forall lifecycle_task tasks'.
Proof.
  intros Htasks Hstep. destruct Hstep as [tasks i applicable | tasks t task c rest Ht Hp _ | tasks plan _ _ | tasks t task Ht _ | tasks t task Ht].
  - constructor; [|done]. left. by exists i, applicable.
  - apply Forall_insert; [done|].
    assert (lifecycle_task task) as [(i & applicable & Hplan) | Hnil];
      [by eapply Forall_lookup_1| |congruence].
    left. exists i, applicable. cbn [held pending]. by rewrite <- app_assoc, <- Hplan, Hp.
  - constructor; [|done]. by right.
  - by apply Forall_delete.
  - by apply Forall_delete.
Qed.

Lemma reachable_lifecycle tasks : rtc lock_step [] tasks -> Forall lifecycle_task tasks.
Proof.
  intros H. apply (rtc_ind_r (Forall lifecycle_task) []) in H; [done | constructor |].
  intros t1 t2 _ Hstep IH. by eapply lock_step_lifecycle.
Qed.

Lemma conflicts_sym a b : conflicts a b = conflicts b a.
Proof. unfold conflicts. repeat case_bool_decide; naive_solver. Qed.

Lemma conflicts_same_lock a b : conflicts a b = true -> a.1 = b.1.
Proof. unfold conflicts. intros H. by inv_ok. Qed.

(** A claim that cannot be taken is held by some task. *)
Lemma acquirable_or_held tasks t task c rest :
  tasks !! t = Some task -> pending task = c :: rest ->
  can_acquire tasks t \/ exists other h, other ∈ tasks /\ h ∈ held other /\ h.1 = c.1.
Proof.
  intros Ht Hp.
  destruct (decide (Exists (fun other => blocked_by c other = true) tasks)) as [Hex|Hnex].
  - right. apply Exists_exists in Hex as (other & Hin & (h & Hh & Hc)%existsb_elem_of).
    exists other, h. apply conflicts_same_lock in Hc. auto.
  - left. exists task, c, rest. repeat split; [done..|].
    intros u other Hu _. destruct (blocked_by c other) eqn:Hb; [|done]. exfalso. apply Hnex.
    apply Exists_exists. exists other. split; [|done]. by eapply list_elem_of_lookup_2.
Qed.

Definition next_claim (t : Task) : option Claim := head (pending t).

Lemma lifecycle_progress tasks t task :
  Forall lifecycle_task tasks -> tasks !! t = Some task -> pending task <> [] ->
  (exists u, can_acquire tasks u) \/
  (exists other, other ∈ tasks /\ pending other = [] /\ held other <> []).
Proof.
  intros Htasks Ht Hp.
  destruct (last_lock_exists (omap next_claim tasks)) as (m & Hm & Hmax).
  { destruct (pending task) as [|c rest] eqn:Hc; [done|]. intros Hnil.
    apply (elem_of_nil (A:=Claim) c). rewrite <- Hnil. apply list_elem_of_omap.
    exists task. split; [by eapply list_elem_of_lookup_2 | unfold next_claim; by rewrite Hc]. }
  apply list_elem_of_omap in Hm as (waiter & Hw & Hnext).
  unfold next_claim in Hnext. destruct (pending waiter) as [|m' rest] eqn:Hpw; [done|].
  injection Hnext as ->. apply list_elem_of_lookup in Hw as (u & Hu).
  destruct (decide (Exists (fun other => pending other = [] /\ held other <> []) tasks)) as [Hidle|Hbusy].
  { right. apply Exists_exists in Hidle as (other & Hin & Hr). by exists other. }
  left. exists u.
  destruct (acquirable_or_held tasks u waiter m rest Hu Hpw) as [Hcan | (other & h & Hin & Hh & Hsame)]; [done|].
  exfalso.
  destruct (pending other) as [|c rest'] eqn:Hpo.
  - apply Hbusy, Exists_exists. exists other. split; [done|].
    split; [done|]. intros Hnil. rewrite Hnil in Hh. set_solver.
  - apply (Hmax c).
    + apply list_elem_of_omap. exists other. split; [done|]. unfold next_claim. by rewrite Hpo.
    + unfold lock_before. rewrite <- Hsame.
      apply (held_before_pending other c rest' h); [|done..].
      rewrite Forall_forall in Htasks. by apply Htasks.
Qed.

(** Held claims of different tasks never conflict. *)
Definition no_conflicts (tasks : list Task) : Prop :=
  forall t u a b c d, tasks !! t = Some a -> tasks !! u = Some b -> t <> u ->
    c ∈ held a -> d ∈ held b -> conflicts c d = false.

Lemma blocked_by_false c other d : blocked_by c other = false -> d ∈ held other -> conflicts c d = false.
Proof.
  intros Hb Hd. destruct (conflicts c d) eqn:Hc; [|done].
  assert (blocked_by c other = true) as ?; [|congruence].
  apply existsb_elem_of. by exists d.
Qed.

Lemma no_conflicts_cons task tasks :
  no_conflicts tasks ->
  (forall c other d, c ∈ held task -> other ∈ tasks -> d ∈ held other -> conflicts c d = false) ->
  no_conflicts (task :: tasks).
Proof.
  intros Htasks Hnew [|t] [|u] a b c d Ha Hb Hne Hc Hd; cbn in Ha, Hb; [done| | |].
  - injection Ha as ->. eapply Hnew; [done | by eapply list_elem_of_lookup_2 | done].
  - injection Hb as ->. rewrite conflicts_sym. eapply Hnew; [done | by eapply list_elem_of_lookup_2 | done].
  - eapply (Htasks t u); eauto.
Qed.

Lemma no_conflicts_delete t tasks : no_conflicts tasks -> no_conflicts (delete t tasks).
Proof.
  intros Htasks u v a b c d Ha Hb Hne.
  rewrite list_lookup_delete in Ha, Hb.
  apply (Htasks _ _ a b c d Ha Hb). repeat case_decide; lia.
Qed.

Lemma no_conflicts_acquire tasks t task c rest :
  no_conflicts tasks -> tasks !! t = Some task -> pending task = c :: rest -> can_acquire tasks t ->
  no_conflicts (<[t := {| held := held task ++ [c]; pending := rest |}]> tasks).
Proof.
  intros Htasks Ht Hp (task' & c' & rest' & Ht' & Hp' & Hfree).
  assert (task' = task) as -> by congruence. assert (c' = c) as -> by congruence.
  assert (forall u b x d, tasks !! u = Some b -> t <> u -> x ∈ held task ++ [c] -> d ∈ held b ->
    conflicts x d = false) as Hnew.
  { intros u b x d Hb Hne [Hx | ->%list_elem_of_singleton]%elem_of_app Hd.
    - eapply (Htasks t u); eauto.
    - eapply blocked_by_false; [eapply Hfree; eauto | done]. }
  intros u v a b x d Ha Hb Hne Hx Hd.
  destruct (decide (u = t)) as [->|Hu], (decide (v = t)) as [->|Hv]; [done| | |].
  - rewrite list_lookup_insert_eq in Ha by (by eapply lookup_lt_Some).
    rewrite list_lookup_insert_ne in Hb by done. injection Ha as <-. by eapply Hnew.
  - rewrite list_lookup_insert_eq in Hb by (by eapply lookup_lt_Some).
    rewrite list_lookup_insert_ne in Ha by done. injection Hb as <-. rewrite conflicts_sym. by eapply Hnew.
  - rewrite list_lookup_insert_ne in Ha, Hb by done. by eapply (Htasks u v).
Qed.

Lemma reachable_no_conflicts tasks : rtc lock_step [] tasks -> no_conflicts tasks.
Proof.
  intros H. apply (rtc_ind_r no_conflicts []) in H; [done | by intros ? ? ? ? ? ? [=] |].
  intros t1 t2 _ Hstep IH.
  destruct Hstep as [tasks' i applicable | tasks' t task c rest Ht Hp Hcan | tasks' plan _ Hfree | tasks' t task Ht _ | tasks' t task Ht].
  - apply no_conflicts_cons; [done|]. set_solver.
  - by eapply no_conflicts_acquire.
  - apply no_conflicts_cons; [done|]. cbn. intros c other d Hc Ho Hd.
    eapply blocked_by_false; [by apply Hfree | done].
  - by apply no_conflicts_delete.
  - by apply no_conflicts_delete.
Qed.

(** Membership in a literal lock plan. *)
Ltac plan_member :=
  unfold acquire_plan, try_round_exclusive_plan, try_account_exclusive_plan, try_delegation_setup_plan;
  cbn [app]; rewrite ?elem_of_cons; auto 6.

(** ** Coordination correctness *)

(** C34. Lifecycle operations never deadlock. In every reachable configuration of
    tasks acquiring, trying, releasing and being dropped, if some task waits for
    a lock then some task can take its next lock now, or a task that waits for
    nothing still holds locks and can finish. *)
Theorem lock_order_progress tasks t task :
  rtc lock_step [] tasks -> tasks !! t = Some task -> pending task <> [] ->
  (exists u, can_acquire tasks u) \/
  (exists other, other ∈ tasks /\ pending other = [] /\ held other <> []).
Proof. intros Hreach. apply lifecycle_progress. by apply reachable_lifecycle. Qed.

(** C33. Admitted operations exclude each other per bundle and per round. Two
    different tasks that completed [acquire] are for different bundles, and no
    task that completed [acquire] coexists with an exclusive lease on its round
    or account. *)
Theorem admitted_operations_exclusive tasks t u a b i applicable :
  rtc lock_step [] tasks -> tasks !! t = Some a -> tasks !! u = Some b -> t <> u ->
  held a = acquire_plan i applicable ->
  (forall j applicable', held b = acquire_plan j applicable' -> bundle_key i <> bundle_key j) /\
  (forall j, held b = try_round_exclusive_plan j -> round_key i <> round_key j) /\
  (forall w, held b = try_account_exclusive_plan w -> wallet_id i <> w) /\
  (forall j, held b = try_delegation_setup_plan j -> bundle_key i <> bundle_key j).
Proof.
  intros Hreach%reachable_no_conflicts Ha Hb Hne Hheld.
  assert (forall c d, c ∈ acquire_plan i applicable -> d ∈ held b -> c.1 = d.1 ->
    c.2 = Shared /\ d.2 = Shared) as Hshare.
  { intros c d Hc Hd Heq. rewrite <- Hheld in Hc.
    pose proof (Hreach t u a b c d Ha Hb Hne Hc Hd) as Hno. unfold conflicts in Hno.
    rewrite bool_decide_true, andb_true_l in Hno by done. by inv_ok. }
  repeat split; intros j; [intros applicable'|..]; intros Hplan Heq; rewrite Hplan in Hshare.
  - destruct (Hshare (BundleLock (bundle_key i), Exclusive) (BundleLock (bundle_key j), Exclusive));
      [plan_member.. | by rewrite Heq | done].
  - destruct (Hshare (RoundGate (round_key i), Shared) (RoundGate (round_key j), Exclusive));
      [plan_member.. | by rewrite Heq | done].
  - destruct (Hshare (AccountGate (wallet_id i), Shared) (AccountGate j, Exclusive));
      [plan_member.. | by rewrite Heq | done].
  - destruct (Hshare (BundleLock (bundle_key i), Exclusive) (BundleLock (bundle_key j), Exclusive));
      [plan_member.. | by rewrite Heq | done].
Qed.

(** The process-local identity lock and the durable primary key name the same
    submissions: two in-range identities share a lock key exactly when they
    share a database key. *)
Theorem operation_key_matches_durable_key i j :
  identity_in_range i -> identity_in_range j ->
  operation_key i = operation_key j <-> submission_identity_key i = submission_identity_key j.
Proof.
  intros Hi Hj. split; intros H.
  - by rewrite (operation_key_inj i j Hi Hj H).
  - by rewrite (submission_identity_key_inj i j Hi Hj H).
Qed.

(** *** The in-flight registry *)

(** The registry counts exactly the live guards. *)
Definition registry_exact (r : InFlightRegistry) (live : list SubmissionOperationKey) : Prop :=
  poisoned r = false /\
  forall k, in_flight r !! k = let n := length (filter (fun k' => k' = k) live) in
                               if bool_decide (n = 0) then None else Some n.

Lemma registry_exact_step r live r' live' :
  registry_exact r live -> guard_step (r, live) (r', live') -> registry_exact r' live'.
Proof.
  intros [Hp Hr] Hstep. inversion Hstep as [? ? k ? i Hreg | ? ? live1 live2 k ->]; subst; split.
  - unfold register_in_flight in Hreg. rewrite Hp in Hreg. by injection Hreg as <- <-.
  - intros k'. unfold register_in_flight in Hreg. rewrite Hp in Hreg. injection Hreg as <- <-.
    cbn [in_flight]. unfold increment. rewrite filter_cons. destruct (decide (operation_key i = k')) as [<-|Hne].
    + rewrite lookup_insert_eq, Hr. cbn. repeat case_bool_decide; cbn; try lia; f_equal; lia.
    + by rewrite lookup_insert_ne, Hr by done.
  - unfold drop_in_flight. by rewrite Hp.
  - intros k'. unfold drop_in_flight. rewrite Hp. cbn [in_flight]. unfold decrement. rewrite Hr.
    cbv zeta. rewrite filter_app, filter_cons, decide_True, length_app by done. cbn [length].
    rewrite bool_decide_false by lia.
    specialize (Hr k'). cbv zeta in Hr. rewrite filter_app, filter_cons, length_app in Hr.
    rewrite filter_app, length_app. destruct (decide (k = k')) as [<-|Hne].
    + clear Hr. case_bool_decide.
      * rewrite lookup_delete_eq, bool_decide_true by lia. done.
      * rewrite lookup_insert_eq, bool_decide_false by lia. f_equal. lia.
    + rewrite <- Hr. clear Hr. case_bool_decide; [by rewrite lookup_delete_ne | by rewrite lookup_insert_ne].
Qed.

Lemma guards_exact r live :
  rtc guard_step (empty_registry, []) (r, live) -> registry_exact r live.
Proof.
  intros H. apply (rtc_ind_r (fun s => registry_exact s.1 s.2) (empty_registry, [])) in H; [done|..].
  - split; [done|]. intros k. cbn. apply lookup_empty.
  - intros [r1 l1] [r2 l2] _ Hstep IH. by eapply registry_exact_step.
Qed.

(** The in-flight query is exact. After any interleaving of registrations and
    guard drops, [has_in_flight_for_round] answers true exactly when a guard of
    that round is still alive, so a finished submission leaves no residue that
    would block round deletion, and a live one is never missed. *)
Theorem in_flight_registry_exact r live i :
  rtc guard_step (empty_registry, []) (r, live) ->
  has_in_flight_for_round r i =
    Ok (bool_decide (Exists (fun k => bundle_round (operation_bundle k) = round_key i) live)).
Proof.
  intros [Hp Hr]%guards_exact. unfold has_in_flight_for_round. rewrite Hp. f_equal.
  apply eq_true_iff_eq. rewrite bool_decide_eq_true, existsb_elem_of, Exists_exists.
  split.
  - intros ([k n] & Hin%elem_of_map_to_list & Hk%bool_decide_eq_true).
    exists k. split; [|done]. rewrite Hr in Hin. cbv zeta in Hin. clear Hr Hk.
    destruct (filter (fun k' => k' = k) live) as [|k' l] eqn:Hf; [done|].
    assert (k' ∈ filter (fun k' => k' = k) live) as [-> Hlive]%list_elem_of_filter by (rewrite Hf; set_solver).
    done.
  - intros (k & Hin & Hk). exists (k, length (filter (fun k' => k' = k) live)).
    rewrite bool_decide_eq_true. split; [|done].
    apply elem_of_map_to_list. rewrite Hr. cbv zeta. rewrite bool_decide_false; [done|].
    intros Hn%nil_length_inv. apply (elem_of_nil (A:=SubmissionOperationKey) k).
    rewrite <- Hn. apply list_elem_of_filter. done.
Qed.

(** ** Witnesses *)

Lemma acquire_alone h c rest :
  lock_step [{| held := h; pending := c :: rest |}] [{| held := h ++ [c]; pending := rest |}].
Proof.
  apply (step_acquire [{| held := h; pending := c :: rest |}] 0
    {| held := h; pending := c :: rest |} c rest); [done..|].
  exists {| held := h; pending := c :: rest |}, c, rest. repeat split.
  intros [|u] other Hu Hne; [done|]. destruct u; discriminate Hu.
Qed.

(** A lone task takes its whole plan, one lock at a time. *)
Lemma acquire_all_alone h p :
  rtc lock_step [{| held := h; pending := p |}] [{| held := h ++ p; pending := [] |}].
Proof.
  revert h. induction p as [|c p IH]; intros h; [by rewrite app_nil_r|].
  eapply rtc_l; [apply acquire_alone|]. specialize (IH (h ++ [c])). by rewrite <- app_assoc in IH.
Qed.

Lemma admit_alone i applicable :
  rtc lock_step [] [{| held := acquire_plan i applicable; pending := [] |}].
Proof.
  eapply rtc_l; [apply (step_start [] i applicable)|].
  apply (acquire_all_alone [] (acquire_plan i applicable)).
Qed.

Definition waiting_tasks : list Task :=
  let plan := acquire_plan (sample_identity "wallet") [] in
  [{| held := []; pending := plan |}; {| held := plan; pending := [] |}].

Lemma lock_order_progress_witness :
  (exists u, can_acquire waiting_tasks u) \/
  (exists other, other ∈ waiting_tasks /\ pending other = [] /\ held other <> []).
Proof.
  apply (lock_order_progress waiting_tasks 0
    {| held := []; pending := acquire_plan (sample_identity "wallet") [] |}).
  - eapply rtc_r; [apply (admit_alone (sample_identity "wallet") [])|]. apply step_start.
  - reflexivity.
  - vm_compute. discriminate.
Defined.

Lemma admitted_operations_exclusive_witness :
  round_key (sample_identity "wallet") <> round_key (sample_identity "other").
Proof.
  pose (plan := acquire_plan (sample_identity "wallet") []).
  pose (lease := try_round_exclusive_plan (sample_identity "other")).
  refine (proj1 (proj2 (admitted_operations_exclusive
    [{| held := lease; pending := [] |}; {| held := plan; pending := [] |}] 1 0
    {| held := plan; pending := [] |} {| held := lease; pending := [] |}
    (sample_identity "wallet") [] _ eq_refl eq_refl _ eq_refl)) (sample_identity "other") eq_refl).
  - eapply rtc_r; [apply (admit_alone (sample_identity "wallet") [])|].
    apply step_try; [right; left; by eexists|].
    intros c other ->%list_elem_of_singleton ->%list_elem_of_singleton. by vm_compute.
  - discriminate.
Defined.

Lemma operation_key_matches_durable_key_witness :
  operation_key (sample_identity "wallet") = operation_key (sample_identity "other") <->
  submission_identity_key (sample_identity "wallet") = submission_identity_key (sample_identity "other").
Proof.
  apply (operation_key_matches_durable_key (sample_identity "wallet") (sample_identity "other"));
    apply (bool_decide_unpack _); vm_compute; exact I.
Defined.

Lemma in_flight_registry_exact_witness :
  let k := operation_key (sample_identity "wallet") in
  has_in_flight_for_round {| poisoned := false; in_flight := {[ k := 1 ]} |} (sample_identity "wallet")
  = Ok (bool_decide (Exists (fun k => bundle_round (operation_bundle k) = round_key (sample_identity "wallet")) [k])).
Proof.
  apply in_flight_registry_exact.
  eapply rtc_l; [|reflexivity]. eapply (guard_register _ _ _ [] (sample_identity "wallet")).
  reflexivity.
Defined.
