(* ===== verification/Generation.v ===== *)
(** * Semantic generations

    Models [chain_submission/generation.rs] and the vote-batch assembly it calls
    in [vote.rs]: the expected tree layout, the typed checks on stored
    delegation inputs, the transcript hashed into the generation digest, and
    the derivation of delegation, imported-delegation, vote and batch
    generations. Table reads and the wire encoders are the interface
    [GenerationTables]; SHA-256 and hex are the interfaces of [Types]. *)

From S2P Require Import Prelude Types Diagnostics Identity.


(** ** Layouts and bound generations *)

Inductive ExpectedTreeLayout : Type :=
| LayoutDelegation (delegation_van : bytes32)
| LayoutVote (successor_van vote_commitment : bytes32)
| LayoutVoteBatch (final_successor_van : bytes32) (vote_commitments : list bytes32).

(** [ExpectedTreeLayout::leaves]. *)
Definition leaves (l : ExpectedTreeLayout) : list bytes32 :=
  match l with
  | LayoutDelegation van => [van]
  | LayoutVote van vc => [van; vc]
  | LayoutVoteBatch van vcs => van :: vcs
  end.

Record BoundGeneration : Type := {
  bound_generation : ChainSubmissionGeneration;
  expected_layout : ExpectedTreeLayout;
  ordered_proposal_ids : list N
}.

(** ** Stored inputs *)

Record EncryptedShare : Type := {
  share_c1 : bytes;
  share_c2 : bytes;
  share_index : N;
  share_plaintext_value : N;
  share_randomness : bytes
}.

Record VoteBatchRecovery : Type := {
  batch_delegation_van : option bytes32;
  batch_recovery_digest : bytes32;
  batch_index : N;
  batch_size : N
}.

(** [VoteRecoveryBundle]; the 64-byte signature is a byte list. *)
Record VoteRecoveryBundle : Type := {
  rec_vote_round_id : string;
  rec_bundle_index : N;
  rec_proposal_id : N;
  rec_vote_decision : N;
  rec_anchor_height : N;
  rec_vc_tree_position : N;
  rec_single_share : bool;
  rec_num_options : N;
  rec_van_nullifier : bytes32;
  rec_vote_authority_note_new : bytes32;
  rec_vote_commitment : bytes32;
  rec_proof : bytes;
  rec_shares_hash : bytes32;
  rec_r_vpk : bytes32;
  rec_alpha_v : bytes32;
  rec_vote_auth_sig : bytes;
  rec_encrypted_shares : list EncryptedShare;
  rec_share_blinds : list bytes32;
  rec_share_comms : list bytes32;
  rec_batch : option VoteBatchRecovery
}.

Record DelegationGenerationInputs : Type := {
  note_positions : list N;
  note_identity_hashes : list bytes32;
  van_comm_rand : bytes32;
  dummy_nullifiers : list bytes32;
  rho_signed : bytes32;
  padded_note_data : list bytes32;
  nf_signed : bytes32;
  cmx_new : bytes32;
  alpha : bytes32;
  rseed_signed : bytes32;
  rseed_output : bytes32;
  gov_comm : bytes32;
  total_note_value : N;
  address_index : N;
  rk : bytes32;
  gov_nullifiers : list bytes32;
  padded_note_secrets : list (bytes32 * bytes32);
  pczt_sighash : bytes32;
  tx1_effects : bytes;
  delegation_proof : bytes
}.

(** The columns [load_delegation_inputs] selects, in order. *)
Record RawDelegationRow : Type := {
  raw_note_positions : bytes;
  raw_note_identity_hashes : bytes;
  raw_van_comm_rand : bytes;
  raw_dummy_nullifiers : bytes;
  raw_rho_signed : bytes;
  raw_padded_note_data : bytes;
  raw_nf_signed : bytes;
  raw_cmx_new : bytes;
  raw_alpha : bytes;
  raw_rseed_signed : bytes;
  raw_rseed_output : bytes;
  raw_gov_comm : bytes;
  raw_total_note_value : Z;
  raw_address_index : Z;
  raw_rk : bytes;
  raw_gov_nullifiers : bytes;
  raw_padded_note_secrets : bytes;
  raw_pczt_sighash : bytes;
  raw_tx1_effects : bytes;
  raw_proof : bytes
}.

(** The part of [VoteRowState] derivation reads. *)
Record VoteRowState : Type := {
  vote_choice : Z;
  vote_row_commitment : option bytes
}.

(** [CastVoteBatchSighashAction]. *)
Record CastVoteBatchSighashAction : Type := {
  action_r_vpk : bytes32;
  action_van_nullifier : bytes32;
  action_vote_authority_note_new : bytes32;
  action_vote_commitment : bytes32;
  action_proposal_id : N
}.

(** ** Typed checks on stored blobs *)

Definition checked_blob32 (value : bytes) (field : text) : result VotingError bytes32 :=
  ok_or (try_into_bytes32 value)
    (VeInternal (chars "stored " ++ field ++ chars " must be 32 bytes, got "
                 ++ decimal_nat (length value))).

(** [chunks_exact] on a blob whose length is a multiple of the chunk size;
    [fuel] is the number of chunks. *)
Fixpoint chunks_exact (size fuel : nat) (value : bytes) : list bytes :=
  match fuel with
  | O => []
  | S fuel' => take size value :: chunks_exact size fuel' (drop size value)
  end.

Definition blob_chunks (size : nat) (value : bytes) : list bytes :=
  chunks_exact size (length value / size) value.

Definition multiple_error (field : text) (size : nat) (value : bytes) : VotingError :=
  VeInternal (chars "stored " ++ field ++ chars " length must be a multiple of "
              ++ decimal_nat size ++ chars ", got " ++ decimal_nat (length value)).

Definition checked_blob32_sequence (value : bytes) (field : text) :
  result VotingError (list bytes32) :=
  _ ← fail_if (negb (bool_decide (length value mod 32 = 0))) (multiple_error field 32 value);
  collect_results (fun chunk =>
    ok_or (try_into_bytes32 chunk)
      (VeInternal (chars "stored " ++ field ++ chars " element must be 32 bytes")))
    (blob_chunks 32 value).

Definition checked_note_positions (value : bytes) : result VotingError (list N) :=
  _ ← fail_if (negb (bool_decide (length value mod 8 = 0)))
        (multiple_error (chars "note_positions") 8 value);
  collect_results (fun chunk =>
    if bool_decide (length chunk = 8) then Ok (le_value chunk)
    else Err (VeInternal (chars "stored note position must be 8 bytes")))
    (blob_chunks 8 value).

Definition checked_padded_note_secrets (value : bytes) :
  result VotingError (list (bytes32 * bytes32)) :=
  _ ← fail_if (negb (bool_decide (length value mod 64 = 0)))
        (multiple_error (chars "padded_note_secrets") 64 value);
  collect_results (fun chunk =>
    rho ← ok_or (try_into_bytes32 (take 32 chunk))
            (VeInternal (chars "stored padded note rho must be 32 bytes"));
    rseed ← ok_or (try_into_bytes32 (drop 32 chunk))
            (VeInternal (chars "stored padded note rseed must be 32 bytes"));
    Ok (rho, rseed))
    (blob_chunks 64 value).

Definition TX1_EFFECTS_VERSION : byte := Byte.x01.
Abbreviation TX1_EFFECTS_LEN := (1 + 1 * (5 * 32 + 580 + 80))%nat (only parsing).

(** [tx1::validate_tx1_effects]. *)
Definition validate_tx1_effects (effects : bytes) : result VotingError unit :=
  _ ← fail_if (negb (bool_decide (length effects = TX1_EFFECTS_LEN)))
        (VeInvalidInput (chars "tx1_effects must be " ++ decimal_nat TX1_EFFECTS_LEN
                         ++ chars " bytes, got " ++ decimal_nat (length effects)));
  fail_if (negb (bool_decide (head effects = Some TX1_EFFECTS_VERSION)))
    (VeInvalidInput (chars "unsupported tx1_effects version: expected "
                     ++ decimal (Byte.to_N TX1_EFFECTS_VERSION) ++ chars ", got "
                     ++ decimal (default 0%N (Byte.to_N <$> head effects)))).

Definition padded_count_check (expected : nat) (entry : text * nat) : result VotingError unit :=
  fail_if (negb (bool_decide (entry.2 = expected)))
    (VeInternal (chars "stored " ++ entry.1 ++ chars " count " ++ decimal_nat entry.2
                 ++ chars " does not match expected padded note count " ++ decimal_nat expected)).

(** The checks [load_delegation_inputs] runs on one selected row. *)
Definition decode_delegation_row (row : RawDelegationRow) :
  result VotingError DelegationGenerationInputs :=
  np ← checked_note_positions (raw_note_positions row);
  nih ← checked_blob32_sequence (raw_note_identity_hashes row) (chars "note_identity_hashes");
  _ ← fail_if (negb (bool_decide (length nih = length np)))
        (VeInternal (chars "stored note identity count " ++ decimal_nat (length nih)
                     ++ chars " does not match note position count " ++ decimal_nat (length np)));
  _ ← fail_if (bool_decide (BUNDLE_NOTE_SLOTS < length np))
        (VeInternal (chars "stored note position count " ++ decimal_nat (length np)
                     ++ chars " exceeds bundle capacity " ++ decimal_nat BUNDLE_NOTE_SLOTS));
  let expected := BUNDLE_NOTE_SLOTS - length np in
  dn ← checked_blob32_sequence (raw_dummy_nullifiers row) (chars "dummy_nullifiers");
  pnd ← checked_blob32_sequence (raw_padded_note_data row) (chars "padded_note_data");
  pns ← checked_padded_note_secrets (raw_padded_note_secrets row);
  _ ← collect_results (padded_count_check expected)
        [(chars "dummy_nullifiers", length dn); (chars "padded_note_data", length pnd);
         (chars "padded_note_secrets", length pns)];
  gn ← checked_blob32_sequence (raw_gov_nullifiers row) (chars "gov_nullifiers");
  _ ← fail_if (negb (bool_decide (length gn = BUNDLE_NOTE_SLOTS)))
        (VeInternal (chars "stored gov_nullifier count " ++ decimal_nat (length gn)
                     ++ chars " does not match bundle capacity " ++ decimal_nat BUNDLE_NOTE_SLOTS));
  _ ← validate_tx1_effects (raw_tx1_effects row);
  vcr ← checked_blob32 (raw_van_comm_rand row) (chars "van_comm_rand");
  rho ← checked_blob32 (raw_rho_signed row) (chars "rho_signed");
  nf ← checked_blob32 (raw_nf_signed row) (chars "nf_signed");
  cmx ← checked_blob32 (raw_cmx_new row) (chars "cmx_new");
  al ← checked_blob32 (raw_alpha row) (chars "alpha");
  rs ← checked_blob32 (raw_rseed_signed row) (chars "rseed_signed");
  ro ← checked_blob32 (raw_rseed_output row) (chars "rseed_output");
  gc ← checked_blob32 (raw_gov_comm row) (chars "gov_comm");
  tnv ← ok_or (u64_try_from (raw_total_note_value row))
          (VeInternal (chars "stored total_note_value must be non-negative, got "
                       ++ decimal_Z (raw_total_note_value row)));
  ai ← ok_or (u32_try_from (raw_address_index row))
          (VeInternal (chars "stored address_index must fit u32, got "
                       ++ decimal_Z (raw_address_index row)));
  rkb ← checked_blob32 (raw_rk row) (chars "rk");
  sh ← checked_blob32 (raw_pczt_sighash row) (chars "pczt_sighash");
  Ok {| note_positions := np; note_identity_hashes := nih; van_comm_rand := vcr;
        dummy_nullifiers := dn; rho_signed := rho; padded_note_data := pnd; nf_signed := nf;
        cmx_new := cmx; alpha := al; rseed_signed := rs; rseed_output := ro; gov_comm := gc;
        total_note_value := tnv; address_index := ai; rk := rkb; gov_nullifiers := gn;
        padded_note_secrets := pns; pczt_sighash := sh; tx1_effects := raw_tx1_effects row;
        delegation_proof := raw_proof row |}.

(** ** The generation transcript

    [GenerationTranscript] streams tagged fields into SHA-256. The transcript is
    the list of fields; [encode_transcript] is the byte stream that is hashed.
    Tags are at most [u16::MAX] bytes and sequences at most [u32::MAX] elements,
    which the code enforces by panicking. *)

Abbreviation Field := (string * bytes)%type.

Definition GENERATION_DOMAIN_V1 : bytes :=
  as_bytes "zcash_voting.chain_submission.generation.v1" ++ [Byte.x00].
Definition IMPORTED_DELEGATION_DOMAIN_V1 : bytes :=
  as_bytes "zcash_voting.chain_submission.imported_delegation.v1" ++ [Byte.x00].

(** [GenerationTranscript::field]. *)
Definition field_bytes (f : Field) : bytes :=
  be_bytes 2 (N.of_nat (length (as_bytes f.1))) ++ as_bytes f.1 ++ length_prefixed f.2.

Definition encode_transcript (domain : bytes) (fields : list Field) : bytes :=
  domain ++ concat (map field_bytes fields).

Definition u32_field (tag : string) (v : N) : list Field := [(tag, be_bytes 4 v)].
Definition u64_field (tag : string) (v : N) : list Field := [(tag, be_bytes 8 v)].
Definition bool_field (tag : string) (v : bool) : list Field :=
  [(tag, [if v then Byte.x01 else Byte.x00])].
Definition bytes_field (tag : string) (v : bytes) : list Field := [(tag, v)].
Definition bytes32_field (tag : string) (v : bytes32) : list Field := [(tag, bytes32_bytes v)].

(** The elements of [GenerationTranscript::sequence], from index [start] on. *)
Fixpoint sequence_items {A} (encode : N -> A -> list Field) (start : N) (values : list A) : list Field :=
  match values with
  | [] => []
  | v :: rest => encode start v ++ sequence_items encode (start + 1) rest
  end.

Definition sequence_field {A} (tag : string) (encode : N -> A -> list Field) (values : list A) :
  list Field :=
  u32_field (String.append tag ".count") (N.of_nat (length values)) ++ sequence_items encode 0 values.

(** [format!("{tag}.{index}")] and [format!("{tag}.{suffix}")]. *)
Definition indexed (tag : string) (index : N) : string :=
  String.append tag (String.append "." (pretty index)).
Definition dotted (tag suffix : string) : string := String.append tag (String.append "." suffix).

Definition hash_identity (i : ChainSubmissionIdentity) : list Field :=
  bytes_field "identity.wallet_id" (as_bytes (wallet_id i))
  ++ bytes_field "identity.network" (as_bytes (network_name (network i)))
  ++ bytes32_field "identity.vote_round_id" (vote_round_id i)
  ++ u32_field "identity.bundle_index" (bundle_index i)
  ++ match target i with
     | TargetDelegation => bytes_field "identity.kind" (as_bytes "delegation")
     | TargetVote proposal_id =>
         bytes_field "identity.kind" (as_bytes "vote")
         ++ u32_field "identity.proposal_id" proposal_id
     | TargetVoteBatch digest | TargetDelegateAndVoteBatch digest =>
         bytes_field "identity.kind"
           (as_bytes (if is_combined (target i) then "delegate_and_cast_vote_batch"
                      else "vote_batch"))
         ++ bytes32_field "identity.ordered_batch_digest" digest
     end.

Definition bytes32_sequence (tag : string) (values : list bytes32) : list Field :=
  sequence_field tag (fun index v => bytes32_field (indexed tag index) v) values.

Definition hash_delegation_inputs (d : DelegationGenerationInputs) : list Field :=
  sequence_field "delegation.note_positions"
    (fun index p => u64_field (indexed "delegation.note_positions" index) p) (note_positions d)
  ++ bytes32_sequence "delegation.note_identity_hashes" (note_identity_hashes d)
  ++ bytes32_field "delegation.van_comm_rand" (van_comm_rand d)
  ++ bytes32_sequence "delegation.dummy_nullifiers" (dummy_nullifiers d)
  ++ bytes32_field "delegation.rho_signed" (rho_signed d)
  ++ bytes32_sequence "delegation.padded_note_data" (padded_note_data d)
  ++ bytes32_field "delegation.nf_signed" (nf_signed d)
  ++ bytes32_field "delegation.cmx_new" (cmx_new d)
  ++ bytes32_field "delegation.alpha" (alpha d)
  ++ bytes32_field "delegation.rseed_signed" (rseed_signed d)
  ++ bytes32_field "delegation.rseed_output" (rseed_output d)
  ++ bytes32_field "delegation.gov_comm" (gov_comm d)
  ++ u64_field "delegation.total_note_value" (total_note_value d)
  ++ u32_field "delegation.address_index" (address_index d)
  ++ bytes32_field "delegation.rk" (rk d)
  ++ bytes32_sequence "delegation.gov_nullifiers" (gov_nullifiers d)
  ++ sequence_field "delegation.padded_note_secrets"
       (fun index secret =>
          let tag := indexed "delegation.padded_note_secrets" index in
          bytes32_field (dotted tag "rho") secret.1 ++ bytes32_field (dotted tag "rseed") secret.2)
       (padded_note_secrets d)
  ++ bytes32_field "delegation.pczt_sighash" (pczt_sighash d)
  ++ bytes_field "delegation.tx1_effects" (tx1_effects d)
  ++ bytes_field "delegation.proof" (delegation_proof d).

Definition hash_encrypted_share (prefix : string) (s : EncryptedShare) : list Field :=
  bytes_field (dotted prefix "c1") (share_c1 s)
  ++ bytes_field (dotted prefix "c2") (share_c2 s)
  ++ u32_field (dotted prefix "share_index") (share_index s)
  ++ u64_field (dotted prefix "plaintext_value") (share_plaintext_value s)
  ++ bytes_field (dotted prefix "randomness") (share_randomness s).

Definition hash_batch_membership (prefix : string) (b : option VoteBatchRecovery) : list Field :=
  match b with
  | None => bytes_field (dotted prefix "batch") (as_bytes "singleton")
  | Some batch =>
      bytes_field (dotted prefix "batch") (as_bytes "member")
      ++ bytes32_field (dotted prefix "batch.digest") (batch_recovery_digest batch)
      ++ u32_field (dotted prefix "batch.index") (batch_index batch)
      ++ u32_field (dotted prefix "batch.size") (batch_size batch)
  end.

Definition hash_vote_recovery (prefix : string) (r : VoteRecoveryBundle) : list Field :=
  bytes_field (dotted prefix "vote_round_id") (as_bytes (rec_vote_round_id r))
  ++ u32_field (dotted prefix "bundle_index") (rec_bundle_index r)
  ++ u32_field (dotted prefix "proposal_id") (rec_proposal_id r)
  ++ u32_field (dotted prefix "vote_decision") (rec_vote_decision r)
  ++ u32_field (dotted prefix "anchor_height") (rec_anchor_height r)
  ++ bool_field (dotted prefix "single_share") (rec_single_share r)
  ++ u32_field (dotted prefix "num_options") (rec_num_options r)
  ++ bytes32_field (dotted prefix "van_nullifier") (rec_van_nullifier r)
  ++ bytes32_field (dotted prefix "vote_authority_note_new") (rec_vote_authority_note_new r)
  ++ bytes32_field (dotted prefix "vote_commitment") (rec_vote_commitment r)
  ++ bytes_field (dotted prefix "proof") (rec_proof r)
  ++ bytes32_field (dotted prefix "shares_hash") (rec_shares_hash r)
  ++ bytes32_field (dotted prefix "r_vpk") (rec_r_vpk r)
  ++ bytes32_field (dotted prefix "alpha_v") (rec_alpha_v r)
  ++ bytes_field (dotted prefix "vote_auth_sig") (rec_vote_auth_sig r)
  ++ sequence_field (dotted prefix "encrypted_shares")
       (fun index s => hash_encrypted_share (indexed (dotted prefix "encrypted_shares") index) s)
       (rec_encrypted_shares r)
  ++ bytes32_sequence (dotted prefix "share_blinds") (rec_share_blinds r)
  ++ bytes32_sequence (dotted prefix "share_comms") (rec_share_comms r)
  ++ hash_batch_membership prefix (rec_batch r).

Definition hash_votes (recoveries : list VoteRecoveryBundle) : list Field :=
  sequence_field "votes" (fun index r => hash_vote_recovery (indexed "votes" index) r) recoveries.

(** What one generation digest commits to. *)
Inductive GenerationSubject : Type :=
| SubjectDelegation (i : ChainSubmissionIdentity) (d : DelegationGenerationInputs)
| SubjectImported (i : ChainSubmissionIdentity) (governance_commitment : bytes32)
    (transaction_hash : CandidateTransactionHash)
| SubjectVotes (i : ChainSubmissionIdentity) (recoveries : list VoteRecoveryBundle)
| SubjectCombined (i : ChainSubmissionIdentity) (d : DelegationGenerationInputs)
    (recoveries : list VoteRecoveryBundle).

Definition subject_identity (s : GenerationSubject) : ChainSubmissionIdentity :=
  match s with
  | SubjectDelegation i _ | SubjectImported i _ _ | SubjectVotes i _ | SubjectCombined i _ _ => i
  end.

(** The transcript domain and fields of a generation: [delegation_generation],
    [generation_for_imported_delegation], [vote_generation] and the combined
    branch of [validated_vote_batch]. *)
Definition subject_domain (s : GenerationSubject) : bytes :=
  match s with
  | SubjectImported _ _ _ => IMPORTED_DELEGATION_DOMAIN_V1
  | _ => GENERATION_DOMAIN_V1
  end.

Definition subject_fields (s : GenerationSubject) : list Field :=
  match s with
  | SubjectDelegation i d => hash_identity i ++ hash_delegation_inputs d
  | SubjectImported i commitment hash =>
      hash_identity i ++ bytes32_field "imported_delegation.gov_comm" commitment
      ++ bytes32_field "imported_delegation.transaction_hash" hash
  | SubjectVotes i recoveries => hash_identity i ++ hash_votes recoveries
  | SubjectCombined i d recoveries =>
      hash_identity i ++ hash_delegation_inputs d ++ hash_votes recoveries
  end.

Definition subject_transcript (s : GenerationSubject) : bytes :=
  encode_transcript (subject_domain s) (subject_fields s).

Definition subject_generation `{Sha256Crate} (s : GenerationSubject) : ChainSubmissionGeneration :=
  {| generation_identity := subject_identity s; generation_digest := sha256 (subject_transcript s) |}.

(** ** Derivation from durable inputs *)

(** The rest of the voting database, as derivation reads it, and the wire
    encoders of [wire.rs], [delegate.rs] and [vote.rs]. *)
Class GenerationTables : Type := {
  Tables : Type;
  DelegationWire : Type;
  VoteWire : Type;
  (** [gov_nullifiers.len()] of a delegation request and the base64
      [van_nullifier] of a vote request. *)
  wire_gov_nullifier_count : DelegationWire -> nat;
  wire_van_nullifier : VoteWire -> string;
  (** [queries::load_round_network]: round id, wallet id. *)
  load_round_network : Tables -> string -> string -> result VotingError Network;
  (** The joined [bundles] and successful [proofs] row. *)
  query_delegation_row : Tables -> string -> string -> N -> result VotingError (option RawDelegationRow);
  (** [gov_comm], [delegation_tx_hash] and the imported-capability predicate. *)
  query_imported_row : Tables -> string -> string -> N ->
    result VotingError (option (option bytes * option string * bool));
  (** [CandidateTransactionHash::from_str], with its [Display] error text. *)
  parse_transaction_hash : string -> result text CandidateTransactionHash;
  (** [vote::recovery_bundle_with_conn]: wallet, round, bundle, proposal. *)
  recovery_bundle_with_conn : Tables -> string -> string -> N -> N ->
    result VotingError (option VoteRecoveryBundle);
  (** [queries::load_vote_row_state]. *)
  load_vote_row_state : Tables -> string -> string -> N -> N -> result VotingError (option VoteRowState);
  (** Every parsed recovery bundle of one note bundle. *)
  query_bundle_recoveries : Tables -> string -> string -> N -> result VotingError (list VoteRecoveryBundle);
  (** A parsed membership holds [u32] values. *)
  query_bundle_recoveries_typed : forall t wallet round_id b rs,
    query_bundle_recoveries t wallet round_id b = Ok rs ->
    forall r m, r ∈ rs -> rec_batch r = Some m -> (batch_size m <= u32_max)%N;
  (** [vote::stored_vote_commitment_bytes]. *)
  stored_vote_commitment_bytes : VoteRecoveryBundle -> result VotingError bytes;
  (** [delegate_and_vote_batch_sighash] and [cast_vote_batch_sighash]. *)
  delegate_and_vote_batch_sighash : string -> bytes32 -> list CastVoteBatchSighashAction ->
    result VotingError bytes32;
  cast_vote_batch_sighash : string -> N -> list CastVoteBatchSighashAction -> result VotingError bytes32;
  (** [delegate::submission_with_conn] followed by the wire conversion. *)
  delegation_submission : Tables -> string -> string -> N -> bytes -> result VotingError DelegationWire;
  (** [vote::wire_submission_from_recovery]. *)
  wire_submission_from_recovery : VoteRecoveryBundle -> result VotingError VoteWire;
  (** [DelegationAuthorization::recover_submission]. *)
  recover_submission : Tables -> string -> string -> N -> bytes32 -> result VotingError DelegationWire;
  (** [DelegateAndVoteBatchWire::authorization_digest]. *)
  authorization_digest : DelegationWire -> list VoteWire -> result VotingError bytes32
}.

Section derivation.
Context `{GT : GenerationTables, HX : HexCrate, SH : Sha256Crate}.

Inductive ChainSubmissionRequest : Type :=
| RequestDelegation (w : DelegationWire)
| RequestImportedDelegation (candidate : CandidateTransactionHash)
| RequestVote (w : VoteWire)
| RequestVoteBatch (votes : list VoteWire)
| RequestDelegateAndVoteBatch (delegation : DelegationWire) (votes : list VoteWire).

Record DerivedChainSubmission : Type := {
  derived_bound : BoundGeneration;
  derived_request : ChainSubmissionRequest
}.

Definition derived_generation (d : DerivedChainSubmission) : ChainSubmissionGeneration :=
  bound_generation (derived_bound d).

Definition imported_candidate (d : DerivedChainSubmission) : option CandidateTransactionHash :=
  match derived_request d with RequestImportedDelegation candidate => Some candidate | _ => None end.

Definition round_hex (i : ChainSubmissionIdentity) : string := hex_encode (vote_round_id i).

Definition validate_identity_context (t : Tables) (i : ChainSubmissionIdentity) :
  result VotingError string :=
  network' ← load_round_network t (round_hex i) (wallet_id i);
  _ ← fail_if (negb (bool_decide (network' = network i)))
        (VeInvalidInput (chars "chain submission identity network does not match the stored round"));
  Ok (round_hex i).

Definition load_delegation_inputs (t : Tables) (i : ChainSubmissionIdentity) (round_id : string) :
  result VotingError (option DelegationGenerationInputs) :=
  row ← query_delegation_row t round_id (wallet_id i) (bundle_index i);
  match row with
  | None => Ok None
  | Some row => inputs ← decode_delegation_row row; Ok (Some inputs)
  end.

Definition imported_bundle_text (round_id : string) (b : N) : text :=
  chars "round=" ++ chars round_id ++ chars ", bundle=" ++ decimal b.

Definition generation_for_imported_delegation (t : Tables) (i : ChainSubmissionIdentity) :
  result VotingError (BoundGeneration * CandidateTransactionHash) :=
  _ ← fail_if (negb (bool_decide (target i = TargetDelegation)))
        (VeInvalidInput (chars "imported delegation generation requires a delegation identity"));
  round_id ← validate_identity_context t i;
  row ← query_imported_row t round_id (wallet_id i) (bundle_index i);
  match row with
  | None =>
      Err (VeInvalidInput (chars "imported delegation capability bundle not found for "
                           ++ imported_bundle_text round_id (bundle_index i)))
  | Some (Some commitment, Some transaction_hash, true) =>
      commitment ← checked_blob32 commitment (chars "imported gov_comm");
      candidate ← map_err (fun e => VeInvalidInput
                     (chars "stored imported delegation transaction hash is invalid: " ++ e))
                     (parse_transaction_hash transaction_hash);
      Ok ({| bound_generation := subject_generation (SubjectImported i commitment candidate);
             expected_layout := LayoutDelegation commitment;
             ordered_proposal_ids := [] |}, candidate)
  | Some _ =>
      Err (VeInvalidInput (imported_bundle_text round_id (bundle_index i)
                           ++ chars " is not an imported delegation capability bundle"))
  end.

Definition derive_imported_delegation (t : Tables) (i : ChainSubmissionIdentity) :
  result VotingError DerivedChainSubmission :=
  imported ← generation_for_imported_delegation t i;
  Ok {| derived_bound := imported.1; derived_request := RequestImportedDelegation imported.2 |}.

Definition complete_generation_for_delegation (t : Tables) (i : ChainSubmissionIdentity) :
  result VotingError (option BoundGeneration) :=
  _ ← fail_if (negb (bool_decide (target i = TargetDelegation)))
        (VeInvalidInput (chars "delegation generation requires a delegation identity"));
  round_id ← validate_identity_context t i;
  inputs ← load_delegation_inputs t i round_id;
  match inputs with
  | None => Ok None
  | Some inputs =>
      Ok (Some {| bound_generation := subject_generation (SubjectDelegation i inputs);
                  expected_layout := LayoutDelegation (gov_comm inputs);
                  ordered_proposal_ids := [] |})
  end.

Definition generation_for_delegation (t : Tables) (i : ChainSubmissionIdentity) :
  result VotingError BoundGeneration :=
  bound ← complete_generation_for_delegation t i;
  ok_or bound (VeInvalidInput (chars "complete delegation generation not found for "
                               ++ imported_bundle_text (round_hex i) (bundle_index i))).

Definition derive_delegation (t : Tables) (i : ChainSubmissionIdentity) (signature : bytes) :
  result VotingError DerivedChainSubmission :=
  bound ← generation_for_delegation t i;
  request ← delegation_submission t (wallet_id i) (round_hex i) (bundle_index i) signature;
  Ok {| derived_bound := bound; derived_request := RequestDelegation request |}.

Definition vote_location (round_id : string) (b p : N) : text :=
  imported_bundle_text round_id b ++ chars ", proposal=" ++ decimal p.

Definition vote_recovery_identity_mismatch_error (round_id : string) (b p : N) (field : text) :
  VotingError :=
  VeInvalidInput (chars "vote recovery bundle " ++ field ++ chars " mismatch for "
                  ++ vote_location round_id b p).

(** [vote::validate_recovery_matches_stored_vote]. *)
Definition validate_recovery_matches_stored_vote (r : VoteRecoveryBundle) (round_id : string)
  (b p : N) (stored_choice : Z) (stored_commitment : option bytes) : result VotingError unit :=
  let mismatch field := vote_recovery_identity_mismatch_error round_id b p (chars field) in
  _ ← fail_if (negb (bool_decide (rec_vote_round_id r = round_id))) (mismatch "round_id");
  _ ← fail_if (negb (bool_decide (rec_bundle_index r = b))) (mismatch "bundle_index");
  _ ← fail_if (negb (bool_decide (rec_proposal_id r = p))) (mismatch "proposal_id");
  choice ← ok_or (u32_try_from stored_choice)
             (VeInternal (chars "stored vote choice must be non-negative, got "
                          ++ decimal_Z stored_choice));
  _ ← fail_if (negb (bool_decide (rec_vote_decision r = choice))) (mismatch "vote_decision");
  match stored_commitment with
  | None => Ok tt
  | Some stored =>
      recovery_commitment ← stored_vote_commitment_bytes r;
      fail_if (negb (bool_decide (stored = recovery_commitment))) (mismatch "commitment")
  end.

Definition load_validated_vote (t : Tables) (i : ChainSubmissionIdentity) (round_id : string) (p : N) :
  result VotingError VoteRecoveryBundle :=
  found ← recovery_bundle_with_conn t (wallet_id i) round_id (bundle_index i) p;
  recovery ← ok_or found (VeInvalidInput (chars "vote recovery bundle not found for "
                                          ++ vote_location round_id (bundle_index i) p));
  state ← load_vote_row_state t round_id (wallet_id i) (bundle_index i) p;
  state ← ok_or state (VeInvalidInput (chars "vote not found for "
                                       ++ vote_location round_id (bundle_index i) p));
  _ ← validate_recovery_matches_stored_vote recovery round_id (bundle_index i) p
        (vote_choice state) (vote_row_commitment state);
  Ok recovery.

(** [vote::ensure_singleton_vote_recovery]. *)
Definition ensure_singleton_vote_recovery (r : VoteRecoveryBundle) : result VotingError unit :=
  fail_if (match rec_batch r with Some _ => true | None => false end)
    (VeInvalidInput (chars "vote belongs to an atomic batch; use the complete batch lifecycle instead of a per-vote API")).

Definition validated_singleton_vote (t : Tables) (i : ChainSubmissionIdentity) :
  result VotingError (BoundGeneration * VoteRecoveryBundle) :=
  match target i with
  | TargetVote p =>
      round_id ← validate_identity_context t i;
      recovery ← load_validated_vote t i round_id p;
      _ ← ensure_singleton_vote_recovery recovery;
      Ok ({| bound_generation := subject_generation (SubjectVotes i [recovery]);
             expected_layout := LayoutVote (rec_vote_authority_note_new recovery)
                                  (rec_vote_commitment recovery);
             ordered_proposal_ids := [p] |}, recovery)
  | _ => Err (VeInvalidInput (chars "singleton vote generation requires a vote identity"))
  end.

Definition derive_vote (t : Tables) (i : ChainSubmissionIdentity) :
  result VotingError DerivedChainSubmission :=
  bound ← validated_singleton_vote t i;
  request ← wire_submission_from_recovery bound.2;
  Ok {| derived_bound := bound.1; derived_request := RequestVote request |}.

(** *** Atomic batches *)

Definition in_batch (digest : bytes32) (r : VoteRecoveryBundle) : bool :=
  match rec_batch r with Some b => bool_decide (batch_recovery_digest b = digest) | None => false end.

(** The sort key [recovery.batch.map(|batch| batch.index)]; [None] sorts first. *)
Definition batch_order (r s : VoteRecoveryBundle) : Prop :=
  match rec_batch r, rec_batch s with
  | None, _ => True
  | Some _, None => False
  | Some a, Some b => (batch_index a <= batch_index b)%N
  end.

#[export] Instance batch_order_dec : RelDecision batch_order.
Proof. intros r s. unfold batch_order. destruct (rec_batch r), (rec_batch s); apply _. Defined.

(** Whether the member at [index] sits at its index in a batch of [size]. *)
Definition member_in_place (digest : bytes32) (size : nat) (index : nat) (r : VoteRecoveryBundle) : bool :=
  match rec_batch r with
  | None => false
  | Some b => bool_decide (batch_recovery_digest b = digest)
              && bool_decide (batch_index b = N.of_nat index)
              && bool_decide (batch_size b = N.of_nat size)
  end.

Fixpoint members_in_place (digest : bytes32) (size : nat) (index : nat)
  (rs : list VoteRecoveryBundle) : bool :=
  match rs with
  | [] => true
  | r :: rest => member_in_place digest size index r && members_in_place digest size (S index) rest
  end.

Definition recovery_action (r : VoteRecoveryBundle) : CastVoteBatchSighashAction :=
  {| action_r_vpk := rec_r_vpk r; action_van_nullifier := rec_van_nullifier r;
     action_vote_authority_note_new := rec_vote_authority_note_new r;
     action_vote_commitment := rec_vote_commitment r; action_proposal_id := rec_proposal_id r |}.

Definition recovery_van (r : VoteRecoveryBundle) : option bytes32 :=
  b ← rec_batch r; batch_delegation_van b.

(** [vote::assemble_vote_batch_recoveries]. *)
Definition assemble_vote_batch_recoveries (round_id : string) (b : N) (digest : bytes32)
  (candidates : list VoteRecoveryBundle) : result VotingError (list VoteRecoveryBundle) :=
  let recoveries := merge_sort batch_order (List.filter (in_batch digest) candidates) in
  match recoveries with
  | [] =>
      Err (VeInvalidInput (chars "vote batch recovery not found for "
             ++ imported_bundle_text round_id b ++ chars ", digest=" ++ chars (hex_encode digest)))
  | first :: _ =>
      expected_size ← ok_or (batch_size <$> rec_batch first)
          (VeInvalidInput (chars "vote batch recovery not found for "
             ++ imported_bundle_text round_id b ++ chars ", digest=" ++ chars (hex_encode digest)));
      _ ← fail_if (negb (bool_decide (length recoveries = N.to_nat expected_size))
                   || negb (members_in_place digest (N.to_nat expected_size) 0 recoveries))
            (VeInvalidInput (chars "persisted atomic vote batch is incomplete or out of order"));
      let actions := map recovery_action recoveries in
      let initial_van := recovery_van first in
      _ ← fail_if (existsb (fun r => negb (bool_decide (recovery_van r = initial_van))
                      || (bool_decide (is_Some initial_van) && negb (bool_decide (rec_anchor_height r = 0%N))))
                     recoveries)
            (VeInvalidInput (chars "inconsistent combined batch authorization"));
      recomputed ← match initial_van with
                   | Some van => delegate_and_vote_batch_sighash round_id van actions
                   | None => cast_vote_batch_sighash round_id (rec_anchor_height first) actions
                   end;
      _ ← fail_if (negb (bool_decide (recomputed = digest)))
            (VeInvalidInput (chars "persisted atomic vote batch digest does not match its actions"));
      Ok recoveries
  end.

(** [vote::load_vote_batch_recoveries_with_conn]. *)
Definition load_vote_batch_recoveries (t : Tables) (wallet round_id : string) (b : N) (digest : bytes32) :
  result VotingError (list VoteRecoveryBundle) :=
  recoveries ← query_bundle_recoveries t wallet round_id b;
  assemble_vote_batch_recoveries round_id b digest recoveries.

(** One iteration of the membership loop of [validated_vote_batch]. *)
Definition validate_batch_member (t : Tables) (i : ChainSubmissionIdentity) (round_id : string)
  (digest : bytes32) (expected_anchor : N) (r : VoteRecoveryBundle) : result VotingError N :=
  _ ← fail_if (negb (bool_decide (rec_anchor_height r = expected_anchor)))
        (VeInvalidInput (chars "persisted atomic vote batch has inconsistent anchor heights"));
  validated ← load_validated_vote t i round_id (rec_proposal_id r);
  _ ← fail_if (negb (bool_decide (batch_recovery_digest <$> rec_batch validated = Some digest)))
        (VeInvalidInput (chars "persisted atomic vote batch membership changed during derivation"));
  Ok (rec_proposal_id r).

(** [validated_vote_batch]. Assembly never returns an empty batch, so the empty
    branch, where the code would index out of bounds, is dead. *)
Definition validated_vote_batch (t : Tables) (i : ChainSubmissionIdentity) :
  result VotingError (BoundGeneration * list VoteRecoveryBundle) :=
  match batch_digest (target i) with
  | None => Err (VeInvalidInput (chars "vote batch generation requires a vote_batch identity"))
  | Some digest =>
      round_id ← validate_identity_context t i;
      recoveries ← load_vote_batch_recoveries t (wallet_id i) round_id (bundle_index i) digest;
      match recoveries with
      | [] => Err (VeInternal (chars "index out of bounds"))
      | first :: _ =>
          let combined_van := recovery_van first in
          _ ← fail_if (negb (eqb (bool_decide (is_Some combined_van)) (is_combined (target i))))
                (VeInvalidInput (chars "batch authorization does not match submission kind"));
          let expected_anchor := rec_anchor_height first in
          proposal_ids ← collect_results
                           (validate_batch_member t i round_id digest expected_anchor) recoveries;
          _ ← fail_if (negb (bool_decide (size (list_to_set proposal_ids : gset N) = length proposal_ids)))
                (VeInvalidInput (chars "persisted atomic vote batch contains duplicate proposals"));
          let final_successor_van :=
            default (rec_vote_authority_note_new first)
              (rec_vote_authority_note_new <$> last recoveries) in
          generation ←
            match combined_van with
            | Some initial_van =>
                inputs ← load_delegation_inputs t i round_id;
                inputs ← ok_or inputs
                           (VeInvalidInput (chars "combined delegation setup is missing"));
                _ ← fail_if (negb (bool_decide (initial_van = gov_comm inputs))
                             || negb (bool_decide (expected_anchor = 0%N)))
                      (VeInvalidInput (chars "combined casts do not bind the persisted delegation VAN"));
                Ok (subject_generation (SubjectCombined i inputs recoveries))
            | None => Ok (subject_generation (SubjectVotes i recoveries))
            end;
          Ok ({| bound_generation := generation;
                 expected_layout := LayoutVoteBatch final_successor_van
                                      (map rec_vote_commitment recoveries);
                 ordered_proposal_ids := proposal_ids |}, recoveries)
      end
  end.

Definition derive_vote_batch (t : Tables) (i : ChainSubmissionIdentity) :
  result VotingError DerivedChainSubmission :=
  bound ← validated_vote_batch t i;
  requests ← collect_results wire_submission_from_recovery bound.2;
  request ←
    match target i with
    | TargetDelegateAndVoteBatch digest =>
        delegation ← recover_submission t (wallet_id i) (round_hex i) (bundle_index i) digest;
        authorized ← authorization_digest delegation requests;
        _ ← fail_if (negb (bool_decide (Some authorized = batch_digest (target i))))
              (VeInvalidInput (chars "combined authorization digest mismatch"));
        Ok (RequestDelegateAndVoteBatch delegation requests)
    | _ => Ok (RequestVoteBatch requests)
    end;
  Ok {| derived_bound := bound.1; derived_request := request |}.

(** *** Derivation requests *)

Inductive SubmissionDerivationRequest : Type :=
| DeriveDelegation (i : ChainSubmissionIdentity) (spend_auth_signature : bytes)
| DeriveImportedDelegation (i : ChainSubmissionIdentity)
| DeriveVote (i : ChainSubmissionIdentity)
| DeriveVoteBatch (i : ChainSubmissionIdentity).

Definition derivation_identity (r : SubmissionDerivationRequest) : ChainSubmissionIdentity :=
  match r with
  | DeriveDelegation i _ | DeriveImportedDelegation i | DeriveVote i | DeriveVoteBatch i => i
  end.

(** [store.rs]: the failure a derivation error becomes. *)
Definition map_generation_error (e : VotingError) : ChainSubmissionFailure :=
  without_state (match e with VeInvalidInput _ => InvalidInput | _ => Storage end)
    (voting_error_text e).

(** [store/sqlite.rs]: [derive]. *)
Definition derive (t : Tables) (r : SubmissionDerivationRequest) :
  result ChainSubmissionFailure DerivedChainSubmission :=
  map_err map_generation_error
    match r with
    | DeriveDelegation i signature => derive_delegation t i signature
    | DeriveImportedDelegation i => derive_imported_delegation t i
    | DeriveVote i => derive_vote t i
    | DeriveVoteBatch i => derive_vote_batch t i
    end.

End derivation.

(** ** Machine ranges of hashed inputs *)

Definition short {A} (l : list A) : Prop := (N.of_nat (length l) <= u32_max)%N.

Record delegation_in_range (d : DelegationGenerationInputs) : Prop := {
  range_note_positions : short (note_positions d) /\ Forall (fun p => (p <= u64_max)%N) (note_positions d);
  range_sequences : short (note_identity_hashes d) /\ short (dummy_nullifiers d)
    /\ short (padded_note_data d) /\ short (gov_nullifiers d) /\ short (padded_note_secrets d);
  range_value : (total_note_value d <= u64_max)%N;
  range_address : (address_index d <= u32_max)%N;
  range_blobs : sized (tx1_effects d) /\ sized (delegation_proof d)
}.

Definition share_in_range (s : EncryptedShare) : Prop :=
  sized (share_c1 s) /\ sized (share_c2 s) /\ sized (share_randomness s)
  /\ (share_index s <= u32_max)%N /\ (share_plaintext_value s <= u64_max)%N.

Definition batch_in_range (b : option VoteBatchRecovery) : Prop :=
  match b with Some b => (batch_index b <= u32_max)%N /\ (batch_size b <= u32_max)%N | None => True end.

Record recovery_in_range (r : VoteRecoveryBundle) : Prop := {
  range_ids : sized (as_bytes (rec_vote_round_id r)) /\ (rec_bundle_index r <= u32_max)%N
    /\ (rec_proposal_id r <= u32_max)%N /\ (rec_vote_decision r <= u32_max)%N
    /\ (rec_anchor_height r <= u32_max)%N /\ (rec_num_options r <= u32_max)%N;
  range_rec_blobs : sized (rec_proof r) /\ sized (rec_vote_auth_sig r);
  range_shares : short (rec_encrypted_shares r) /\ Forall share_in_range (rec_encrypted_shares r);
  range_rec_sequences : short (rec_share_blinds r) /\ short (rec_share_comms r);
  range_batch : batch_in_range (rec_batch r)
}.

(** The target kind each hashed subject belongs to, with every field in range. *)
Definition subject_in_range (s : GenerationSubject) : Prop :=
  identity_in_range (subject_identity s) /\
  match s with
  | SubjectDelegation i d => target i = TargetDelegation /\ delegation_in_range d
  | SubjectImported i _ _ => target i = TargetDelegation
  | SubjectVotes i rs =>
      is_combined (target i) = false /\ target i <> TargetDelegation
      /\ short rs /\ Forall recovery_in_range rs
  | SubjectCombined i d rs =>
      is_combined (target i) = true /\ delegation_in_range d
      /\ short rs /\ Forall recovery_in_range rs
  end.

(** The hashed part of a recovery bundle: everything but the confirmation
    position and the combined VAN, which the batch digest binds. *)
Definition recovery_semantics (r : VoteRecoveryBundle) : VoteRecoveryBundle :=
  {| rec_vote_round_id := rec_vote_round_id r; rec_bundle_index := rec_bundle_index r;
     rec_proposal_id := rec_proposal_id r; rec_vote_decision := rec_vote_decision r;
     rec_anchor_height := rec_anchor_height r; rec_vc_tree_position := 0;
     rec_single_share := rec_single_share r; rec_num_options := rec_num_options r;
     rec_van_nullifier := rec_van_nullifier r;
     rec_vote_authority_note_new := rec_vote_authority_note_new r;
     rec_vote_commitment := rec_vote_commitment r; rec_proof := rec_proof r;
     rec_shares_hash := rec_shares_hash r; rec_r_vpk := rec_r_vpk r; rec_alpha_v := rec_alpha_v r;
     rec_vote_auth_sig := rec_vote_auth_sig r; rec_encrypted_shares := rec_encrypted_shares r;
     rec_share_blinds := rec_share_blinds r; rec_share_comms := rec_share_comms r;
     rec_batch := (fun b => {| batch_delegation_van := None;
                               batch_recovery_digest := batch_recovery_digest b;
                               batch_index := batch_index b; batch_size := batch_size b |})
                    <$> rec_batch r |}.

Definition subject_semantics (s : GenerationSubject) : GenerationSubject :=
  match s with
  | SubjectVotes i rs => SubjectVotes i (map recovery_semantics rs)
  | SubjectCombined i d rs => SubjectCombined i d (map recovery_semantics rs)
  | _ => s
  end.

(** ** Transcripts decode uniquely *)

Definition enc (fields : list Field) : bytes := concat (map field_bytes fields).

Lemma enc_app f g : enc (f ++ g) = enc f ++ enc g.
Proof. unfold enc. by rewrite map_app, concat_app. Qed.

(** An encoder whose output, followed by anything, determines [sem a] and the
    remaining bytes. *)
Definition decodes {A B} (P : A -> Prop) (sem : A -> B) (e : A -> list Field) : Prop :=
  forall a b x y, P a -> P b -> enc (e a) ++ x = enc (e b) ++ y -> sem a = sem b /\ x = y.

Lemma bytes_field_decodes tag : decodes sized id (bytes_field tag).
Proof.
  intros v w x y Hv Hw. unfold enc, bytes_field, field_bytes. cbn [map concat fst snd].
  rewrite !app_nil_r, <- !app_assoc. intros H%app_inv_head%app_inv_head.
  by apply length_prefixed_app_inj in H.
Qed.

Lemma bytes32_field_decodes tag : decodes (fun _ => True) id (bytes32_field tag).
Proof.
  intros v w x y _ _ [H ->]%(bytes_field_decodes tag); [|auto with voting..].
  split; [by apply bytes32_eq | done].
Qed.

Lemma fixed_field_decodes n tag : (N.of_nat n <= i64_max)%N ->
  decodes (fun v => (v < 256 ^ N.of_nat n)%N) id (fun v => [(tag, be_bytes n v)]).
Proof.
  intros Hn v w x y Hv Hw [H ->]%(bytes_field_decodes tag).
  - split; [by apply be_bytes_inj in H | done].
  - unfold sized. by rewrite length_be_bytes.
  - unfold sized. by rewrite length_be_bytes.
Qed.

Lemma u32_field_decodes tag : decodes (fun v => (v <= u32_max)%N) id (u32_field tag).
Proof. intros v w x y Hv%u32_max_pow Hw%u32_max_pow. by apply (fixed_field_decodes 4 tag). Qed.

Lemma u64_field_decodes tag : decodes (fun v => (v <= u64_max)%N) id (u64_field tag).
Proof. intros v w x y Hv%u64_max_pow Hw%u64_max_pow. by apply (fixed_field_decodes 8 tag). Qed.

Lemma bool_field_decodes tag : decodes (fun _ => True) id (bool_field tag).
Proof.
  intros v w x y _ _ [H ->]%(bytes_field_decodes tag); [| by destruct v | by destruct w].
  by destruct v, w.
Qed.

Lemma sequence_items_decode {A B} P (sem : A -> B) e :
  (forall index, decodes P sem (e index)) ->
  forall l l' start x y, length l = length l' -> Forall P l -> Forall P l' ->
  enc (sequence_items e start l) ++ x = enc (sequence_items e start l') ++ y ->
  map sem l = map sem l' /\ x = y.
Proof.
  intros He. induction l as [|a l IH]; intros [|b l'] start x y Hlen Hl Hl' H; try discriminate Hlen.
  - done.
  - inversion Hl; inversion Hl'; subst. cbn [sequence_items] in H. rewrite !enc_app, <- !app_assoc in H.
    apply He in H as [Hab H]; [|done..]. apply IH in H as [Hmap ->]; [|by injection Hlen|done..].
    cbn. by rewrite Hab, Hmap.
Qed.

Lemma sequence_field_decodes {A B} tag P (sem : A -> B) e :
  (forall index, decodes P sem (e index)) ->
  decodes (fun l => short l /\ Forall P l) (map sem) (sequence_field tag e).
Proof.
  intros He l l' x y [Hs Hl] [Hs' Hl'] H. unfold sequence_field in H. rewrite !enc_app, <- !app_assoc in H.
  apply u32_field_decodes in H as [Hlen H]; [|done..].
  eapply sequence_items_decode; eauto. by apply Nat2N.inj in Hlen.
Qed.

Lemma bytes32_sequence_decodes tag : decodes short id (bytes32_sequence tag).
Proof.
  intros l l' x y Hl Hl' H.
  apply (sequence_field_decodes tag (fun _ => True) id) in H as [H ->].
  - by rewrite !map_id in H.
  - intros index. apply bytes32_field_decodes.
  - split; [done | by apply Forall_true].
  - split; [done | by apply Forall_true].
Qed.

(** Split every concatenation of an encoding equation into its parts. *)
Ltac split_enc H := rewrite ?enc_app, <- ?app_assoc in H.

(** Decode the leading field of an encoding equation. *)
Ltac decode_with lem H :=
  let E := fresh "E" in apply lem in H as [E H]; [cbv beta delta [id] in E | done..].
Ltac decode_field H :=
  lazymatch type of H with
  | enc (bytes32_field _ _) ++ _ = _ => decode_with bytes32_field_decodes H
  | enc (u32_field _ _) ++ _ = _ => decode_with u32_field_decodes H
  | enc (u64_field _ _) ++ _ = _ => decode_with u64_field_decodes H
  | enc (bool_field _ _) ++ _ = _ => decode_with bool_field_decodes H
  | enc (bytes32_sequence _ _) ++ _ = _ => decode_with bytes32_sequence_decodes H
  | enc (bytes_field _ _) ++ _ = _ => decode_with bytes_field_decodes H
  end.

Lemma encrypted_share_decodes prefix : decodes share_in_range id (hash_encrypted_share prefix).
Proof.
  intros s s' x y (? & ? & ? & ? & ?) (? & ? & ? & ? & ?) Henc. unfold hash_encrypted_share in Henc. split_enc Henc.
  do 5 decode_field Henc. split; [|done]. destruct s, s'; cbn in *. by subst.
Qed.

Lemma padded_secret_decodes tag :
  decodes (fun _ => True) id (fun secret : bytes32 * bytes32 =>
    bytes32_field (dotted tag "rho") secret.1 ++ bytes32_field (dotted tag "rseed") secret.2).
Proof.
  intros [a b] [a' b'] x y _ _ Henc. split_enc Henc. do 2 decode_field Henc. cbn in *. by subst.
Qed.

Lemma delegation_inputs_decode : decodes delegation_in_range id hash_delegation_inputs.
Proof.
  intros d d' x y [[Hs Hp] (? & ? & ? & ? & ?) ? ? [? ?]] [[Hs' Hp'] (? & ? & ? & ? & ?) ? ? [? ?]] Henc.
  unfold hash_delegation_inputs in Henc. split_enc Henc.
  apply (sequence_field_decodes _ (fun p => (p <= u64_max)%N) id) in Henc as [Epos Henc];
    [| intros index; apply u64_field_decodes | done | done].
  do 15 decode_field Henc.
  apply (sequence_field_decodes _ (fun _ => True) id) in Henc as [Esec Henc];
    [| intros index; apply padded_secret_decodes
     | split; [done | by apply Forall_true] | split; [done | by apply Forall_true]].
  do 3 decode_field Henc. rewrite !map_id in Epos, Esec.
  split; [|done]. destruct d, d'; cbn in *. by subst.
Qed.

Lemma batch_membership_decodes prefix :
  decodes batch_in_range
    (fmap (fun b => {| batch_delegation_van := None; batch_recovery_digest := batch_recovery_digest b;
                       batch_index := batch_index b; batch_size := batch_size b |}))
    (hash_batch_membership prefix).
Proof.
  intros [b|] [b'|] x y Hb Hb' Henc; cbn [hash_batch_membership] in Henc; split_enc Henc;
    (apply bytes_field_decodes in Henc as [E Henc]; [| by vm_compute | by vm_compute]); try discriminate E.
  - destruct Hb, Hb'. do 3 decode_field Henc. cbn. by rewrite E0, E1, E2.
  - done.
Qed.

Lemma vote_recovery_decodes prefix : decodes recovery_in_range recovery_semantics (hash_vote_recovery prefix).
Proof.
  intros r r' x y [(? & ? & ? & ? & ? & ?) [? ?] [? ?] [? ?] ?] [(? & ? & ? & ? & ? & ?) [? ?] [? ?] [? ?] ?] Henc.
  unfold hash_vote_recovery in Henc. split_enc Henc. do 15 decode_field Henc.
  apply (sequence_field_decodes _ share_in_range id) in Henc as [Eshares Henc];
    [| intros index; apply encrypted_share_decodes | done | done].
  do 2 decode_field Henc. apply batch_membership_decodes in Henc as [Ebatch ->]; [|done..].
  rewrite !map_id in Eshares. apply as_bytes_inj in E.
  split; [|done]. unfold recovery_semantics. rewrite Ebatch. destruct r, r'; cbn in *. by subst.
Qed.

Lemma votes_decode :
  decodes (fun rs => short rs /\ Forall recovery_in_range rs) (map recovery_semantics) hash_votes.
Proof. apply sequence_field_decodes. intros index. apply vote_recovery_decodes. Qed.

Lemma identity_decodes : decodes identity_in_range id hash_identity.
Proof.
  intros i j x y (Hwi & Hbi & Hti) (Hwj & Hbj & Htj) Henc. unfold hash_identity in Henc. split_enc Henc.
  pose proof (sized_network_name (network i)). pose proof (sized_network_name (network j)).
  do 4 decode_field Henc. apply as_bytes_inj in E. apply as_bytes_inj, network_name_inj in E0.
  destruct i as [wi ni ri bi ti], j as [wj nj rj bj tj];
    cbn [target wallet_id network vote_round_id bundle_index] in *. subst.
  destruct ti, tj; cbn [is_combined target_in_range] in *; split_enc Henc;
    (apply bytes_field_decodes in Henc as [Ek Henc]; [| by vm_compute | by vm_compute]); try discriminate Ek.
  - done.
  - decode_field Henc. by subst.
  - decode_field Henc. by subst.
  - decode_field Henc. by subst.
Qed.

Lemma subject_transcript_split s s' :
  subject_transcript s = subject_transcript s' ->
  subject_domain s = subject_domain s' /\ enc (subject_fields s) = enc (subject_fields s').
Proof.
  unfold subject_transcript, encode_transcript. fold (enc (subject_fields s)). fold (enc (subject_fields s')).
  generalize (enc (subject_fields s)) (enc (subject_fields s')). intros x y H.
  destruct s, s'; cbn [subject_domain] in *; try (split; [done | by apply app_inv_head in H]);
    discriminate H.
Qed.

(** ** Generation correctness *)

(** C39. The generation digest commits to the whole submission. The byte stream
    hashed for a delegation, an imported delegation, a vote or vote batch, or a
    combined batch determines which of the four it is, its identity, and every
    semantic input: all delegation setup fields, and every field of every vote
    recovery in order, except the confirmation position and the combined VAN
    (which the batch digest in the identity binds). Equal streams never come
    from shifting bytes between fields, sequences or members. *)
Theorem generation_transcript_faithful s s' :
  subject_in_range s -> subject_in_range s' ->
  subject_transcript s = subject_transcript s' ->
  subject_semantics s = subject_semantics s'.
Proof.
  intros [Hi Hs] [Hi' Hs'] [Hdomain Henc]%subject_transcript_split.
  rewrite <- (app_nil_r (enc (subject_fields s))), <- (app_nil_r (enc (subject_fields s'))) in Henc.
  destruct s as [i d|i gc h|i rs|i d rs], s' as [i' d'|i' gc' h'|i' rs'|i' d' rs'];
    cbn [subject_domain subject_identity subject_fields] in *; try discriminate Hdomain; clear Hdomain;
    split_enc Henc; decode_with identity_decodes Henc; subst i'.
  all: try (exfalso; clear Henc; destruct_and?; destruct (target i); cbn in *; congruence).
  - destruct Hs, Hs'. decode_with delegation_inputs_decode Henc. by subst.
  - do 2 decode_field Henc. by subst.
  - destruct Hs as (? & ? & ?), Hs' as (? & ? & ?). decode_with votes_decode Henc. cbn. by rewrite E.
  - destruct Hs as (? & ? & ?), Hs' as (? & ? & ?).
    decode_with delegation_inputs_decode Henc. decode_with votes_decode Henc. cbn. by rewrite E, E0.
Qed.

(** ** What derivation guarantees *)

Lemma size_list_to_set_le (l : list N) : size (list_to_set l : gset N) <= length l.
Proof.
  induction l as [|x l IH]; cbn [list_to_set length]; [by rewrite size_empty|].
  rewrite size_union_alt, size_singleton.
  pose proof (subseteq_size (list_to_set l ∖ {[x]}) (list_to_set l : gset N) ltac:(set_solver)). lia.
Qed.

(** The [HashSet] length test detects exactly the duplicates. *)
Lemma size_list_to_set_NoDup (l : list N) :
  size (list_to_set l : gset N) = length l -> NoDup l.
Proof.
  induction l as [|x l IH]; cbn [list_to_set length]; intros H; [constructor|].
  rewrite size_union_alt, size_singleton in H. pose proof (size_list_to_set_le l) as Hle.
  pose proof (subseteq_size (list_to_set l ∖ {[x]}) (list_to_set l : gset N) ltac:(set_solver)) as Hsub.
  constructor; [|apply IH; lia]. intros Hx.
  assert ((list_to_set l ∖ {[x]} : gset N) ⊂ list_to_set l) as Hlt%subset_size by set_solver. lia.
Qed.

Section derivation_facts.
Context `{GT : GenerationTables, HX : HexCrate, SH : Sha256Crate}.

Lemma validate_identity_context_Ok t i round_id :
  validate_identity_context t i = Ok round_id -> round_id = round_hex i.
Proof. unfold validate_identity_context. intros H. by inv_ok. Qed.

Lemma members_in_place_lookup digest sz start rs index r :
  members_in_place digest sz start rs = true -> rs !! index = Some r ->
  exists b, rec_batch r = Some b /\ batch_recovery_digest b = digest
    /\ batch_index b = N.of_nat (start + index) /\ batch_size b = N.of_nat sz.
Proof.
  revert start index. induction rs as [|r' rs IH]; intros start [|index] Hin Hr; try discriminate Hr;
    cbn in Hin; apply andb_true_iff in Hin as [Hhead Hrest].
  - injection Hr as ->. unfold member_in_place in Hhead. destruct (rec_batch r) as [b|]; [|discriminate].
    inv_ok. exists b. rewrite Nat.add_0_r. auto.
  - destruct (IH (S start) index Hrest Hr) as (b & Hb & ? & Hi & ?). exists b.
    rewrite Nat.add_succ_r. auto.
Qed.

(** A batch assembled from stored recoveries: complete, in order, and hashing to
    the digest it was selected by. *)
Record assembled_batch (round_id : string) (digest : bytes32)
  (candidates rs : list VoteRecoveryBundle) : Prop := {
  assembled_nonempty : rs <> [];
  assembled_members : rs ≡ₚ List.filter (in_batch digest) candidates;
  assembled_in_place : forall index r, rs !! index = Some r ->
    exists b, rec_batch r = Some b /\ batch_recovery_digest b = digest
      /\ batch_index b = N.of_nat index /\ batch_size b = N.of_nat (length rs);
  assembled_sighash : exists first, head rs = Some first /\
    match recovery_van first with
    | Some van => delegate_and_vote_batch_sighash round_id van (map recovery_action rs)
    | None => cast_vote_batch_sighash round_id (rec_anchor_height first) (map recovery_action rs)
    end = Ok digest
}.

Lemma assemble_vote_batch_Ok round_id b digest candidates rs :
  assemble_vote_batch_recoveries round_id b digest candidates = Ok rs ->
  assembled_batch round_id digest candidates rs.
Proof.
  unfold assemble_vote_batch_recoveries.
  pose proof (merge_sort_Permutation batch_order (List.filter (in_batch digest) candidates)) as Hperm.
  destruct (merge_sort batch_order _) as [|first rest] eqn:Hsort; [done|].
  intros H. inv_ok. rename a into sz. match goal with Hl : length _ = N.to_nat sz |- _ => rename Hl into Hlen end.
  split.
  - done.
  - done.
  - intros index r Hr. rewrite Hlen. by apply (members_in_place_lookup digest _ 0 (first :: rest)).
  - by exists first.
Qed.

Lemma load_validated_vote_proposal t i round_id p r :
  load_validated_vote t i round_id p = Ok r -> rec_proposal_id r = p.
Proof. unfold load_validated_vote, validate_recovery_matches_stored_vote. intros H. by inv_ok. Qed.

Lemma validate_batch_member_Ok t i round_id digest anchor r p :
  validate_batch_member t i round_id digest anchor r = Ok p -> p = rec_proposal_id r.
Proof. unfold validate_batch_member. intros H. by inv_ok. Qed.

Lemma validated_vote_batch_Ok t i bound rs :
  validated_vote_batch t i = Ok (bound, rs) ->
  exists digest candidates,
    batch_digest (target i) = Some digest /\
    query_bundle_recoveries t (wallet_id i) (round_hex i) (bundle_index i) = Ok candidates /\
    assembled_batch (round_hex i) digest candidates rs /\
    NoDup (map rec_proposal_id rs) /\
    ordered_proposal_ids bound = map rec_proposal_id rs /\
    (exists van, rec_vote_authority_note_new <$> last rs = Some van /\
       leaves (expected_layout bound) = van :: map rec_vote_commitment rs) /\
    generation_identity (bound_generation bound) = i.
Proof.
  unfold validated_vote_batch, load_vote_batch_recoveries. destruct (batch_digest (target i)) as [digest|]; [|done].
  intros H. inv_ok. match goal with Hc : validate_identity_context _ _ = _ |- _ => apply validate_identity_context_Ok in Hc as -> end.
  match goal with Ha : assemble_vote_batch_recoveries _ _ _ _ = Ok ?l |- _ =>
    apply assemble_vote_batch_Ok in Ha as Hassembled; destruct l as [|first rest] eqn:Hrs; [done|] end.
  inv_ok. match goal with Hm : collect_results _ _ = Ok ?l |- _ =>
    apply collect_results_Ok in Hm as Hids; rename l into ids end.
  assert (ids = map rec_proposal_id (first :: rest)) as ->.
  { clear -Hids. induction Hids as [|r p rs ps Hr _ IH]; [done|].
    cbn. f_equal; [by eapply validate_batch_member_Ok | done]. }
  match goal with Hsz : size _ = length _ |- _ => apply size_list_to_set_NoDup in Hsz as Hdup end.
  eexists _, _. split; [done|]. split; [eassumption|]. split; [done|]. split; [done|]. split; [done|]. split.
  - destruct (last (first :: rest)) as [r|] eqn:Hlast.
    + by exists (rec_vote_authority_note_new r).
    + by apply last_None in Hlast.
  - destruct (recovery_van first); inv_ok; done.
Qed.

(** Every derivation is for the identity it was requested for. *)
Lemma derive_identity t r d :
  derive t r = Ok d -> generation_identity (derived_generation d) = derivation_identity r.
Proof.
  unfold derive, derived_generation. intros H. inv_ok. destruct r as [i sig|i|i|i]; cbn [derivation_identity].
  - unfold derive_delegation, generation_for_delegation, complete_generation_for_delegation in H. inv_ok.
    cbn. match goal with Hm : match ?o with _ => _ end = Ok (Some _) |- _ => destruct o; inv_ok end. done.
  - unfold derive_imported_delegation, generation_for_imported_delegation in H. inv_ok.
    cbn. repeat case_match; inv_ok; done.
  - unfold derive_vote, validated_singleton_vote in H. inv_ok. cbn. repeat case_match; inv_ok; done.
  - unfold derive_vote_batch in H. inv_ok. cbn.
    match goal with Hb : validated_vote_batch _ _ = Ok ?b |- _ => destruct b as [bound rs] end.
    by edestruct validated_vote_batch_Ok as (? & ? & ? & ? & ? & ? & ? & ? & ?).
Qed.

(** A derived batch is the complete signed batch. Whenever batch derivation
    succeeds, its members are exactly the stored recoveries carrying the batch
    digest, each at its signed index and each declaring the true size; their
    recomputed authorization hash is the digest in the identity; no proposal
    occurs twice; and the proposal roster and the expected tree leaves list the
    members in that signed order behind the last member's successor VAN. *)
Theorem vote_batch_derivation_sound t i d :
  derive t (DeriveVoteBatch i) = Ok d ->
  exists digest candidates rs van,
    batch_digest (target i) = Some digest /\
    query_bundle_recoveries t (wallet_id i) (round_hex i) (bundle_index i) = Ok candidates /\
    assembled_batch (round_hex i) digest candidates rs /\
    NoDup (map rec_proposal_id rs) /\
    ordered_proposal_ids (derived_bound d) = map rec_proposal_id rs /\
    rec_vote_authority_note_new <$> last rs = Some van /\
    leaves (expected_layout (derived_bound d)) = van :: map rec_vote_commitment rs.
Proof.
  unfold derive, derive_vote_batch. intros H. inv_ok.
  match goal with Hb : validated_vote_batch _ _ = Ok ?b |- _ => destruct b as [bound rs] end.
  edestruct validated_vote_batch_Ok as (digest & candidates & ? & ? & ? & ? & ? & (van & ? & ?) & ?); [done|].
  exists digest, candidates, rs, van. cbn. auto 8.
Qed.
End derivation_facts.

(** ** A concrete database for witnesses

    Tables hold parsed recovery bundles only; hashes and signatures are toy
    functions that satisfy the interfaces. *)

#[local] Instance sample_hex : HexCrate := 
  {| hex_encode := lower_hex; hex_decode := decode_lower_hex; hex_decode_encode := decode_lower_hex_encode |}.

#[local] Instance sample_sha256 : Sha256Crate :=
  {| sha256 := fun l => bytes32_fill (byte_of_N (N.of_nat (length l))) |}.

Definition sample_batch_digest : bytes32 := bytes32_fill Byte.xbb.

Definition sample_lookup (rs : list VoteRecoveryBundle) (b p : N) : option VoteRecoveryBundle :=
  List.find (fun r => bool_decide (rec_bundle_index r = b) && bool_decide (rec_proposal_id r = p)) rs.

#[local] Program Instance sample_tables : GenerationTables := {|
  Tables := list VoteRecoveryBundle;
  DelegationWire := unit;
  VoteWire := N;
  wire_gov_nullifier_count := fun _ => 5;
  wire_van_nullifier := fun _ => "EBAQ";
  load_round_network := fun _ _ _ => Ok Testnet;
  query_delegation_row := fun _ _ _ _ => Ok None;
  query_imported_row := fun _ _ _ _ => Ok None;
  parse_transaction_hash := fun _ => Err (chars "unavailable");
  recovery_bundle_with_conn := fun rs _ _ b p => Ok (sample_lookup rs b p);
  load_vote_row_state := fun rs _ _ b p =>
    Ok ((fun r => {| vote_choice := Z.of_N (rec_vote_decision r); vote_row_commitment := None |})
          <$> sample_lookup rs b p);
  query_bundle_recoveries := fun rs _ _ b =>
    Ok (List.filter (fun r => bool_decide (rec_bundle_index r = b)
          && match rec_batch r with Some m => bool_decide (batch_size m <= u32_max)%N | None => true end) rs);
  stored_vote_commitment_bytes := fun r => Ok (bytes32_bytes (rec_vote_commitment r));
  delegate_and_vote_batch_sighash := fun _ _ _ => Ok sample_batch_digest;
  cast_vote_batch_sighash := fun _ _ _ => Ok sample_batch_digest;
  delegation_submission := fun _ _ _ _ _ => Ok tt;
  wire_submission_from_recovery := fun r => Ok (rec_proposal_id r);
  recover_submission := fun _ _ _ _ _ => Ok tt;
  authorization_digest := fun _ _ => Ok sample_batch_digest
|}.
Next Obligation.
  intros rs _ _ b rs' [= <-] r m Hin Hm. apply list_elem_of_In, List.filter_In in Hin as [_ Hin].
  rewrite Hm in Hin. by inv_ok.
Qed.

Definition sample_recovery_at (position p : N) (batch : option VoteBatchRecovery) : VoteRecoveryBundle :=
  {| rec_vote_round_id := hex_encode (bytes32_fill Byte.x01); rec_bundle_index := 3;
     rec_proposal_id := p; rec_vote_decision := 2; rec_anchor_height := 123;
     rec_vc_tree_position := position; rec_single_share := false; rec_num_options := 3;
     rec_van_nullifier := bytes32_fill Byte.x10;
     rec_vote_authority_note_new := bytes32_fill (byte_of_N p);
     rec_vote_commitment := bytes32_fill (byte_of_N (p + 32)); rec_proof := [Byte.x13];
     rec_shares_hash := bytes32_fill Byte.x14; rec_r_vpk := bytes32_fill Byte.x15;
     rec_alpha_v := bytes32_fill Byte.x16; rec_vote_auth_sig := replicate 64 Byte.x17;
     rec_encrypted_shares := []; rec_share_blinds := []; rec_share_comms := [];
     rec_batch := batch |}.

Definition sample_recovery : N -> option VoteBatchRecovery -> VoteRecoveryBundle := sample_recovery_at 0.

Definition sample_membership (index : N) : VoteBatchRecovery :=
  {| batch_delegation_van := None; batch_recovery_digest := sample_batch_digest;
     batch_index := index; batch_size := 2 |}.

(** A two-member batch, stored out of order, beside a singleton vote. *)
Definition sample_store : @Tables sample_tables :=
  [sample_recovery 5 (Some (sample_membership 1)); sample_recovery 1 None;
   sample_recovery 9 (Some (sample_membership 0))].

Definition sample_batch_identity : ChainSubmissionIdentity :=
  {| wallet_id := "wallet"; network := Testnet; vote_round_id := bytes32_fill Byte.x01;
     bundle_index := 3; target := TargetVoteBatch sample_batch_digest |}.

Definition sample_derived_batch : DerivedChainSubmission :=
  match derive sample_store (DeriveVoteBatch sample_batch_identity) with
  | Ok d => d
  | Err _ => {| derived_bound := {| bound_generation := {| generation_identity := sample_batch_identity;
                  generation_digest := sample_batch_digest |};
                  expected_layout := LayoutDelegation sample_batch_digest; ordered_proposal_ids := [] |};
                derived_request := RequestVoteBatch [] |}
  end.

Lemma vote_batch_derivation_sound_witness :
  ordered_proposal_ids (derived_bound sample_derived_batch) = [9; 5]%N /\
  exists digest candidates rs van,
    batch_digest (target sample_batch_identity) = Some digest /\
    query_bundle_recoveries sample_store (wallet_id sample_batch_identity)
      (round_hex sample_batch_identity) (bundle_index sample_batch_identity) = Ok candidates /\
    assembled_batch (round_hex sample_batch_identity) digest candidates rs /\
    NoDup (map rec_proposal_id rs) /\
    ordered_proposal_ids (derived_bound sample_derived_batch) = map rec_proposal_id rs /\
    rec_vote_authority_note_new <$> last rs = Some van /\
    leaves (expected_layout (derived_bound sample_derived_batch)) = van :: map rec_vote_commitment rs.
Proof.
  split; [vm_compute; reflexivity|].
  apply (vote_batch_derivation_sound sample_store sample_batch_identity sample_derived_batch).
  vm_cast_no_check (eq_refl (Ok (E := ChainSubmissionFailure) sample_derived_batch)).
Defined.

Lemma sample_subject_in_range position :
  subject_in_range (SubjectVotes sample_batch_identity
    [sample_recovery_at position 9 (Some (sample_membership 0))]).
Proof.
  split; [apply (bool_decide_unpack _); vm_compute; exact I|].
  split; [done|]. split; [done|]. split; [by vm_compute|]. constructor; [|constructor].
  split; cbn; repeat split; try done; constructor.
Qed.

Lemma generation_transcript_faithful_witness :
  subject_semantics (SubjectVotes sample_batch_identity [sample_recovery_at 0 9 (Some (sample_membership 0))])
  = subject_semantics (SubjectVotes sample_batch_identity [sample_recovery_at 456 9 (Some (sample_membership 0))]).
Proof.
  apply (generation_transcript_faithful
    (SubjectVotes sample_batch_identity [sample_recovery_at 0 9 (Some (sample_membership 0))])
    (SubjectVotes sample_batch_identity [sample_recovery_at 456 9 (Some (sample_membership 0))])).
  - apply sample_subject_in_range.
  - apply sample_subject_in_range.
  - reflexivity.
Defined.
