(* ===== verification/Confirmation.v ===== *)
(** * Confirmation evidence and its projection

    Models [chain_submission/confirmation.rs]: parsing the events of a committed
    transaction against the locked generation, projecting a validated
    confirmation onto the domain rows, and retiring a rejected combined
    generation with its rejection streak. Event text is a sequence of Unicode
    scalar values. The base64 crate and the domain writers of
    [crate::confirmation], [vote.rs] and [storage::queries] are interfaces. *)

From S2P Require Import Prelude Types Diagnostics Identity Generation.

Abbreviation MAX_VOTE_BATCH_ACTIONS := 50%nat (only parsing).

(** ** Events *)

Record TxEventAttribute : Type := { attribute_key : text; attribute_value : text }.
Record TxEvent : Type := { event_type : text; attributes : list TxEventAttribute }.

Record CommittedTransaction : Type := {
  committed_height : N;
  committed_code : N;
  committed_events : list TxEvent
}.

(** The [base64] crate's standard engine, on UTF-8 text and on bytes, and the
    [Debug] form of a string. *)
Class Base64Crate : Type := {
  base64_encode_text : text -> text;
  base64_decode : string -> option bytes;
  debug_str : text -> text
}.

(** [char::is_whitespace]: the Unicode [White_Space] property. *)
Definition is_whitespace (c : N) : bool :=
  bool_decide (9 <= c <= 13)%N || bool_decide (c = 32)%N || bool_decide (c = 133)%N
  || bool_decide (c = 160)%N || bool_decide (c = 5760)%N || bool_decide (8192 <= c <= 8202)%N
  || bool_decide (c = 8232)%N || bool_decide (c = 8233)%N || bool_decide (c = 8239)%N
  || bool_decide (c = 8287)%N || bool_decide (c = 12288)%N.

Fixpoint trim_start (t : text) : text :=
  match t with
  | c :: rest => if is_whitespace c then trim_start rest else t
  | [] => []
  end.

(** [str::trim]. *)
Definition trim (t : text) : text := reverse (trim_start (reverse (trim_start t))).

(** [str::split(',')]: always at least one piece. *)
Fixpoint split_comma (t : text) : list text :=
  match t with
  | [] => [[]]
  | c :: rest =>
      if bool_decide (c = 44%N) then [] :: split_comma rest
      else match split_comma rest with
           | piece :: pieces => (c :: piece) :: pieces
           | [] => [[c]]
           end
  end.

(** Decimal digits read into an accumulator. *)
Fixpoint parse_digits (acc : N) (t : text) : option N :=
  match t with
  | [] => Some acc
  | c :: rest =>
      if bool_decide (48 <= c <= 57)%N then parse_digits (acc * 10 + (c - 48)) rest else None
  end.

(** [str::parse::<u64>]: an optional plus sign, at least one digit, no overflow. *)
Definition parse_u64 (t : text) : option N :=
  let digits := match t with 43%N :: rest => rest | _ => t end in
  match digits with
  | [] => None
  | _ => v ← parse_digits 0 digits; if bool_decide (v <= u64_max)%N then Some v else None
  end.

Definition is_ascii (t : text) : bool := forallb (fun c => bool_decide (c < 128)%N) t.

Section parsing.
Context `{B64 : Base64Crate, HX : HexCrate}.

Definition parse_compat_u64 (raw : text) (field : string) : result VotingError N :=
  let raw := trim raw in
  match parse_u64 raw with
  | Some v => Ok v
  | None =>
      match (if is_ascii raw then None else parse_u64 (base64_encode_text raw)) with
      | Some v => Ok v
      | None => Err (VeInvalidInput (chars field ++ chars " must be an unsigned 64-bit integer, got "
                                     ++ debug_str raw))
      end
  end.

Definition parse_csv {A} (raw : text) (field : string) (parse : text -> result VotingError A) :
  result VotingError (list A) :=
  let values := map trim (split_comma raw) in
  _ ← fail_if (bool_decide (values = []) || existsb (fun v => bool_decide (v = [])) values)
        (VeInvalidInput (chars field ++ chars " must be a nonempty comma-separated list"));
  collect_results parse values.

Definition parse_csv_u64 (raw : text) : result VotingError (list N) :=
  parse_csv raw "cast_vote_batch vote_commitment_leaf_indices"
    (fun value => parse_compat_u64 value "cast_vote_batch position").

Definition parse_csv_u32 (raw : text) : result VotingError (list N) :=
  parse_csv raw "cast_vote_batch proposal_ids"
    (fun value =>
       p ← parse_compat_u64 value "cast_vote_batch proposal id";
       if bool_decide (p <= u32_max)%N then Ok p
       else Err (VeInvalidInput (chars "cast_vote_batch proposal id does not fit u32"))).

Definition parse_canonical_hex32 (raw : text) (field : string) : result VotingError bytes32 :=
  let bad := VeInvalidInput (chars field ++ chars " must be 32-byte canonical lowercase hex") in
  _ ← fail_if (negb (bool_decide (length raw = 64))
               || negb (forallb (fun c => bool_decide (48 <= c <= 57)%N || bool_decide (97 <= c <= 102)%N) raw)) bad;
  decoded ← ok_or (hex_decode raw) bad;
  ok_or (try_into_bytes32 decoded) bad.

Definition parse_csv_strings (raw : text) : result VotingError (list text) :=
  parse_csv raw "cast_vote_batch van_nullifiers"
    (fun value => _ ← parse_canonical_hex32 value "cast_vote_batch VAN nullifier"; Ok value).

(** ** Selecting the event *)

Definition round_id_matches (event_round_id expected : text) : bool :=
  bool_decide (event_round_id = expected)
  || bool_decide (base64_encode_text event_round_id = expected).

Definition is_round_attribute (a : TxEventAttribute) : bool :=
  bool_decide (attribute_key a = chars "vote_round_id")
  || bool_decide (attribute_key a = chars "round_id").

Definition round_values (e : TxEvent) : list text :=
  map attribute_value (List.filter is_round_attribute (attributes e)).

(** The loop state of [required_event_for_round]. *)
Record RoundSearch : Type := {
  matching : option TxEvent;
  wrong_round : option text;
  missing_round : bool
}.

Fixpoint search_events (ty round_id : text) (s : RoundSearch) (events : list TxEvent) :
  result VotingError RoundSearch :=
  match events with
  | [] => Ok s
  | e :: rest =>
      if negb (bool_decide (event_type e = ty)) then search_events ty round_id s rest else
      let values := round_values e in
      _ ← fail_if (bool_decide (1 < length values))
            (VeInvalidInput (ty ++ chars " event must contain exactly one round identity attribute"));
      match head values with
      | Some value =>
          if round_id_matches value round_id then
            match matching s with
            | Some _ => Err (VeInvalidInput (chars "ambiguous " ++ ty ++ chars " events for round "
                                             ++ round_id ++ chars "; expected one"))
            | None => search_events ty round_id
                        {| matching := Some e; wrong_round := wrong_round s;
                           missing_round := missing_round s |} rest
            end
          else search_events ty round_id
                 {| matching := matching s; wrong_round := Some value;
                    missing_round := missing_round s |} rest
      | None => search_events ty round_id
                  {| matching := matching s; wrong_round := wrong_round s; missing_round := true |} rest
      end
  end.

Definition required_event_for_round (events : list TxEvent) (ty round_id : text) :
  result VotingError TxEvent :=
  s ← search_events ty round_id {| matching := None; wrong_round := None; missing_round := false |} events;
  ok_or (matching s)
    (VeInvalidInput
      match wrong_round s with
      | Some value => ty ++ chars " round mismatch: expected " ++ round_id ++ chars ", got " ++ value
      | None => if missing_round s then ty ++ chars " event is missing its round identity"
                else chars "missing " ++ ty ++ chars " event for round " ++ round_id
      end).

Definition attribute_values (e : TxEvent) (key : text) : list text :=
  map attribute_value (List.filter (fun a => bool_decide (attribute_key a = key)) (attributes e)).

Definition required_attribute (e : TxEvent) (ty : text) (key : string) : result VotingError text :=
  match attribute_values e (chars key) with
  | [value] => Ok value
  | [] => Err (VeInvalidInput (chars "missing " ++ ty ++ chars " " ++ chars key
                               ++ chars " in transaction events"))
  | _ => Err (VeInvalidInput (chars "ambiguous " ++ ty ++ chars " " ++ chars key
                              ++ chars " attributes in transaction events; expected one"))
  end.

Definition confirmation_error (e : ChainSubmissionConfirmationError) : VotingError :=
  VeInvalidInput (confirmation_error_text e).
End parsing.

(** ** Hash evidence against the locked generation *)

Section validation.
Context `{B64 : Base64Crate, GT : GenerationTables, HX : HexCrate}.

Definition attribute_u64 (e : TxEvent) (ty : text) (key field : string) : result VotingError N :=
  raw ← required_attribute e ty key; parse_compat_u64 raw field.

Definition validate_delegation_event (i : ChainSubmissionIdentity) (h : CandidateTransactionHash)
  (events : list TxEvent) : result VotingError ValidatedConfirmation :=
  let ty := chars "delegate_vote" in
  event ← required_event_for_round events ty (chars (round_hex i));
  van ← attribute_u64 event ty "leaf_index" "delegate_vote leaf_index";
  map_err confirmation_error (confirmation_from_hash h van []).

Definition validate_vote_event (i : ChainSubmissionIdentity) (h : CandidateTransactionHash)
  (events : list TxEvent) : result VotingError ValidatedConfirmation :=
  let ty := chars "cast_vote" in
  event ← required_event_for_round events ty (chars (round_hex i));
  raw ← required_attribute event ty "leaf_index";
  match map trim (split_comma raw) with
  | [first; second] =>
      van ← parse_compat_u64 first "cast_vote VAN position";
      vc ← parse_compat_u64 second "cast_vote commitment position";
      map_err confirmation_error (confirmation_from_hash h van [vc])
  | _ => Err (VeInvalidInput (chars "cast_vote leaf_index must contain VAN and vote-commitment positions"))
  end.

(** The votes of a batch request. *)
Definition batch_votes (r : ChainSubmissionRequest) : option (list VoteWire) :=
  match r with
  | RequestVoteBatch votes | RequestDelegateAndVoteBatch _ votes => Some votes
  | _ => None
  end.

Definition expected_nullifier (vote : VoteWire) : result VotingError text :=
  decoded ← ok_or (base64_decode (wire_van_nullifier vote))
              (VeInternal (chars "derived batch nullifier is not canonical base64"));
  _ ← fail_if (negb (bool_decide (length decoded = 32)))
        (VeInternal (chars "derived batch nullifier has invalid length"));
  Ok (chars (hex_encode decoded)).

(** Whether the positions from [index] on are the leaves after the VAN. *)
Fixpoint adjacent_positions (van : N) (index : nat) (positions : list N) : bool :=
  match positions with
  | [] => true
  | p :: rest =>
      match checked_add64 van (N.of_nat index + 1) with
      | Some expected => bool_decide (p = expected) && adjacent_positions van (S index) rest
      | None => false
      end
  end.

Definition combined_nullifier_check (r : ChainSubmissionRequest) (event : TxEvent) (ty : text) :
  result VotingError unit :=
  match r with
  | RequestDelegateAndVoteBatch delegation _ =>
      nullifiers ← attribute_u64 event ty "nullifier_count" "combined delegation nullifier count";
      fail_if (negb (bool_decide (nullifiers = N.of_nat (wire_gov_nullifier_count delegation))))
        (VeInvalidInput (chars "combined delegation nullifier count does not match the locked generation"))
  | _ => Ok tt
  end.

(** The batch branch of [validate_hash_confirmation]. A batch layout always
    comes with a batch request, so the code's [unreachable!] branch is dead. *)
Definition validate_batch_event (d : DerivedChainSubmission) (i : ChainSubmissionIdentity)
  (digest : bytes32) (vote_commitments : list bytes32) (h : CandidateTransactionHash)
  (events : list TxEvent) : result VotingError ValidatedConfirmation :=
  let ty := chars (if is_combined (target i) then "delegate_and_cast_vote_batch" else "cast_vote_batch") in
  event ← required_event_for_round events ty (chars (round_hex i));
  _ ← combined_nullifier_check (derived_request d) event ty;
  raw_digest ← required_attribute event ty "batch_digest";
  event_digest ← parse_canonical_hex32 raw_digest "cast_vote_batch batch_digest";
  _ ← fail_if (negb (bool_decide (event_digest = digest)))
        (VeInvalidInput (chars "cast_vote_batch digest does not match the locked generation"));
  batch_size ← attribute_u64 event ty "batch_size" "cast_vote_batch batch_size";
  _ ← fail_if (bool_decide (batch_size = 0%N)
               || bool_decide (N.of_nat MAX_VOTE_BATCH_ACTIONS < batch_size)%N
               || negb (bool_decide (batch_size = N.of_nat (length vote_commitments))))
        (VeInvalidInput (chars "cast_vote_batch size does not match the locked generation"));
  raw_ids ← required_attribute event ty "proposal_ids";
  proposal_ids ← parse_csv_u32 raw_ids;
  _ ← fail_if (negb (bool_decide (proposal_ids = ordered_proposal_ids (derived_bound d))))
        (VeInvalidInput (chars "cast_vote_batch proposal order does not match the locked generation"));
  votes ← ok_or (batch_votes (derived_request d))
            (VeInternal (chars "internal error: entered unreachable code: batch layout has batch request"));
  expected_nullifiers ← collect_results expected_nullifier votes;
  raw_nullifiers ← required_attribute event ty "van_nullifiers";
  event_nullifiers ← parse_csv_strings raw_nullifiers;
  _ ← fail_if (negb (bool_decide (event_nullifiers = expected_nullifiers)))
        (VeInvalidInput (chars "cast_vote_batch nullifier order does not match the locked generation"));
  van ← attribute_u64 event ty "final_van_leaf_index" "cast_vote_batch final VAN position";
  raw_positions ← required_attribute event ty "vote_commitment_leaf_indices";
  positions ← parse_csv_u64 raw_positions;
  _ ← fail_if (negb (bool_decide (N.of_nat (length positions) = batch_size))
               || negb (adjacent_positions van 0 positions))
        (VeInvalidInput (chars "cast_vote_batch positions must be the complete adjacent action layout"));
  map_err confirmation_error (confirmation_from_hash h van positions).

Definition validate_hash_confirmation (d : DerivedChainSubmission) (h : CandidateTransactionHash)
  (events : list TxEvent) : result VotingError ValidatedConfirmation :=
  let i := generation_identity (derived_generation d) in
  match target i, expected_layout (derived_bound d) with
  | TargetDelegation, LayoutDelegation _ => validate_delegation_event i h events
  | TargetVote _, LayoutVote _ _ => validate_vote_event i h events
  | TargetVoteBatch digest, LayoutVoteBatch _ vote_commitments
  | TargetDelegateAndVoteBatch digest, LayoutVoteBatch _ vote_commitments =>
      validate_batch_event d i digest vote_commitments h events
  | _, _ => Err (VeInternal (chars "chain submission identity and expected layout disagree"))
  end.

Definition validate_imported_delegation_confirmation (b : BoundGeneration)
  (h : CandidateTransactionHash) (events : list TxEvent) : result VotingError ValidatedConfirmation :=
  let i := generation_identity (bound_generation b) in
  match target i, expected_layout b with
  | TargetDelegation, LayoutDelegation _ => validate_delegation_event i h events
  | _, _ => Err (VeInvalidInput (chars "imported delegation confirmation has an invalid generation layout"))
  end.
End validation.

(** ** The combined rejection ledger *)

Record RejectionRow : Type := {
  delegation_generation_digest : bytes32;
  consecutive_rejections : Z;
  last_batch_digest : bytes32;
  last_diagnostic_kind : string;
  last_diagnostic : text;
  first_rejected_at : Z;
  last_rejected_at : Z
}.

Abbreviation RejectionKey := (string * string * N)%type.
Abbreviation RejectionLedger := (gmap RejectionKey RejectionRow).

(** [now as i64]. *)
Definition as_i64 (n : N) : Z :=
  if bool_decide (n <= i64_max)%N then Z.of_N n else (Z.of_N n - 18446744073709551616)%Z.

(** The table's CHECK constraints and its two streak triggers. *)
Definition rejection_row_checks (row : RejectionRow) : bool :=
  bool_decide (0 < consecutive_rejections row)%Z && bool_decide (0 <= first_rejected_at row)%Z
  && bool_decide (first_rejected_at row <= last_rejected_at row)%Z.

Definition rejection_update_allowed (old new : RejectionRow) : bool :=
  if bool_decide (delegation_generation_digest new = delegation_generation_digest old)
  then bool_decide (consecutive_rejections old < consecutive_rejections new)%Z
  else bool_decide (consecutive_rejections new = 1%Z).

(** The row an upsert writes over [old]. *)
Definition upserted_rejection (old : option RejectionRow) (generation batch : bytes32)
  (d : ChainSubmissionDiagnostic) (now : N) : RejectionRow :=
  let fresh :=
    {| delegation_generation_digest := generation; consecutive_rejections := 1;
       last_batch_digest := batch; last_diagnostic_kind := as_str (diagnostic_kind d);
       last_diagnostic := diagnostic_message d; first_rejected_at := as_i64 now;
       last_rejected_at := as_i64 now |} in
  match old with
  | Some row =>
      if bool_decide (delegation_generation_digest row = generation)
      then {| delegation_generation_digest := generation;
              consecutive_rejections := consecutive_rejections row + 1;
              last_batch_digest := batch; last_diagnostic_kind := as_str (diagnostic_kind d);
              last_diagnostic := diagnostic_message d;
              first_rejected_at := first_rejected_at row;
              last_rejected_at := Z.max (last_rejected_at row) (as_i64 now) |}
      else fresh
  | None => fresh
  end.

Definition record_combined_rejection (l : RejectionLedger) (k : RejectionKey)
  (generation batch : bytes32) (d : ChainSubmissionDiagnostic) (now : N) :
  result VotingError RejectionLedger :=
  let new := upserted_rejection (l !! k) generation batch d now in
  if rejection_row_checks new
     && match l !! k with Some old => rejection_update_allowed old new | None => true end
  then Ok (<[k := new]> l)
  else Err (VeStorage (chars "record combined cast rejection")).

(** ** Domain writes *)

(** The domain writers a confirmation or a retirement calls, on the tables
    derivation reads. *)
Class ConfirmationTables {GT : GenerationTables} : Type := {
  (** [apply_delegation_confirmation_with_conn]: wallet, round, bundle,
      transaction hash, VAN position. *)
  apply_delegation_confirmation : Tables -> string -> string -> N -> option string -> N ->
    result VotingError Tables;
  (** [apply_vote_confirmation_with_conn]: ..., proposal, hash, VAN, position. *)
  apply_vote_confirmation : Tables -> string -> string -> N -> N -> option string -> N -> N ->
    result VotingError Tables;
  (** [apply_vote_batch_confirmation_with_conn]: ..., digest, hash, VAN,
      positions, expected proposal order. *)
  apply_vote_batch_confirmation : Tables -> string -> string -> N -> bytes32 -> option string -> N ->
    list N -> list N -> result VotingError Tables;
  (** [queries::store_delegation_tx_hash]: round, wallet, bundle, hash. *)
  store_delegation_tx_hash : Tables -> string -> string -> N -> string -> result VotingError Tables;
  (** [DelegationAuthorization::persisted_generation_digest]. *)
  persisted_generation_digest : Tables -> string -> string -> N -> bytes32 ->
    result VotingError (option bytes32);
  (** [vote::clear_vote_batch_recovery_with_conn]: the cleared proposals. *)
  clear_vote_batch_recovery : Tables -> string -> string -> N -> bytes32 ->
    result VotingError (Tables * list N)
}.

Section projection.
Context `{CT : ConfirmationTables, HX : HexCrate}.

Record DomainState : Type := { tables : Tables; ledger : RejectionLedger }.

Definition rejection_key (i : ChainSubmissionIdentity) : RejectionKey :=
  (round_hex i, wallet_id i, bundle_index i).

Definition retire_rejected_combined_generation (s : DomainState) (i : ChainSubmissionIdentity)
  (d : ChainSubmissionDiagnostic) (now : N) : result VotingError DomainState :=
  match target i with
  | TargetDelegateAndVoteBatch digest =>
      found ← persisted_generation_digest (tables s) (wallet_id i) (round_hex i) (bundle_index i) digest;
      generation ← ok_or found
        (VeInternal (chars "rejected combined generation has no persisted authorization"));
      cleared ← clear_vote_batch_recovery (tables s) (wallet_id i) (round_hex i) (bundle_index i) digest;
      _ ← fail_if (bool_decide (cleared.2 = []))
            (VeInternal (chars "rejected combined generation has no persisted members"));
      l ← record_combined_rejection (ledger s) (rejection_key i) generation digest d now;
      Ok {| tables := cleared.1; ledger := l |}
  | _ => Err (VeInternal (chars "only a combined generation retires on rejection"))
  end.

(** [clear_combined_rejection_ledger]. *)
Definition clear_combined_rejection_ledger (l : RejectionLedger) (i : ChainSubmissionIdentity) :
  RejectionLedger := delete (rejection_key i) l.

(** Whether the confirmed positions fit the generation's layout: the guards of
    [apply_confirmed_generation]. *)
Definition layout_accepts (b : BoundGeneration) (positions : list N) : bool :=
  match target (generation_identity (bound_generation b)), expected_layout b with
  | TargetDelegation, LayoutDelegation _ => bool_decide (positions = [])
  | TargetVote _, LayoutVote _ _ => bool_decide (length positions = 1)
  | TargetVoteBatch _, LayoutVoteBatch _ vote_commitments
  | TargetDelegateAndVoteBatch _, LayoutVoteBatch _ vote_commitments =>
      bool_decide (length positions = length vote_commitments)
      && bool_decide (length (ordered_proposal_ids b) = length positions)
  | _, _ => false
  end.

Definition apply_confirmed_generation (s : DomainState) (b : BoundGeneration)
  (v : ValidatedConfirmation) : result VotingError DomainState :=
  let i := generation_identity (bound_generation b) in
  let c := confirmation_payload v in
  let transaction_hash := (fun h => hex_encode (bytes32_bytes h)) <$> confirmation_transaction_hash c in
  let positions := vote_commitment_positions c in
  let van := final_van_position c in
  if negb (layout_accepts b positions)
  then Err (VeInvalidInput (chars "confirmed positions do not match the semantic generation layout"))
  else match target i with
  | TargetDelegation =>
      t ← apply_delegation_confirmation (tables s) (wallet_id i) (round_hex i) (bundle_index i)
            transaction_hash van;
      Ok {| tables := t; ledger := ledger s |}
  | TargetVote proposal_id =>
      t ← apply_vote_confirmation (tables s) (wallet_id i) (round_hex i) (bundle_index i)
            proposal_id transaction_hash van (default 0%N (head positions));
      Ok {| tables := t; ledger := ledger s |}
  | TargetVoteBatch digest =>
      t ← apply_vote_batch_confirmation (tables s) (wallet_id i) (round_hex i) (bundle_index i)
            digest transaction_hash van positions (ordered_proposal_ids b);
      Ok {| tables := t; ledger := ledger s |}
  | TargetDelegateAndVoteBatch digest =>
      t ← apply_vote_batch_confirmation (tables s) (wallet_id i) (round_hex i) (bundle_index i)
            digest transaction_hash van positions (ordered_proposal_ids b);
      t ← match transaction_hash with
          | Some h => store_delegation_tx_hash t (round_hex i) (wallet_id i) (bundle_index i) h
          | None => Ok t
          end;
      Ok {| tables := t; ledger := clear_combined_rejection_ledger (ledger s) i |}
  end.
End projection.

(** ** What a validated confirmation guarantees *)

Lemma adjacent_positions_seq van start positions :
  adjacent_positions van start positions = true ->
  positions = map (fun k => van + N.of_nat k + 1)%N (seq start (length positions)).
Proof.
  revert start. induction positions as [|p positions IH]; intros start H; cbn in *; [done|].
  unfold checked_add64 in H. case_bool_decide; [|discriminate]. inv_ok.
  f_equal; [lia | by apply IH].
Qed.

Lemma confirmation_from_hash_Ok h van positions v :
  confirmation_from_hash h van positions = Ok v ->
  exists c, v = HashConfirmation c /\ confirmation_source c = SourceHash
    /\ confirmation_transaction_hash c = Some h /\ final_van_position c = van
    /\ vote_commitment_positions c = positions
    /\ (van <= i64_max)%N /\ Forall (fun p => (p <= i64_max)%N) positions.
Proof.
  unfold confirmation_from_hash. intros H. inv_ok.
  match goal with Hv : validate_sqlite_positions _ _ = _ |- _ => apply validate_sqlite_positions_Ok in Hv as [] end.
  by eexists.
Qed.

Section validation_facts.
Context `{B64 : Base64Crate, GT : GenerationTables, HX : HexCrate, SH : Sha256Crate}.

(** The layout and roster a derivation request leads to. *)
Lemma derive_layout t r d :
  derive t r = Ok d ->
  match expected_layout (derived_bound d) with
  | LayoutVoteBatch _ vcs => length (ordered_proposal_ids (derived_bound d)) = length vcs
  | _ => True
  end.
Proof.
  intros H. destruct r as [i sig|i|i|i].
  - unfold derive, derive_delegation, generation_for_delegation, complete_generation_for_delegation in H.
    inv_ok. cbn. repeat case_match; inv_ok; done.
  - unfold derive, derive_imported_delegation, generation_for_imported_delegation in H. inv_ok.
    cbn. repeat case_match; inv_ok; done.
  - unfold derive, derive_vote, validated_singleton_vote in H. inv_ok. cbn. repeat case_match; inv_ok; done.
  - unfold derive, derive_vote_batch in H. inv_ok. cbn.
    match goal with Hb : validated_vote_batch _ _ = Ok ?b |- _ => destruct b as [bound rs] end.
    edestruct validated_vote_batch_Ok as (? & ? & ? & ? & ? & ? & Hids & (van & _ & Hleaves) & ?); [done|].
    cbn. destruct (expected_layout bound); [done|done|]. cbn in Hleaves. injection Hleaves as _ ->.
    by rewrite Hids, !length_map.
Qed.

(** A derived roster fits the database's position count. *)
Lemma derive_short t r d :
  derive t r = Ok d -> short (ordered_proposal_ids (derived_bound d)).
Proof.
  intros H. destruct r as [i sig|i|i|i].
  - unfold derive, derive_delegation, generation_for_delegation, complete_generation_for_delegation in H.
    inv_ok. cbn. repeat case_match; inv_ok; by vm_compute.
  - unfold derive, derive_imported_delegation, generation_for_imported_delegation in H. inv_ok.
    cbn. repeat case_match; inv_ok; by vm_compute.
  - unfold derive, derive_vote, validated_singleton_vote in H. inv_ok. cbn. repeat case_match; inv_ok; by vm_compute.
  - unfold derive, derive_vote_batch in H. inv_ok. cbn.
    match goal with Hb : validated_vote_batch _ _ = Ok ?b |- _ => destruct b as [bound rs] end.
    edestruct validated_vote_batch_Ok as (digest & candidates & _ & Hq & Hrs & _ & Hids & _ & _); [done|].
    cbn. unfold short. rewrite Hids, length_map. destruct rs as [|r rs]; [by vm_compute|].
    destruct (assembled_in_place _ _ _ _ Hrs 0 r eq_refl) as (m & Hm & _ & _ & Hsize).
    rewrite <- Hsize. eapply (query_bundle_recoveries_typed _ _ _ _ _ Hq r m); [|done].
    assert (r ∈ r :: rs) as Hr by set_solver. rewrite (assembled_members _ _ _ _ Hrs) in Hr.
    by apply list_elem_of_In, List.filter_In, proj1, list_elem_of_In in Hr.
Qed.

(** The typed fields one accepted event establishes. *)
Definition confirms (d : DerivedChainSubmission) (h : CandidateTransactionHash) (v : ValidatedConfirmation) : Prop :=
  exists c, v = HashConfirmation c /\ confirmation_source c = SourceHash
    /\ confirmation_transaction_hash c = Some h
    /\ (final_van_position c <= i64_max)%N
    /\ Forall (fun p => (p <= i64_max)%N) (vote_commitment_positions c)
    /\ layout_accepts (derived_bound d) (vote_commitment_positions c) = true
    /\ (batch_digest (target (generation_identity (derived_generation d))) <> None ->
        vote_commitment_positions c =
          map (fun k => final_van_position c + N.of_nat k + 1)%N
            (seq 0 (length (leaves (expected_layout (derived_bound d))) - 1))).

Lemma validate_batch_event_Ok d i digest vcs h events v :
  validate_batch_event d i digest vcs h events = Ok v ->
  exists c, v = HashConfirmation c /\ confirmation_source c = SourceHash
    /\ confirmation_transaction_hash c = Some h
    /\ (final_van_position c <= i64_max)%N
    /\ Forall (fun p => (p <= i64_max)%N) (vote_commitment_positions c)
    /\ vote_commitment_positions c =
         map (fun k => final_van_position c + N.of_nat k + 1)%N (seq 0 (length vcs)).
Proof.
  unfold validate_batch_event. intros H. inv_ok.
  apply confirmation_from_hash_Ok in H as (c & -> & Hs & Hh & Hvan & Hpos & Hr & Hp).
  exists c. repeat split; [done..| by rewrite Hvan | by rewrite Hpos |].
  rewrite Hvan, Hpos.
  match goal with Ha : adjacent_positions _ _ _ = true |- _ => rewrite (adjacent_positions_seq _ _ _ Ha) at 1 end.
  do 2 f_equal. lia.
Qed.

(** Hash evidence that validates also projects. For a generation derived from
    durable inputs, any event set [validate_hash_confirmation] accepts yields a
    hash confirmation of exactly the polled transaction, with every position in
    the database's integer range and with exactly the shape of the expected
    tree layout, so [apply_confirmed_generation]'s layout guard cannot reject
    it. For a batch the positions are the leaves right after the final VAN, one
    per action in signed order. *)
Theorem validated_confirmation_fits_layout t r d h events v :
  derive t r = Ok d -> validate_hash_confirmation d h events = Ok v -> confirms d h v.
Proof.
  intros Hd Hv. pose proof (derive_layout t r d Hd) as Hlayout. revert Hv.
  unfold validate_hash_confirmation, confirms, layout_accepts, derived_generation.
  destruct (target _) as [|p|digest|digest] eqn:Ht, (expected_layout (derived_bound d)) as [van0|van0 vc|van0 vcs] eqn:Hl;
    cbn [batch_digest leaves length Nat.sub]; try discriminate; intros Hv.
  - unfold validate_delegation_event in Hv. inv_ok.
    apply confirmation_from_hash_Ok in Hv as (c & -> & ? & ? & <- & Hpos & ? & ?).
    exists c. rewrite Hpos. by repeat split.
  - unfold validate_vote_event in Hv. inv_ok. repeat case_match; inv_ok; try discriminate.
    apply confirmation_from_hash_Ok in Hv as (c & -> & ? & ? & <- & Hpos & ? & ?).
    exists c. rewrite Hpos. by repeat split.
  - apply validate_batch_event_Ok in Hv as (c & -> & ? & ? & ? & ? & Hpos).
    exists c. rewrite Hlayout, Hpos, length_map, length_seq, !bool_decide_true, Nat.sub_0_r by done.
    rewrite Hpos in *. auto 10.
  - apply validate_batch_event_Ok in Hv as (c & -> & ? & ? & ? & ? & Hpos).
    exists c. rewrite Hlayout, Hpos, length_map, length_seq, !bool_decide_true, Nat.sub_0_r by done.
    rewrite Hpos in *. auto 10.
Qed.
End validation_facts.

(** ** The rejection streak *)

(** One recorded rejection: generation, batch, diagnostic and time. *)
Record Rejection : Type := {
  rejected_generation : bytes32;
  rejected_batch : bytes32;
  rejected_diagnostic : ChainSubmissionDiagnostic;
  rejected_at : N
}.

(** Recording a history given newest first. *)
Fixpoint record_rejections (k : RejectionKey) (newest_first : list Rejection) :
  result VotingError RejectionLedger :=
  match newest_first with
  | [] => Ok ∅
  | r :: older =>
      l ← record_rejections k older;
      record_combined_rejection l k (rejected_generation r) (rejected_batch r)
        (rejected_diagnostic r) (rejected_at r)
  end.

(** The newest consecutive rejections of one generation. *)
Fixpoint current_streak (generation : bytes32) (newest_first : list Rejection) : list Rejection :=
  match newest_first with
  | r :: older =>
      if bool_decide (rejected_generation r = generation)
      then r :: current_streak generation older else []
  | [] => []
  end.

Definition latest (streak : list Rejection) : Z :=
  foldr (fun r acc => Z.max acc (Z.of_N (rejected_at r))) 0%Z streak.

(** The ledger row that describes a nonempty history. *)
Definition describes (row : RejectionRow) (r : Rejection) (older : list Rejection) : Prop :=
  let streak := current_streak (rejected_generation r) (r :: older) in
  delegation_generation_digest row = rejected_generation r
  /\ consecutive_rejections row = Z.of_nat (length streak)
  /\ Some (first_rejected_at row) = (fun e => Z.of_N (rejected_at e)) <$> last streak
  /\ last_rejected_at row = latest streak
  /\ last_batch_digest row = rejected_batch r
  /\ last_diagnostic row = diagnostic_message (rejected_diagnostic r).

Lemma as_i64_small n : (n <= i64_max)%N -> as_i64 n = Z.of_N n.
Proof. intros Hn. unfold as_i64. by rewrite bool_decide_true. Qed.

Lemma first_in_streak_le_latest streak e :
  last streak = Some e -> (Z.of_N (rejected_at e) <= latest streak)%Z.
Proof.
  induction streak as [|r streak IH]; [done|]. cbn [latest foldr]. destruct streak as [|r' streak].
  - intros [= ->]. cbn. lia.
  - intros Hlast. specialize (IH Hlast). unfold latest in *. cbn in *. lia.
Qed.

Lemma describes_checks row r older : describes row r older -> rejection_row_checks row = true.
Proof.
  intros (_ & Hn & Hfirst & Hlast & _). unfold rejection_row_checks.
  cbn [current_streak] in *. rewrite bool_decide_true in * by done. cbn [length] in Hn.
  destruct (last _) as [e|] eqn:He; [|done]. injection Hfirst as ->.
  pose proof (first_in_streak_le_latest _ _ He). rewrite !bool_decide_true by lia. done.
Qed.

Lemma describes_upsert old r r' older :
  (rejected_at r <= i64_max)%N -> describes old r' older ->
  let row := upserted_rejection (Some old) (rejected_generation r) (rejected_batch r)
               (rejected_diagnostic r) (rejected_at r) in
  describes row r (r' :: older) /\ rejection_update_allowed old row = true.
Proof.
  intros Hr (Hg & Hn & Hfirst & Hlast & _). unfold describes, rejection_update_allowed.
  cbn [upserted_rejection]. rewrite Hg. cbn [current_streak] in *.
  rewrite (bool_decide_true (rejected_generation r = rejected_generation r)) by done.
  rewrite (bool_decide_true (rejected_generation r' = rejected_generation r')) in * by done.
  destruct (decide (rejected_generation r' = rejected_generation r)) as [E|E].
  - rewrite !(bool_decide_true (rejected_generation r' = rejected_generation r)) by done.
    rewrite E in *. cbn [delegation_generation_digest consecutive_rejections first_rejected_at last_rejected_at
      last_batch_digest last_diagnostic]. rewrite bool_decide_true by done.
    rewrite as_i64_small by done. repeat split.
    + rewrite Hn. cbn [length]. lia.
    + done.
    + by rewrite Hlast.
    + by rewrite bool_decide_true by lia.
  - rewrite !(bool_decide_false (rejected_generation r' = rejected_generation r)) by done.
    cbn [delegation_generation_digest consecutive_rejections first_rejected_at last_rejected_at
      last_batch_digest last_diagnostic]. rewrite bool_decide_false by congruence.
    rewrite !as_i64_small by done. cbn. repeat split; lia.
Qed.

(** The rejection ledger counts exactly the current streak. Recording any
    history of rejections with database-range times never trips a constraint or
    a streak trigger, and leaves a row for the newest rejection's generation
    whose count is the number of consecutive newest rejections of that
    generation, whose first time is the oldest of them, and whose last time is
    their maximum even when the clock moves backwards. *)
Theorem rejection_ledger_counts_streak k r older :
  Forall (fun e => (rejected_at e <= i64_max)%N) (r :: older) ->
  exists l row, record_rejections k (r :: older) = Ok l /\ l !! k = Some row /\ describes row r older.
Proof.
  revert r. induction older as [|r' older IH]; intros r Hall; inversion Hall as [|? ? Hr Holder]; subst.
  - pose (row := upserted_rejection None (rejected_generation r) (rejected_batch r) (rejected_diagnostic r) (rejected_at r)).
    assert (describes row r []) as Hdesc.
    { unfold describes, row. cbn. rewrite bool_decide_true, !as_i64_small by done. cbn. repeat split. lia. }
    exists (<[k := row]> ∅), row. rewrite lookup_insert_eq. split; [|done].
    cbn [record_rejections]. unfold record_combined_rejection. cbn. rewrite lookup_empty. fold row.
    by rewrite (describes_checks _ _ _ Hdesc).
  - destruct (IH r' Holder) as (l & old & Hl & Hold & Hdesc).
    destruct (describes_upsert old r r' older Hr Hdesc) as [Hnew Hallowed].
    eexists (<[k := _]> l), _. rewrite lookup_insert_eq. split; [|split; [done | exact Hnew]].
    cbn [record_rejections] in *. rewrite Hl. cbn [mbind result_bind]. unfold record_combined_rejection.
    rewrite Hold. by rewrite (describes_checks _ _ _ Hnew), Hallowed.
Qed.

(** ** Witnesses *)

#[local] Existing Instances sample_hex sample_sha256 sample_tables.
#[local] Instance sample_base64 : Base64Crate := {|
  base64_encode_text := fun t => t;
  base64_decode := fun _ => Some (replicate 32 Byte.x10);
  debug_str := fun t => t
|}.

Definition sample_attribute (k v : string) : TxEventAttribute :=
  {| attribute_key := chars k; attribute_value := chars v |}.

Definition sample_nullifier : string := lower_hex (replicate 32 Byte.x10).

(** The event of the two-member batch derived in [Generation], its final VAN at
    leaf 40. *)
Definition sample_batch_event : TxEvent := {|
  event_type := chars "cast_vote_batch";
  attributes :=
    [sample_attribute "vote_round_id" (lower_hex (bytes32_fill Byte.x01));
     sample_attribute "batch_digest" (lower_hex sample_batch_digest);
     sample_attribute "batch_size" "2"; sample_attribute "proposal_ids" "9, 5";
     sample_attribute "van_nullifiers" (String.append sample_nullifier (String.append "," sample_nullifier));
     sample_attribute "final_van_leaf_index" " 40 ";
     sample_attribute "vote_commitment_leaf_indices" "41,42"]
|}.

Definition sample_validated : ValidatedConfirmation :=
  HashConfirmation {| confirmation_source := SourceHash;
                      confirmation_transaction_hash := Some (bytes32_fill Byte.x77);
                      final_van_position := 40; vote_commitment_positions := [41; 42]%N |}.

Lemma validated_confirmation_fits_layout_witness :
  confirms sample_derived_batch (bytes32_fill Byte.x77) sample_validated.
Proof.
  apply (validated_confirmation_fits_layout sample_store (DeriveVoteBatch sample_batch_identity)
    sample_derived_batch (bytes32_fill Byte.x77) [sample_batch_event] sample_validated).
  - vm_cast_no_check (eq_refl (Ok (E := ChainSubmissionFailure) sample_derived_batch)).
  - vm_compute. reflexivity.
Defined.

Definition sample_rejection (g : byte) (t : N) : Rejection :=
  {| rejected_generation := bytes32_fill g; rejected_batch := sample_batch_digest;
     rejected_diagnostic := from_redacted_message ChainRejected (chars "rejected"); rejected_at := t |}.

(** Two rejections of a new generation, the second with an earlier clock. *)
Lemma rejection_ledger_counts_streak_witness :
  let newest := sample_rejection Byte.x02 90 in
  let older := [sample_rejection Byte.x02 100; sample_rejection Byte.x01 50] in
  exists l row, record_rejections (EmptyString, EmptyString, 0%N) (newest :: older) = Ok l /\
    l !! (EmptyString, EmptyString, 0%N) = Some row /\ describes row newest older.
Proof.
  apply (rejection_ledger_counts_streak (EmptyString, EmptyString, 0%N) (sample_rejection Byte.x02 90)
    [sample_rejection Byte.x02 100; sample_rejection Byte.x01 50]).
  repeat constructor; vm_compute; discriminate.
Defined.
