(* ===== verification/StoreRow.v ===== *)
(** * The durable submission row

    Models the [chain_submissions] table: the row, its CHECK constraints, unique
    indexes and triggers ([storage/migrations/001_init.sql]), the record both
    stores keep in memory ([store.rs]), and the codec between the two
    ([store/sqlite.rs]: [load_one], [insert_fresh],
    [insert_imported_delegation], [persist_mutable], positions codec). *)

From S2P Require Import Prelude Types Diagnostics SubmissionState Identity Generation Confirmation.

(** ** SQL values

    An SQL truth value is unknown ([None]) when a NULL decides it; a CHECK only
    fails when its expression is false. *)

Abbreviation sql_bool := (option bool).

Definition sql_and (a b : sql_bool) : sql_bool :=
  match a, b with
  | Some false, _ | _, Some false => Some false
  | Some true, Some true => Some true
  | _, _ => None
  end.
Definition sql_or (a b : sql_bool) : sql_bool :=
  match a, b with
  | Some true, _ | _, Some true => Some true
  | Some false, Some false => Some false
  | _, _ => None
  end.
Definition sql_not (a : sql_bool) : sql_bool := negb <$> a.
Definition sql_eq {A} `{EqDecision A} (a b : option A) : sql_bool :=
  match a, b with Some x, Some y => Some (bool_decide (x = y)) | _, _ => None end.
Definition is_null {A} (a : option A) : sql_bool :=
  Some (match a with None => true | Some _ => false end).
Definition not_null {A} (a : option A) : sql_bool := sql_not (is_null a).
Definition sql_in (a : option string) (values : list string) : sql_bool :=
  (fun x => existsb (String.eqb x) values) <$> a.
Definition sql_between (a : option Z) (lo hi : Z) : sql_bool :=
  (fun x => bool_decide (lo <= x <= hi)%Z) <$> a.
Definition sql_length_is (a : option bytes) (n : nat) : sql_bool :=
  (fun x => bool_decide (length x = n)) <$> a.

(** A CHECK accepts unless its expression is false. *)
Definition check (e : sql_bool) : bool := match e with Some false => false | _ => true end.

(** UTF-8 length of a text. *)
Definition utf8_width (c : N) : nat :=
  if bool_decide (c < 128)%N then 1 else if bool_decide (c < 2048)%N then 2
  else if bool_decide (c < 65536)%N then 3 else 4.
Definition utf8_length (t : text) : nat := sum_list (map utf8_width t).

(** What a statement can report. *)
Inductive SqlError : Type :=
| SqlInvalidQuery
| SqlNoRows
| SqlIntegerOutOfRange
| SqlConstraint (name : string)
| SqlEnvironment (message : text).

(** The [rusqlite] crate's error text. *)
Class RusqliteCrate : Type := { sql_error_text : SqlError -> text }.

(** Binding a [u64]: values above [i64::MAX] are refused. *)
Definition bind_u64 (n : N) : result SqlError Z :=
  if bool_decide (n <= i64_max)%N then Ok (Z.of_N n) else Err SqlIntegerOutOfRange.

(** ** The row *)

Record Row : Type := {
  row_round_id : string;
  row_wallet_id : string;
  row_network : string;
  row_bundle_index : Z;
  row_kind : string;
  row_proposal_id : option Z;
  row_ordered_batch_digest : option bytes;
  row_generation_digest : bytes;
  row_state : string;
  row_candidate : option bytes;
  row_reservations : Z;
  row_tracking_started_at : option Z;
  row_diagnostic_kind : option string;
  row_diagnostic : option text;
  row_confirmation_source : option string;
  row_confirmed_hash : option bytes;
  row_final_van : option Z;
  row_positions : option bytes;
  row_created_at : Z;
  row_updated_at : Z
}.

Abbreviation SubmissionTable := (gmap bytes Row).

(** The CHECK constraints, in schema order; [k] is the identity key. *)
Definition row_constraints (k : bytes) (r : Row) : list (string * bool) :=
  let state := Some (row_state r) in
  let kind := Some (row_kind r) in
  let state_is s := sql_eq state (Some s) in
  let kind_is s := sql_eq kind (Some s) in
  [("network", check (sql_in (Some (row_network r)) ["mainnet"; "testnet"; "regtest"]));
   ("bundle_index", check (sql_between (Some (row_bundle_index r)) 0 4294967295));
   ("kind", check (sql_in kind ["delegation"; "vote"; "vote_batch"; "delegate_and_cast_vote_batch"]));
   ("generation_digest", check (sql_length_is (Some (row_generation_digest r)) 32));
   ("state", check (sql_in state ["submitting"; "tracking"; "recovering"; "submitted_without_hash";
                                  "confirmed"; "rejected"]));
   ("committed_post_reservations", bool_decide (0 <= row_reservations r)%Z);
   ("confirmation_source", check (sql_in (row_confirmation_source r) ["hash"; "tree"]));
   ("created_at", bool_decide (0 <= row_created_at r)%Z);
   ("updated_at", bool_decide (row_created_at r <= row_updated_at r)%Z);
   ("identity_key", bool_decide (32 <= length k));
   ("target",
     check (sql_or (sql_and (kind_is "delegation")
                      (sql_and (is_null (row_proposal_id r)) (is_null (row_ordered_batch_digest r))))
           (sql_or (sql_and (kind_is "vote")
                      (sql_and (sql_between (row_proposal_id r) 1 50) (is_null (row_ordered_batch_digest r))))
                   (sql_and (sql_in kind ["vote_batch"; "delegate_and_cast_vote_batch"])
                      (sql_and (is_null (row_proposal_id r)) (sql_length_is (row_ordered_batch_digest r) 32))))));
   ("candidate_length",
     check (sql_or (is_null (row_candidate r)) (sql_length_is (row_candidate r) 32)));
   ("confirmed_length",
     check (sql_or (is_null (row_confirmed_hash r)) (sql_length_is (row_confirmed_hash r) 32)));
   ("state_columns",
     check (sql_or (sql_and (state_is "submitting")
                      (sql_and (is_null (row_candidate r)) (is_null (row_tracking_started_at r))))
           (sql_or (sql_and (state_is "tracking")
                      (sql_and (not_null (row_candidate r)) (not_null (row_tracking_started_at r))))
                   (sql_in state ["recovering"; "submitted_without_hash"; "confirmed"; "rejected"]))));
   ("submitted_without_hash",
     check (sql_or (sql_not (state_is "submitted_without_hash"))
              (sql_and (is_null (row_candidate r))
              (sql_and (is_null (row_confirmed_hash r))
              (sql_and (is_null (row_final_van r))
              (sql_and (is_null (row_positions r)) (not_null (row_diagnostic_kind r))))))));
   ("diagnostic_pair",
     check (sql_eq (is_null (row_diagnostic_kind r)) (is_null (row_diagnostic r))));
   ("diagnostic_length",
     check (sql_or (is_null (row_diagnostic r))
              ((fun d => bool_decide (utf8_length d <= 512)) <$> row_diagnostic r)));
   ("confirmed_source",
     check (sql_eq (state_is "confirmed") (not_null (row_confirmation_source r))));
   ("confirmed_positions",
     check (sql_or (sql_not (state_is "confirmed"))
              (sql_and (not_null (row_final_van r)) (not_null (row_positions r)))));
   ("hash_source",
     check (sql_or (sql_not (sql_eq (row_confirmation_source r) (Some "hash")))
              (sql_and (not_null (row_confirmed_hash r))
                 (sql_eq (row_candidate r) (row_confirmed_hash r)))));
   ("tree_source",
     check (sql_or (sql_not (sql_eq (row_confirmation_source r) (Some "tree")))
              (is_null (row_confirmed_hash r))))].

Definition row_checks (k : bytes) (r : Row) : bool := forallb snd (row_constraints k r).

(** The unique indexes over a table, against one row stored under [k]. *)
Definition same_submission (a b : Row) : bool :=
  bool_decide (row_wallet_id a = row_wallet_id b) && bool_decide (row_network a = row_network b)
  && bool_decide (row_round_id a = row_round_id b) && bool_decide (row_kind a = row_kind b)
  && bool_decide (row_bundle_index a = row_bundle_index b)
  && bool_decide (default (-1)%Z (row_proposal_id a) = default (-1)%Z (row_proposal_id b))
  && bool_decide (default [] (row_ordered_batch_digest a) = default [] (row_ordered_batch_digest b)).

Definition same_some {A} `{EqDecision A} (a b : option A) : bool :=
  match a, b with Some x, Some y => bool_decide (x = y) | _, _ => false end.

Definition index_conflict (r r' : Row) : bool :=
  same_submission r r' || same_some (row_candidate r) (row_candidate r')
  || same_some (row_confirmed_hash r) (row_confirmed_hash r').

Definition indexes_accept (t : SubmissionTable) (k : bytes) (r : Row) : bool :=
  negb (existsb (fun e => negb (bool_decide (e.1 = k)) && index_conflict r e.2) (map_to_list t)).

(** The two data-dependent update triggers. The third guards columns no UPDATE
    of the code names. *)
Definition update_triggers_accept (old new : Row) : bool :=
  bool_decide (row_reservations old <= row_reservations new)%Z
  && match row_tracking_started_at old with
     | Some _ => bool_decide (row_tracking_started_at new = row_tracking_started_at old)
     | None => true
     end.

(** ** The record *)

Record StoredChainSubmission : Type := {
  stored_identity : ChainSubmissionIdentity;
  stored_generation_digest : ChainSubmissionGenerationDigest;
  stored_state : SubmissionRecordState;
  committed_post_reservations : N;
  tracking_started_at : option N;
  stored_diagnostic : option ChainSubmissionDiagnostic;
  created_at : N;
  updated_at : N
}.

(** Field updates the code writes in place. *)
Definition with_state (r : StoredChainSubmission) (s : SubmissionRecordState) : StoredChainSubmission :=
  {| stored_identity := stored_identity r; stored_generation_digest := stored_generation_digest r;
     stored_state := s; committed_post_reservations := committed_post_reservations r;
     tracking_started_at := tracking_started_at r; stored_diagnostic := stored_diagnostic r;
     created_at := created_at r; updated_at := updated_at r |}.

Definition with_bookkeeping (r : StoredChainSubmission) (reservations : N) (tracking : option N)
  (d : option ChainSubmissionDiagnostic) (updated : N) : StoredChainSubmission :=
  {| stored_identity := stored_identity r; stored_generation_digest := stored_generation_digest r;
     stored_state := stored_state r; committed_post_reservations := reservations;
     tracking_started_at := tracking; stored_diagnostic := d;
     created_at := created_at r; updated_at := updated |}.

Definition record_durable_state (r : StoredChainSubmission) : ChainSubmissionState :=
  durable_state (stored_state r).

Definition is_tracking (s : SubmissionRecordState) : bool :=
  match s with Tracking _ => true | _ => false end.

(** [StoredChainSubmission::settle_after_transition], on the record whose state
    was already replaced. *)
Definition settle_after_transition (r : StoredChainSubmission) (previous : ChainSubmissionState)
  (explicit_diagnostic : option ChainSubmissionDiagnostic) (now : N) : StoredChainSubmission :=
  let entered_tracking :=
    is_tracking (stored_state r) && negb (bool_decide (previous = DurableTracking)) in
  let diagnostic :=
    match stored_state r with
    | Recovering _ d | SubmittedWithoutHash d | Rejected d => Some d
    | _ => match explicit_diagnostic with
           | Some d => Some d
           | None => if entered_tracking then None else stored_diagnostic r
           end
    end in
  let effective_now := N.max now (updated_at r) in
  let tracking :=
    if is_tracking (stored_state r) && bool_decide (tracking_started_at r = None)
    then Some effective_now else tracking_started_at r in
  with_bookkeeping r (committed_post_reservations r) tracking diagnostic effective_now.

Definition retires_combined_generation (r : StoredChainSubmission) (previous : ChainSubmissionState) : bool :=
  match stored_state r with Rejected _ => true | _ => false end
  && negb (bool_decide (previous = DurableRejected))
  && is_combined (target (stored_identity r)).

Definition fresh_submission (g : ChainSubmissionGeneration) (reservations now : N) : StoredChainSubmission :=
  {| stored_identity := generation_identity g; stored_generation_digest := generation_digest g;
     stored_state := Submitting; committed_post_reservations := reservations;
     tracking_started_at := None; stored_diagnostic := None; created_at := now; updated_at := now |}.

Definition adopted_imported_delegation (g : ChainSubmissionGeneration) (h : CandidateTransactionHash)
  (now : N) : StoredChainSubmission :=
  {| stored_identity := generation_identity g; stored_generation_digest := generation_digest g;
     stored_state := Tracking h; committed_post_reservations := 0;
     tracking_started_at := Some now; stored_diagnostic := None; created_at := now; updated_at := now |}.

Definition public_result (r : StoredChainSubmission) :
  result ChainSubmissionFailure ChainSubmissionResult :=
  match stored_state r with
  | Submitting =>
      Err (with_durable_state InvariantViolation DurableSubmitting
             (chars "Submitting must be normalized before returning from an advancement pass"))
  | Tracking h => Ok (ResultPending (PendingTracking h))
  | Recovering h d => Ok (ResultPending (PendingRecovering h d))
  | SubmittedWithoutHash d => Ok (ResultSubmittedWithoutHash d)
  | Confirmed v => Ok (ResultConfirmed (confirmation_payload v))
  | Rejected d => Ok (ResultRejected d)
  end.

(** ** Codec *)

(** [5 + 8n] bytes: a version byte, a big-endian count, then the positions. *)
Definition encode_positions (positions : list N) : bytes :=
  Byte.x01 :: be_bytes 4 (N.of_nat (length positions)) ++ concat (map (be_bytes 8) positions).

Definition decode_positions (encoded : bytes) : result SqlError (list N) :=
  match encoded with
  | Byte.x01 :: rest =>
      if bool_decide (length encoded < 5) then Err SqlInvalidQuery else
      let count := N.to_nat (be_value (take 4 rest)) in
      if bool_decide (length encoded = 5 + count * 8)
      then Ok (map be_value (blob_chunks 8 (drop 4 rest)))
      else Err SqlInvalidQuery
  | _ => Err SqlInvalidQuery
  end.

Definition state_name (s : SubmissionRecordState) : string :=
  match s with
  | Submitting => "submitting"
  | Tracking _ => "tracking"
  | Recovering _ _ => "recovering"
  | SubmittedWithoutHash _ => "submitted_without_hash"
  | Confirmed _ => "confirmed"
  | Rejected _ => "rejected"
  end.

Definition invalid_or {A} (o : option A) : result SqlError A := ok_or o SqlInvalidQuery.

Definition column_hash (o : option bytes) : result SqlError (option bytes32) :=
  match o with
  | None => Ok None
  | Some b => h ← invalid_or (try_into_bytes32 b); Ok (Some h)
  end.

Definition decode_diagnostic (kind : option string) (message : option text) :
  result SqlError (option ChainSubmissionDiagnostic) :=
  match kind, message with
  | Some kind, Some message =>
      k ← invalid_or (from_stable_name kind); Ok (Some (from_redacted_message k message))
  | None, None => Ok None
  | _, _ => Err SqlInvalidQuery
  end.

Definition decode_confirmation (r : Row) :
  result SqlError (option (string * N * list N * option bytes32)) :=
  match row_confirmation_source r with
  | None => Ok None
  | Some source =>
      van ← invalid_or (row_final_van r); van ← invalid_or (u64_try_from van);
      encoded ← invalid_or (row_positions r); positions ← decode_positions encoded;
      hash ← column_hash (row_confirmed_hash r);
      Ok (Some (source, van, positions, hash))
  end.

Definition confirmed_value (c : string * N * list N * option bytes32) :
  result SqlError ValidatedConfirmation :=
  let '(source, van, positions, hash) := c in
  if String.eqb source "hash" then
    h ← invalid_or hash;
    map_err (fun _ => SqlInvalidQuery) (confirmation_from_hash h van positions)
  else if String.eqb source "tree" then
    map_err (fun _ => SqlInvalidQuery) (confirmation_from_tree van positions)
  else Err SqlInvalidQuery.

Definition decode_state (name : string) (candidate : option bytes32)
  (d : option ChainSubmissionDiagnostic) (c : option (string * N * list N * option bytes32)) :
  result SqlError SubmissionRecordState :=
  if String.eqb name "submitting" then Ok Submitting
  else if String.eqb name "tracking" then h ← invalid_or candidate; Ok (Tracking h)
  else if String.eqb name "recovering" then d ← invalid_or d; Ok (Recovering candidate d)
  else if String.eqb name "submitted_without_hash" then d ← invalid_or d; Ok (SubmittedWithoutHash d)
  else if String.eqb name "confirmed" then
    c ← invalid_or c; v ← confirmed_value c; Ok (Confirmed v)
  else if String.eqb name "rejected" then d ← invalid_or d; Ok (Rejected d)
  else Err SqlInvalidQuery.

(** The row closure of [load_one]. *)
Definition decode_row (i : ChainSubmissionIdentity) (r : Row) : result SqlError StoredChainSubmission :=
  diagnostic ← decode_diagnostic (row_diagnostic_kind r) (row_diagnostic r);
  candidate ← column_hash (row_candidate r);
  confirmation ← decode_confirmation r;
  state ← decode_state (row_state r) candidate diagnostic confirmation;
  digest ← invalid_or (try_into_bytes32 (row_generation_digest r));
  reservations ← invalid_or (u64_try_from (row_reservations r));
  tracking ← match row_tracking_started_at r with
             | None => Ok None
             | Some z => t ← invalid_or (u64_try_from z); Ok (Some t)
             end;
  created ← invalid_or (u64_try_from (row_created_at r));
  updated ← invalid_or (u64_try_from (row_updated_at r));
  Ok {| stored_identity := i; stored_generation_digest := digest; stored_state := state;
        committed_post_reservations := reservations; tracking_started_at := tracking;
        stored_diagnostic := diagnostic; created_at := created; updated_at := updated |}.

(** ** Writing rows *)

Section writes.
Context `{HX : HexCrate}.

Definition target_columns (t : ChainSubmissionTarget) : string * option Z * option bytes :=
  match t with
  | TargetDelegation => ("delegation", None, None)
  | TargetVote proposal_id => ("vote", Some (Z.of_N proposal_id), None)
  | TargetVoteBatch digest => ("vote_batch", None, Some (bytes32_bytes digest))
  | TargetDelegateAndVoteBatch digest =>
      ("delegate_and_cast_vote_batch", None, Some (bytes32_bytes digest))
  end.

(** The row [insert_fresh] inserts; the unnamed columns are NULL. *)
Definition fresh_row (r : StoredChainSubmission) : result SqlError Row :=
  let i := stored_identity r in
  let '(kind, proposal, batch) := target_columns (target i) in
  attempts ← bind_u64 (committed_post_reservations r);
  created ← bind_u64 (created_at r);
  Ok {| row_round_id := round_hex i; row_wallet_id := wallet_id i;
        row_network := network_name (network i); row_bundle_index := Z.of_N (bundle_index i);
        row_kind := kind; row_proposal_id := proposal; row_ordered_batch_digest := batch;
        row_generation_digest := stored_generation_digest r; row_state := "submitting";
        row_candidate := None; row_reservations := attempts; row_tracking_started_at := None;
        row_diagnostic_kind := None; row_diagnostic := None; row_confirmation_source := None;
        row_confirmed_hash := None; row_final_van := None; row_positions := None;
        row_created_at := created; row_updated_at := created |}.

(** The row [insert_imported_delegation] inserts. *)
Definition imported_row (r : StoredChainSubmission) (h : CandidateTransactionHash) : result SqlError Row :=
  let i := stored_identity r in
  created ← bind_u64 (created_at r);
  Ok {| row_round_id := round_hex i; row_wallet_id := wallet_id i;
        row_network := network_name (network i); row_bundle_index := Z.of_N (bundle_index i);
        row_kind := "delegation"; row_proposal_id := None; row_ordered_batch_digest := None;
        row_generation_digest := stored_generation_digest r; row_state := "tracking";
        row_candidate := Some (bytes32_bytes h); row_reservations := 0;
        row_tracking_started_at := Some created;
        row_diagnostic_kind := None; row_diagnostic := None; row_confirmation_source := None;
        row_confirmed_hash := None; row_final_van := None; row_positions := None;
        row_created_at := created; row_updated_at := created |}.

(** The columns of [persist_mutable] that depend on the state. *)
Definition mutable_columns (r : StoredChainSubmission) :
  option CandidateTransactionHash * option ChainSubmissionDiagnostic
  * option ChainSubmissionConfirmation :=
  match stored_state r with
  | Submitting => (None, None, None)
  | Tracking h => (Some h, stored_diagnostic r, None)
  | Recovering h d => (h, Some d, None)
  | SubmittedWithoutHash d => (None, Some d, None)
  | Confirmed v =>
      (confirmation_transaction_hash (confirmation_payload v), None, Some (confirmation_payload v))
  | Rejected d => (None, Some d, None)
  end.

Definition source_name (c : ChainSubmissionConfirmation) : string :=
  match confirmation_source c with SourceHash => "hash" | SourceTree => "tree" end.

Definition bind_option (o : option N) : result SqlError (option Z) :=
  match o with None => Ok None | Some n => z ← bind_u64 n; Ok (Some z) end.

(** The UPDATE of [persist_mutable] applied to the stored row. *)
Definition mutated_row (old : Row) (r : StoredChainSubmission) : result SqlError Row :=
  let '(candidate, diagnostic, confirmation) := mutable_columns r in
  attempts ← bind_u64 (committed_post_reservations r);
  tracking ← bind_option (tracking_started_at r);
  van ← bind_option (final_van_position <$> confirmation);
  updated ← bind_u64 (updated_at r);
  Ok {| row_round_id := row_round_id old; row_wallet_id := row_wallet_id old;
        row_network := row_network old; row_bundle_index := row_bundle_index old;
        row_kind := row_kind old; row_proposal_id := row_proposal_id old;
        row_ordered_batch_digest := row_ordered_batch_digest old;
        row_generation_digest := row_generation_digest old;
        row_state := state_name (stored_state r);
        row_candidate := bytes32_bytes <$> candidate;
        row_reservations := attempts; row_tracking_started_at := tracking;
        row_diagnostic_kind := (fun d => as_str (diagnostic_kind d)) <$> diagnostic;
        row_diagnostic := diagnostic_message <$> diagnostic;
        row_confirmation_source := source_name <$> confirmation;
        row_confirmed_hash := bytes32_bytes <$> (c ← confirmation; confirmation_transaction_hash c);
        row_final_van := van;
        row_positions := (fun c => encode_positions (vote_commitment_positions c)) <$> confirmation;
        row_created_at := row_created_at old; row_updated_at := updated |}.

(** ** Statements *)

Definition first_failed (constraints : list (string * bool)) : option string :=
  fst <$> List.find (fun c => negb c.2) constraints.

Definition constrain (t : SubmissionTable) (k : bytes) (r : Row) : result SqlError unit :=
  match first_failed (row_constraints k r) with
  | Some name => Err (SqlConstraint name)
  | None => fail_if (negb (indexes_accept t k r)) (SqlConstraint "unique index")
  end.

(** INSERT: primary key, foreign key to [rounds], CHECKs, unique indexes. *)
Definition sql_insert (round_exists : bool) (t : SubmissionTable) (k : bytes) (r : Row) :
  result SqlError SubmissionTable :=
  _ ← fail_if (bool_decide (is_Some (t !! k))) (SqlConstraint "identity_key");
  _ ← constrain t k r;
  _ ← fail_if (negb round_exists) (SqlConstraint "rounds foreign key");
  Ok (<[k := r]> t).

(** UPDATE ... WHERE identity_key = k: no matching row is not an error. *)
Definition sql_update (t : SubmissionTable) (k : bytes) (f : Row -> result SqlError Row) :
  result SqlError SubmissionTable :=
  match t !! k with
  | None => Ok t
  | Some old =>
      new ← f old;
      _ ← fail_if (negb (update_triggers_accept old new)) (SqlConstraint "update trigger");
      _ ← constrain t k new;
      Ok (<[k := new]> t)
  end.

Definition sql_delete (t : SubmissionTable) (k : bytes) : SubmissionTable := delete k t.

(** [ON DELETE CASCADE]: the rows go with the rounds that are deleted. *)
Definition sql_delete_rounds (t : SubmissionTable) (gone : string -> string -> bool) : SubmissionTable :=
  filter (fun e => gone (row_round_id e.2) (row_wallet_id e.2) = false) t.

Definition load_row (t : SubmissionTable) (i : ChainSubmissionIdentity) :
  result SqlError (option StoredChainSubmission) :=
  match t !! submission_identity_key i with
  | None => Ok None
  | Some row => r ← decode_row i row; Ok (Some r)
  end.
End writes.
