(* ===== verification/StoreRowFacts.v ===== *)
(** * The row codec and the schema

    Proofs about [StoreRow]: the positions codec round-trips, a persisted record
    reloads as itself up to the redaction of its diagnostic text, and a legal
    record never violates a CHECK constraint or an update trigger. *)

From S2P Require Import Prelude Types Diagnostics SubmissionState Identity Generation Confirmation StoreRow.

(** ** Positions *)

Lemma chunks_exact_concat size (chunks : list bytes) :
  Forall (fun c => length c = size) chunks ->
  chunks_exact size (length chunks) (concat chunks) = chunks.
Proof.
  induction chunks as [|c chunks IH]; intros H; [done|]. inversion H as [|? ? Hc Hrest]; subst.
  cbn [length chunks_exact concat]. rewrite take_app_length, drop_app_length. by rewrite IH.
Qed.

Lemma length_concat_fixed size (chunks : list bytes) :
  Forall (fun c => length c = size) chunks -> length (concat chunks) = length chunks * size.
Proof.
  induction chunks as [|c chunks IH]; intros H; [done|]. inversion H as [|? ? Hc Hrest]; subst.
  cbn [concat length]. rewrite length_app, IH by done. lia.
Qed.

Lemma blob_chunks_concat size (chunks : list bytes) :
  0 < size -> Forall (fun c => length c = size) chunks -> blob_chunks size (concat chunks) = chunks.
Proof.
  intros Hsize H. unfold blob_chunks. rewrite (length_concat_fixed size), Nat.div_mul by (done || lia).
  by apply chunks_exact_concat.
Qed.

Definition positions_encodable (l : list N) : Prop :=
  short l /\ Forall (fun p => (p <= u64_max)%N) l.

Lemma be_chunks_fixed (l : list N) : Forall (fun c => length c = 8) (map (be_bytes 8) l).
Proof. apply Forall_map, Forall_true. intros. apply length_be_bytes. Qed.

Lemma decode_encode_positions l : positions_encodable l -> decode_positions (encode_positions l) = Ok l.
Proof.
  intros [Hs Hl]. unfold encode_positions, decode_positions.
  pose proof (length_concat_fixed 8 _ (be_chunks_fixed l)) as Hlen. rewrite length_map in Hlen.
  cbn [length]. rewrite length_app, length_be_bytes, Hlen, bool_decide_false by lia.
  rewrite take_app_le, firstn_all2, drop_app_le, drop_ge by (rewrite length_be_bytes; lia).
  rewrite be_value_be_bytes by (by apply u32_max_pow). rewrite Nat2N.id, bool_decide_true by lia.
  cbn [app]. rewrite blob_chunks_concat by (lia || apply be_chunks_fixed). f_equal.
  rewrite map_map. clear -Hl. induction Hl as [|p l Hp _ IH]; [done|]. cbn [map]. f_equal; [|done].
  by apply be_value_be_bytes, u64_max_pow.
Qed.

(** ** Legal records *)

Definition diagnostic_ok (d : ChainSubmissionDiagnostic) : Prop :=
  Forall printable (diagnostic_message d)
  /\ length (diagnostic_message d) <= MAX_CHAIN_SUBMISSION_DIAGNOSTIC_BYTES.

Definition confirmation_ok (v : ValidatedConfirmation) : Prop :=
  let c := confirmation_payload v in
  (final_van_position c <= i64_max)%N /\ short (vote_commitment_positions c)
  /\ Forall (fun p => (p <= i64_max)%N) (vote_commitment_positions c)
  /\ match v with
     | HashConfirmation c => confirmation_source c = SourceHash /\ is_Some (confirmation_transaction_hash c)
     | TreeConfirmation c => confirmation_source c = SourceTree /\ confirmation_transaction_hash c = None
     end.

Definition state_ok (s : SubmissionRecordState) : Prop :=
  match s with
  | Submitting | Tracking _ => True
  | Recovering _ d | SubmittedWithoutHash d | Rejected d => diagnostic_ok d
  | Confirmed v => confirmation_ok v
  end.

Definition tracking_ok (s : SubmissionRecordState) (tracking : option N) : Prop :=
  match s with
  | Submitting => tracking = None
  | Tracking _ => is_Some tracking
  | _ => True
  end.

Record record_ok (r : StoredChainSubmission) : Prop := {
  ok_state : state_ok (stored_state r);
  ok_tracking : tracking_ok (stored_state r) (tracking_started_at r);
  ok_diagnostic : match stored_diagnostic r with Some d => diagnostic_ok d | None => True end;
  ok_times : (created_at r <= updated_at r)%N;
  ok_range : (committed_post_reservations r <= i64_max)%N /\ (updated_at r <= i64_max)%N
    /\ match tracking_started_at r with Some t => (t <= i64_max)%N | None => True end
}.

(** The redaction every reload repeats. *)
Definition redacted (d : ChainSubmissionDiagnostic) : ChainSubmissionDiagnostic :=
  from_redacted_message (diagnostic_kind d) (diagnostic_message d).

Definition redacted_state (s : SubmissionRecordState) : SubmissionRecordState :=
  match s with
  | Recovering h d => Recovering h (redacted d)
  | SubmittedWithoutHash d => SubmittedWithoutHash (redacted d)
  | Rejected d => Rejected (redacted d)
  | s => s
  end.

(** The record a persisted [r] is loaded back as. *)
Definition reloaded (r : StoredChainSubmission) : StoredChainSubmission :=
  let '(_, diagnostic, _) := mutable_columns r in
  with_bookkeeping (with_state r (redacted_state (stored_state r)))
    (committed_post_reservations r) (tracking_started_at r) (redacted <$> diagnostic) (updated_at r).

Lemma redacted_ok d : diagnostic_ok (redacted d).
Proof. split; [apply bounded_redacted_loop_printable | apply length_bounded_redacted_text]. Qed.

Lemma from_redacted_message_ok k m : diagnostic_ok (from_redacted_message k m).
Proof. split; [apply bounded_redacted_loop_printable | apply length_bounded_redacted_text]. Qed.

#[export] Hint Resolve redacted_ok from_redacted_message_ok : voting.

Lemma confirmation_from_hash_ok h van positions v :
  short positions -> confirmation_from_hash h van positions = Ok v -> confirmation_ok v.
Proof.
  intros Hs (c & -> & ? & Hh & Hvan & Hpos & ? & ?)%confirmation_from_hash_Ok.
  unfold confirmation_ok. cbn. rewrite Hvan, Hpos, Hh. eauto 10.
Qed.

Lemma confirmation_from_tree_ok van positions v :
  short positions -> confirmation_from_tree van positions = Ok v -> confirmation_ok v.
Proof.
  unfold confirmation_from_tree. intros Hs H. inv_ok.
  match goal with Hv : validate_sqlite_positions _ _ = _ |- _ => apply validate_sqlite_positions_Ok in Hv as [] end.
  unfold confirmation_ok. cbn. auto.
Qed.

(** ** Binding and reading integers *)

Lemma bind_u64_Ok n z : bind_u64 n = Ok z -> z = Z.of_N n /\ (n <= i64_max)%N.
Proof. unfold bind_u64. case_bool_decide; naive_solver. Qed.

Lemma bind_u64_fits n : (n <= i64_max)%N -> bind_u64 n = Ok (Z.of_N n).
Proof. intros H. unfold bind_u64. by rewrite bool_decide_true. Qed.

Lemma u64_try_from_of_N n : u64_try_from (Z.of_N n) = Some n.
Proof. unfold u64_try_from. rewrite bool_decide_true by lia. by rewrite N2Z.id. Qed.

Lemma bind_option_Ok o z :
  bind_option o = Ok z -> z = Z.of_N <$> o /\ match o with Some n => (n <= i64_max)%N | None => True end.
Proof. destruct o as [n|]; cbn; intros H; inv_ok; [|done]. by apply bind_u64_Ok in Ha as [-> ?]. Qed.

Lemma bind_option_fits o :
  match o with Some n => (n <= i64_max)%N | None => True end -> bind_option o = Ok (Z.of_N <$> o).
Proof. destruct o as [n|]; cbn; intros H; [by rewrite bind_u64_fits | done]. Qed.

Lemma column_hash_bytes32 (o : option bytes32) : column_hash (bytes32_bytes <$> o) = Ok o.
Proof.
  destruct o as [h|]; [|done]. cbn. by rewrite (proj2 (try_into_bytes32_Some h h) eq_refl).
Qed.

Lemma decode_diagnostic_persisted (o : option ChainSubmissionDiagnostic) :
  decode_diagnostic ((fun d => as_str (diagnostic_kind d)) <$> o) (diagnostic_message <$> o)
  = Ok (redacted <$> o).
Proof. destruct o as [d|]; [|done]. cbn. by rewrite from_stable_name_as_str. Qed.

(** ** Rows reload *)

Section rows.
Context `{HX : HexCrate}.

Lemma confirmed_value_persisted v :
  confirmation_ok v ->
  let c := confirmation_payload v in
  confirmed_value (source_name c, final_van_position c, vote_commitment_positions c,
                   confirmation_transaction_hash c) = Ok v.
Proof.
  destruct v as [[src oh van ps]|[src oh van ps]]; cbn; intros (Hvan & _ & Hps & Hsrc & Hh); cbn in *; subst; cbn.
  - destruct Hh as [h ->]. cbn. unfold confirmation_from_hash.
    by rewrite (proj2 (validate_sqlite_positions_Ok van ps tt) (conj Hvan Hps)).
  - unfold confirmation_from_tree.
    by rewrite (proj2 (validate_sqlite_positions_Ok van ps tt) (conj Hvan Hps)).
Qed.

Lemma confirmation_positions_encodable v :
  confirmation_ok v -> positions_encodable (vote_commitment_positions (confirmation_payload v)).
Proof.
  intros (_ & Hs & Hp & _). split; [done|]. eapply Forall_impl; [exact Hp|].
  unfold i64_max, u64_max. intros; lia.
Qed.

(** The confirmation columns [persist_mutable] writes, read back. *)
Lemma decode_confirmation_persisted row v :
  confirmation_ok v ->
  let c := confirmation_payload v in
  row_confirmation_source row = Some (source_name c) ->
  row_final_van row = Some (Z.of_N (final_van_position c)) ->
  row_positions row = Some (encode_positions (vote_commitment_positions c)) ->
  row_confirmed_hash row = bytes32_bytes <$> confirmation_transaction_hash c ->
  decode_confirmation row
  = Ok (Some (source_name c, final_van_position c, vote_commitment_positions c,
              confirmation_transaction_hash c)).
Proof.
  intros Hv c Hs Hvan Hps Hh. unfold decode_confirmation. rewrite Hs, Hvan, Hps, Hh.
  cbn [mbind result_bind invalid_or ok_or].
  rewrite u64_try_from_of_N. cbn [mbind result_bind invalid_or ok_or]. rewrite decode_encode_positions by (by apply confirmation_positions_encodable).
  cbn. by rewrite column_hash_bytes32.
Qed.

Lemma mutated_row_Ok old r row :
  mutated_row old r = Ok row ->
  (committed_post_reservations r <= i64_max)%N /\ (updated_at r <= i64_max)%N
  /\ match tracking_started_at r with Some t => (t <= i64_max)%N | None => True end
  /\ row_reservations row = Z.of_N (committed_post_reservations r)
  /\ row_tracking_started_at row = Z.of_N <$> tracking_started_at r
  /\ row_updated_at row = Z.of_N (updated_at r).
Proof.
  unfold mutated_row. destruct (mutable_columns r) as [[candidate diagnostic] confirmation]. intros H.
  apply result_bind_Ok in H as (attempts & [-> Ha]%bind_u64_Ok & H).
  apply result_bind_Ok in H as (tracking & [-> Ht]%bind_option_Ok & H).
  apply result_bind_Ok in H as (van & [-> Hv]%bind_option_Ok & H).
  apply result_bind_Ok in H as (updated & [-> Hu]%bind_u64_Ok & H).
  injection H as <-. by repeat split.
Qed.

Lemma mutated_row_decodes old r row :
  state_ok (stored_state r) ->
  row_generation_digest old = bytes32_bytes (stored_generation_digest r) ->
  row_created_at old = Z.of_N (created_at r) ->
  mutated_row old r = Ok row ->
  decode_row (stored_identity r) row = Ok (reloaded r).
Proof.
  intros Hs Hdigest Hcreated Hrow. unfold mutated_row in Hrow.
  destruct (mutable_columns r) as [[candidate diagnostic] confirmation] eqn:Hcols.
  apply result_bind_Ok in Hrow as (attempts & [-> Ha]%bind_u64_Ok & Hrow).
  apply result_bind_Ok in Hrow as (tracking & [-> Ht]%bind_option_Ok & Hrow).
  apply result_bind_Ok in Hrow as (van & [-> Hv]%bind_option_Ok & Hrow).
  apply result_bind_Ok in Hrow as (updated & [-> Hu]%bind_u64_Ok & Hrow).
  injection Hrow as Hrow.
  assert (decode_confirmation row = Ok match stored_state r with
    | Confirmed v => let c := confirmation_payload v in
        Some (source_name c, final_van_position c, vote_commitment_positions c, confirmation_transaction_hash c)
    | _ => None end) as Hconf.
  { unfold mutable_columns in Hcols.
    destruct (stored_state r) as [|h|h d|d|v|d]; injection Hcols as <- <- <-; subst row; try done.
    by apply decode_confirmation_persisted. }
  assert (decode_state (row_state row) candidate (redacted <$> diagnostic)
    match stored_state r with
    | Confirmed v => let c := confirmation_payload v in
        Some (source_name c, final_van_position c, vote_commitment_positions c, confirmation_transaction_hash c)
    | _ => None end = Ok (redacted_state (stored_state r))) as Hstate.
  { unfold mutable_columns in Hcols.
    destruct (stored_state r) as [|h|h d|d|v|d]; injection Hcols as <- <- <-; subst row; try done.
    cbn [row_state]. unfold decode_state. cbn [state_name String.eqb Ascii.eqb Bool.eqb].
    cbn [mbind result_bind invalid_or ok_or]. by rewrite confirmed_value_persisted. }
  unfold decode_row. rewrite Hconf. subst row. cbn [row_diagnostic_kind row_diagnostic row_candidate row_state
    row_generation_digest row_reservations row_tracking_started_at row_created_at row_updated_at] in *.
  rewrite decode_diagnostic_persisted, column_hash_bytes32. cbn [mbind result_bind]. rewrite Hstate.
  rewrite Hdigest, Hcreated. unfold invalid_or. cbn [mbind result_bind].
  rewrite (proj2 (try_into_bytes32_Some _ (stored_generation_digest r)) eq_refl).
  rewrite !u64_try_from_of_N. unfold reloaded. rewrite Hcols.
  destruct (tracking_started_at r) as [t|]; cbn; [rewrite u64_try_from_of_N|]; done.
Qed.

Lemma fresh_row_decodes g n now row :
  fresh_row (fresh_submission g n now) = Ok row ->
  decode_row (generation_identity g) row = Ok (fresh_submission g n now)
  /\ (n <= i64_max)%N /\ (now <= i64_max)%N.
Proof.
  unfold fresh_row. destruct (target_columns _) as [[kind proposal] batch]. intros H.
  apply result_bind_Ok in H as (attempts & [-> Ha]%bind_u64_Ok & H).
  apply result_bind_Ok in H as (created & [-> Hc]%bind_u64_Ok & H).
  injection H as <-. split; [|done]. unfold decode_row. cbn.
  rewrite (proj2 (try_into_bytes32_Some _ (generation_digest g)) eq_refl). cbn.
  by rewrite !u64_try_from_of_N.
Qed.

Lemma imported_row_decodes g h now row :
  imported_row (adopted_imported_delegation g h now) h = Ok row ->
  decode_row (generation_identity g) row = Ok (adopted_imported_delegation g h now)
  /\ (now <= i64_max)%N.
Proof.
  unfold imported_row. intros H.
  apply result_bind_Ok in H as (created & [-> Hc]%bind_u64_Ok & H).
  injection H as <-. split; [|done]. unfold decode_row. cbn.
  rewrite (proj2 (try_into_bytes32_Some _ h) eq_refl). cbn.
  rewrite (proj2 (try_into_bytes32_Some _ (generation_digest g)) eq_refl). cbn.
  by rewrite !u64_try_from_of_N.
Qed.

(** ** The schema accepts legal records *)

(** The identity columns of a row. *)
Definition row_identity (i : ChainSubmissionIdentity) (row : Row) : Prop :=
  row_round_id row = round_hex i /\ row_wallet_id row = wallet_id i
  /\ row_network row = network_name (network i) /\ row_bundle_index row = Z.of_N (bundle_index i)
  /\ (row_kind row, row_proposal_id row, row_ordered_batch_digest row) = target_columns (target i).

(** What [ChainSubmissionIdentity::new] and the machine widths guarantee. *)
Definition identity_valid (i : ChainSubmissionIdentity) : Prop :=
  identity_in_range i /\
  match target i with TargetVote p => (MIN_PROPOSAL_ID <= p <= MAX_PROPOSAL_ID)%N | _ => True end.

Lemma length_submission_identity_key i : 32 <= length (submission_identity_key i).
Proof.
  unfold submission_identity_key. rewrite length_app.
  assert (32 <= length identity_key_domain) by (apply (bool_decide_unpack _); vm_compute; exact I). lia.
Qed.

Lemma utf8_length_printable t : Forall printable t -> utf8_length t = length t.
Proof.
  unfold utf8_length. induction 1 as [|c t Hc _ IH]; [done|]. cbn [map sum_list length].
  rewrite IH. unfold utf8_width, printable in *. by rewrite bool_decide_true by lia.
Qed.

Lemma diagnostic_check_ok (o : option ChainSubmissionDiagnostic) :
  match o with Some d => diagnostic_ok d | None => True end ->
  check (sql_or (is_null (diagnostic_message <$> o))
           ((fun d => bool_decide (utf8_length d <= 512)) <$> (diagnostic_message <$> o))) = true.
Proof.
  destruct o as [d|]; [|done]. intros [Hp Hlen]. cbn.
  rewrite utf8_length_printable by done. by rewrite bool_decide_true.
Qed.

Lemma hash_length_check (o : option bytes32) :
  check (sql_or (is_null (bytes32_bytes <$> o)) (sql_length_is (bytes32_bytes <$> o) 32)) = true.
Proof. destruct o as [h|]; [|done]. cbn. by rewrite length_bytes32, bool_decide_true. Qed.

(** The constraints that only read the identity columns. *)
Lemma target_check_ok i row :
  row_identity i row -> identity_valid i ->
  check (sql_in (Some (row_network row)) ["mainnet"; "testnet"; "regtest"]) = true
  /\ check (sql_between (Some (row_bundle_index row)) 0 4294967295) = true
  /\ check (sql_in (Some (row_kind row)) ["delegation"; "vote"; "vote_batch"; "delegate_and_cast_vote_batch"]) = true
  /\ check (sql_or (sql_and (sql_eq (Some (row_kind row)) (Some "delegation"))
                      (sql_and (is_null (row_proposal_id row)) (is_null (row_ordered_batch_digest row))))
           (sql_or (sql_and (sql_eq (Some (row_kind row)) (Some "vote"))
                      (sql_and (sql_between (row_proposal_id row) 1 50) (is_null (row_ordered_batch_digest row))))
                   (sql_and (sql_in (Some (row_kind row)) ["vote_batch"; "delegate_and_cast_vote_batch"])
                      (sql_and (is_null (row_proposal_id row)) (sql_length_is (row_ordered_batch_digest row) 32)))))
     = true.
Proof.
  intros (_ & _ & -> & -> & Ht) ((_ & Hb & _) & Hp). split; [by destruct (network i)|]. split.
  { cbn. rewrite bool_decide_true by (unfold u32_max in Hb; lia). done. }
  unfold MIN_PROPOSAL_ID, MAX_PROPOSAL_ID in Hp.
  destruct (target i) as [|p|digest|digest]; injection Ht as -> -> ->; split; try done.
  - cbn [sql_between fmap option_fmap option_map].
    by rewrite (bool_decide_true (1 <= Z.of_N p <= 50)%Z) by lia.
  - cbn [sql_length_is fmap option_fmap option_map]. by rewrite length_bytes32.
  - cbn [sql_length_is fmap option_fmap option_map]. by rewrite length_bytes32.
Qed.

Lemma sql_eq_refl {A} `{EqDecision A} (x : A) : sql_eq (Some x) (Some x) = Some true.
Proof. cbn. by rewrite bool_decide_true. Qed.

(** Every CHECK, split into the conditions its columns have to meet. *)
Lemma legal_row_checks i old r row :
  identity_valid i -> row_identity i old -> record_ok r ->
  row_generation_digest old = bytes32_bytes (stored_generation_digest r) ->
  row_created_at old = Z.of_N (created_at r) ->
  mutated_row old r = Ok row ->
  row_checks (submission_identity_key i) row = true.
Proof.
  intros Hi Hold [Hs Ht Hd Htimes _] Hdigest Hcreated Hrow. unfold mutated_row in Hrow.
  destruct (mutable_columns r) as [[candidate diagnostic] confirmation] eqn:Hcols.
  apply result_bind_Ok in Hrow as (attempts & [-> Ha]%bind_u64_Ok & Hrow).
  apply result_bind_Ok in Hrow as (tracking & [-> Htr]%bind_option_Ok & Hrow).
  apply result_bind_Ok in Hrow as (van & [-> Hv]%bind_option_Ok & Hrow).
  apply result_bind_Ok in Hrow as (updated & [-> Hu]%bind_u64_Ok & Hrow).
  injection Hrow as <-.
  destruct (target_check_ok i old Hold Hi) as (H1 & H2 & H3 & H11).
  unfold row_checks, row_constraints.
  cbn [forallb snd row_network row_bundle_index row_kind row_generation_digest row_state row_reservations
    row_confirmation_source row_created_at row_updated_at row_proposal_id row_ordered_batch_digest
    row_candidate row_confirmed_hash row_tracking_started_at row_diagnostic_kind row_diagnostic
    row_final_van row_positions].
  rewrite H1, H2, H3, H11, Hdigest, Hcreated, !hash_length_check. clear H1 H2 H3 H11.
  rewrite diagnostic_check_ok by (unfold mutable_columns in Hcols;
    destruct (stored_state r); injection Hcols as <- <- <-; done).
  rewrite (bool_decide_true (0 <= Z.of_N (committed_post_reservations r))%Z) by lia.
  rewrite (bool_decide_true (0 <= Z.of_N (created_at r))%Z) by lia.
  rewrite (bool_decide_true (Z.of_N (created_at r) <= Z.of_N (updated_at r))%Z) by lia.
  rewrite (bool_decide_true (32 <= length (submission_identity_key i))) by apply length_submission_identity_key.
  cbn [sql_length_is fmap option_fmap option_map]. rewrite length_bytes32.
  unfold mutable_columns in Hcols.
  destruct (stored_state r) as [|h|h d|d|v|d]; injection Hcols as <- <- <-;
    cbn [tracking_ok state_ok] in Ht, Hs.
  - rewrite Ht. done.
  - destruct Ht as [t ->]. by destruct (stored_diagnostic r).
  - done.
  - done.
  - destruct v as [[src oh van ps]|[src oh van ps]]; cbn in Hs;
      destruct Hs as (_ & _ & _ & Hsrc & Hh); cbn in Hsrc, Hh; subst src.
    + destruct Hh as [h Hh]. subst oh.
      cbn [fmap option_fmap option_map confirmation_payload mbind option_bind confirmation_transaction_hash].
      by rewrite (sql_eq_refl (bytes32_bytes h)).
    + subst oh. done.
  - done.
Qed.

Lemma fresh_row_checks i g n now row :
  identity_valid i -> generation_identity g = i -> fresh_row (fresh_submission g n now) = Ok row ->
  row_identity i row /\ row_checks (submission_identity_key i) row = true.
Proof.
  intros Hi Hg Hrow. unfold fresh_row in Hrow. cbn [stored_identity fresh_submission] in Hrow. rewrite Hg in Hrow.
  destruct (target_columns (target i)) as [[kind proposal] batch] eqn:Hcols.
  apply result_bind_Ok in Hrow as (attempts & [-> Ha]%bind_u64_Ok & Hrow).
  apply result_bind_Ok in Hrow as (created & [-> Hc]%bind_u64_Ok & Hrow). injection Hrow as <-.
  match goal with |- row_identity i ?r /\ _ => assert (row_identity i r) as Hid by done end.
  split; [done|]. destruct (target_check_ok i _ Hid Hi) as (H1 & H2 & H3 & H11).
  unfold row_checks, row_constraints. cbn [forallb snd] in *. rewrite H1, H2, H3, H11.
  cbn [row_reservations row_created_at row_updated_at row_generation_digest fresh_submission
    committed_post_reservations created_at stored_generation_digest].
  rewrite (bool_decide_true (0 <= Z.of_N n)%Z), (bool_decide_true (0 <= Z.of_N now)%Z),
    (bool_decide_true (Z.of_N now <= Z.of_N now)%Z) by lia.
  rewrite (bool_decide_true (32 <= length (submission_identity_key i))) by apply length_submission_identity_key.
  cbn [sql_length_is fmap option_fmap option_map]. by rewrite length_bytes32.
Qed.

Lemma imported_row_checks i g h now row :
  identity_valid i -> generation_identity g = i -> target i = TargetDelegation ->
  imported_row (adopted_imported_delegation g h now) h = Ok row ->
  row_identity i row /\ row_checks (submission_identity_key i) row = true.
Proof.
  intros Hi Hg Ht Hrow. unfold imported_row in Hrow.
  cbn [stored_identity adopted_imported_delegation] in Hrow. rewrite Hg in Hrow.
  apply result_bind_Ok in Hrow as (created & [-> Hc]%bind_u64_Ok & Hrow). injection Hrow as <-.
  match goal with |- row_identity i ?r /\ _ => assert (row_identity i r) as Hid
    by (repeat split; cbn; by rewrite Ht) end.
  split; [done|]. destruct (target_check_ok i _ Hid Hi) as (H1 & H2 & H3 & H11).
  unfold row_checks, row_constraints. cbn [forallb snd] in *. rewrite H1, H2, H3, H11.
  cbn [row_reservations row_created_at row_updated_at row_generation_digest row_candidate
    adopted_imported_delegation created_at stored_generation_digest].
  rewrite (bool_decide_true (0 <= Z.of_N now)%Z), (bool_decide_true (Z.of_N now <= Z.of_N now)%Z) by lia.
  rewrite (bool_decide_true (32 <= length (submission_identity_key i))) by apply length_submission_identity_key.
  change (Some (bytes32_bytes h)) with (bytes32_bytes <$> Some h). rewrite hash_length_check.
  cbn [sql_length_is fmap option_fmap option_map]. by rewrite !length_bytes32.
Qed.
End rows.
