(* ===== verification/Store.v ===== *)
(** * The transactional store

    Models the advancement request and store contract of [store.rs] and their
    SQLite implementation [store/sqlite.rs]: every operation of
    [ChainSubmissionStore] as one transaction on the database. A transaction
    that fails to begin, fails inside, or fails to commit leaves the database
    unchanged. *)

From S2P Require Import Prelude Types Diagnostics SubmissionState Identity Coordination Generation.
From S2P Require Import Confirmation StoreRow.

(** ** Requests *)

Record StoreAdvancementRequest : Type := {
  derivation : SubmissionDerivationRequest;
  member_identities : list ChainSubmissionIdentity;
  ordered_batch_proposal_ids : option (list N)
}.

Definition request_identity (q : StoreAdvancementRequest) : ChainSubmissionIdentity :=
  derivation_identity (derivation q).

Definition request_delegation (i : ChainSubmissionIdentity) (signature : bytes) : StoreAdvancementRequest :=
  {| derivation := DeriveDelegation i signature; member_identities := [];
     ordered_batch_proposal_ids := None |}.
Definition request_imported_delegation (i : ChainSubmissionIdentity) : StoreAdvancementRequest :=
  {| derivation := DeriveImportedDelegation i; member_identities := [];
     ordered_batch_proposal_ids := None |}.
Definition request_vote (i : ChainSubmissionIdentity) : StoreAdvancementRequest :=
  {| derivation := DeriveVote i; member_identities := []; ordered_batch_proposal_ids := None |}.

(** The [Display] form of [ChainSubmissionIdentityError]. *)
Definition identity_error_text (e : ChainSubmissionIdentityError) : text :=
  match e with
  | EmptyWalletId => chars "chain submission wallet_id must not be empty"
  | InvalidVoteRoundId => chars "vote_round_id must be a canonical Pallas field encoding"
  | InvalidProposalId p =>
      chars "proposal_id must be between " ++ decimal MIN_PROPOSAL_ID ++ chars " and "
      ++ decimal MAX_PROPOSAL_ID ++ chars ", got " ++ decimal p
  end.

Definition invalid_input (message : text) : ChainSubmissionFailure := without_state InvalidInput message.

Definition sibling_identity (canonical : bytes32 -> bool) (i : ChainSubmissionIdentity)
  (t : ChainSubmissionTarget) : result ChainSubmissionFailure ChainSubmissionIdentity :=
  map_err (fun e => invalid_input (identity_error_text e))
    (identity_new canonical (wallet_id i) (network i) (vote_round_id i) (bundle_index i) t).

Definition identity_order (i j : ChainSubmissionIdentity) : Prop :=
  key_le (operation_key i) (operation_key j).
#[export] Instance identity_order_dec : RelDecision identity_order.
Proof. intros i j. unfold identity_order. apply _. Defined.

(** [StoreAdvancementRequest::vote_batch]. *)
Definition request_vote_batch (canonical : bytes32 -> bool) (i : ChainSubmissionIdentity)
  (proposal_ids : list N) : result ChainSubmissionFailure StoreAdvancementRequest :=
  _ ← fail_if (bool_decide (batch_digest (target i) = None) || bool_decide (proposal_ids = []))
        (invalid_input (chars "vote-batch requests require a batch identity and a non-empty ordered proposal roster"));
  _ ← fail_if (bool_decide (MAX_VOTE_BATCH_ACTIONS < length proposal_ids))
        (invalid_input (chars "vote-batch proposal roster exceeds the "
           ++ decimal_nat MAX_VOTE_BATCH_ACTIONS ++ chars "-action protocol maximum"));
  votes ← collect_results (fun p => sibling_identity canonical i (TargetVote p)) proposal_ids;
  members ← if is_combined (target i)
            then delegation ← sibling_identity canonical i TargetDelegation; Ok (votes ++ [delegation])
            else Ok votes;
  let sorted := merge_sort identity_order members in
  let deduped := dedup sorted in
  _ ← fail_if (negb (bool_decide (length deduped = length sorted)))
        (invalid_input (chars "vote-batch proposal roster contains duplicates"));
  Ok {| derivation := DeriveVoteBatch i; member_identities := deduped;
        ordered_batch_proposal_ids := Some proposal_ids |}.

Definition applicable_identities (q : StoreAdvancementRequest) : list ChainSubmissionIdentity :=
  member_identities q ++ [request_identity q].

Definition is_batch (q : StoreAdvancementRequest) : bool :=
  match derivation q with DeriveVoteBatch _ => true | _ => false end.

Definition is_imported_delegation (q : StoreAdvancementRequest) : bool :=
  match derivation q with DeriveImportedDelegation _ => true | _ => false end.

Definition verify_batch_roster (q : StoreAdvancementRequest) (authoritative : list N) :
  result ChainSubmissionFailure unit :=
  match ordered_batch_proposal_ids q with
  | Some expected =>
      fail_if (negb (bool_decide (authoritative = expected)))
        (invalid_input (chars "vote-batch proposal roster does not match the complete persisted batch"))
  | None => Ok tt
  end.

Definition validate_target (q : StoreAdvancementRequest) : result ChainSubmissionFailure unit :=
  match derivation q, target (request_identity q) with
  | DeriveDelegation _ _, TargetDelegation
  | DeriveImportedDelegation _, TargetDelegation
  | DeriveVote _, TargetVote _
  | DeriveVoteBatch _, (TargetVoteBatch _ | TargetDelegateAndVoteBatch _) => Ok tt
  | _, _ => Err (invalid_input (chars "submission request kind does not match its typed identity target"))
  end.

(** ** Failures *)

Definition abandoned_diagnostic : ChainSubmissionDiagnostic :=
  from_redacted_message AmbiguousDispatch
    (chars "an unclassified submission reservation survived process interruption").

Definition ensure_generation (r : StoredChainSubmission) (g : ChainSubmissionGeneration) :
  result ChainSubmissionFailure unit :=
  fail_if (negb (bool_decide (stored_identity r = generation_identity g))
           || negb (bool_decide (stored_generation_digest r = generation_digest g)))
    (with_durable_state InvalidInput (record_durable_state r)
       (chars "stored submission belongs to a different semantic generation")).

Definition transition_failure (s : ChainSubmissionState) (message : text) : ChainSubmissionFailure :=
  with_durable_state InvariantViolation s message.

Definition preserve_loaded_state (r : option StoredChainSubmission) (e : ChainSubmissionFailure) :
  ChainSubmissionFailure :=
  match strongest_state e, r with
  | None, Some r => with_durable_state (failure_kind e) (record_durable_state r) (failure_message e)
  | _, _ => e
  end.

Definition possible_dispatch_error (e : ChainSubmissionFailure) : ChainSubmissionFailure :=
  with_known_possible_dispatch (failure_kind e) (failure_message e).

(** ** The database *)

(** Reads of other tables that admission makes. *)
Class StoreTables {GT : GenerationTables} : Type := {
  store_confirmation :: ConfirmationTables;
  (** The [bundles] row, if any, and whether its delegation transaction hash or
      VAN position is set: round, wallet, bundle. *)
  bundle_delegation_set : Tables -> string -> string -> N -> option bool;
  (** Whether [delegate_cast_recovery] has a row for the bundle. *)
  combined_recovery_exists : Tables -> string -> string -> N -> bool;
  (** Whether [rounds] has the round, as the foreign key needs. *)
  round_exists : Tables -> string -> string -> bool
}.

Section store.
Context `{ST : StoreTables, B64 : Base64Crate, HX : HexCrate, SH : Sha256Crate, RQ : RusqliteCrate}.

Record Database : Type := { submissions : SubmissionTable; domain : DomainState }.

Definition storage_error (e : SqlError) : ChainSubmissionFailure :=
  without_state Storage (sql_error_text e).

(** Whether the environment lets the transaction begin and commit. *)
Record TransactionEnv : Type := { begin_error : option SqlError; commit_error : option SqlError }.

Definition transact {R} (env : TransactionEnv)
  (operation : Database -> result ChainSubmissionFailure (Database * R)) (db : Database) :
  Database * result ChainSubmissionFailure R :=
  match begin_error env with
  | Some e => (db, Err (storage_error e))
  | None =>
      match operation db with
      | Err e => (db, Err e)
      | Ok (db', r) =>
          match commit_error env with
          | Some e => (db, Err (storage_error e))
          | None => (db', Ok r)
          end
      end
  end.

Definition load_submission (db : Database) (i : ChainSubmissionIdentity) :
  result ChainSubmissionFailure (option StoredChainSubmission) :=
  map_err storage_error (load_row (submissions db) i).

Definition with_submissions (db : Database) (t : SubmissionTable) : Database :=
  {| submissions := t; domain := domain db |}.

Definition insert_row (db : Database) (i : ChainSubmissionIdentity) (row : result SqlError Row) :
  result ChainSubmissionFailure Database :=
  map_err storage_error
    (row ← row;
     t ← sql_insert (round_exists (tables (domain db)) (round_hex i) (wallet_id i))
           (submissions db) (submission_identity_key i) row;
     Ok (with_submissions db t)).

Definition insert_fresh (db : Database) (r : StoredChainSubmission) :
  result ChainSubmissionFailure Database := insert_row db (stored_identity r) (fresh_row r).

Definition insert_imported_delegation (db : Database) (r : StoredChainSubmission)
  (h : CandidateTransactionHash) : result ChainSubmissionFailure Database :=
  insert_row db (stored_identity r) (imported_row r h).

Definition persist_mutable (db : Database) (r : StoredChainSubmission) :
  result ChainSubmissionFailure Database :=
  map_err storage_error
    (t ← sql_update (submissions db) (submission_identity_key (stored_identity r))
           (fun old => mutated_row old r);
     Ok (with_submissions db t)).

Definition normalize_abandoned (db : Database) (r : StoredChainSubmission) (now : N) :
  result ChainSubmissionFailure (Database * StoredChainSubmission) :=
  let removed := possible_dispatch_error (transition_failure DurableSubmitting
                   (chars "abandoned reservation normalization removed the durable row")) in
  next ← map_err (fun e => possible_dispatch_error
                     (transition_failure DurableSubmitting (transition_error_text e)))
           (apply_submission_observation (Some (stored_state r))
              (ObsAbandonedSubmitting abandoned_diagnostic));
  state ← ok_or next removed;
  let diagnostic := match state with Recovering _ d => Some d | _ => None end in
  let r' := with_bookkeeping (with_state r state) (committed_post_reservations r)
              (tracking_started_at r) diagnostic (N.max now (updated_at r)) in
  db' ← map_err possible_dispatch_error (persist_mutable db r');
  Ok (db', r').

Inductive StoreAdmission : Type :=
| NoAuthoritativeState
| Authoritative (r : StoredChainSubmission)
| Ready (derived : DerivedChainSubmission) (r : StoredChainSubmission) (fresh_reservation : bool).

Inductive ConfirmationCommit : Type :=
| CommitInterrupted (r : StoredChainSubmission)
| CommitConfirmed (r : StoredChainSubmission).

(** *** Queries over the submission table *)

Definition any_row (db : Database) (p : bytes -> Row -> bool) : bool :=
  existsb (fun e => p e.1 e.2) (map_to_list (submissions db)).

(** Rows of the same round, wallet and bundle, on any network. *)
Definition in_round_bundle (i : ChainSubmissionIdentity) (r : Row) : bool :=
  bool_decide (row_round_id r = round_hex i) && bool_decide (row_wallet_id r = wallet_id i)
  && bool_decide (row_bundle_index r = Z.of_N (bundle_index i)).

Definition in_bundle (i : ChainSubmissionIdentity) (r : Row) : bool :=
  in_round_bundle i r && bool_decide (row_network r = network_name (network i)).

Definition unresolved_state (name : string) : bool :=
  existsb (String.eqb name) ["submitting"; "tracking"; "recovering"; "submitted_without_hash"].

Definition predecessor_exists (db : Database) (i : ChainSubmissionIdentity) : bool :=
  any_row db (fun _ r => in_bundle i r && unresolved_state (row_state r)).

Definition confirmed_vote_exists (db : Database) (i : ChainSubmissionIdentity) : bool :=
  any_row db (fun _ r => in_bundle i r
    && existsb (String.eqb (row_kind r)) ["vote"; "vote_batch"; "delegate_and_cast_vote_batch"]
    && String.eqb (row_state r) "confirmed").

Definition row_owns (h : bytes) (r : Row) : bool :=
  bool_decide (row_candidate r = Some h) || bool_decide (row_confirmed_hash r = Some h).

Definition hash_owned (db : Database) (h : CandidateTransactionHash) : bool :=
  any_row db (fun _ r => row_owns h r).

Definition hash_owned_elsewhere (db : Database) (k : bytes) (h : CandidateTransactionHash) : bool :=
  any_row db (fun k' r => negb (bool_decide (k' = k)) && row_owns h r).

(** The guards fresh admission runs before derivation. *)
Definition combined_guard (db : Database) (i : ChainSubmissionIdentity) :
  result ChainSubmissionFailure unit :=
  if is_combined (target i) then
    set ← ok_or (bundle_delegation_set (tables (domain db)) (round_hex i) (wallet_id i) (bundle_index i))
            (storage_error SqlNoRows);
    fail_if (set || any_row db (fun _ r => in_round_bundle i r))
      (invalid_input (chars "combined admission requires a fresh delegation"))
  else Ok tt.

Definition delegation_guard (db : Database) (i : ChainSubmissionIdentity) :
  result ChainSubmissionFailure unit :=
  if bool_decide (target i = TargetDelegation) then
    fail_if (combined_recovery_exists (tables (domain db)) (round_hex i) (wallet_id i) (bundle_index i))
      (invalid_input (chars "persisted combined recovery owns this delegation"))
  else Ok tt.

Definition successor_guard (db : Database) (i : ChainSubmissionIdentity) :
  result ChainSubmissionFailure unit :=
  _ ← fail_if (predecessor_exists db i)
        (invalid_input (chars "another submission for this bundle has not established an authoritative successor"));
  if bool_decide (target i = TargetDelegation) then
    fail_if (confirmed_vote_exists db i)
      (invalid_input (chars "a confirmed vote already succeeds this bundle's delegation"))
  else Ok tt.

(** *** Admission *)

Definition derive_for (db : Database) (q : StoreAdvancementRequest)
  (loaded : option StoredChainSubmission) : result ChainSubmissionFailure DerivedChainSubmission :=
  map_err (preserve_loaded_state loaded) (derive (tables (domain db)) (derivation q)).

Definition verify_roster_for (q : StoreAdvancementRequest) (d : DerivedChainSubmission)
  (loaded : option StoredChainSubmission) : result ChainSubmissionFailure unit :=
  map_err (preserve_loaded_state loaded)
    (verify_batch_roster q (ordered_proposal_ids (derived_bound d))).

Definition terminal_record (r : StoredChainSubmission) : bool :=
  match stored_state r with Confirmed _ | Rejected _ | SubmittedWithoutHash _ => true | _ => false end.

(** Admission of a bundle with no row for this identity. *)
Definition admit_new (db : Database) (q : StoreAdvancementRequest)
  (batch_derived : option DerivedChainSubmission) (reservation_ordinal now : N) :
  result ChainSubmissionFailure (Database * StoreAdmission) :=
  let i := request_identity q in
  _ ← combined_guard db i;
  _ ← delegation_guard db i;
  _ ← successor_guard db i;
  if is_imported_delegation q then
    derived ← derive (tables (domain db)) (derivation q);
    candidate ← ok_or (imported_candidate derived)
      (without_state InvariantViolation
         (chars "imported delegation derivation omitted its transaction hash"));
    _ ← fail_if (hash_owned db candidate)
          (invalid_input (chars "imported delegation transaction hash belongs to another submission"));
    let r := adopted_imported_delegation (derived_generation derived) candidate now in
    db' ← insert_imported_delegation db r candidate;
    Ok (db', Ready derived r false)
  else
    derived ← match batch_derived with
              | Some derived => Ok derived
              | None => derive (tables (domain db)) (derivation q)
              end;
    _ ← verify_batch_roster q (ordered_proposal_ids (derived_bound derived));
    let r := fresh_submission (derived_generation derived) reservation_ordinal now in
    db' ← insert_fresh db r;
    Ok (db', Ready derived r true).

(** Admission of an identity whose row exists and is not an abandoned reservation. *)
Definition admit_existing (db : Database) (q : StoreAdvancementRequest) (r : StoredChainSubmission)
  (batch_derived : option DerivedChainSubmission) :
  result ChainSubmissionFailure (Database * StoreAdmission) :=
  derived ← match batch_derived with
            | Some derived => Ok derived
            | None => derive_for db q (Some r)
            end;
  _ ← verify_roster_for q derived (Some r);
  _ ← ensure_generation r (derived_generation derived);
  Ok (db, if terminal_record r then Authoritative r else Ready derived r false).

Definition is_submitting (r : StoredChainSubmission) : bool :=
  match stored_state r with Submitting => true | _ => false end.

Definition admit_transaction (q : StoreAdvancementRequest) (work_allowed : bool)
  (reservation_ordinal now : N) (db : Database) :
  result ChainSubmissionFailure (Database * StoreAdmission) :=
  existing ← load_submission db (request_identity q);
  match existing with
  | Some r =>
      if is_submitting r then
        normalized ← normalize_abandoned db r now; Ok (normalized.1, Authoritative normalized.2)
      else if negb work_allowed then Ok (db, Authoritative r)
      else
        batch_derived ← if is_batch q
                        then derived ← derive_for db q (Some r);
                             _ ← verify_roster_for q derived (Some r); Ok (Some derived)
                        else Ok None;
        admit_existing db q r batch_derived
  | None =>
      if negb work_allowed then Ok (db, NoAuthoritativeState)
      else
        batch_derived ← if is_batch q
                        then derived ← derive_for db q None;
                             _ ← verify_roster_for q derived None; Ok (Some derived)
                        else Ok None;
        admit_new db q batch_derived reservation_ordinal now
  end.

(** Whether the transaction got as far as normalizing an abandoned reservation. *)
Definition normalizes_abandoned (env : TransactionEnv) (q : StoreAdvancementRequest) (db : Database) : bool :=
  match begin_error env, load_submission db (request_identity q) with
  | None, Ok (Some r) => is_submitting r
  | _, _ => false
  end.

Definition admit_submission (env : TransactionEnv) (q : StoreAdvancementRequest) (work_allowed : bool)
  (reservation_ordinal now : N) (db : Database) :
  Database * result ChainSubmissionFailure StoreAdmission :=
  match validate_target q with
  | Err e => (db, Err e)
  | Ok _ =>
      let '(db', outcome) := transact env (admit_transaction q work_allowed reservation_ordinal now) db in
      (db', if normalizes_abandoned env q db then map_err possible_dispatch_error outcome else outcome)
  end.

(** *** Operations on an admitted row *)

(** [load_submission(...)?.ok_or_else(...)]. *)
Definition load_required (db : Database) (i : ChainSubmissionIdentity) (missing : string) :
  result ChainSubmissionFailure StoredChainSubmission :=
  found ← load_submission db i; ok_or found (without_state InvariantViolation (chars missing)).

Definition remove_transaction (g : ChainSubmissionGeneration) (db : Database) :
  result ChainSubmissionFailure (Database * unit) :=
  r ← load_required db (generation_identity g) "fresh reservation disappeared";
  _ ← ensure_generation r g;
  _ ← fail_if (negb (is_submitting r))
        (with_durable_state InvariantViolation (record_durable_state r)
           (chars "only a fresh Submitting reservation can be removed"));
  Ok (with_submissions db (sql_delete (submissions db) (submission_identity_key (generation_identity g))), tt).

Definition remove_fresh_reservation (env : TransactionEnv) (g : ChainSubmissionGeneration)
  (db : Database) : Database * result ChainSubmissionFailure unit :=
  transact env (remove_transaction g) db.

Definition owned_by_another : ChainSubmissionDiagnostic :=
  from_redacted_message InvalidProtocolResponse
    (chars "vote-chain returned a transaction hash owned by another semantic generation").

(** A hash another row owns is reported as an unusable answer. *)
Definition effective_observation (db : Database) (g : ChainSubmissionGeneration)
  (o : SubmissionObservation) : SubmissionObservation :=
  match o with
  | ObsUsableCandidateHash candidate =>
      if hash_owned_elsewhere db (submission_identity_key (generation_identity g)) candidate
      then ObsPossiblyDispatched owned_by_another else o
  | _ => o
  end.

Definition observation_transaction (g : ChainSubmissionGeneration) (o : SubmissionObservation)
  (diagnostic : option ChainSubmissionDiagnostic) (now : N) (db : Database) :
  result ChainSubmissionFailure (Database * StoredChainSubmission) :=
  r ← load_required db (generation_identity g) "submission disappeared during lifecycle transition";
  _ ← ensure_generation r g;
  let previous := record_durable_state r in
  next ← map_err (fun e => transition_failure previous (transition_error_text e))
           (apply_submission_observation (Some (stored_state r)) (effective_observation db g o));
  state ← ok_or next (transition_failure previous (chars "transition unexpectedly removed durable row"));
  let r' := settle_after_transition (with_state r state) previous diagnostic now in
  if retires_combined_generation r' previous then
    diagnostic ← ok_or (stored_diagnostic r')
      (transition_failure previous (chars "a rejected row carries its diagnostic"));
    domain' ← map_err map_generation_error
      (retire_rejected_combined_generation (domain db) (generation_identity g) diagnostic (updated_at r'));
    Ok ({| submissions := sql_delete (submissions db) (submission_identity_key (generation_identity g));
           domain := domain' |}, r')
  else
    db' ← persist_mutable db r';
    Ok (db', r').

(** [apply_observation]: [classify_post] passes no explicit diagnostic. *)
Definition reconcile (env : TransactionEnv) (g : ChainSubmissionGeneration) (o : SubmissionObservation)
  (diagnostic : option ChainSubmissionDiagnostic) (now : N) (db : Database) :
  Database * result ChainSubmissionFailure StoredChainSubmission :=
  transact env (observation_transaction g o diagnostic now) db.

Definition classify_post (env : TransactionEnv) (g : ChainSubmissionGeneration) (o : SubmissionObservation)
  (now : N) (db : Database) : Database * result ChainSubmissionFailure StoredChainSubmission :=
  reconcile env g o None now db.

(** [checked_add(1).filter(|count| *count <= i64::MAX as u64)]. *)
Definition next_reservation (count : N) : option N :=
  next ← checked_add64 count 1; if bool_decide (next <= i64_max)%N then Some next else None.

Definition ambiguous_retry_transaction (g : ChainSubmissionGeneration) (now : N) (db : Database) :
  result ChainSubmissionFailure (Database * StoredChainSubmission) :=
  r ← load_required db (generation_identity g) "submission disappeared before ambiguous retry reservation";
  _ ← ensure_generation r g;
  _ ← fail_if (negb (permits_ambiguous_retry (stored_state r)))
        (with_durable_state InvariantViolation (record_durable_state r)
           (chars "ambiguous retry requires a hashless possibly-dispatched recovery row"));
  count ← ok_or (next_reservation (committed_post_reservations r))
    (with_durable_state InvariantViolation DurableRecovering
       (chars "submission reservation counter overflowed"));
  let r' := with_bookkeeping r count (tracking_started_at r) (stored_diagnostic r)
              (N.max now (updated_at r)) in
  db' ← persist_mutable db r';
  Ok (db', r').

Definition reserve_ambiguous_retry (env : TransactionEnv) (g : ChainSubmissionGeneration) (now : N)
  (db : Database) : Database * result ChainSubmissionFailure StoredChainSubmission :=
  transact env (ambiguous_retry_transaction g now) db.

(** The common tail of both confirmations: transition, projection, persistence.
    A confirmation never removes the row, so the code's [unwrap] cannot panic. *)
Definition commit_confirmation (db : Database) (r : StoredChainSubmission) (b : BoundGeneration)
  (v : ValidatedConfirmation) (now : N) :
  result ChainSubmissionFailure (Database * ConfirmationCommit) :=
  let previous := record_durable_state r in
  next ← map_err (fun e => transition_failure previous (transition_error_text e))
           (apply_submission_observation (Some (stored_state r)) (ObsConfirmed v));
  state ← ok_or next (transition_failure previous (chars "confirmation remains durable"));
  let r' := with_bookkeeping (with_state r state) (committed_post_reservations r)
              (tracking_started_at r) None (N.max now (updated_at r)) in
  domain' ← map_err map_generation_error (apply_confirmed_generation (domain db) b v);
  db' ← persist_mutable {| submissions := submissions db; domain := domain' |} r';
  Ok (db', CommitConfirmed r').

Definition confirm_committed_transaction (q : StoreAdvancementRequest) (g : ChainSubmissionGeneration)
  (candidate : CandidateTransactionHash) (committed : CommittedTransaction) (commit_allowed : bool)
  (now : N) (db : Database) : result ChainSubmissionFailure (Database * ConfirmationCommit) :=
  r ← load_required db (generation_identity g) "submission disappeared before confirmation";
  _ ← ensure_generation r g;
  derived ← derive_for db q (Some r);
  _ ← fail_if (negb (bool_decide (derived_generation derived = g)))
        (with_durable_state InvalidInput (record_durable_state r)
           (chars "semantic generation changed before confirmation"));
  if negb commit_allowed then Ok (db, CommitInterrupted r) else
  v ← map_err (fun e => with_durable_state Protocol (record_durable_state r) (voting_error_text e))
        (if is_imported_delegation q
         then validate_imported_delegation_confirmation (derived_bound derived) candidate
                (committed_events committed)
         else validate_hash_confirmation derived candidate (committed_events committed));
  commit_confirmation db r (derived_bound derived) v now.

Definition confirm_committed (env : TransactionEnv) (q : StoreAdvancementRequest)
  (g : ChainSubmissionGeneration) (candidate : CandidateTransactionHash)
  (committed : CommittedTransaction) (commit_allowed : bool) (now : N) (db : Database) :
  Database * result ChainSubmissionFailure ConfirmationCommit :=
  transact env (confirm_committed_transaction q g candidate committed commit_allowed now) db.

Definition confirm_tree_transaction (q : StoreAdvancementRequest) (g : ChainSubmissionGeneration)
  (van : N) (positions : list N) (commit_allowed : bool) (now : N) (db : Database) :
  result ChainSubmissionFailure (Database * ConfirmationCommit) :=
  r ← load_required db (generation_identity g) "submission disappeared before tree confirmation";
  _ ← ensure_generation r g;
  derived ← derive_for db q (Some r);
  _ ← verify_roster_for q derived (Some r);
  _ ← fail_if (negb (bool_decide (derived_generation derived = g)))
        (with_durable_state InvalidInput (record_durable_state r)
           (chars "semantic generation changed before tree confirmation"));
  if negb commit_allowed then Ok (db, CommitInterrupted r) else
  v ← map_err (fun e => with_durable_state Protocol (record_durable_state r) (confirmation_error_text e))
        (confirmation_from_tree van positions);
  commit_confirmation db r (derived_bound derived) v now.

Definition confirm_tree (env : TransactionEnv) (q : StoreAdvancementRequest)
  (g : ChainSubmissionGeneration) (van : N) (positions : list N) (commit_allowed : bool) (now : N)
  (db : Database) : Database * result ChainSubmissionFailure ConfirmationCommit :=
  transact env (confirm_tree_transaction q g van positions commit_allowed now) db.

(** [RecoveryRetryAuthorization]: a complete no-match proof for one generation
    and its candidate. *)
Record RecoveryRetryAuthorization : Type := {
  authorization_identity : ChainSubmissionIdentity;
  authorization_generation_digest : ChainSubmissionGenerationDigest;
  authorization_candidate : option CandidateTransactionHash
}.

Definition retire_candidate (s : SubmissionRecordState) : SubmissionRecordState :=
  match s with Recovering _ d => Recovering None d | s => s end.

Definition recovery_candidate_matches (s : SubmissionRecordState)
  (candidate : option CandidateTransactionHash) : bool :=
  match s with Recovering c _ => bool_decide (c = candidate) | _ => false end.

Definition recovery_retry_transaction (q : StoreAdvancementRequest) (a : RecoveryRetryAuthorization)
  (now : N) (db : Database) : result ChainSubmissionFailure (Database * StoredChainSubmission) :=
  let i := authorization_identity a in
  _ ← fail_if (negb (bool_decide (request_identity q = i)))
        (invalid_input (chars "recovery request does not match its authorization identity"));
  r ← load_required db i "submission disappeared before recovery retry reservation";
  _ ← fail_if (negb (bool_decide (stored_generation_digest r = authorization_generation_digest a)))
        (with_durable_state InvalidInput (record_durable_state r)
           (chars "recovery authorization belongs to a different generation"));
  derived ← derive_for db q (Some r);
  _ ← verify_roster_for q derived (Some r);
  _ ← ensure_generation r (derived_generation derived);
  _ ← fail_if (negb (recovery_candidate_matches (stored_state r) (authorization_candidate a)))
        (with_durable_state InvariantViolation (record_durable_state r)
           (chars "recovery authorization no longer matches durable state"));
  count ← ok_or (next_reservation (committed_post_reservations r))
    (with_durable_state InvariantViolation DurableRecovering
       (chars "recovery reservation counter overflowed"));
  let r' := with_bookkeeping (with_state r (retire_candidate (stored_state r))) count
              (tracking_started_at r) (stored_diagnostic r) (N.max now (updated_at r)) in
  db' ← persist_mutable db r';
  Ok (db', r').

Definition reserve_recovery_retry (env : TransactionEnv) (q : StoreAdvancementRequest)
  (a : RecoveryRetryAuthorization) (now : N) (db : Database) :
  Database * result ChainSubmissionFailure StoredChainSubmission :=
  transact env (recovery_retry_transaction q a now) db.
End store.
