(* ===== verification/StoreFacts.v ===== *)
(** * Store correctness

    The database invariant of the submission table and its preservation by every
    operation of [Store]: each row is a legal record of the identity in its key,
    no transaction hash is owned by two rows, and a bundle has at most one
    unresolved submission. Legal transitions are never refused by the schema. *)

From S2P Require Import Prelude Types Diagnostics SubmissionState Identity Coordination Generation.
From S2P Require Import Confirmation StoreRow StoreRowFacts Store.

Section representation.
Context `{HX : HexCrate}.

Definition candidate_column (r : StoredChainSubmission) : option CandidateTransactionHash :=
  (mutable_columns r).1.1.

Definition confirmed_column (r : StoredChainSubmission) : option CandidateTransactionHash :=
  c ← (mutable_columns r).2; confirmation_transaction_hash c.

(** [row] stores the legal record [r] of identity [i]. *)
Record represents (i : ChainSubmissionIdentity) (row : Row) (r : StoredChainSubmission) : Prop := {
  rep_identity : row_identity i row;
  rep_record_identity : stored_identity r = i;
  rep_decodes : decode_row i row = Ok r;
  rep_ok : record_ok r;
  rep_digest : row_generation_digest row = bytes32_bytes (stored_generation_digest r);
  rep_created : row_created_at row = Z.of_N (created_at r);
  rep_updated : row_updated_at row = Z.of_N (updated_at r);
  rep_reservations : row_reservations row = Z.of_N (committed_post_reservations r);
  rep_tracking : row_tracking_started_at row = Z.of_N <$> tracking_started_at r;
  rep_state : row_state row = state_name (stored_state r);
  rep_candidate : row_candidate row = bytes32_bytes <$> candidate_column r;
  rep_confirmed : row_confirmed_hash row = bytes32_bytes <$> confirmed_column r
}.

(** Two records of one submission, the later one after some transition. *)
Record successor (r r' : StoredChainSubmission) : Prop := {
  suc_identity : stored_identity r' = stored_identity r;
  suc_digest : stored_generation_digest r' = stored_generation_digest r;
  suc_created : created_at r' = created_at r;
  suc_updated : (updated_at r <= updated_at r')%N;
  suc_reservations : (committed_post_reservations r <= committed_post_reservations r')%N;
  suc_tracking : is_Some (tracking_started_at r) -> tracking_started_at r' = tracking_started_at r
}.

Lemma record_ok_reloaded r : record_ok r -> record_ok (reloaded r).
Proof.
  intros [Hs Ht Hd Htimes Hrange]. unfold reloaded.
  destruct (mutable_columns r) as [[candidate diagnostic] confirmation].
  split; cbn; [| | |done|done].
  - destruct (stored_state r); cbn in *; auto with voting.
  - by destruct (stored_state r).
  - destruct diagnostic; cbn; auto with voting.
Qed.

Lemma reloaded_columns r :
  candidate_column (reloaded r) = candidate_column r /\ confirmed_column (reloaded r) = confirmed_column r
  /\ state_name (stored_state (reloaded r)) = state_name (stored_state r).
Proof. unfold reloaded, candidate_column, confirmed_column, mutable_columns. by destruct (stored_state r). Qed.

(** Persisting a legal successor keeps the row a representation. *)
Lemma mutated_row_represents i old r r' row :
  represents i old r -> successor r r' -> record_ok r' -> mutated_row old r' = Ok row ->
  represents i row (reloaded r').
Proof.
  intros [Hid Hri Hdec Hok Hdig Hcr Hup Hres Htr Hst Hca Hco] [Sid Sdig Scr Sup Sres Str] Hok' Hrow.
  destruct (reloaded_columns r') as (Ecand & Econf & Ename).
  destruct (mutated_row_Ok old r' row Hrow) as (_ & _ & _ & Eres & Etr & Eup).
  assert (decode_row (stored_identity r') row = Ok (reloaded r')) as Hdec'.
  { apply (mutated_row_decodes old r' row); [apply Hok' | congruence | congruence | done]. }
  rewrite Sid, Hri in Hdec'. unfold mutated_row in Hrow.
  destruct (mutable_columns r') as [[candidate diagnostic] confirmation] eqn:Hcols. inv_ok.
  unfold reloaded in Hdec'. rewrite Hcols in Hdec'.
  split; rewrite ?Ecand, ?Econf, ?Ename; unfold candidate_column, confirmed_column, reloaded; rewrite ?Hcols; cbn in *; try done.
  - pose proof (record_ok_reloaded r' Hok') as H. unfold reloaded in H. by rewrite Hcols in H.
  - congruence.
  - congruence.
Qed.

Lemma target_columns_inj t u : target_columns t = target_columns u -> t = u.
Proof.
  destruct t, u; cbn; intros [=]; try done.
  - f_equal. lia.
  - f_equal. by apply bytes32_eq.
  - f_equal. by apply bytes32_eq.
Qed.

(** Rows with the same identity columns belong to the same identity. *)
Lemma row_identity_inj i j row row' :
  row_identity i row -> row_identity j row' -> same_submission row row' = true -> i = j.
Proof.
  intros (Hr & Hw & Hn & Hb & Ht) (Hr' & Hw' & Hn' & Hb' & Ht') Hsame. unfold same_submission in Hsame. inv_ok.
  destruct i as [w n r b t], j as [w' n' r' b' t']; cbn in *.
  assert (r = r') as ->.
  { apply bytes32_eq, hex_encode_injective. unfold round_hex in *. cbn in *. congruence. }
  assert (n = n') as -> by (apply network_name_inj; congruence).
  assert (t = t') as ->.
  { apply target_columns_inj. rewrite <- Ht, <- Ht'.
    destruct row, row'; cbn in *. destruct t, t'; injection Ht as -> -> ->; injection Ht' as -> -> ->;
      cbn in *; congruence. }
  f_equal; [congruence | lia].
Qed.

(** ** The table invariant *)

Definition same_bundle (a b : Row) : Prop :=
  row_round_id a = row_round_id b /\ row_wallet_id a = row_wallet_id b
  /\ row_network a = row_network b /\ row_bundle_index a = row_bundle_index b.

Definition unresolved (row : Row) : Prop := unresolved_state (row_state row) = true.

Record table_ok (t : SubmissionTable) : Prop := {
  table_typed : forall k row, t !! k = Some row ->
    exists i r, k = submission_identity_key i /\ identity_valid i /\ represents i row r;
  table_hashes : forall k k' row row' h, t !! k = Some row -> t !! k' = Some row' ->
    row_owns h row = true -> row_owns h row' = true -> k = k';
  table_single : forall k k' row row', t !! k = Some row -> t !! k' = Some row' ->
    same_bundle row row' -> unresolved row -> unresolved row' -> k = k'
}.

Lemma table_ok_empty : table_ok ∅.
Proof. split; intros; by rewrite lookup_empty in *. Qed.

Lemma table_ok_subseteq t t' : t' ⊆ t -> table_ok t -> table_ok t'.
Proof.
  intros Hsub [Htyped Hh Hs]. split.
  - intros k row Hrow. by eapply Htyped, lookup_weaken.
  - intros k k' row row' h H1 H2. eapply Hh; by eapply lookup_weaken.
  - intros k k' row row' H1 H2. eapply Hs; by eapply lookup_weaken.
Qed.

Lemma table_ok_delete t k : table_ok t -> table_ok (delete k t).
Proof. apply table_ok_subseteq, delete_subseteq. Qed.

Lemma table_ok_delete_rounds t gone : table_ok t -> table_ok (sql_delete_rounds t gone).
Proof. apply table_ok_subseteq, map_filter_subseteq. Qed.

(** Writing one row: it must be typed, own only hashes that are free elsewhere,
    and not become a second unresolved submission of its bundle. *)
Lemma table_ok_insert t k i row r :
  table_ok t -> k = submission_identity_key i -> identity_valid i -> represents i row r ->
  (forall h k' row', row_owns h row = true -> t !! k' = Some row' -> k' <> k -> row_owns h row' = false) ->
  (forall k' row', unresolved row -> t !! k' = Some row' -> k' <> k -> same_bundle row row' -> ~ unresolved row') ->
  table_ok (<[k := row]> t).
Proof.
  intros [Htyped Hhashes Hsingle] Hk Hi Hrep Hown Hone. split.
  - intros k' row' [[<- <-] | [_ Hrow]]%lookup_insert_Some; eauto 10.
  - intros k1 k2 r1 r2 h H1 H2 O1 O2.
    apply lookup_insert_Some in H1 as [[<- <-] | [N1 H1]], H2 as [[<- <-] | [N2 H2]]; eauto.
    + rewrite (Hown h k2 r2) in O2; [discriminate | done..].
    + rewrite (Hown h k1 r1) in O1; [discriminate | done..].
  - intros k1 k2 r1 r2 H1 H2 Hb U1 U2.
    apply lookup_insert_Some in H1 as [[<- <-] | [N1 H1]], H2 as [[<- <-] | [N2 H2]]; eauto.
    + exfalso. by eapply (Hone k2 r2).
    + exfalso. eapply (Hone k1 r1); try done. destruct Hb as (? & ? & ? & ?). by repeat split.
Qed.

Lemma represents_bundle i row j row' r r' :
  represents i row r -> represents j row' r' ->
  bundle_key i = bundle_key j <-> same_bundle row row'.
Proof.
  intros [(Hr & Hw & Hn & Hb & _) _ _ _ _ _ _ _ _ _ _ _] [(Hr' & Hw' & Hn' & Hb' & _) _ _ _ _ _ _ _ _ _ _ _].
  unfold same_bundle. rewrite Hr, Hw, Hn, Hb, Hr', Hw', Hn', Hb'. unfold bundle_key, round_key, round_hex.
  split.
  - intros [= -> Hnet -> ->]. apply network_rank_inj in Hnet as ->. done.
  - intros (Hround & -> & Hnet & Hbundle). apply hex_encode_injective, bytes32_eq in Hround as ->.
    apply network_name_inj in Hnet as ->. by apply N2Z.inj in Hbundle as ->.
Qed.

(** ** The schema never refuses a legal write *)

Lemma first_failed_None k row : row_checks k row = true -> first_failed (row_constraints k row) = None.
Proof.
  unfold row_checks, first_failed. generalize (row_constraints k row). intros l H.
  destruct (List.find _ l) as [c|] eqn:Hf; [|done].
  apply List.find_some in Hf as [Hin Hc]. rewrite forallb_forall in H. specialize (H c Hin).
  by rewrite H in Hc.
Qed.

Lemma row_owns_candidate h row : row_candidate row = Some h -> row_owns h row = true.
Proof. intros H. unfold row_owns. by rewrite H, bool_decide_true. Qed.

Lemma row_owns_confirmed h row : row_confirmed_hash row = Some h -> row_owns h row = true.
Proof. intros H. unfold row_owns. rewrite H, (bool_decide_true (Some h = Some h)) by done. apply orb_true_r. Qed.

Lemma same_some_true {A} `{EqDecision A} (a b : option A) :
  same_some a b = true -> exists x, a = Some x /\ b = Some x.
Proof. destruct a as [x|], b as [y|]; cbn; try discriminate. intros ->%bool_decide_eq_true. eauto. Qed.

Lemma indexes_accept_legal t k i row r :
  table_ok t -> k = submission_identity_key i -> identity_valid i -> represents i row r ->
  (forall h k' row', row_owns h row = true -> t !! k' = Some row' -> k' <> k -> row_owns h row' = false) ->
  indexes_accept t k row = true.
Proof.
  intros Ht Hk Hi Hrep Hown. unfold indexes_accept. apply negb_true_iff, existsb_false.
  intros [k' row'] Hin%elem_of_map_to_list. cbn [fst snd].
  case_bool_decide as Hne; [done|]. cbn.
  destruct (table_typed t Ht k' row' Hin) as (j & r' & Hk' & Hj & Hrep').
  unfold index_conflict. apply orb_false_iff. split; [apply orb_false_iff; split|]; apply not_true_iff_false.
  - intros Hsame. eapply row_identity_inj in Hsame; [|apply Hrep | apply Hrep']. congruence.
  - intros (h & Hc & Hc')%same_some_true. apply row_owns_candidate in Hc, Hc'.
    rewrite (Hown h k' row') in Hc'; done.
  - intros (h & Hc & Hc')%same_some_true. apply row_owns_confirmed in Hc, Hc'.
    rewrite (Hown h k' row') in Hc'; done.
Qed.

(** ** Legal successors *)

(** Everything a write needs except that its integers fit the database. *)
Record legal_successor (r r' : StoredChainSubmission) : Prop := {
  legal_successor_of : successor r r';
  legal_state : state_ok (stored_state r');
  legal_tracking : tracking_ok (stored_state r') (tracking_started_at r');
  legal_diagnostic : match stored_diagnostic r' with Some d => diagnostic_ok d | None => True end;
  legal_times : (created_at r' <= updated_at r')%N;
  legal_unresolved : unresolved_state (state_name (stored_state r')) = true ->
    unresolved_state (state_name (stored_state r)) = true
}.

(** Hashes of [r'] come from [r] or are free in every other row. *)
Definition hashes_free (t : SubmissionTable) (k : bytes) (r r' : StoredChainSubmission) : Prop :=
  forall h, candidate_column r' = Some h \/ confirmed_column r' = Some h ->
    candidate_column r = Some h \/ confirmed_column r = Some h \/
    forall k' row', k' <> k -> t !! k' = Some row' -> row_owns h row' = false.

Definition integers_fit (r : StoredChainSubmission) : Prop :=
  (committed_post_reservations r <= i64_max)%N /\ (updated_at r <= i64_max)%N
  /\ match tracking_started_at r with Some t => (t <= i64_max)%N | None => True end.

Lemma legal_record_ok r r' : legal_successor r r' -> integers_fit r' -> record_ok r'.
Proof. intros [_ ? ? ? ? _] ?. by split. Qed.

Lemma mutated_row_fits old r : record_ok r -> exists row, mutated_row old r = Ok row.
Proof.
  intros [Hs _ _ _ (Ha & Hu & Ht)]. unfold mutated_row.
  destruct (mutable_columns r) as [[candidate diagnostic] confirmation] eqn:Hcols.
  rewrite (bind_u64_fits (committed_post_reservations r)) by done. cbn [mbind result_bind].
  rewrite (bind_option_fits (tracking_started_at r)) by done. cbn [mbind result_bind].
  rewrite bind_option_fits; [cbn [mbind result_bind]; rewrite bind_u64_fits by done; cbn; eauto|].
  unfold mutable_columns in Hcols. destruct (stored_state r); injection Hcols as <- <- <-; try done. apply Hs.
Qed.

Lemma row_owns_inv h row :
  row_owns h row = true -> row_candidate row = Some h \/ row_confirmed_hash row = Some h.
Proof. unfold row_owns. intros [H|H]%orb_true_iff; inv_ok; auto. Qed.

Lemma represents_owns i row r h :
  represents i row r -> row_owns h row = true ->
  exists h', bytes32_bytes h' = h /\ (candidate_column r = Some h' \/ confirmed_column r = Some h').
Proof.
  intros Hrep [H|H]%row_owns_inv; rewrite ?(rep_candidate _ _ _ Hrep), ?(rep_confirmed _ _ _ Hrep) in H;
    apply fmap_Some in H as (h' & Hh' & ->); eauto.
Qed.

Lemma represents_owned i row r h :
  represents i row r -> candidate_column r = Some h \/ confirmed_column r = Some h -> row_owns h row = true.
Proof.
  intros Hrep [H|H]; [apply row_owns_candidate | apply row_owns_confirmed];
    rewrite ?(rep_candidate _ _ _ Hrep), ?(rep_confirmed _ _ _ Hrep), H; done.
Qed.

Lemma hashes_free_owns t k i old r r' row :
  table_ok t -> t !! k = Some old -> represents i old r -> represents i row (reloaded r') ->
  hashes_free t k r r' ->
  forall h k' row', row_owns h row = true -> t !! k' = Some row' -> k' <> k -> row_owns h row' = false.
Proof.
  intros Ht Hold Hrep Hrep' Hfree h k' row' Hown Hrow' Hne.
  apply (represents_owns i row _ h Hrep') in Hown as (h' & <- & Hcol).
  destruct (reloaded_columns r') as (Ec & Ef & _). rewrite Ec, Ef in Hcol.
  destruct (row_owns h' row') eqn:Hother; [|done]. exfalso.
  destruct (Hfree h' Hcol) as [Hc | [Hc | Hnone]]; [| |by rewrite (Hnone k' row' Hne Hrow') in Hother].
  all: apply Hne; eapply (table_hashes t Ht); [exact Hrow' | exact Hold | exact Hother |];
    eapply represents_owned; eauto.
Qed.

(** The UPDATE of a legal successor succeeds and keeps the invariant. *)
Lemma update_legal t i old r r' :
  table_ok t -> t !! submission_identity_key i = Some old -> identity_valid i -> represents i old r ->
  legal_successor r r' -> integers_fit r' -> hashes_free t (submission_identity_key i) r r' ->
  exists row, sql_update t (submission_identity_key i) (fun old => mutated_row old r')
                = Ok (<[submission_identity_key i := row]> t)
    /\ represents i row (reloaded r') /\ table_ok (<[submission_identity_key i := row]> t).
Proof.
  intros Ht Hold Hi Hrep Hlegal Hfit Hfree.
  pose proof (legal_record_ok r r' Hlegal Hfit) as Hok. pose proof (legal_successor_of _ _ Hlegal) as Hsuc.
  destruct (mutated_row_fits old r' Hok) as (row & Hrow). exists row.
  pose proof (mutated_row_represents i old r r' row Hrep Hsuc Hok Hrow) as Hrep'.
  pose proof (hashes_free_owns t _ i old r r' row Ht Hold Hrep Hrep' Hfree) as Hown.
  assert (table_ok (<[submission_identity_key i := row]> t)) as Ht'.
  { apply (table_ok_insert t _ i row (reloaded r')); try done.
    intros k' row' Hun Hrow' Hne Hb Hun'. apply Hne.
    assert (unresolved old) as Hold_un.
    { unfold unresolved in *. rewrite (rep_state _ _ _ Hrep). apply (legal_unresolved _ _ Hlegal).
      by rewrite (rep_state _ _ _ Hrep'), (proj2 (proj2 (reloaded_columns r'))) in Hun. }
    symmetry. eapply (table_single t Ht); [exact Hold | exact Hrow' | | done | done].
    destruct (proj1 (represents_bundle i old i row r (reloaded r') Hrep Hrep') eq_refl) as (E1 & E2 & E3 & E4).
    destruct Hb as (B1 & B2 & B3 & B4). repeat split; congruence. }
  split; [|done]. unfold sql_update. rewrite Hold, Hrow. cbn [mbind result_bind].
  destruct (mutated_row_Ok old r' row Hrow) as (_ & _ & _ & Eres & Etr & _).
  assert (update_triggers_accept old row = true) as ->.
  { unfold update_triggers_accept. rewrite Eres, Etr, (rep_reservations _ _ _ Hrep), (rep_tracking _ _ _ Hrep).
    rewrite bool_decide_true by (pose proof (suc_reservations _ _ Hsuc); lia). cbn.
    destruct (tracking_started_at r) as [t0|] eqn:Ht0; [|done]. cbn.
    rewrite (suc_tracking _ _ Hsuc), Ht0 by (rewrite Ht0; eauto). by rewrite bool_decide_true. }
  cbn. unfold constrain. rewrite first_failed_None, (indexes_accept_legal t _ i row (reloaded r')); try done.
  eapply legal_row_checks; [done | apply Hrep | exact Hok | | | exact Hrow].
  - rewrite (rep_digest _ _ _ Hrep), (suc_digest _ _ Hsuc). done.
  - rewrite (rep_created _ _ _ Hrep), (suc_created _ _ Hsuc). done.
Qed.
End representation.

(** ** Transitions give legal successors *)

Definition observation_ok (o : SubmissionObservation) : Prop :=
  match o with
  | ObsPossiblyDispatched d | ObsDefiniteRejection d | ObsTerminalRejection d
  | ObsSubmittedWithoutHash d | ObsTrackingWindowExpired d | ObsCandidateCommittedFailure d
  | ObsTerminalCandidateFailure d | ObsAbandonedSubmitting d => diagnostic_ok d
  | ObsConfirmed v => confirmation_ok v
  | _ => True
  end.

(** Case analysis of one accepted transition from an existing row. *)
Ltac accepted_transition H :=
  match type of H with apply_submission_observation (Some ?s) ?o = _ =>
    destruct s as [|?h|[?h|] ?d|?d|?v|?d], o; cbn in H; try case_bool_decide; inv_ok
  end.

Lemma transition_state_ok s o s' :
  state_ok s -> observation_ok o -> apply_submission_observation (Some s) o = Ok (Some s') -> state_ok s'.
Proof. intros Hs Ho H. accepted_transition H; done. Qed.

Lemma transition_not_submitting s o s' :
  apply_submission_observation (Some s) o = Ok (Some s') -> s' <> Submitting.
Proof. intros H. accepted_transition H; done. Qed.

Lemma transition_unresolved s o s' :
  apply_submission_observation (Some s) o = Ok (Some s') ->
  unresolved_state (state_name s') = true -> unresolved_state (state_name s) = true.
Proof. intros H. accepted_transition H; done. Qed.

(** Column hashes as functions of the state. *)
Definition state_candidate (s : SubmissionRecordState) : option CandidateTransactionHash :=
  match s with
  | Tracking h => Some h
  | Recovering h _ => h
  | Confirmed v => confirmation_transaction_hash (confirmation_payload v)
  | _ => None
  end.

Definition state_confirmed (s : SubmissionRecordState) : option CandidateTransactionHash :=
  match s with Confirmed v => confirmation_transaction_hash (confirmation_payload v) | _ => None end.

Lemma candidate_column_state r : candidate_column r = state_candidate (stored_state r).
Proof. unfold candidate_column, mutable_columns. by destruct (stored_state r). Qed.

Lemma confirmed_column_state r : confirmed_column r = state_confirmed (stored_state r).
Proof. unfold confirmed_column, mutable_columns. by destruct (stored_state r). Qed.

Lemma transition_hashes s o s' h :
  observation_ok o -> apply_submission_observation (Some s) o = Ok (Some s') ->
  state_candidate s' = Some h \/ state_confirmed s' = Some h ->
  state_candidate s = Some h \/ state_confirmed s = Some h \/ o = ObsUsableCandidateHash h.
Proof.
  intros Ho H Hh. accepted_transition H; cbn in *; try naive_solver.
  - apply require_hash_confirmation_Ok in Ha as (c & -> & Hc). cbn in *. naive_solver.
  - apply require_valid_recovery_Ok in Ha as [(c & ->) | (c & h' & -> & [= <-] & Hc)]; cbn in *.
    + destruct Ho as (_ & _ & _ & _ & Hnone). naive_solver.
    + naive_solver.
  - apply require_valid_recovery_Ok in Ha as [(c & ->) | (c & h' & -> & [=] & Hc)]; cbn in *.
    destruct Ho as (_ & _ & _ & _ & Hnone). naive_solver.
Qed.

Section transitions.
Context `{ST : StoreTables, B64 : Base64Crate, HX : HexCrate, SH : Sha256Crate, RQ : RusqliteCrate}.

Lemma settle_legal r s' previous d now o :
  record_ok r -> observation_ok o -> match d with Some d => diagnostic_ok d | None => True end ->
  apply_submission_observation (Some (stored_state r)) o = Ok (Some s') ->
  legal_successor r (settle_after_transition (with_state r s') previous d now).
Proof.
  intros [Hs Ht Hd Htimes _] Ho Hdiag Hstep.
  pose proof (transition_state_ok _ _ _ Hs Ho Hstep) as Hs'.
  pose proof (transition_not_submitting _ _ _ Hstep) as Hns.
  pose proof (transition_unresolved _ _ _ Hstep) as Hun.
  unfold settle_after_transition. split; cbn [stored_state with_state with_bookkeeping tracking_started_at
    stored_diagnostic created_at updated_at]; [split; cbn; try done| done | | | |done].
  - lia.
  - intros [t ->]. cbn. by rewrite andb_false_r.
  - destruct s'; cbn; try done. destruct (tracking_started_at r); cbn; eauto.
  - clear Hstep Hun. destruct s'; cbn in *; try done; destruct d; try done; by destruct (negb _).
  - lia.
Qed.

Lemma settle_state r s' previous d now :
  stored_state (settle_after_transition (with_state r s') previous d now) = s'.
Proof. done. Qed.

(** Rewriting a record in place without a state transition. *)
Lemma bookkeeping_legal r s' count d now :
  record_ok r -> state_ok s' -> s' <> Submitting -> is_tracking s' = false ->
  (unresolved_state (state_name s') = true -> unresolved_state (state_name (stored_state r)) = true) ->
  match d with Some d => diagnostic_ok d | None => True end ->
  (committed_post_reservations r <= count)%N ->
  legal_successor r
    (with_bookkeeping (with_state r s') count (tracking_started_at r) d (N.max now (updated_at r))).
Proof.
  intros [Hs Ht Hd Htimes _] Hs' Hns Hnt Hun Hdiag Hcount.
  split; cbn [stored_state with_state with_bookkeeping tracking_started_at stored_diagnostic created_at updated_at];
    [split; cbn; try done| done | | done | |done].
  - lia.
  - by destruct s'.
  - lia.
Qed.

Lemma next_reservation_Some n m :
  next_reservation n = Some m -> m = (n + 1)%N /\ (m <= i64_max)%N.
Proof.
  unfold next_reservation, checked_add64. case_bool_decide; [|done]. cbn. case_bool_decide; [|done].
  by intros [= <-].
Qed.
End transitions.
