(* ===== verification/StoreInvariant.v ===== *)
(** * Histories of the submission table

    The operations of [Store] as a step relation, with any outcome of beginning
    and committing a transaction. One lemma describes what a step can do to the
    table ([effect]); the invariant of reachable databases, the immutability of
    recorded facts and the rules for removing rows follow by induction on the
    history. *)

From S2P Require Import Prelude Types Diagnostics SubmissionState Identity Coordination Generation.
From S2P Require Import Confirmation StoreRow StoreRowFacts Store StoreFacts.
From stdpp Require Import relations.

Section invariant.
Context `{ST : StoreTables, B64 : Base64Crate, HX : HexCrate, SH : Sha256Crate, RQ : RusqliteCrate}.

Abbreviation key := submission_identity_key.

(** ** Loading *)

Lemma table_at t i row :
  table_ok t -> identity_valid i -> t !! key i = Some row -> exists r, represents i row r.
Proof.
  intros Ht [Hi _] Hrow. destruct (table_typed t Ht _ _ Hrow) as (j & r & Hk & [Hj _] & Hrep).
  apply submission_identity_key_inj in Hk as ->; eauto.
Qed.

Lemma load_submission_Ok db i o :
  table_ok (submissions db) -> identity_valid i -> load_submission db i = Ok o ->
  match o with
  | None => submissions db !! key i = None
  | Some r => exists row, submissions db !! key i = Some row /\ represents i row r
  end.
Proof.
  intros Ht Hi H. unfold load_submission, load_row in H. inv_ok.
  destruct (submissions db !! key i) as [row|] eqn:Hrow; inv_ok; [|done].
  destruct (table_at _ _ _ Ht Hi Hrow) as (r & Hrep). exists row. split; [done|].
  by rewrite (rep_decodes _ _ _ Hrep) in Ha; inv_ok.
Qed.

Lemma load_submission_total db i row r :
  submissions db !! key i = Some row -> represents i row r -> load_submission db i = Ok (Some r).
Proof.
  intros Hrow Hrep. unfold load_submission, load_row. by rewrite Hrow, (rep_decodes _ _ _ Hrep).
Qed.

Lemma load_required_Ok db i m r :
  table_ok (submissions db) -> identity_valid i -> load_required db i m = Ok r ->
  exists row, submissions db !! key i = Some row /\ represents i row r.
Proof.
  intros Ht Hi H. unfold load_required in H. inv_ok. by apply (load_submission_Ok _ _ _ Ht Hi Ha).
Qed.

Lemma any_row_false db p k row :
  any_row db p = false -> submissions db !! k = Some row -> p k row = false.
Proof.
  intros H Hrow. unfold any_row in H. rewrite existsb_false in H.
  by apply (H (k, row)), elem_of_map_to_list.
Qed.

(** ** What one operation does to the table *)

(** How a stored state may be replaced. *)
Inductive state_change : SubmissionRecordState -> SubmissionRecordState -> Prop :=
| change_transition s o s' :
    apply_submission_observation (Some s) o = Ok (Some s') -> state_change s s'
| change_retry h d : state_change (Recovering h d) (Recovering None d).

(** A combined submission is never left rejected: it is retired instead. *)
Definition combined_kept (i : ChainSubmissionIdentity) (r r' : StoredChainSubmission) : Prop :=
  is_combined (target i) = true -> state_name (stored_state r') = "rejected" -> state_name (stored_state r) = "rejected".

Inductive effect (t : SubmissionTable) : SubmissionTable -> Prop :=
| effect_none : effect t t
| effect_insert i row r :
    t !! key i = None -> identity_valid i -> represents i row r -> state_name (stored_state r) <> "rejected" ->
    table_ok (<[key i := row]> t) -> effect t (<[key i := row]> t)
| effect_update i old row r r' :
    t !! key i = Some old -> identity_valid i -> represents i old r -> represents i row (reloaded r') ->
    successor r r' -> state_change (stored_state r) (stored_state r') -> combined_kept i r r' ->
    mutated_row old r' = Ok row -> table_ok (<[key i := row]> t) -> effect t (<[key i := row]> t)
| effect_remove_reservation i old r :
    t !! key i = Some old -> identity_valid i -> represents i old r -> stored_state r = Submitting ->
    effect t (delete (key i) t)
| effect_retire_combined i old r d :
    t !! key i = Some old -> identity_valid i -> represents i old r -> is_combined (target i) = true ->
    apply_submission_observation (Some (stored_state r)) (ObsTerminalRejection d) = Ok (Some (Rejected d)) \/
    apply_submission_observation (Some (stored_state r)) (ObsTerminalCandidateFailure d) = Ok (Some (Rejected d)) ->
    effect t (delete (key i) t).

Hint Constructors effect state_change : voting.

Lemma effect_ok t t' : table_ok t -> effect t t' -> table_ok t'.
Proof. intros Ht []; try done; by apply table_ok_delete. Qed.

Lemma persist_effect db db' i old r r' :
  table_ok (submissions db) -> submissions db !! key i = Some old -> identity_valid i ->
  represents i old r -> legal_successor r r' -> hashes_free (submissions db) (key i) r r' ->
  state_change (stored_state r) (stored_state r') -> combined_kept i r r' ->
  persist_mutable db r' = Ok db' -> effect (submissions db) (submissions db').
Proof.
  intros Ht Hold Hi Hrep Hlegal Hfree Hchange Hkept H. unfold persist_mutable in H. inv_ok.
  pose proof (legal_successor_of _ _ Hlegal) as Hsuc.
  rewrite (suc_identity _ _ Hsuc), (rep_record_identity _ _ _ Hrep) in Ha.
  assert (exists row, mutated_row old r' = Ok row) as (row & Hrow).
  { unfold sql_update in Ha. rewrite Hold in Ha. inv_ok. eauto. }
  destruct (mutated_row_Ok _ _ _ Hrow) as (F1 & F2 & F3 & _).
  destruct (update_legal _ i old r r' Ht Hold Hi Hrep Hlegal (conj F1 (conj F2 F3)) Hfree)
    as (row' & Hup & Hrep' & Hok').
  rewrite Ha in Hup. inv_ok. cbn.
  assert (row' = row) as ->; [|by eapply effect_update].
  unfold sql_update in Ha. rewrite Hold, Hrow in Ha. inv_ok.
  apply (f_equal (lookup (key i))) in Ha. rewrite !lookup_insert_eq in Ha. congruence.
Qed.

(** Hash ownership of a record whose state was replaced. *)
Lemma hashes_free_state t k r r' :
  (forall h, state_candidate (stored_state r') = Some h \/ state_confirmed (stored_state r') = Some h ->
     state_candidate (stored_state r) = Some h \/ state_confirmed (stored_state r) = Some h \/
     forall k' row', k' <> k -> t !! k' = Some row' -> row_owns h row' = false) ->
  hashes_free t k r r'.
Proof. intros H h. rewrite !candidate_column_state, !confirmed_column_state. apply H. Qed.

Lemma effective_observation_ok db g o : observation_ok o -> observation_ok (effective_observation db g o).
Proof.
  intros Ho. destruct o; cbn in *; try done.
  destruct (hash_owned_elsewhere _ _ _); [apply from_redacted_message_ok | done].
Qed.

Lemma transition_hashes_free db g r r' o :
  observation_ok o ->
  apply_submission_observation (Some (stored_state r)) (effective_observation db g o)
    = Ok (Some (stored_state r')) ->
  hashes_free (submissions db) (key (generation_identity g)) r r'.
Proof.
  intros Ho H. apply hashes_free_state. intros h Hh.
  apply (transition_hashes _ _ _ h (effective_observation_ok db g o Ho) H) in Hh as [?|[?|Hobs]]; auto. right. right.
  intros k' row' Hne Hrow. destruct o; cbn in Hobs; try discriminate.
  destruct (hash_owned_elsewhere _ _ _) eqn:Howned; [discriminate|]. injection Hobs as ->.
  apply (any_row_false _ _ _ _ Howned) in Hrow. by rewrite bool_decide_false in Hrow.
Qed.

(** ** Effects of the transactions *)

Lemma transact_effect {R} env (op : Database -> result ChainSubmissionFailure (Database * R)) db :
  (forall db' x, op db = Ok (db', x) -> effect (submissions db) (submissions db')) ->
  effect (submissions db) (submissions (transact env op db).1).
Proof.
  intros H. unfold transact. destruct (begin_error env); [apply effect_none|].
  destruct (op db) as [[db' x]|e] eqn:Hop; [|apply effect_none].
  destruct (commit_error env); [apply effect_none|]. by apply (H db' x).
Qed.

Lemma remove_effect env g db :
  table_ok (submissions db) -> identity_valid (generation_identity g) ->
  effect (submissions db) (submissions (remove_fresh_reservation env g db).1).
Proof.
  intros Ht Hi. apply transact_effect. intros db' x H. unfold remove_transaction in H. inv_ok.
  destruct (load_required_Ok _ _ _ _ Ht Hi Ha) as (row & Hrow & Hrep). cbn.
  eapply effect_remove_reservation; [done..|]. unfold is_submitting in *. by destruct (stored_state _).
Qed.

Lemma rejected_by s o d :
  s <> Rejected d -> apply_submission_observation (Some s) o = Ok (Some (Rejected d)) ->
  o = ObsTerminalRejection d \/ o = ObsTerminalCandidateFailure d.
Proof. intros Hs H. accepted_transition H; try done; auto. Qed.

Lemma observation_effect g o d now db db' x :
  table_ok (submissions db) -> identity_valid (generation_identity g) -> observation_ok o ->
  match d with Some d => diagnostic_ok d | None => True end ->
  observation_transaction g o d now db = Ok (db', x) -> effect (submissions db) (submissions db').
Proof.
  intros Ht Hi Ho Hd H. unfold observation_transaction in H. inv_ok.
  match goal with Hn : apply_submission_observation _ _ = _ |- _ => rename Hn into Hstep end.
  destruct (load_required_Ok _ _ _ _ Ht Hi Ha) as (row & Hrow & Hrep).
  destruct (retires_combined_generation _ _) eqn:Hretire; inv_ok; cbn [submissions].
  - unfold retires_combined_generation in Hretire. inv_ok.
    unfold settle_after_transition in *. cbn [stored_state with_bookkeeping with_state stored_identity] in *.
    match goal with Hs : match ?s with _ => _ end = true |- _ => destruct s eqn:Es; try discriminate end.
    rewrite (rep_record_identity _ _ _ Hrep) in *.
    assert (stored_state a <> Rejected d0) as Hnot by (intros E; unfold record_durable_state in *; by rewrite E in *).
    pose proof (rejected_by _ _ _ Hnot Hstep) as [E|E]; rewrite E in Hstep; eauto with voting.
  - pose proof (settle_legal a a2 (record_durable_state a) d now _ (rep_ok _ _ _ Hrep)
      (effective_observation_ok db g o Ho) Hd Hstep) as Hlegal.
    eapply persist_effect; [done..| | | |done].
    + by eapply transition_hashes_free.
    + eapply change_transition. exact Hstep.
    + intros Hc Hr. unfold retires_combined_generation, settle_after_transition in Hretire. cbn in Hretire, Hr.
      rewrite (rep_record_identity _ _ _ Hrep), Hc in Hretire. unfold record_durable_state in Hretire.
      destruct a2; try discriminate. by destruct (stored_state a).
Qed.

(** Rewriting the record's bookkeeping, with the state kept or its candidate dropped. *)
Lemma bookkeeping_effect db db' i old r s' count d now :
  table_ok (submissions db) -> submissions db !! key i = Some old -> identity_valid i ->
  represents i old r -> state_ok s' -> s' <> Submitting -> is_tracking s' = false ->
  (unresolved_state (state_name s') = true -> unresolved_state (state_name (stored_state r)) = true) ->
  match d with Some d => diagnostic_ok d | None => True end ->
  (committed_post_reservations r <= count)%N ->
  (forall h, state_candidate s' = Some h \/ state_confirmed s' = Some h ->
     state_candidate (stored_state r) = Some h \/ state_confirmed (stored_state r) = Some h) ->
  state_change (stored_state r) s' -> state_name s' <> "rejected" ->
  persist_mutable db (with_bookkeeping (with_state r s') count (tracking_started_at r) d (N.max now (updated_at r)))
    = Ok db' ->
  effect (submissions db) (submissions db').
Proof.
  intros Ht Hold Hi Hrep Hs Hns Hnt Hun Hd Hcount Hh Hchange Hnr Hp.
  eapply persist_effect; [done..| | | | |exact Hp]; [| |done|by intros _ ?].
  - by apply bookkeeping_legal; try done; apply Hrep.
  - apply hashes_free_state. cbn. intros h Hh'. apply Hh in Hh' as []; auto.
Qed.

Lemma next_reservation_le n m : next_reservation n = Some m -> (n <= m)%N.
Proof. intros [-> _]%next_reservation_Some. lia. Qed.

Lemma record_diagnostic_ok i old r :
  represents i old r -> match stored_diagnostic r with Some d => diagnostic_ok d | None => True end.
Proof. intros H. apply H. Qed.

Lemma ambiguous_retry_effect g now db db' x :
  table_ok (submissions db) -> identity_valid (generation_identity g) ->
  ambiguous_retry_transaction g now db = Ok (db', x) -> effect (submissions db) (submissions db').
Proof.
  intros Ht Hi H. unfold ambiguous_retry_transaction in H. inv_ok.
  destruct (load_required_Ok _ _ _ _ Ht Hi Ha) as (row & Hrow & Hrep).
  pose proof (ok_state _ (rep_ok _ _ _ Hrep)) as Hs.
  match goal with Hp : persist_mutable _ _ = _ |- _ => rename Hp into Hpersist end.
  match goal with Hn : next_reservation _ = _ |- _ => apply next_reservation_le in Hn end.
  eapply (bookkeeping_effect db db' _ row a (stored_state a));
    [done|done|done|done|done| | |done|by apply Hrep|done|auto| | |exact Hpersist];
    destruct (stored_state a) as [| |[]| | |]; try done. apply change_retry.
Qed.

Lemma recovery_retry_effect q a now db db' x :
  table_ok (submissions db) -> identity_valid (authorization_identity a) ->
  recovery_retry_transaction q a now db = Ok (db', x) -> effect (submissions db) (submissions db').
Proof.
  intros Ht Hi H. unfold recovery_retry_transaction in H. inv_ok.
  match goal with Hl : load_required _ _ _ = Ok ?r |- _ =>
    destruct (load_required_Ok _ _ _ _ Ht Hi Hl) as (row & Hrow & Hrep); rename r into rec end.
  pose proof (ok_state _ (rep_ok _ _ _ Hrep)) as Hs.
  match goal with Hp : persist_mutable _ _ = _ |- _ => rename Hp into Hpersist end.
  match goal with Hn : next_reservation _ = _ |- _ => apply next_reservation_le in Hn end.
  match goal with Hm : recovery_candidate_matches _ _ = true |- _ => rename Hm into Hmatch end.
  destruct (stored_state rec) as [| |c d| | |] eqn:Es; try discriminate. cbn [retire_candidate] in *.
  eapply (bookkeeping_effect db db' _ row rec (Recovering None d));
    rewrite ?Es; [done|done|done|done|done|done|done|done|by apply Hrep|done| |apply change_retry|done|exact Hpersist].
  cbn. naive_solver.
Qed.

Lemma normalize_effect db r now i row db' r' :
  table_ok (submissions db) -> identity_valid i -> submissions db !! key i = Some row -> represents i row r ->
  is_submitting r = true ->
  normalize_abandoned db r now = Ok (db', r') -> effect (submissions db) (submissions db').
Proof.
  intros Ht Hi Hrow Hrep Hsub H. unfold is_submitting in Hsub.
  destruct (stored_state r) eqn:Es; try discriminate. clear Hsub.
  unfold normalize_abandoned in H. rewrite Es in H. cbn in H. inv_ok.
  apply (bookkeeping_effect db db' i row r (Recovering None abandoned_diagnostic)
    (committed_post_reservations r) (Some abandoned_diagnostic) now);
    rewrite ?Es; try done; try apply from_redacted_message_ok.
  by apply (change_transition _ (ObsAbandonedSubmitting abandoned_diagnostic)).
Qed.

(** A confirmation the store commits is legal: its positions fit the database
    and the roster bounds their number. *)
Definition confirmation_typed (v : ValidatedConfirmation) : Prop :=
  short (vote_commitment_positions (confirmation_payload v)) -> confirmation_ok v.

Lemma confirmation_from_hash_typed h van positions v :
  confirmation_from_hash h van positions = Ok v -> confirmation_typed v.
Proof.
  intros H Hs. eapply confirmation_from_hash_ok; [|exact H].
  by apply confirmation_from_hash_Ok in H as (c & -> & _ & _ & _ & <- & _).
Qed.

Lemma confirmation_from_tree_typed van positions v :
  confirmation_from_tree van positions = Ok v -> confirmation_typed v.
Proof.
  intros H Hs. eapply confirmation_from_tree_ok; [|exact H].
  unfold confirmation_from_tree in H. by inv_ok.
Qed.

Lemma validate_imported_typed b h events v :
  validate_imported_delegation_confirmation b h events = Ok v -> confirmation_typed v.
Proof.
  unfold validate_imported_delegation_confirmation, validate_delegation_event. intros H.
  repeat case_match; inv_ok; try discriminate.
  all: by eapply confirmation_from_hash_typed.
Qed.

Lemma validate_hash_typed d h events v :
  validate_hash_confirmation d h events = Ok v -> confirmation_typed v.
Proof.
  unfold validate_hash_confirmation, validate_delegation_event, validate_vote_event, validate_batch_event.
  intros H. repeat case_match; inv_ok; try discriminate; repeat case_match; inv_ok; try discriminate.
  all: by eapply confirmation_from_hash_typed.
Qed.

Lemma layout_accepts_short t rq d positions :
  derive t rq = Ok d -> layout_accepts (derived_bound d) positions = true -> short positions.
Proof.
  intros Hd Hl. pose proof (derive_short _ _ _ Hd) as Hs. unfold short in *. unfold layout_accepts in Hl.
  repeat case_match; inv_ok; try discriminate; cbn [length] in *; unfold u32_max in *; lia.
Qed.

Lemma confirmed_transition s v s' :
  apply_submission_observation (Some s) (ObsConfirmed v) = Ok (Some s') -> s' = Confirmed v.
Proof. intros H. destruct s as [|h|[h|] d|d|v'|d]; cbn in H; try case_bool_decide; inv_ok; done. Qed.

Lemma commit_effect db r i row t rq d v now db' x :
  table_ok (submissions db) -> identity_valid i -> submissions db !! key i = Some row -> represents i row r ->
  derive t rq = Ok d -> confirmation_typed v ->
  commit_confirmation db r (derived_bound d) v now = Ok (db', x) -> effect (submissions db) (submissions db').
Proof.
  intros Ht Hi Hrow Hrep Hd Hv H. unfold commit_confirmation in H. inv_ok.
  match goal with Hn : apply_submission_observation _ _ = _ |- _ => rename Hn into Hstep end.
  match goal with Hp : persist_mutable _ _ = _ |- _ => rename Hp into Hpersist end.
  assert (confirmation_ok v) as Hok.
  { apply Hv, (layout_accepts_short t rq d); [done|].
    match goal with Hp : apply_confirmed_generation _ _ _ = _ |- _ => unfold apply_confirmed_generation in Hp;
      destruct (layout_accepts (derived_bound d) _); [done | discriminate] end. }
  pose proof (confirmed_transition _ _ _ Hstep) as ->.
  apply (bookkeeping_effect {| submissions := submissions db; domain := a1 |} db' i row r (Confirmed v)
    (committed_post_reservations r) None now); try done; [|by eapply change_transition].
  intros h Hh. pose proof (transition_hashes _ (ObsConfirmed v) _ h Hok Hstep Hh) as [?|[?|[=]]]; auto.
Qed.

Lemma confirm_committed_effect q g c e allowed now db db' x :
  table_ok (submissions db) -> identity_valid (generation_identity g) ->
  confirm_committed_transaction q g c e allowed now db = Ok (db', x) ->
  effect (submissions db) (submissions db').
Proof.
  intros Ht Hi H. unfold confirm_committed_transaction, derive_for in H. inv_ok.
  destruct (load_required_Ok _ _ _ _ Ht Hi Ha) as (row & Hrow & Hrep).
  destruct (negb allowed); inv_ok; [apply effect_none|].
  eapply commit_effect; [done..| |exact H].
  match goal with Hv : (if ?b then _ else _) = Ok _ |- _ => destruct b end;
    eauto using validate_imported_typed, validate_hash_typed.
Qed.

Lemma confirm_tree_effect q g van ps allowed now db db' x :
  table_ok (submissions db) -> identity_valid (generation_identity g) ->
  confirm_tree_transaction q g van ps allowed now db = Ok (db', x) ->
  effect (submissions db) (submissions db').
Proof.
  intros Ht Hi H. unfold confirm_tree_transaction, derive_for in H. inv_ok.
  destruct (load_required_Ok _ _ _ _ Ht Hi Ha) as (row & Hrow & Hrep).
  destruct (negb allowed); inv_ok; [apply effect_none|].
  eapply commit_effect; [done..| |exact H]. by eapply confirmation_from_tree_typed.
Qed.

(** ** Insertion *)

Lemma fresh_row_represents i g n now row :
  identity_valid i -> generation_identity g = i -> fresh_row (fresh_submission g n now) = Ok row ->
  represents i row (fresh_submission g n now) /\ row_candidate row = None /\ row_confirmed_hash row = None.
Proof.
  intros Hi Hg Hrow. destruct (fresh_row_checks i g n now row Hi Hg Hrow) as [Hid _].
  destruct (fresh_row_decodes g n now row Hrow) as (Hdec & Hn & Hnow). rewrite Hg in Hdec.
  unfold fresh_row in Hrow. destruct (target_columns _) as [[kind proposal] batch]. inv_ok.
  repeat match goal with Hb : bind_u64 _ = Ok _ |- _ => apply bind_u64_Ok in Hb as [-> _] end.
  split; [|done]. split; try done; split; cbn; try done; reflexivity.
Qed.

Lemma imported_row_represents i g h now row :
  identity_valid i -> generation_identity g = i -> target i = TargetDelegation ->
  imported_row (adopted_imported_delegation g h now) h = Ok row ->
  represents i row (adopted_imported_delegation g h now)
  /\ row_candidate row = Some (bytes32_bytes h) /\ row_confirmed_hash row = None.
Proof.
  intros Hi Hg Ht Hrow. destruct (imported_row_checks i g h now row Hi Hg Ht Hrow) as [Hid _].
  destruct (imported_row_decodes g h now row Hrow) as (Hdec & Hnow). rewrite Hg in Hdec.
  unfold imported_row in Hrow. inv_ok.
  repeat match goal with Hb : bind_u64 _ = Ok _ |- _ => apply bind_u64_Ok in Hb as [-> _] end.
  split; [|done]. split; try done; split; cbn; try done; eauto.
Qed.

Lemma same_bundle_in_bundle i row row' :
  row_identity i row -> same_bundle row row' -> in_bundle i row' = true.
Proof.
  intros (Hr & Hw & Hn & Hb & _) (Er & Ew & En & Eb). unfold in_bundle, in_round_bundle.
  rewrite <- Er, <- Ew, <- En, <- Eb, Hr, Hw, Hn, Hb. by rewrite !bool_decide_true.
Qed.

(** A row for an identity that has none, in a bundle with nothing unresolved. *)
Lemma insert_effect db db' i row r :
  table_ok (submissions db) -> identity_valid i -> submissions db !! key i = None -> represents i row r ->
  state_name (stored_state r) <> "rejected" -> predecessor_exists db i = false ->
  (forall h, row_owns h row = true -> any_row db (fun _ row' => row_owns h row') = false) ->
  insert_row db i (Ok row) = Ok db' -> effect (submissions db) (submissions db').
Proof.
  intros Ht Hi Hnone Hrep Hstate Hpred Hfree H. unfold insert_row, sql_insert in H. cbn [mbind result_bind] in H. inv_ok. cbn.
  eapply effect_insert; [done..|]. eapply table_ok_insert; [done|done|done|done| |].
  - intros h k' row' Hown Hrow' _. by apply (any_row_false db (fun _ row' => row_owns h row') k'), Hrow'; apply Hfree.
  - intros k' row' _ Hrow' _ Hb Hun. apply (any_row_false _ _ _ _ Hpred) in Hrow'. cbn beta in Hrow'.
    rewrite (same_bundle_in_bundle i row row') in Hrow' by (done || apply Hrep).
    rewrite andb_true_l in Hrow'. unfold unresolved in Hun. congruence.
Qed.

Lemma insert_row_Ok db i row db' : insert_row db i row = Ok db' -> exists r, row = Ok r.
Proof. intros H. unfold insert_row in H. inv_ok. eauto. Qed.

Lemma insert_fresh_effect db db' g n now :
  table_ok (submissions db) -> identity_valid (generation_identity g) ->
  submissions db !! key (generation_identity g) = None -> predecessor_exists db (generation_identity g) = false ->
  insert_fresh db (fresh_submission g n now) = Ok db' -> effect (submissions db) (submissions db').
Proof.
  intros Ht Hi Hnone Hpred H. unfold insert_fresh in H. destruct (insert_row_Ok _ _ _ _ H) as (row & Hrow).
  rewrite Hrow in H. destruct (fresh_row_represents _ g n now row Hi eq_refl Hrow) as (Hrep & Hc & Hf).
  eapply insert_effect; [done..| |exact H].
  intros h Hown. apply row_owns_inv in Hown as []; congruence.
Qed.

Lemma insert_imported_effect db db' g h now :
  table_ok (submissions db) -> identity_valid (generation_identity g) ->
  target (generation_identity g) = TargetDelegation ->
  submissions db !! key (generation_identity g) = None -> predecessor_exists db (generation_identity g) = false ->
  hash_owned db h = false ->
  insert_imported_delegation db (adopted_imported_delegation g h now) h = Ok db' ->
  effect (submissions db) (submissions db').
Proof.
  intros Ht Hi Htarget Hnone Hpred Hfree H. unfold insert_imported_delegation in H.
  destruct (insert_row_Ok _ _ _ _ H) as (row & Hrow). rewrite Hrow in H.
  destruct (imported_row_represents _ g h now row Hi eq_refl Htarget Hrow) as (Hrep & Hc & Hf).
  eapply insert_effect; [done..| |exact H].
  intros h' Hown. apply row_owns_inv in Hown as [E|E]; [|congruence].
  rewrite Hc in E. injection E as <-. done.
Qed.

Lemma admit_new_effect db q batch n now db' x :
  table_ok (submissions db) -> identity_valid (request_identity q) -> validate_target q = Ok tt ->
  submissions db !! key (request_identity q) = None ->
  (forall d, batch = Some d -> generation_identity (derived_generation d) = request_identity q) ->
  admit_new db q batch n now = Ok (db', x) -> effect (submissions db) (submissions db').
Proof.
  intros Ht Hi Htarget Hnone Hbatch H. unfold admit_new, successor_guard in H. inv_ok.
  destruct (is_imported_delegation q) eqn:Himp; inv_ok.
  - match goal with Hd : derive _ _ = Ok _ |- _ => apply derive_identity in Hd as Hgi; fold (request_identity q) in Hgi end.
    eapply insert_imported_effect; rewrite ?Hgi; try eassumption.
    unfold is_imported_delegation, validate_target in *.
    destruct (derivation q); try discriminate. by destruct (target (request_identity q)).
  - match goal with Hd : match batch with _ => _ end = Ok ?d |- _ =>
      assert (generation_identity (derived_generation d) = request_identity q) as Hgi
        by (destruct batch; inv_ok; [by apply Hbatch | by apply derive_identity in Hd]) end.
    eapply insert_fresh_effect; rewrite ?Hgi; eassumption.
Qed.

Lemma admit_transaction_effect q work n now db db' x :
  table_ok (submissions db) -> identity_valid (request_identity q) -> validate_target q = Ok tt ->
  admit_transaction q work n now db = Ok (db', x) -> effect (submissions db) (submissions db').
Proof.
  intros Ht Hi Htarget H. unfold admit_transaction, derive_for in H. inv_ok.
  pose proof (load_submission_Ok _ _ _ Ht Hi Ha) as Hload. destruct a as [r|].
  - destruct Hload as (row & Hrow & Hrep). destruct (is_submitting r) eqn:Hsub; inv_ok.
    + match goal with Hn : normalize_abandoned _ _ _ = Ok ?p |- _ => destruct p; cbn end.
      by eapply normalize_effect.
    + destruct (negb work); inv_ok; [apply effect_none|]. unfold admit_existing in H. inv_ok. apply effect_none.
  - destruct (negb work); inv_ok; [apply effect_none|].
    eapply admit_new_effect; [done..| |exact H]. intros d ->.
    match goal with Hb : (if is_batch q then _ else _) = _ |- _ => destruct (is_batch q); inv_ok end.
    by match goal with Hd : derive _ _ = Ok _ |- _ => apply derive_identity in Hd end.
Qed.

(** ** Histories *)

Definition diagnostic_legal (d : option ChainSubmissionDiagnostic) : Prop :=
  match d with Some d => diagnostic_ok d | None => True end.

(** One store operation, with any outcome of its transaction. *)
Inductive store_operation : Database -> Database -> Prop :=
| step_admit env q work n now db :
    identity_valid (request_identity q) -> store_operation db (admit_submission env q work n now db).1
| step_remove env g db :
    identity_valid (generation_identity g) -> store_operation db (remove_fresh_reservation env g db).1
| step_reconcile env g o d now db :
    identity_valid (generation_identity g) -> observation_ok o -> diagnostic_legal d ->
    store_operation db (reconcile env g o d now db).1
| step_classify env g o now db :
    identity_valid (generation_identity g) -> observation_ok o ->
    store_operation db (classify_post env g o now db).1
| step_ambiguous_retry env g now db :
    identity_valid (generation_identity g) -> store_operation db (reserve_ambiguous_retry env g now db).1
| step_recovery_retry env q a now db :
    identity_valid (authorization_identity a) -> store_operation db (reserve_recovery_retry env q a now db).1
| step_confirm_committed env q g c e allowed now db :
    identity_valid (generation_identity g) ->
    store_operation db (confirm_committed env q g c e allowed now db).1
| step_confirm_tree env q g van ps allowed now db :
    identity_valid (generation_identity g) ->
    store_operation db (confirm_tree env q g van ps allowed now db).1.

(** An operation, a write of another component to the other tables, or the deletion of some
    [deletable] rounds: of one round, or of all rounds of a wallet. *)
Inductive store_step_where (deletable : string -> string -> Prop) : Database -> Database -> Prop :=
| step_operation db db' : store_operation db db' -> store_step_where deletable db db'
| step_domain dom db : store_step_where deletable db {| submissions := submissions db; domain := dom |}
| step_delete_rounds gone dom db :
    (forall round_id wallet, gone round_id wallet = true -> deletable round_id wallet) ->
    store_step_where deletable db {| submissions := sql_delete_rounds (submissions db) gone; domain := dom |}.

Definition store_step : Database -> Database -> Prop := store_step_where (fun _ _ => True).

(** The steps that keep the round of a submission. *)
Definition keeps_round (i : ChainSubmissionIdentity) : Database -> Database -> Prop :=
  store_step_where (fun round_id wallet => ~ (round_id = round_hex i /\ wallet = wallet_id i)).

Lemma store_operation_effect db db' :
  table_ok (submissions db) -> store_operation db db' -> effect (submissions db) (submissions db').
Proof.
  intros Ht Hstep. revert Ht. destruct Hstep as [env q work n now db0 Hi|env g db0 Hi|env g o d now db0 Hi Ho Hd|env g o now db0 Hi Ho
    |env g now db0 Hi|env q a now db0 Hi|env q g c e allowed now db0 Hi|env q g van ps allowed now db0 Hi]; intros Ht.
  - unfold admit_submission. destruct (validate_target q) as [[]|] eqn:Hq; [|apply effect_none].
    pose proof (transact_effect env (admit_transaction q work n now) db0) as H.
    destruct (transact _ _ _). apply H. intros db2 x. by eapply admit_transaction_effect.
  - by apply remove_effect.
  - apply transact_effect. intros db2 x. by eapply observation_effect.
  - apply transact_effect. intros db2 x. by eapply observation_effect.
  - apply transact_effect. intros db2 x. by eapply ambiguous_retry_effect.
  - apply transact_effect. intros db2 x. by eapply recovery_retry_effect.
  - apply transact_effect. intros db2 x. by eapply confirm_committed_effect.
  - apply transact_effect. intros db2 x. by eapply confirm_tree_effect.
Qed.

Lemma store_step_ok deletable db db' :
  table_ok (submissions db) -> store_step_where deletable db db' -> table_ok (submissions db').
Proof.
  intros Ht Hstep. destruct Hstep as [db db' Hop|dom db|gone dom db _]; [|done|by apply table_ok_delete_rounds].
  eapply effect_ok; [exact Ht|]. by apply store_operation_effect.
Qed.

Lemma store_history_ok db db' :
  table_ok (submissions db) -> rtc store_step db db' -> table_ok (submissions db').
Proof. intros Ht H. induction H as [|db1 db2 db3 Hstep _ IH]; [done|]. by eapply IH, store_step_ok. Qed.

(** The record of one identity after a step: kept, replaced by a successor, or
    removed for one of two reasons. *)
Inductive submission_step (i : ChainSubmissionIdentity) (r : StoredChainSubmission) :
  option StoredChainSubmission -> Prop :=
| record_kept : submission_step i r (Some r)
| record_replaced r' :
    successor r r' -> state_change (stored_state r) (stored_state r') -> submission_step i r (Some (reloaded r'))
| record_reservation_removed : stored_state r = Submitting -> submission_step i r None
| record_retired d :
    is_combined (target i) = true ->
    apply_submission_observation (Some (stored_state r)) (ObsTerminalRejection d) = Ok (Some (Rejected d)) \/
    apply_submission_observation (Some (stored_state r)) (ObsTerminalCandidateFailure d) = Ok (Some (Rejected d)) ->
    submission_step i r None.

Lemma represents_unique i row r r' : represents i row r -> represents i row r' -> r = r'.
Proof. intros H H'. pose proof (rep_decodes _ _ _ H). pose proof (rep_decodes _ _ _ H'). congruence. Qed.

Lemma same_key i j : identity_valid i -> identity_valid j -> key i = key j -> i = j.
Proof. intros [Hi _] [Hj _]. by apply submission_identity_key_inj. Qed.

Lemma step_record db db' i r :
  table_ok (submissions db) -> identity_valid i -> effect (submissions db) (submissions db') ->
  load_submission db i = Ok (Some r) ->
  exists o, load_submission db' i = Ok o /\ submission_step i r o.
Proof.
  intros Ht Hi He Hload. destruct (load_submission_Ok _ _ _ Ht Hi Hload) as (row & Hrow & Hrep).
  assert (submissions db' !! key i = Some row -> exists o, load_submission db' i = Ok o /\ submission_step i r o) as Hkept.
  { intros H. exists (Some r). split; [by eapply load_submission_total | apply record_kept]. }
  assert (submissions db' !! key i = None -> load_submission db' i = Ok None) as Hgone.
  { intros H. unfold load_submission, load_row. by rewrite H. }
  inversion He as [Heq|j row' r' Hj Hvj Hrj _ Hok Heq|j old row' r1 r1' Hj Hvj Hrj Hrj' Hsuc Hch _ Hm Hok Heq
    |j old r1 Hj Hvj Hrj Hs Heq|j old r1 d Hj Hvj Hrj Hc Hd Heq]; clear He.
  - apply Hkept. congruence.
  - apply Hkept. rewrite <- Heq, lookup_insert_ne; congruence.
  - destruct (decide (key j = key i)) as [<-%same_key|E]; [|done..|apply Hkept; rewrite <- Heq, lookup_insert_ne; done].
    assert (r1 = r) as -> by (eapply represents_unique; [exact Hrj | congruence]).
    exists (Some (reloaded r1')). split; [|by apply record_replaced].
    eapply load_submission_total; [|exact Hrj']. by rewrite <- Heq, lookup_insert_eq.
  - destruct (decide (key j = key i)) as [<-%same_key|E]; [|done..|apply Hkept; rewrite <- Heq, lookup_delete_ne; done].
    assert (r1 = r) as -> by (eapply represents_unique; [exact Hrj | congruence]).
    exists None. split; [|by apply record_reservation_removed]. apply Hgone. by rewrite <- Heq, lookup_delete_eq.
  - destruct (decide (key j = key i)) as [<-%same_key|E]; [|done..|apply Hkept; rewrite <- Heq, lookup_delete_ne; done].
    assert (r1 = r) as -> by (eapply represents_unique; [exact Hrj | congruence]).
    exists None. split; [|by eapply record_retired]. apply Hgone. by rewrite <- Heq, lookup_delete_eq.
Qed.

Lemma kept_round_record db db' i r :
  table_ok (submissions db) -> identity_valid i -> keeps_round i db db' -> load_submission db i = Ok (Some r) ->
  exists o, load_submission db' i = Ok o /\ submission_step i r o.
Proof.
  intros Ht Hi Hstep Hload. destruct Hstep as [db db' Hop|dom db|gone dom db Hgone].
  - exact (step_record _ _ _ _ Ht Hi (store_operation_effect _ _ Ht Hop) Hload).
  - by apply (step_record db); [done|done|apply effect_none|].
  - destruct (load_submission_Ok _ _ _ Ht Hi Hload) as (row & Hrow & Hrep). exists (Some r). split; [|apply record_kept].
    eapply load_submission_total; [|exact Hrep]. cbn. apply map_lookup_filter_Some. split; [done|]. cbn.
    destruct (rep_identity _ _ _ Hrep) as (-> & -> & _). apply not_true_is_false. intros H. by apply (Hgone _ _ H).
Qed.

(** ** Properties *)

Definition empty_database (dom : DomainState) : Database := {| submissions := ∅; domain := dom |}.

(** C2. In every database the store's operations can lead to from an empty
    table, whatever transactions fail to begin or commit, each row sits under the
    key of its own identity and loads as a legal record, no transaction hash is
    owned by two submissions, and no bundle has two unresolved submissions. *)
Theorem reachable_table_invariant dom db :
  rtc store_step (empty_database dom) db ->
  (forall k row, submissions db !! k = Some row ->
     exists i r, k = key i /\ identity_valid i /\ load_submission db i = Ok (Some r) /\ record_ok r
       /\ stored_identity r = i) /\
  (forall k k' row row' h, submissions db !! k = Some row -> submissions db !! k' = Some row' ->
     row_owns h row = true -> row_owns h row' = true -> k = k') /\
  (forall k k' row row', submissions db !! k = Some row -> submissions db !! k' = Some row' ->
     same_bundle row row' -> unresolved row -> unresolved row' -> k = k').
Proof.
  intros H. assert (table_ok (submissions db)) as [Htyped Hh Hs].
  { eapply store_history_ok; [|exact H]. apply table_ok_empty. }
  split; [|done]. intros k row Hrow. destruct (Htyped k row Hrow) as (i & r & -> & Hi & Hrep).
  exists i, r. split; [done|]. split; [done|]. split; [by eapply load_submission_total | split; apply Hrep].
Qed.

(** C28. What one operation, or any step that does not delete the submission's round, can do
    to a submission that is on record: leave it as it is; replace it by a record of the same identity, generation digest and
    creation time, with no fewer reservations, no earlier update time and the
    same start of tracking, by a legal transition or a recovery retry; remove it
    while it is a Submitting reservation; or retire it, when it is a combined
    submission that is rejected. *)
Theorem store_step_record_evolution db db' i r :
  table_ok (submissions db) -> identity_valid i -> keeps_round i db db' ->
  load_submission db i = Ok (Some r) ->
  exists o, load_submission db' i = Ok o /\ submission_step i r o.
Proof. apply kept_round_record. Qed.

(** The facts of a submission that reached a terminal state. *)
Definition same_outcome (r r' : StoredChainSubmission) : Prop :=
  stored_state r' = stored_state r /\ stored_generation_digest r' = stored_generation_digest r
  /\ created_at r' = created_at r /\ (updated_at r <= updated_at r')%N
  /\ (committed_post_reservations r <= committed_post_reservations r')%N.

Lemma same_outcome_trans r1 r2 r3 : same_outcome r1 r2 -> same_outcome r2 r3 -> same_outcome r1 r3.
Proof. intros (? & ? & ? & ? & ?) (? & ? & ? & ? & ?). repeat split; try congruence; lia. Qed.

Lemma terminal_record_step i r o :
  terminal_state (stored_state r) = true -> submission_step i r o ->
  exists r', o = Some r' /\ same_outcome r r'.
Proof.
  intros Hterm Hs. destruct Hs as [|r' Hsuc Hch|Hs|d Hc [Hs|Hs]].
  - exists r. repeat split; lia.
  - exists (reloaded r'). split; [done|]. destruct Hsuc as [_ Hd Hc Hu Hn _].
    assert (exists v, stored_state r = Confirmed v /\ stored_state r' = Confirmed v) as (v & E & E').
    { destruct Hch as [s o s' Hstep|]; [|discriminate].
      destruct s as [|?|[] ?|?|v|?]; try discriminate; destruct o; cbn in Hstep; try case_bool_decide; inv_ok; eauto. }
    unfold same_outcome, reloaded, mutable_columns. rewrite E, E'. by cbn.
  - by rewrite Hs in Hterm.
  - by destruct (stored_state r) as [| |[]| | |].
  - by destruct (stored_state r) as [| |[]| | |].
Qed.

(** C13. A submission that is confirmed, rejected or submitted without a hash
    stays on record with that outcome until its round is deleted: no later operation,
    write to the other tables or deletion of other rounds removes it or changes its
    state, confirmation, generation digest or creation time. *)
Theorem terminal_outcomes_permanent db db' i r :
  table_ok (submissions db) -> identity_valid i -> rtc (keeps_round i) db db' ->
  load_submission db i = Ok (Some r) -> terminal_state (stored_state r) = true ->
  exists r', load_submission db' i = Ok (Some r') /\ same_outcome r r'.
Proof.
  intros Ht Hi H. revert r. induction H as [db|db1 db2 db3 Hstep _ IH]; intros r Hload Hterm.
  { exists r. repeat split; [done | lia..]. }
  destruct (kept_round_record _ _ _ _ Ht Hi Hstep Hload) as (o & Hload2 & Hs).
  destruct (terminal_record_step _ _ _ Hterm Hs) as (r2 & -> & H2).
  destruct (IH (store_step_ok _ _ _ Ht Hstep) r2 Hload2) as (r3 & Hload3 & H3).
  { by rewrite (proj1 H2). }
  exists r3. eauto using same_outcome_trans.
Qed.

Lemma settle_fits r s' previous d now :
  record_ok r -> (now <= i64_max)%N ->
  integers_fit (settle_after_transition (with_state r s') previous d now).
Proof.
  intros [_ _ _ _ (Hn & Hu & Ht)] Hnow. unfold settle_after_transition. split; [done|].
  cbn [with_bookkeeping with_state updated_at tracking_started_at stored_state]. split; [lia|].
  destruct (is_tracking s' && _); cbn; [lia | done].
Qed.

Lemma persist_legal db i old r r' :
  table_ok (submissions db) -> submissions db !! key i = Some old -> identity_valid i -> represents i old r ->
  legal_successor r r' -> integers_fit r' -> hashes_free (submissions db) (key i) r r' ->
  exists db', persist_mutable db r' = Ok db' /\ load_submission db' i = Ok (Some (reloaded r'))
    /\ domain db' = domain db
    /\ forall k, k <> key i -> submissions db' !! k = submissions db !! k.
Proof.
  intros Ht Hold Hi Hrep Hlegal Hfit Hfree.
  destruct (update_legal _ i old r r' Ht Hold Hi Hrep Hlegal Hfit Hfree) as (row & Hup & Hrep' & _).
  exists (with_submissions db (<[key i := row]> (submissions db))). split; [|split; [|split; [done|]]].
  - unfold persist_mutable. rewrite (suc_identity _ _ (legal_successor_of _ _ Hlegal)),
      (rep_record_identity _ _ _ Hrep), Hup. done.
  - eapply load_submission_total; [|exact Hrep']. apply lookup_insert_eq.
  - intros k Hk. by apply lookup_insert_ne.
Qed.

Lemma rejected_diagnostic r s previous d now :
  let r' := settle_after_transition (with_state r s) previous d now in
  match stored_state r' with Rejected _ => true | _ => false end = true ->
  exists why, stored_state r' = Rejected why /\ stored_diagnostic r' = Some why.
Proof. cbn. destruct s; try done. intros _. eexists. by split. Qed.

Definition undisturbed : TransactionEnv := {| begin_error := None; commit_error := None |}.

(** C30. Recording an observation of the submission's own generation, in a transaction that
    begins and commits, never fails in the schema.  An illegal transition is refused and
    leaves the database as it was.  A legal one is returned and stored: it is read back with
    its diagnostic redacted once more, and nothing else changes.  A rejected combined
    submission is retired instead: its row is deleted together with the recovery of its votes,
    or, when that is refused, nothing changes.  A transaction that does not begin or commit
    changes nothing. *)
Theorem legal_observation_commits db g o d now r :
  table_ok (submissions db) -> identity_valid (generation_identity g) -> observation_ok o ->
  diagnostic_legal d -> (now <= i64_max)%N ->
  load_submission db (generation_identity g) = Ok (Some r) ->
  stored_generation_digest r = generation_digest g ->
  (forall env, begin_error env <> None \/ commit_error env <> None -> exists e, reconcile env g o d now db = (db, Err e)) /\
  match apply_submission_observation (Some (stored_state r)) (effective_observation db g o) with
  | Ok (Some s') =>
      let r' := settle_after_transition (with_state r s') (record_durable_state r) d now in
      if retires_combined_generation r' (record_durable_state r) then
        exists why, stored_state r' = Rejected why /\ stored_diagnostic r' = Some why
          /\ match retire_rejected_combined_generation (domain db) (generation_identity g) why (updated_at r') with
             | Ok dom => reconcile undisturbed g o d now db
                 = ({| submissions := delete (key (generation_identity g)) (submissions db); domain := dom |}, Ok r')
             | Err _ => exists e, reconcile undisturbed g o d now db = (db, Err e)
             end
      else
        exists db', reconcile undisturbed g o d now db = (db', Ok r')
          /\ load_submission db' (generation_identity g) = Ok (Some (reloaded r'))
          /\ domain db' = domain db
          /\ forall k, k <> key (generation_identity g) -> submissions db' !! k = submissions db !! k
  | Ok None | Err _ => exists e, reconcile undisturbed g o d now db = (db, Err e)
  end.
Proof.
  intros Ht Hi Ho Hd Hnow Hload Hdig. split.
  { intros env Henv. unfold reconcile, transact. destruct (begin_error env); [eauto|].
    destruct (observation_transaction g o d now db) as [[db' x]|]; [|eauto]. destruct (commit_error env); [eauto|tauto]. }
  destruct (load_submission_Ok _ _ _ Ht Hi Hload) as (row & Hrow & Hrep).
  unfold reconcile, transact, observation_transaction, load_required, undisturbed. cbn [begin_error].
  rewrite Hload. cbn [mbind result_bind ok_or]. unfold ensure_generation.
  rewrite (rep_record_identity _ _ _ Hrep), Hdig, !bool_decide_true by done. cbn [negb orb fail_if mbind result_bind].
  destruct (apply_submission_observation _ _) as [[s'|]|e] eqn:Hstep; cbn [map_err mbind result_bind ok_or]; [|eauto..].
  cbv zeta. destruct (retires_combined_generation _ _) eqn:Hkeep.
  { unfold retires_combined_generation in Hkeep. apply andb_true_iff in Hkeep as [[Hs _]%andb_true_iff _].
    destruct (rejected_diagnostic r s' (record_durable_state r) d now Hs) as (why & Hw & Hdw). exists why. split; [done|]. split; [done|].
    rewrite Hdw. cbn [ok_or mbind result_bind]. by destruct (retire_rejected_combined_generation _ _ _ _); cbn; eauto. }
  destruct (persist_legal db _ row r (settle_after_transition (with_state r s') (record_durable_state r) d now)
    Ht Hrow Hi Hrep) as (db' & Hp & Hl & Hdom & Hothers).
  - eapply settle_legal; [apply Hrep | by apply effective_observation_ok | done | exact Hstep].
  - apply settle_fits; [apply Hrep | done].
  - by eapply transition_hashes_free.
  - rewrite Hp. cbn [mbind result_bind commit_error]. eauto.
Qed.

(** The record of the row a legal record is persisted to is that record, unless
    redaction rewrites its diagnostic. *)
Lemma reloaded_stable r :
  match stored_state r with Submitting | Confirmed _ => stored_diagnostic r = None | Tracking _ => True
  | Recovering _ d | SubmittedWithoutHash d | Rejected d => stored_diagnostic r = Some d end ->
  (forall d, stored_diagnostic r = Some d -> stable_diagnostic d) -> reloaded r = r.
Proof.
  intros Hd Hs. unfold reloaded, mutable_columns, with_bookkeeping, with_state.
  assert (forall d, stored_diagnostic r = Some d -> redacted d = d) as Hred.
  { intros d E. by apply from_redacted_message_stable, Hs. }
  destruct r as [i dig s n t diag c u]; cbn in *.
  destruct s; cbn in *; subst; rewrite ?Hred by done; try done.
  destruct diag as [d|]; cbn; [by rewrite Hred | done].
Qed.

(** C40. A diagnostic with a quote or a backslash is not read back as it was
    written: loading escapes the stored text once more, so every save and load
    of a recovering row lengthens the message by the number of its escaped
    characters, until it reaches the size limit. *)
Theorem reload_lengthens_diagnostic old r row h d :
  record_ok r -> stored_state r = Recovering h d ->
  row_generation_digest old = bytes32_bytes (stored_generation_digest r) ->
  row_created_at old = Z.of_N (created_at r) -> mutated_row old r = Ok row ->
  length (diagnostic_message d) + escaped_count (diagnostic_message d) <= MAX_CHAIN_SUBMISSION_DIAGNOSTIC_BYTES ->
  exists r' d', decode_row (stored_identity r) row = Ok r' /\ stored_state r' = Recovering h d'
    /\ diagnostic_kind d' = diagnostic_kind d
    /\ length (diagnostic_message d') = length (diagnostic_message d) + escaped_count (diagnostic_message d).
Proof.
  intros Hok Hs Hdig Hcr Hrow Hlen. exists (reloaded r), (redacted d).
  split; [by eapply mutated_row_decodes; try apply Hok|].
  pose proof (ok_state _ Hok) as Hst. rewrite Hs in Hst. destruct Hst as [Hp _].
  split; [|split; [done|by apply bounded_redacted_loop_length_fit]].
  unfold reloaded, mutable_columns. by rewrite Hs.
Qed.
End invariant.

(** ** Witnesses *)

#[local] Existing Instances sample_hex sample_sha256 sample_tables sample_base64.
#[local] Instance sample_confirmation_tables : ConfirmationTables := {|
  apply_delegation_confirmation := fun t _ _ _ _ _ => Ok t;
  apply_vote_confirmation := fun t _ _ _ _ _ _ _ => Ok t;
  apply_vote_batch_confirmation := fun t _ _ _ _ _ _ _ _ => Ok t;
  store_delegation_tx_hash := fun t _ _ _ _ => Ok t;
  persisted_generation_digest := fun _ _ _ _ _ => Ok (Some sample_batch_digest);
  clear_vote_batch_recovery := fun t _ _ _ _ => Ok (t, [])
|}.

#[local] Instance sample_store_tables : StoreTables := {|
  bundle_delegation_set := fun _ _ _ _ => Some false;
  combined_recovery_exists := fun _ _ _ _ => false;
  round_exists := fun _ _ _ => true
|}.

#[local] Instance sample_rusqlite : RusqliteCrate := {| sql_error_text := fun _ => [] |}.

Definition sample_empty : Database := empty_database {| tables := sample_store; ledger := ∅ |}.

Definition sample_request : StoreAdvancementRequest :=
  {| derivation := DeriveVoteBatch sample_batch_identity; member_identities := [];
     ordered_batch_proposal_ids := Some [9; 5]%N |}.

(** The two-member batch is admitted, then found already spent. *)
Definition sample_admitted : Database := (admit_submission undisturbed sample_request true 1 100 sample_empty).1.

Definition sample_generation : ChainSubmissionGeneration := derived_generation sample_derived_batch.

Definition spent : SubmissionObservation :=
  ObsSubmittedWithoutHash (from_redacted_message NullifierAlreadySpent (chars "it's spent")).

Definition sample_settled : Database := (classify_post undisturbed sample_generation spent 200 sample_admitted).1.

Definition sample_record (db : Database) : StoredChainSubmission :=
  match load_submission db sample_batch_identity with
  | Ok (Some r) => r
  | _ => fresh_submission sample_generation 0 0
  end.

Lemma sample_identity_valid : identity_valid sample_batch_identity.
Proof. repeat split; vm_compute; discriminate. Qed.

Lemma sample_generation_identity : generation_identity sample_generation = sample_batch_identity.
Proof. vm_compute. reflexivity. Qed.

Lemma sample_admitted_history : rtc store_step sample_empty sample_admitted.
Proof. apply rtc_once, step_operation, step_admit, sample_identity_valid. Qed.

Lemma sample_settled_step deletable : store_step_where deletable sample_admitted sample_settled.
Proof.
  apply step_operation, step_classify; [rewrite sample_generation_identity; apply sample_identity_valid|].
  apply from_redacted_message_ok.
Qed.

Lemma sample_admitted_ok : table_ok (submissions sample_admitted).
Proof. apply (store_history_ok sample_empty); [apply table_ok_empty | apply sample_admitted_history]. Qed.

Lemma sample_settled_ok : table_ok (submissions sample_settled).
Proof. apply (store_history_ok sample_admitted); [apply sample_admitted_ok | apply rtc_once, sample_settled_step]. Qed.

Lemma sample_admitted_record : load_submission sample_admitted sample_batch_identity = Ok (Some (sample_record sample_admitted)).
Proof. vm_cast_no_check (eq_refl (Ok (E := ChainSubmissionFailure) (Some (sample_record sample_admitted)))). Qed.

Lemma sample_settled_record : load_submission sample_settled sample_batch_identity = Ok (Some (sample_record sample_settled)).
Proof. vm_cast_no_check (eq_refl (Ok (E := ChainSubmissionFailure) (Some (sample_record sample_settled)))). Qed.

Lemma reachable_table_invariant_witness :
  row_state <$> submissions sample_admitted !! submission_identity_key sample_batch_identity = Some "submitting" /\
  forall k row, submissions sample_admitted !! k = Some row ->
    exists i r, k = submission_identity_key i /\ identity_valid i
      /\ load_submission sample_admitted i = Ok (Some r) /\ record_ok r /\ stored_identity r = i.
Proof.
  split; [vm_compute; reflexivity|].
  apply (reachable_table_invariant {| tables := sample_store; ledger := ∅ |} sample_admitted).
  apply sample_admitted_history.
Defined.

Lemma store_step_record_evolution_witness :
  stored_state (sample_record sample_admitted) = Submitting /\
  exists o, load_submission sample_settled sample_batch_identity = Ok o
    /\ submission_step sample_batch_identity (sample_record sample_admitted) o.
Proof.
  split; [vm_compute; reflexivity|].
  apply (store_step_record_evolution sample_admitted sample_settled).
  - apply sample_admitted_ok.
  - apply sample_identity_valid.
  - apply sample_settled_step.
  - apply sample_admitted_record.
Defined.

Lemma terminal_outcomes_permanent_witness :
  exists r', load_submission (remove_fresh_reservation undisturbed sample_generation sample_settled).1
               sample_batch_identity = Ok (Some r')
    /\ same_outcome (sample_record sample_settled) r'.
Proof.
  apply (terminal_outcomes_permanent sample_settled).
  - apply sample_settled_ok.
  - apply sample_identity_valid.
  - apply rtc_once, step_operation, step_remove. rewrite sample_generation_identity. apply sample_identity_valid.
  - apply sample_settled_record.
  - vm_compute. reflexivity.
Defined.

Lemma legal_observation_commits_witness :
  let r := sample_record sample_admitted in
  let s' := Tracking (bytes32_fill Byte.x77) in
  let r' := settle_after_transition (with_state r s') (record_durable_state r) None 150 in
  exists db', reconcile undisturbed sample_generation (ObsUsableCandidateHash (bytes32_fill Byte.x77)) None 150
                sample_admitted = (db', Ok r')
    /\ load_submission db' (generation_identity sample_generation) = Ok (Some (reloaded r'))
    /\ domain db' = domain sample_admitted
    /\ forall k, k <> submission_identity_key (generation_identity sample_generation) ->
         submissions db' !! k = submissions sample_admitted !! k.
Proof.
  cbv zeta.
  pose proof (legal_observation_commits sample_admitted sample_generation
    (ObsUsableCandidateHash (bytes32_fill Byte.x77)) None 150 (sample_record sample_admitted)) as H.
  assert (apply_submission_observation (Some (stored_state (sample_record sample_admitted)))
            (effective_observation sample_admitted sample_generation
               (ObsUsableCandidateHash (bytes32_fill Byte.x77)))
          = Ok (Some (Tracking (bytes32_fill Byte.x77)))) as Hstep by (vm_compute; reflexivity).
  rewrite Hstep in H. eapply proj2 in H; [exact H|..].
  - apply sample_admitted_ok.
  - rewrite sample_generation_identity. apply sample_identity_valid.
  - exact I.
  - exact I.
  - vm_compute. discriminate.
  - rewrite sample_generation_identity. apply sample_admitted_record.
  - vm_compute. reflexivity.
Defined.

(** The admitted reservation with an ambiguous answer that quotes its endpoint. *)
Definition sample_quoted : ChainSubmissionDiagnostic :=
  from_redacted_message AmbiguousDispatch (chars "it's gone").

Definition sample_ambiguous : StoredChainSubmission :=
  with_bookkeeping (with_state (sample_record sample_admitted) (Recovering None sample_quoted)) 1 None
    (Some sample_quoted) 200.

Lemma reload_lengthens_diagnostic_witness :
  exists old row r' d', mutated_row old sample_ambiguous = Ok row
    /\ decode_row (stored_identity sample_ambiguous) row = Ok r' /\ stored_state r' = Recovering None d'
    /\ diagnostic_kind d' = AmbiguousDispatch /\ length (diagnostic_message d') = 12
    /\ length (diagnostic_message sample_quoted) = 10.
Proof.
  destruct (fresh_row (sample_record sample_admitted)) as [old|] eqn:Hold; [|vm_compute in Hold; discriminate].
  destruct (mutated_row old sample_ambiguous) as [row|] eqn:Hrow; [|vm_compute in Hrow; discriminate].
  destruct (reload_lengthens_diagnostic old sample_ambiguous row None sample_quoted) as (r' & d' & H1 & H2 & H3 & H4).
  - split; cbn; [apply from_redacted_message_ok | exact I | apply from_redacted_message_ok
      | by vm_compute | split; [by vm_compute | by split; vm_compute]].
  - reflexivity.
  - vm_compute in Hold. injection Hold as <-. vm_compute. reflexivity.
  - vm_compute in Hold. injection Hold as <-. vm_compute. reflexivity.
  - exact Hrow.
  - apply (bool_decide_unpack _). vm_compute. exact I.
  - exists old, row, r', d'. repeat split; done.
Defined.
