(* ===== verification/Protocol.v ===== *)
(** * Wire protocol

    Models [transport.rs] and [protocol.rs]: transport failures and responses,
    the classification of a POST answer and of a status answer, the status
    lookup over all endpoints, and the construction of the endpoint set. JSON
    decoding ([serde_json]), JSON encoding of the wire types and URL parsing
    ([url]) are interfaces; a request that is sent is answered by a
    [TransportAnswer] the environment chooses. *)

From S2P Require Import Prelude Types Diagnostics SubmissionState Identity Generation Confirmation.

(** ** Transport *)

Abbreviation MAX_CHAIN_HTTP_RESPONSE_BYTES := (256 * 1024)%N (only parsing).

Inductive ChainTransportFailureKind : Type := DefinitelyUnsent | PossiblyDispatched.
#[export] Instance ChainTransportFailureKind_eq_dec : EqDecision ChainTransportFailureKind.
Proof. solve_decision. Defined.

Record ChainTransportError : Type := {
  transport_kind : ChainTransportFailureKind;
  transport_message : text
}.

Definition definitely_unsent (message : text) : ChainTransportError :=
  {| transport_kind := DefinitelyUnsent; transport_message := bounded_redacted_text message |}.
Definition possibly_dispatched (message : text) : ChainTransportError :=
  {| transport_kind := PossiblyDispatched; transport_message := bounded_redacted_text message |}.

Record ChainHttpResponse : Type := {
  response_status : N;
  response_body : bytes;
  response_content_type : option text
}.

(** How the bounded wait for a transport future ends: the deadline passed, with
    the dispatch marker as it was then, or the future completed. *)
Inductive TransportAnswer : Type :=
| TimedOut (dispatch_possible : bool)
| Answered (r : result ChainTransportError ChainHttpResponse).

(** ** JSON *)

Record TransactionResultJson : Type := {
  result_tx_hash : option text;
  result_code : N;
  result_log : text;
  (** [BatchDigestJson]: [None] is [Absent]. *)
  result_batch_digest : option text
}.

Record TransactionStatusJson : Type := {
  status_height : text;
  status_code : N;
  status_events : list TxEvent
}.

(** [serde_json::from_slice] at the types the protocol reads, and
    [String::from_utf8_lossy]. *)
Class SerdeJson : Type := {
  parse_transaction_result : bytes -> option TransactionResultJson;
  parse_transaction_status : bytes -> option TransactionStatusJson;
  (** [GatewayErrorJson]: the text of its only field. *)
  parse_gateway_error : bytes -> option text;
  from_utf8_lossy : bytes -> text
}.

(** [to_json] of the wire types, with the error's text. *)
Class WireJson {GT : GenerationTables} : Type := {
  delegation_to_json : DelegationWire -> result text bytes;
  vote_to_json : VoteWire -> result text bytes;
  vote_batch_to_json : list VoteWire -> result text bytes;
  delegate_and_vote_batch_to_json : DelegationWire -> list VoteWire -> result text bytes
}.

(** ** Classification vocabulary *)

Inductive ChainRejectionKind : Type := RejectionNullifierAlreadySpent | RejectionOther.
#[export] Instance ChainRejectionKind_eq_dec : EqDecision ChainRejectionKind.
Proof. solve_decision. Defined.

Inductive PostAttemptOutcome : Type :=
| PostAccepted (candidate : CandidateTransactionHash)
| PostRejected (code : N) (kind : ChainRejectionKind) (d : ChainSubmissionDiagnostic)
    (candidate : option CandidateTransactionHash)
| PostLocalFailure (d : ChainSubmissionDiagnostic)
| PostDefinitelyUnsent (e : ChainTransportError)
| PostPossiblyDispatched (d : ChainSubmissionDiagnostic).

Inductive TransactionStatusObservation : Type :=
| StatusPending
| StatusCommittedSuccess (t : CommittedTransaction)
| StatusCommittedFailure (t : CommittedTransaction).

Inductive LookupFailure : Type :=
| LookupTransport (e : ChainTransportError)
| LookupProtocol (d : ChainSubmissionDiagnostic).

Definition invalid_protocol (message : text) : ChainSubmissionDiagnostic :=
  from_redacted_message InvalidProtocolResponse message.

Abbreviation NULLIFIER_ALREADY_SPENT_CODE := 2%N (only parsing).
Abbreviation MAX_CHAIN_HTTP_REQUEST_BYTES := (1024 * 1024)%N (only parsing).
Abbreviation MAX_CHAIN_ENDPOINTS := 8%nat (only parsing).

(** Durations in nanoseconds. *)
Definition seconds (n : N) : N := (n * 1000000000)%N.
Abbreviation MIN_CHAIN_POST_TIMEOUT := (seconds 120)%N (only parsing).
Abbreviation DEFAULT_CHAIN_POST_TIMEOUT := (seconds 150)%N (only parsing).
Abbreviation DEFAULT_CHAIN_LOOKUP_TIMEOUT := (seconds 10)%N (only parsing).
Abbreviation MAX_CHAIN_REQUEST_TIMEOUT := (seconds 600)%N (only parsing).

Record ChainProtocolTiming : Type := { post_timeout : N; lookup_timeout : N }.

Definition timing_new (post lookup : N) : result ChainSubmissionDiagnostic ChainProtocolTiming :=
  _ ← fail_if (negb (bool_decide (MIN_CHAIN_POST_TIMEOUT <= post <= MAX_CHAIN_REQUEST_TIMEOUT)%N))
        (invalid_protocol (chars "vote-chain POST timeout must be between 120 and 600 seconds"));
  _ ← fail_if (bool_decide (lookup = 0)%N || bool_decide (MAX_CHAIN_REQUEST_TIMEOUT < lookup)%N)
        (invalid_protocol (chars "vote-chain lookup timeout must be between 1 nanosecond and 600 seconds"));
  Ok {| post_timeout := post; lookup_timeout := lookup |}.

(** ** Text helpers *)

Definition ascii_lower (c : N) : N := if bool_decide (65 <= c <= 90)%N then (c + 32)%N else c.
Definition eq_ignore_ascii_case (a b : text) : bool := bool_decide (map ascii_lower a = map ascii_lower b).

(** The piece before the first occurrence of [c]. *)
Fixpoint before (c : N) (t : text) : text :=
  match t with
  | [] => []
  | x :: rest => if bool_decide (x = c) then [] else x :: before c rest
  end.

Definition is_ascii_hexdigit (c : N) : bool :=
  bool_decide (48 <= c <= 57)%N || bool_decide (97 <= c <= 102)%N || bool_decide (65 <= c <= 70)%N.

(** [CandidateTransactionHash::from_str]. *)
Definition candidate_from_text (t : text) : option CandidateTransactionHash :=
  if bool_decide (length t = 64) then b ← decode_lower_hex t; try_into_bytes32 b else None.

Definition normalize_candidate_hash (t : text) : option CandidateTransactionHash :=
  if negb (bool_decide (length t = 64)) || negb (forallb is_ascii_hexdigit t) then None
  else candidate_from_text (map ascii_lower t).

(** ** Answers *)

Section answers.
Context `{SJ : SerdeJson, HX : HexCrate}.

Definition has_media_type (r : ChainHttpResponse) (media_type : string) : bool :=
  match response_content_type r with
  | Some content_type => eq_ignore_ascii_case (trim (before 59 content_type)) (chars media_type)
  | None => false
  end.

Definition is_json_content_type (r : ChainHttpResponse) : bool := has_media_type r "application/json".

Definition oversized (r : ChainHttpResponse) : bool :=
  bool_decide (MAX_CHAIN_HTTP_RESPONSE_BYTES < N.of_nat (length (response_body r)))%N.

Definition observed_content_type (r : ChainHttpResponse) : text :=
  default (chars "(absent)") (response_content_type r).

Definition validate_json_response (r : ChainHttpResponse) : result ChainSubmissionDiagnostic unit :=
  _ ← fail_if (oversized r)
        (invalid_protocol (chars "vote-chain response exceeds "
           ++ decimal MAX_CHAIN_HTTP_RESPONSE_BYTES ++ chars " byte limit"));
  let excerpt := trim (from_utf8_lossy (response_body r)) in
  fail_if (negb (is_json_content_type r))
    (invalid_protocol
       (if bool_decide (excerpt = [])
        then chars "vote-chain response Content-Type must be application/json, got "
             ++ observed_content_type r ++ chars " with an empty body"
        else chars "vote-chain response Content-Type must be application/json, got "
             ++ observed_content_type r ++ chars ": " ++ excerpt)).

Definition route_text (endpoint : string) : text := chars "/shielded-vote/v1/" ++ chars endpoint.

Definition gateway_shaped_route_answer (r : ChainHttpResponse) (endpoint : string) :
  option ChainSubmissionDiagnostic :=
  if oversized r then None
  else if negb (bool_decide (response_status r = 404 \/ response_status r = 405)%N)
          || negb (is_json_content_type r) then None
  else _ ← parse_gateway_error (response_body r);
    Some (from_redacted_message EndpointUnsupported
      (chars "vote-chain endpoint may not serve " ++ route_text endpoint ++ chars " (HTTP "
       ++ decimal (response_status r) ++ chars ", gateway-shaped error envelope); the POST may have reached the "
       ++ chars "chain; check the gateway route and vote-sdk release")).

Definition replaced_route_answer (r : ChainHttpResponse) (endpoint : string) :
  option ChainSubmissionDiagnostic :=
  if oversized r then None
  else if bool_decide (response_status r = 404 \/ response_status r = 405)%N
          || (bool_decide (response_status r = 200)%N && has_media_type r "text/html")
  then Some (from_redacted_message RouteAnswerReplaced
      (chars "vote-chain endpoint may not serve " ++ route_text endpoint ++ chars " (HTTP "
       ++ decimal (response_status r) ++ chars ", Content-Type " ++ observed_content_type r
       ++ chars "); the POST may have reached the chain; check the gateway route and vote-sdk release"))
  else None.

(** The batch digest of the answer against the one the request carried. *)
Definition batch_digest_problem (expected : option bytes32) (observed : option text) : option text :=
  match expected, observed with
  | Some expected, Some observed =>
      if bool_decide (observed = chars (hex_encode (bytes32_bytes expected))) then None
      else Some (chars "vote-batch response contained an invalid batch digest")
  | Some _, None => Some (chars "vote-batch response omitted its batch digest")
  | None, Some _ => Some (chars "non-batch vote-chain response contained a batch digest")
  | None, None => None
  end.

Definition rejection_kind (code : N) : ChainRejectionKind :=
  if bool_decide (code = NULLIFIER_ALREADY_SPENT_CODE) then RejectionNullifierAlreadySpent else RejectionOther.

Definition rejection_text (code : N) (log : text) : text :=
  chars "vote chain rejected transaction with code " ++ decimal code
  ++ (if bool_decide (trim log = []) then [] else chars ": " ++ trim log).

(** The candidate of a rejection: absent and empty are both none. *)
Definition rejected_candidate (tx_hash : option text) : option (option CandidateTransactionHash) :=
  match tx_hash with
  | None | Some [] => Some None
  | Some hash => Some <$> normalize_candidate_hash hash
  end.

Definition possibly (message : text) : PostAttemptOutcome := PostPossiblyDispatched (invalid_protocol message).

Definition classify_result (status : N) (parsed : TransactionResultJson) : PostAttemptOutcome :=
  let code := result_code parsed in
  if bool_decide (status = 200 /\ code = 0)%N then
    match hash ← result_tx_hash parsed; normalize_candidate_hash hash with
    | Some candidate => PostAccepted candidate
    | None => possibly (chars "accepted vote-chain response omitted a canonical transaction hash")
    end
  else if bool_decide (status = 422 /\ code <> 0)%N then
    match rejected_candidate (result_tx_hash parsed) with
    | None => possibly (chars "rejected vote-chain response contained an invalid transaction hash")
    | Some candidate =>
        PostRejected code (rejection_kind code)
          (from_redacted_message ChainRejected (rejection_text code (result_log parsed))) candidate
    end
  else if bool_decide (300 <= status <= 399)%N then
    possibly (chars "vote-chain mutation redirect was rejected")
  else possibly (chars "unsupported vote-chain mutation response status=" ++ decimal status
                 ++ chars " code=" ++ decimal code).

Definition parse_post_response (r : ChainHttpResponse) (endpoint : string) (expected : option bytes32) :
  PostAttemptOutcome :=
  match gateway_shaped_route_answer r endpoint, replaced_route_answer r endpoint, validate_json_response r with
  | Some d, _, _ => PostPossiblyDispatched d
  | None, Some d, _ => PostPossiblyDispatched d
  | None, None, Err d => PostPossiblyDispatched d
  | None, None, Ok _ =>
      match parse_transaction_result (response_body r) with
      | None => possibly (chars "vote-chain transaction response is malformed JSON")
      | Some parsed =>
          match batch_digest_problem expected (result_batch_digest parsed) with
          | Some message => possibly message
          | None => classify_result (response_status r) parsed
          end
      end
  end.

Definition parse_status_response (r : ChainHttpResponse) :
  result ChainSubmissionDiagnostic TransactionStatusObservation :=
  let status := response_status r in
  _ ← validate_json_response r;
  if bool_decide (status = 404)%N then
    error ← ok_or (parse_gateway_error (response_body r))
              (invalid_protocol (chars "vote-chain pending response is malformed JSON"));
    _ ← fail_if (negb (bool_decide (error = chars "tx not found")))
          (invalid_protocol (chars "vote-chain pending response has an unsupported error"));
    Ok StatusPending
  else
    _ ← fail_if (bool_decide (300 <= status <= 399)%N)
          (invalid_protocol (chars "vote-chain transaction lookup redirect was rejected"));
    _ ← fail_if (negb (bool_decide (status = 200 \/ status = 422)%N))
          (invalid_protocol (chars "unsupported vote-chain lookup HTTP status " ++ decimal status));
    parsed ← ok_or (parse_transaction_status (response_body r))
               (invalid_protocol (chars "vote-chain transaction status is malformed JSON"));
    height ← ok_or (parse_u64 (status_height parsed))
               (invalid_protocol (chars "vote-chain transaction height is not a u64 decimal string"));
    let committed := {| committed_height := height; committed_code := status_code parsed;
                        committed_events := status_events parsed |} in
    if bool_decide (status = 200 /\ status_code parsed = 0)%N then Ok (StatusCommittedSuccess committed)
    else if bool_decide (status = 422 /\ status_code parsed <> 0)%N then Ok (StatusCommittedFailure committed)
    else Err (invalid_protocol (chars "contradictory vote-chain lookup response status=" ++ decimal status
                ++ chars " code=" ++ decimal (status_code parsed))).

(** ** The client *)

Record ChainProtocolClient : Type := { endpoints : list text; timing : ChainProtocolTiming }.

Definition endpoint_count (p : ChainProtocolClient) : nat := length (endpoints p).

(** What a POST whose future ended with [answer] is classified as. *)
Definition classify_answer (answer : TransportAnswer) (endpoint : string) (expected : option bytes32) :
  PostAttemptOutcome :=
  match answer with
  | TimedOut false =>
      PostDefinitelyUnsent (definitely_unsent
        (chars "vote-chain submission timed out before the transport released the request"))
  | TimedOut true =>
      PostPossiblyDispatched (from_redacted_message AmbiguousDispatch (chars "vote-chain submission timed out"))
  | Answered (Ok response) => parse_post_response response endpoint expected
  | Answered (Err e) =>
      if bool_decide (transport_kind e = DefinitelyUnsent) then PostDefinitelyUnsent e
      else PostPossiblyDispatched (from_redacted_message AmbiguousDispatch (transport_message e))
  end.

(** Checks made before the transport is called. *)
Definition post_refused (p : ChainProtocolClient) (endpoint_index : nat) (body : bytes) : option text :=
  if bool_decide (MAX_CHAIN_HTTP_REQUEST_BYTES < N.of_nat (length body))%N
  then Some (chars "vote-chain request exceeds " ++ decimal MAX_CHAIN_HTTP_REQUEST_BYTES
             ++ chars " byte limit")
  else match endpoints p !! endpoint_index with
       | None => Some (chars "vote-chain endpoint index is out of range")
       | Some _ => None
       end.

Definition post (p : ChainProtocolClient) (endpoint_index : nat) (endpoint : string) (body : bytes)
  (expected : option bytes32) (answer : TransportAnswer) : PostAttemptOutcome :=
  match post_refused p endpoint_index body with
  | Some message => PostLocalFailure (invalid_protocol message)
  | None => classify_answer answer endpoint expected
  end.

(** Serialize, then POST: the four [submit_*_with_dispatch]. *)
Definition post_serialized (p : ChainProtocolClient) (endpoint_index : nat) (endpoint label : string)
  (body : result text bytes) (expected : option bytes32) (answer : TransportAnswer) : PostAttemptOutcome :=
  match body with
  | Err error =>
      PostLocalFailure (invalid_protocol (chars "serialize " ++ chars label ++ chars " request failed: " ++ error))
  | Ok body => post p endpoint_index endpoint body expected answer
  end.

Context {GT : GenerationTables} {WJ : WireJson}.

Definition submit_delegation (p : ChainProtocolClient) (i : nat) (w : DelegationWire) (a : TransportAnswer) :
  PostAttemptOutcome := post_serialized p i "delegate-vote" "delegation" (delegation_to_json w) None a.
Definition submit_vote (p : ChainProtocolClient) (i : nat) (w : VoteWire) (a : TransportAnswer) :
  PostAttemptOutcome := post_serialized p i "cast-vote" "vote" (vote_to_json w) None a.
Definition submit_vote_batch (p : ChainProtocolClient) (i : nat) (votes : list VoteWire) (digest : bytes32)
  (a : TransportAnswer) : PostAttemptOutcome :=
  post_serialized p i "cast-vote-batch" "vote-batch" (vote_batch_to_json votes) (Some digest) a.
Definition submit_delegate_and_vote_batch (p : ChainProtocolClient) (i : nat) (w : DelegationWire)
  (votes : list VoteWire) (digest : bytes32) (a : TransportAnswer) : PostAttemptOutcome :=
  post_serialized p i "delegate-and-cast-vote-batch" "combined"
    (delegate_and_vote_batch_to_json w votes) (Some digest) a.

(** *** Status lookup *)

Definition observe_status (answer : TransportAnswer) : result LookupFailure TransactionStatusObservation :=
  match answer with
  | Answered (Ok response) => map_err LookupProtocol (parse_status_response response)
  | Answered (Err e) => Err (LookupTransport e)
  | TimedOut _ => Err (LookupTransport (possibly_dispatched (chars "vote-chain transaction lookup timed out")))
  end.

(** The endpoint loop of [transaction_status]: [answers] has one answer per
    endpoint, in endpoint order, and the loop stops at the first commitment. *)
Fixpoint status_loop (answers : list TransportAnswer) (saw_pending : bool) (last_failure : option LookupFailure) :
  result LookupFailure TransactionStatusObservation :=
  match answers with
  | [] =>
      if saw_pending then Ok StatusPending
      else Err (default (LookupProtocol (invalid_protocol (chars "vote-chain lookup produced no endpoint result")))
                  last_failure)
  | answer :: rest =>
      match observe_status answer with
      | Ok StatusPending => status_loop rest true last_failure
      | Ok committed => Ok committed
      | Err error => status_loop rest saw_pending (Some error)
      end
  end.

Definition transaction_status (p : ChainProtocolClient) (answer_of : nat -> TransportAnswer) :
  result LookupFailure TransactionStatusObservation :=
  status_loop (map answer_of (seq 0 (endpoint_count p))) false None.
End answers.

(** ** Endpoints *)

(** The [url] crate. *)
Class UrlCrate : Type := {
  Url : Set;
  url_parse : text -> option Url;
  url_scheme : Url -> string;
  url_username : Url -> text;
  url_password : Url -> option text;
  url_query : Url -> option text;
  url_fragment : Url -> option text;
  (** The host when it is a domain name. *)
  url_domain : Url -> option text;
  url_set_host : Url -> text -> option Url;
  url_port : Url -> option N;
  url_clear_port : Url -> option Url;
  url_path : Url -> text;
  url_set_path : Url -> text -> Url;
  url_as_str : Url -> text
}.

Definition hex_value (c : N) : option N :=
  if bool_decide (48 <= c <= 57)%N then Some (c - 48)%N
  else if bool_decide (97 <= c <= 102)%N then Some (c - 97 + 10)%N
  else if bool_decide (65 <= c <= 70)%N then Some (c - 65 + 10)%N
  else None.

Definition upper_hex_digit (n : N) : N := if bool_decide (n < 10)%N then (48 + n)%N else (55 + n)%N.

Definition is_unreserved (c : N) : bool :=
  bool_decide (48 <= c <= 57)%N || bool_decide (65 <= c <= 90)%N || bool_decide (97 <= c <= 122)%N
  || bool_decide (c = 45)%N || bool_decide (c = 46)%N || bool_decide (c = 95)%N || bool_decide (c = 126)%N.

Fixpoint normalize_percent_escapes (path : text) : option text :=
  match path with
  | [] => Some []
  | c :: rest =>
      if bool_decide (c = 37)%N then
        match rest with
        | hi :: lo :: rest' =>
            high ← hex_value hi; low ← hex_value lo;
            tail ← normalize_percent_escapes rest';
            let value := N.lor (N.shiftl high 4) low in
            Some (if is_unreserved value then value :: tail
                  else 37%N :: upper_hex_digit high :: upper_hex_digit low :: tail)
        | _ => None
        end
      else tail ← normalize_percent_escapes rest; Some (c :: tail)
  end.

(** [str::strip_suffix]. *)
Definition strip_suffix (c : N) (t : text) : option text :=
  match reverse t with
  | x :: rest => if bool_decide (x = c) then Some (reverse rest) else None
  | [] => None
  end.

Fixpoint drop_leading (c : N) (t : text) : text :=
  match t with
  | x :: rest => if bool_decide (x = c) then drop_leading c rest else t
  | [] => []
  end.

Definition trim_end_matches (c : N) (t : text) : text := reverse (drop_leading c (reverse t)).

Definition default_port (scheme : string) : option N :=
  if String.eqb scheme "http" then Some 80%N else if String.eqb scheme "https" then Some 443%N else None.

Section endpoint_set.
Context `{UC : UrlCrate}.

(** The refusals that need the parsed URL only. *)
Definition check_chain_url (url : Url) (n : Network) : result ChainSubmissionDiagnostic unit :=
  _ ← fail_if (negb (String.eqb (url_scheme url) "http" || String.eqb (url_scheme url) "https"))
        (invalid_protocol (chars "vote-chain endpoint must use HTTP or HTTPS"));
  _ ← fail_if (bool_decide (n = Mainnet) && negb (String.eqb (url_scheme url) "https"))
        (invalid_protocol (chars "production vote-chain endpoint must use HTTPS"));
  _ ← fail_if (negb (bool_decide (url_username url = [])) || bool_decide (is_Some (url_password url)))
        (invalid_protocol (chars "vote-chain endpoint must not contain credentials"));
  fail_if (bool_decide (is_Some (url_query url)) || bool_decide (is_Some (url_fragment url)))
    (invalid_protocol (chars "vote-chain endpoint must not contain a query or fragment")).

(** A domain without its trailing dot, and no default port. *)
Definition normalize_chain_host (url : Url) : result ChainSubmissionDiagnostic Url :=
  url ← match domain ← url_domain url; strip_suffix 46 domain with
        | Some domain => ok_or (url_set_host url domain) (invalid_protocol (chars "vote-chain endpoint host is invalid"))
        | None => Ok url
        end;
  if bool_decide (url_port url = default_port (url_scheme url))
  then ok_or (url_clear_port url) (invalid_protocol (chars "vote-chain endpoint port is invalid"))
  else Ok url.

Definition canonicalize_chain_base_url (value : text) (n : Network) : result ChainSubmissionDiagnostic text :=
  url ← ok_or (url_parse (trim value)) (invalid_protocol (chars "vote-chain endpoint is not a valid URL"));
  _ ← check_chain_url url n;
  url ← normalize_chain_host url;
  path ← ok_or (normalize_percent_escapes (url_path url))
           (invalid_protocol (chars "vote-chain endpoint path has an invalid percent escape"));
  Ok (trim_end_matches 47 (url_as_str (url_set_path url path))).

(** The endpoint loop of [with_timing]: canonical, without duplicates. *)
Fixpoint canonical_endpoints (n : Network) (canonical : list text) (values : list text) :
  result ChainSubmissionDiagnostic (list text) :=
  match values with
  | [] => Ok canonical
  | value :: rest =>
      endpoint ← canonicalize_chain_base_url value n;
      _ ← fail_if (bool_decide (endpoint ∈ canonical))
            (invalid_protocol (chars "vote-chain endpoint set contains a duplicate canonical endpoint"));
      canonical_endpoints n (canonical ++ [endpoint]) rest
  end.

Definition with_timing (n : Network) (values : list text) (t : ChainProtocolTiming) :
  result ChainSubmissionDiagnostic ChainProtocolClient :=
  _ ← timing_new (post_timeout t) (lookup_timeout t);
  _ ← fail_if (bool_decide (values = [])) (invalid_protocol (chars "vote-chain endpoint set must not be empty"));
  _ ← fail_if (bool_decide (MAX_CHAIN_ENDPOINTS < length values))
        (invalid_protocol (chars "vote-chain endpoint set exceeds " ++ decimal_nat MAX_CHAIN_ENDPOINTS
           ++ chars " endpoint limit"));
  canonical ← canonical_endpoints n [] values;
  Ok {| endpoints := canonical; timing := t |}.

Definition protocol_new (n : Network) (values : list text) : result ChainSubmissionDiagnostic ChainProtocolClient :=
  with_timing n values {| post_timeout := DEFAULT_CHAIN_POST_TIMEOUT; lookup_timeout := DEFAULT_CHAIN_LOOKUP_TIMEOUT |}.
End endpoint_set.

Definition join_chain_url (base : text) (segments : list text) : text :=
  base ++ concat (map (fun s => 47%N :: s) (chars "shielded-vote" :: chars "v1" :: segments)).

(** ** What an answer proves *)

Section classification.
Context `{SJ : SerdeJson, HX : HexCrate}.

(** The answer is a JSON result of the right request. *)
Definition chain_result (answer : TransportAnswer) (expected : option bytes32) (status : N)
  (parsed : TransactionResultJson) : Prop :=
  exists r, answer = Answered (Ok r) /\ response_status r = status /\ oversized r = false
    /\ is_json_content_type r = true /\ parse_transaction_result (response_body r) = Some parsed
    /\ batch_digest_problem expected (result_batch_digest parsed) = None.

Lemma parse_post_response_inv r endpoint expected :
  (exists d, parse_post_response r endpoint expected = PostPossiblyDispatched d
     /\ dispatch_evidence_kind (diagnostic_kind d) = true) \/
  (exists parsed, chain_result (Answered (Ok r)) expected (response_status r) parsed
     /\ parse_post_response r endpoint expected = classify_result (response_status r) parsed).
Proof.
  unfold parse_post_response.
  destruct (gateway_shaped_route_answer r endpoint) as [d|] eqn:Hg.
  { left. exists d. split; [done|]. unfold gateway_shaped_route_answer in Hg.
    destruct (oversized r); [discriminate|]. destruct (negb _ || _); [discriminate|].
    destruct (parse_gateway_error _); [|discriminate]. by injection Hg as <-. }
  destruct (replaced_route_answer r endpoint) as [d|] eqn:Hr.
  { left. exists d. split; [done|]. unfold replaced_route_answer in Hr.
    destruct (oversized r); [discriminate|]. destruct (bool_decide _ || _); [|discriminate].
    by injection Hr as <-. }
  destruct (validate_json_response r) as [u|d] eqn:Hv.
  2: { left. exists d. split; [done|]. unfold validate_json_response, fail_if in Hv.
       destruct (oversized r); cbn in Hv; [by inv_ok|]. destruct (negb _); by inv_ok. }
  destruct (parse_transaction_result _) as [parsed|] eqn:Hp; [|left; by eexists].
  destruct (batch_digest_problem _ _) eqn:Hb; [left; by eexists|].
  right. exists parsed. split; [|done]. exists r. unfold validate_json_response in Hv. inv_ok. by repeat split.
Qed.

Lemma classify_result_cases status parsed :
  match classify_result status parsed with
  | PostAccepted h => status = 200%N /\ result_code parsed = 0%N
      /\ exists t, result_tx_hash parsed = Some t /\ normalize_candidate_hash t = Some h
  | PostRejected code kind d _ => status = 422%N /\ code = result_code parsed /\ code <> 0%N
      /\ (kind = RejectionNullifierAlreadySpent <-> code = NULLIFIER_ALREADY_SPENT_CODE)
      /\ diagnostic_kind d = ChainRejected
  | PostPossiblyDispatched d => dispatch_evidence_kind (diagnostic_kind d) = true
  | PostLocalFailure _ | PostDefinitelyUnsent _ => False
  end.
Proof.
  unfold classify_result. case_bool_decide as H1.
  { destruct (result_tx_hash parsed) as [t|]; cbn; [|done].
    destruct (normalize_candidate_hash t) eqn:Hn; [|done]. naive_solver. }
  case_bool_decide as H2; [|by case_bool_decide].
  destruct (rejected_candidate _); [|done]. repeat split; try apply H2; unfold rejection_kind; case_bool_decide; done.
Qed.

(** C32. A POST is classified by what its answer proves. Only an HTTP 200 JSON
    result with code 0, a canonical hash and the request's own batch digest is
    an acceptance; only HTTP 422 with a non-zero code is a rejection, read as
    already spent exactly for code 2; an attempt counts as unsent only when the
    deadline passed before the transport released the request or the transport
    says so, and as a local failure only when the transport was not called.
    Every other answer keeps the possibility of dispatch, with a diagnostic
    kind that later passes recognise as unresolved dispatch. *)
Theorem post_answer_classification p i endpoint body expected answer :
  match post p i endpoint body expected answer with
  | PostAccepted h => exists parsed t, chain_result answer expected 200 parsed /\ result_code parsed = 0%N
      /\ result_tx_hash parsed = Some t /\ normalize_candidate_hash t = Some h
  | PostRejected code kind d _ => exists parsed, chain_result answer expected 422 parsed
      /\ code = result_code parsed /\ code <> 0%N
      /\ (kind = RejectionNullifierAlreadySpent <-> code = NULLIFIER_ALREADY_SPENT_CODE)
      /\ diagnostic_kind d = ChainRejected
  | PostLocalFailure _ => is_Some (post_refused p i body)
  | PostDefinitelyUnsent e =>
      answer = TimedOut false \/ (answer = Answered (Err e) /\ transport_kind e = DefinitelyUnsent)
  | PostPossiblyDispatched d => dispatch_evidence_kind (diagnostic_kind d) = true
  end.
Proof.
  unfold post. destruct (post_refused p i body) as [m|] eqn:Hr; [eauto|].
  destruct answer as [[]|[r|e]]; cbn [classify_answer]; [done|auto| |case_bool_decide; auto].
  destruct (parse_post_response_inv r endpoint expected) as [(d & -> & Hd)|(parsed & Hc & ->)]; [done|].
  pose proof (classify_result_cases (response_status r) parsed) as H.
  destruct (classify_result _ _); try done.
  - destruct H as (Es & Ec & t & Ht & Hn). rewrite Es in Hc. eauto 10.
  - destruct H as (Es & -> & Hn & Hk & Hd). rewrite Es in Hc. eauto 10.
Qed.

(** ** The status lookup *)

Definition committed_answer (a : TransportAnswer) : Prop :=
  exists c, observe_status a = Ok c /\ c <> StatusPending.

Lemma status_loop_spec answers saw failure :
  match status_loop answers saw failure with
  | Ok StatusPending => (saw = true \/ Exists (fun a => observe_status a = Ok StatusPending) answers)
      /\ Forall (fun a => ~ committed_answer a) answers
  | Ok c => exists k a, answers !! k = Some a /\ observe_status a = Ok c
      /\ Forall (fun a => ~ committed_answer a) (take k answers)
  | Err _ => saw = false /\ Forall (fun a => exists e, observe_status a = Err e) answers
  end.
Proof.
  revert saw failure. induction answers as [|a answers IH]; intros saw failure; cbn [status_loop].
  { destruct saw; [split; [by left | done] | done]. }
  assert (forall e, observe_status a = Err e -> ~ committed_answer a) as Herr by (intros e Ho (c & Hc & ?); congruence).
  assert (observe_status a = Ok StatusPending -> ~ committed_answer a) as Hpend by (intros Ho (c & Hc & ?); congruence).
  destruct (observe_status a) as [[|t|t]|e] eqn:Ho.
  - specialize (IH true failure). destruct (status_loop answers true failure) as [[|t|t]|e'].
    + destruct IH as [_ IH]. split; [right; by constructor | constructor; auto].
    + destruct IH as (k & a' & ? & ? & ?). exists (S k), a'. repeat split; try done. constructor; auto.
    + destruct IH as (k & a' & ? & ? & ?). exists (S k), a'. repeat split; try done. constructor; auto.
    + by destruct IH.
  - exists 0, a. by repeat split.
  - exists 0, a. by repeat split.
  - specialize (IH saw (Some e)). destruct (status_loop answers saw (Some e)) as [[|t|t]|e'].
    + destruct IH as [IH1 IH2]. split; [destruct IH1; [by left | right; by constructor 2] | constructor; eauto].
    + destruct IH as (k & a' & ? & ? & ?). exists (S k), a'. repeat split; try done. constructor; eauto.
    + destruct IH as (k & a' & ? & ? & ?). exists (S k), a'. repeat split; try done. constructor; eauto.
    + destruct IH. split; [done|]. constructor; eauto.
Qed.

Lemma lookup_answers p (answer_of : nat -> TransportAnswer) k a :
  map answer_of (seq 0 (endpoint_count p)) !! k = Some a -> k < endpoint_count p /\ a = answer_of k.
Proof.
  rewrite list_lookup_fmap. intros (j & Hj & ->)%fmap_Some. apply lookup_seq in Hj as [-> Hj]. done.
Qed.

(** A status lookup asks the endpoints in order and believes commitment
    first: a committed transaction is reported exactly as the first endpoint
    that saw it committed reports it; pending means that no endpoint saw it
    committed and at least one saw it pending; the lookup fails only when every
    endpoint failed. *)
Theorem transaction_status_decides p answer_of :
  match transaction_status p answer_of with
  | Ok StatusPending =>
      (exists k, k < endpoint_count p /\ observe_status (answer_of k) = Ok StatusPending)
      /\ forall k, k < endpoint_count p -> ~ committed_answer (answer_of k)
  | Ok c => exists k, k < endpoint_count p /\ observe_status (answer_of k) = Ok c
      /\ forall j, j < k -> ~ committed_answer (answer_of j)
  | Err _ => forall k, k < endpoint_count p -> exists e, observe_status (answer_of k) = Err e
  end.
Proof.
  unfold transaction_status. set (l := map answer_of (seq 0 (endpoint_count p))).
  assert (forall k, k < endpoint_count p -> l !! k = Some (answer_of k)) as Hl.
  { intros k Hk. unfold l. rewrite list_lookup_fmap, lookup_seq_lt by done. done. }
  pose proof (status_loop_spec l false None) as H.
  assert (forall t, (exists k a, l !! k = Some a /\ observe_status a = Ok t
      /\ Forall (fun a => ~ committed_answer a) (take k l)) ->
    exists k, k < endpoint_count p /\ observe_status (answer_of k) = Ok t
      /\ forall j, j < k -> ~ committed_answer (answer_of j)) as Hfound.
  { intros t (k & a & Ha & Ho & Hf). apply lookup_answers in Ha as [Hk ->]. exists k. repeat split; try done.
    intros j Hj. apply (Forall_lookup_1 _ _ j _ Hf). rewrite lookup_take_lt by done. apply Hl. lia. }
  destruct (status_loop l false None) as [[|t|t]|e]; auto.
  - destruct H as [[?|Hex] Hall]; [discriminate|]. split.
    + apply Exists_exists in Hex as (a & Ha & Ho). apply list_elem_of_lookup in Ha as (k & Hk).
      apply lookup_answers in Hk as [Hk ->]. eauto.
    + intros k Hk. apply (Forall_lookup_1 _ _ k _ Hall), Hl, Hk.
  - destruct H as [_ Hall]. intros k Hk. apply (Forall_lookup_1 _ _ k _ Hall), Hl, Hk.
Qed.
End classification.

(** A constructed client has at least one endpoint, at most eight, and no two
    equal. *)
Lemma with_timing_endpoints `{UC : UrlCrate} n values t p :
  with_timing n values t = Ok p -> 0 < endpoint_count p <= MAX_CHAIN_ENDPOINTS /\ NoDup (endpoints p).
Proof.
  unfold with_timing, endpoint_count. intros H. inv_ok. cbn.
  match goal with Hc : canonical_endpoints _ _ _ = Ok ?c |- _ => revert Hc; generalize c; clear c end.
  intros c Hc.
  assert (forall acc values c, canonical_endpoints n acc values = Ok c -> NoDup acc ->
    NoDup c /\ length c = length acc + length values) as Hgen.
  { clear. intros acc values. revert acc. induction values as [|v values IH]; intros acc c H Hacc; cbn in H; inv_ok.
    - split; [done | cbn; lia].
    - apply IH in H as [? Hlen].
      + rewrite length_app in Hlen. cbn in *. split; [done | lia].
      + apply NoDup_app. repeat split; [done | set_solver | apply NoDup_singleton]. }
  destruct (Hgen [] values c Hc) as [Hnd Hlen]; [constructor|]. cbn in Hlen. rewrite Hlen.
  destruct values; [done|]. cbn in *. split; [lia | done].
Qed.
