(* ===== verification/Tree.v ===== *)
(** * The vote commitment tree

    Models the hashes of the [vote-commitment-tree] crate ([hash.rs]): the empty
    leaf, the level-independent combination, the table of empty subtree roots,
    and the root of a left-packed sequence of leaves. Poseidon and the canonical
    encodings of the Pallas base field are an interface. *)

From S2P Require Import Prelude.

Definition TREE_DEPTH : nat := 24.

(** [MerkleHashVote]: a field element, by its canonical encoding. *)
Abbreviation MerkleHashVote := bytes32.

(** [poseidon_hash] and [Fp::from_repr]'s test for canonical encodings. *)
Class PoseidonCrate : Type := {
  poseidon_hash : MerkleHashVote -> MerkleHashVote -> MerkleHashVote;
  canonical_fp : bytes32 -> bool
}.

Section hashes.
Context `{PC : PoseidonCrate}.

Definition merkle_from_bytes (b : bytes32) : option MerkleHashVote := if canonical_fp b then Some b else None.

Definition empty_leaf : MerkleHashVote := poseidon_hash (bytes32_fill Byte.x00) (bytes32_fill Byte.x00).

Definition combine (left right : MerkleHashVote) : MerkleHashVote := poseidon_hash left right.

(** [EMPTY_ROOTS[level]]. *)
Fixpoint empty_root (level : nat) : MerkleHashVote :=
  match level with
  | 0 => empty_leaf
  | S l => let below := empty_root l in combine below below
  end.

(** The nodes above one level of nodes, the last of them padded by [empty]. *)
Fixpoint next_level (empty : MerkleHashVote) (nodes : list MerkleHashVote) : list MerkleHashVote :=
  match nodes with
  | [] => []
  | [x] => [combine x empty]
  | x :: y :: rest => combine x y :: next_level empty rest
  end.

Fixpoint nodes_at (level : nat) (leaves : list MerkleHashVote) : list MerkleHashVote :=
  match level with
  | 0 => leaves
  | S l => next_level (empty_root l) (nodes_at l leaves)
  end.

(** Root of the left-packed tree of depth [depth]. *)
Definition tree_root (depth : nat) (leaves : list MerkleHashVote) : MerkleHashVote :=
  default (empty_root depth) (head (nodes_at depth leaves)).
End hashes.

(** The [incrementalmerkletree] crate's frontier at the tree's depth: it accepts
    leaves until the tree is full, and its root is the root of the leaves
    appended so far. *)
Class FrontierCrate {PC : PoseidonCrate} : Type := {
  Frontier : Type;
  frontier_empty : Frontier;
  frontier_append : Frontier -> MerkleHashVote -> option Frontier;
  frontier_root : Frontier -> MerkleHashVote;
  (** The leaves a frontier was built from. *)
  frontier_holds : Frontier -> list MerkleHashVote -> Prop;
  frontier_holds_empty : frontier_holds frontier_empty [];
  frontier_holds_append : forall f leaves x f',
    frontier_holds f leaves -> frontier_append f x = Some f' -> frontier_holds f' (leaves ++ [x]);
  frontier_root_holds : forall f leaves,
    frontier_holds f leaves -> frontier_root f = tree_root TREE_DEPTH leaves
}.
