(* ===== verification/Recovery.v ===== *)
(** * Exact-tree recovery

    Models [recovery.rs]: the bounded streaming scan of a fixed snapshot of the
    commitment tree for the exact output layout of one generation. The
    environment chooses every answer, every interruption and the moment the
    pass deadline is exceeded. *)

From S2P Require Import Prelude Types Diagnostics SubmissionState Identity Generation Confirmation.
From S2P Require Import StoreRow Store Protocol Tree.

Definition MAX_RECOVERY_LEAVES : N := 2 ^ N.of_nat TREE_DEPTH.
Definition VOTE_SDK_PAGE_LEAF_TARGET : N := 5000.

Definition maximum_whole_block_page_count (leaves target : N) : N :=
  let paired_leaf_count := (target + 1)%N in
  let complete_page_pairs := (leaves / paired_leaf_count)%N in
  let trailing_page := if bool_decide (leaves mod paired_leaf_count = 0)%N then 0%N else 1%N in
  (complete_page_pairs * 2 + trailing_page)%N.

Definition MAX_RECOVERY_LEAF_REQUESTS : N :=
  maximum_whole_block_page_count MAX_RECOVERY_LEAVES VOTE_SDK_PAGE_LEAF_TARGET.
Abbreviation MAX_RECOVERY_RESPONSE_BYTES := (8 * 1024 * 1024)%N (only parsing).
Abbreviation MAX_RECOVERY_TOTAL_BYTES := ((MAX_RECOVERY_LEAF_REQUESTS + 1) * MAX_RECOVERY_RESPONSE_BYTES)%N (only parsing).

Inductive RecoveryScanFailure : Type :=
| ScanTransport (e : ChainTransportError)
| ScanInvalid (d : ChainSubmissionDiagnostic)
| ScanInterrupted.

Inductive RecoveryScanOutcome : Type :=
| ScanMatch (final_van_position : N) (vote_commitment_positions : list N)
| ScanNoMatch (authorization : RecoveryRetryAuthorization).

Record TreeState : Type := { tree_next_index : N; tree_state_root : option text; tree_height : N }.

Record LeafBlock : Type := {
  block_height : N;
  block_start_index : N;
  block_leaves : list text;
  block_root : option text
}.

Record LeavesResponse : Type := { page_blocks : list LeafBlock; page_next_from_height : N }.

(** [serde_json] at the types of the tree routes, and [base64] on JSON text. *)
Class RecoveryJson : Type := {
  (** [LatestResponse]: its only field. *)
  parse_latest : bytes -> option (option TreeState);
  parse_leaves : bytes -> option LeavesResponse;
  decode_base64 : text -> option bytes
}.

(** What the environment does during one pass: request 0 is the snapshot, the
    [k]-th leaf request is [k]. *)
Record ScanEnv : Type := {
  scan_answer : nat -> TransportAnswer;
  scan_interrupted_before : nat -> bool;
  scan_interrupted_request : nat -> bool;
  scan_expired : nat -> bool;
  scan_expired_end : bool
}.

Definition scan_invalid {A} (message : string) : result RecoveryScanFailure A :=
  Err (ScanInvalid (invalid_protocol (chars message))).

Section scan.
Context `{RJ : RecoveryJson, PC : PoseidonCrate, FC : @FrontierCrate PC}.

(** [get_json_with_size]. *)
Definition get_json_with_size {R} (interrupted : bool) (answer : TransportAnswer) (parse : bytes -> option R) :
  result RecoveryScanFailure (R * N) :=
  if interrupted then Err ScanInterrupted else
  match answer with
  | TimedOut _ => Err (ScanTransport (possibly_dispatched (chars "tree recovery request timed out")))
  | Answered (Err e) => Err (ScanTransport e)
  | Answered (Ok r) =>
      let size := N.of_nat (length (response_body r)) in
      if negb (bool_decide (response_status r = 200)%N) || bool_decide (MAX_RECOVERY_RESPONSE_BYTES < size)%N
         || negb (is_json_content_type r)
      then scan_invalid "tree recovery response has invalid HTTP metadata"
      else match parse (response_body r) with
           | Some value => Ok (value, size)
           | None => scan_invalid "tree recovery response is malformed"
           end
  end.

Definition decode_leaf (encoded : text) (label : string) : result RecoveryScanFailure MerkleHashVote :=
  b ← ok_or (decode_base64 encoded) (ScanInvalid (invalid_protocol (chars label ++ chars " is invalid base64")));
  b ← ok_or (try_into_bytes32 b) (ScanInvalid (invalid_protocol (chars label ++ chars " has invalid length")));
  ok_or (merkle_from_bytes b) (ScanInvalid (invalid_protocol (chars label ++ chars " is noncanonical"))).

(** The fixed snapshot the pass scans. *)
Record Snapshot : Type := { snapshot_next_index : N; snapshot_height : N; snapshot_root : option MerkleHashVote }.

Definition read_snapshot (latest : option TreeState) : result RecoveryScanFailure Snapshot :=
  s ← ok_or latest (ScanInvalid (invalid_protocol (chars "tree recovery latest response omitted tree state")));
  _ ← fail_if (bool_decide (MAX_RECOVERY_LEAVES < tree_next_index s)%N || bool_decide (u32_max < tree_height s)%N)
        (ScanInvalid (invalid_protocol (chars "tree recovery snapshot exceeds protocol bounds")));
  root ← match tree_state_root s with
         | Some ((_ :: _) as value) => r ← decode_leaf value "snapshot root"; Ok (Some r)
         | _ => if bool_decide (tree_next_index s = 0)%N then Ok None
                else scan_invalid "nonempty tree recovery snapshot omitted its root"
         end;
  Ok {| snapshot_next_index := tree_next_index s; snapshot_height := tree_height s; snapshot_root := root |}.

(** The loop's mutable state. *)
Record Scan : Type := {
  scan_frontier : Frontier;
  scan_window : list bytes32;
  scan_next_index : N;
  scan_previous_height : option N;
  scan_match_start : option N
}.

Definition scan_start : Scan :=
  {| scan_frontier := frontier_empty; scan_window := []; scan_next_index := 0;
     scan_previous_height := None; scan_match_start := None |}.

(** Push one leaf and keep the last [size] of them. *)
Definition push_window (size : nat) (window : list bytes32) (x : bytes32) : list bytes32 :=
  let pushed := window ++ [x] in
  if bool_decide (size < length pushed) then tail pushed else pushed.

Definition scan_leaf (snapshot : Snapshot) (expected : list bytes32) (s : Scan) (encoded : text) :
  result RecoveryScanFailure Scan :=
  let exceeded := ScanInvalid (invalid_protocol (chars "tree recovery leaf sequence exceeds the fixed snapshot")) in
  _ ← fail_if (bool_decide (snapshot_next_index snapshot <= scan_next_index s)%N) exceeded;
  leaf ← decode_leaf encoded "tree leaf";
  frontier ← ok_or (frontier_append (scan_frontier s) leaf) exceeded;
  b ← ok_or (decode_base64 encoded) (ScanInvalid (invalid_protocol (chars "tree recovery leaf is invalid base64")));
  b ← ok_or (try_into_bytes32 b) (ScanInvalid (invalid_protocol (chars "tree recovery leaf has invalid length")));
  let window := push_window (length expected) (scan_window s) b in
  let next_index := (scan_next_index s + 1)%N in
  match_start ← if bool_decide (window = expected) then
                  _ ← fail_if (bool_decide (is_Some (scan_match_start s)))
                        (ScanInvalid (invalid_protocol (chars "tree recovery found multiple exact generation layouts")));
                  Ok (Some (next_index - N.of_nat (length expected))%N)
                else Ok (scan_match_start s);
  Ok {| scan_frontier := frontier; scan_window := window; scan_next_index := next_index;
        scan_previous_height := scan_previous_height s; scan_match_start := match_start |}.

Fixpoint scan_leaves (snapshot : Snapshot) (expected : list bytes32) (s : Scan) (encoded : list text) :
  result RecoveryScanFailure Scan :=
  match encoded with
  | [] => Ok s
  | e :: rest => s ← scan_leaf snapshot expected s e; scan_leaves snapshot expected s rest
  end.

Definition with_previous_height (s : Scan) (h : N) : Scan :=
  {| scan_frontier := scan_frontier s; scan_window := scan_window s; scan_next_index := scan_next_index s;
     scan_previous_height := Some h; scan_match_start := scan_match_start s |}.

Definition scan_block (snapshot : Snapshot) (expected : list bytes32) (s : Scan) (b : LeafBlock) :
  result RecoveryScanFailure Scan :=
  _ ← fail_if (bool_decide (snapshot_height snapshot < block_height b)%N
               || match scan_previous_height s with
                  | Some h => bool_decide (block_height b <= h)%N
                  | None => false
                  end
               || (negb (bool_decide (block_leaves b = []))
                   && negb (bool_decide (block_start_index b = scan_next_index s))))
        (ScanInvalid (invalid_protocol (chars "tree recovery block sequence is discontinuous")));
  s ← scan_leaves snapshot expected (with_previous_height s (block_height b)) (block_leaves b);
  encoded ← ok_or (block_root b) (ScanInvalid (invalid_protocol (chars "tree recovery block omitted its root")));
  root ← decode_leaf encoded "block root";
  _ ← fail_if (negb (bool_decide (frontier_root (scan_frontier s) = root)))
        (ScanInvalid (invalid_protocol (chars "tree recovery block root contradicts its leaves")));
  Ok s.

Fixpoint scan_blocks (snapshot : Snapshot) (expected : list bytes32) (s : Scan) (blocks : list LeafBlock) :
  result RecoveryScanFailure Scan :=
  match blocks with
  | [] => Ok s
  | b :: rest => s ← scan_block snapshot expected s b; scan_blocks snapshot expected s rest
  end.

Definition page_leaf_count (page : LeavesResponse) : nat :=
  sum_list (map (fun b => length (block_leaves b)) (page_blocks page)).

(** One page: its size checks, its blocks, and the cursor for the next page. *)
Definition scan_page (snapshot : Snapshot) (expected : list bytes32) (s : Scan) (from_height : N)
  (page : LeavesResponse) : result RecoveryScanFailure (Scan * N) :=
  _ ← fail_if (bool_decide (snapshot_next_index snapshot - scan_next_index s < N.of_nat (page_leaf_count page))%N)
        (ScanInvalid (invalid_protocol (chars "tree recovery page exceeds the fixed snapshot")));
  s ← scan_blocks snapshot expected s (page_blocks page);
  if bool_decide (scan_next_index s < snapshot_next_index snapshot)%N then
    _ ← fail_if (bool_decide (page_next_from_height page <= from_height)%N
                 || bool_decide (snapshot_height snapshot < page_next_from_height page)%N)
          (ScanInvalid (invalid_protocol (chars "tree recovery pagination cursor is invalid")));
    Ok (s, page_next_from_height page)
  else
    _ ← fail_if (negb (bool_decide (page_next_from_height page = 0)%N))
          (ScanInvalid (invalid_protocol
             (chars "tree recovery pagination continued beyond the fixed snapshot")));
    Ok (s, from_height).

(** The page loop; [requests] is the number of leaf requests made so far.
    [None] means the fuel ran out. *)
Fixpoint scan_pages (fuel : nat) (env : ScanEnv) (snapshot : Snapshot) (expected : list bytes32) (s : Scan)
  (from_height : N) (requests : nat) (total_bytes : N) : option (result RecoveryScanFailure Scan) :=
  match fuel with
  | 0 => None
  | S fuel =>
      if bool_decide (snapshot_next_index snapshot <= scan_next_index s)%N then Some (Ok s)
      else if scan_interrupted_before env requests then Some (Err ScanInterrupted)
      else if bool_decide (MAX_RECOVERY_LEAF_REQUESTS <= N.of_nat requests)%N || scan_expired env requests
      then Some (scan_invalid "tree recovery exhausted its bounded pass")
      else match get_json_with_size (scan_interrupted_request env (S requests))
                   (scan_answer env (S requests)) parse_leaves with
           | Err e => Some (Err e)
           | Ok (page, size) =>
               let total_bytes := N.min (total_bytes + size) u64_max in
               if bool_decide (MAX_RECOVERY_TOTAL_BYTES < total_bytes)%N
               then Some (scan_invalid "tree recovery responses exceed the total byte limit")
               else match scan_page snapshot expected s from_height page with
                    | Err e => Some (Err e)
                    | Ok (s, from_height) =>
                        scan_pages fuel env snapshot expected s from_height (S requests) total_bytes
                    end
           end
  end.

Definition scan_fuel : nat := S (S (N.to_nat MAX_RECOVERY_LEAF_REQUESTS)).

(** What the completed stream says about the layout. *)
Definition finish_scan (env : ScanEnv) (snapshot : Snapshot) (expected : list bytes32) (s : Scan)
  (authorization : RecoveryRetryAuthorization) : result RecoveryScanFailure RecoveryScanOutcome :=
  if scan_expired_end env then scan_invalid "tree recovery exhausted its bounded pass"
  else if match snapshot_root snapshot with
          | Some root => negb (bool_decide (frontier_root (scan_frontier s) = root))
          | None => false
          end then scan_invalid "tree recovery final root contradicts the fixed snapshot"
  else match scan_match_start s with
       | Some start =>
           Ok (ScanMatch start (map (fun offset => start + N.of_nat offset)%N (seq 1 (length expected - 1))))
       | None => Ok (ScanNoMatch authorization)
       end.

Context {GT : GenerationTables}.

Definition scan_exact_layout (p : ChainProtocolClient) (env : ScanEnv) (d : DerivedChainSubmission)
  (candidate : option CandidateTransactionHash) : option (result RecoveryScanFailure RecoveryScanOutcome) :=
  if bool_decide (endpoints p = []) then Some (scan_invalid "tree recovery has no configured endpoint") else
  match get_json_with_size (scan_interrupted_request env 0) (scan_answer env 0) parse_latest with
  | Err e => Some (Err e)
  | Ok (latest, latest_bytes) =>
      match read_snapshot latest with
      | Err e => Some (Err e)
      | Ok snapshot =>
          let expected := leaves (expected_layout (derived_bound d)) in
          scanned ← scan_pages scan_fuel env snapshot expected scan_start 0 0 latest_bytes;
          Some (s ← scanned;
                finish_scan env snapshot expected s
                  {| authorization_identity := generation_identity (derived_generation d);
                     authorization_generation_digest := generation_digest (derived_generation d);
                     authorization_candidate := candidate |})
      end
  end.
End scan.

(** ** Occurrences of a layout *)

Definition occurs (e ls : list bytes32) (p : nat) : Prop :=
  exists before after, ls = before ++ e ++ after /\ length before = p.

(** The last [n] leaves. *)
Definition window_of (n : nat) (ls : list bytes32) : list bytes32 := drop (length ls - n) ls.

Lemma push_window_of n ls x : 0 < n -> push_window n (window_of n ls) x = window_of n (ls ++ [x]).
Proof.
  intros Hn. unfold push_window, window_of. rewrite !length_app, length_drop. cbn [length].
  case_bool_decide as H.
  - change (tail (drop (length ls - n) ls ++ [x])) with (drop 1 (drop (length ls - n) ls ++ [x])).
    rewrite drop_app_le by (rewrite length_drop; lia). rewrite drop_drop, drop_app_le by lia.
    do 2 f_equal. lia.
  - replace (length ls - n) with 0 by lia. replace (length ls + 1 - n) with 0 by lia. done.
Qed.

Lemma occurs_snoc e ls x p :
  e <> [] -> occurs e (ls ++ [x]) p <->
    occurs e ls p \/ (window_of (length e) (ls ++ [x]) = e /\ p + length e = length ls + 1).
Proof.
  intros He. split.
  - intros (pre & post & Heq & <-). destruct post as [|y post _] using rev_ind.
    + right. rewrite app_nil_r in Heq. assert (length (ls ++ [x]) = length (pre ++ e)) as Hlen by (by rewrite Heq).
      rewrite !length_app in Hlen. cbn in Hlen. split; [|lia].
      unfold window_of. rewrite Heq, length_app. replace (length pre + length e - length e) with (length pre) by lia.
      by rewrite drop_app_length.
    + left. rewrite !app_assoc in Heq. apply app_inj_tail in Heq as [-> _]. exists pre, post.
      by rewrite <- app_assoc.
  - intros [(pre & post & -> & <-)|[Hw Hp]].
    + exists pre, (post ++ [x]). by rewrite <- !app_assoc.
    + unfold window_of in Hw. rewrite length_app in Hw. cbn in Hw.
      exists (take p (ls ++ [x])), []. rewrite app_nil_r. rewrite <- Hw at 1.
      replace (length ls + 1 - length e) with p by lia. split; [by rewrite take_drop|].
      rewrite length_take, length_app. cbn. lia.
Qed.

Lemma occurs_bound e ls p : occurs e ls p -> p + length e <= length ls.
Proof. intros (pre & post & -> & <-). rewrite !length_app. lia. Qed.

(** ** What the stream establishes *)

Section scan_facts.
Context `{RJ : RecoveryJson, PC : PoseidonCrate, FC : @FrontierCrate PC}.

(** A leaf as it is served, and the leaves of a page in order. *)
Definition leaf_of (encoded : text) : option bytes32 := b ← decode_base64 encoded; try_into_bytes32 b.
Definition page_leaves (page : LeavesResponse) : list text := concat (map block_leaves (page_blocks page)).

(** What the endpoint served: the snapshot, the [k]-th page, and the leaves of the first [n]
    pages. *)
Definition snapshot_served (env : ScanEnv) : option Snapshot :=
  match scan_answer env 0 with
  | Answered (Ok r) =>
      latest ← parse_latest (response_body r);
      match read_snapshot latest with Ok snapshot => Some snapshot | Err _ => None end
  | _ => None
  end.
Definition page_served (env : ScanEnv) (k : nat) : option LeavesResponse :=
  match scan_answer env k with Answered (Ok r) => parse_leaves (response_body r) | _ => None end.
Definition leaves_served (env : ScanEnv) (n : nat) : option (list bytes32) :=
  pages ← mapM (page_served env) (seq 1 n); mapM leaf_of (concat (map page_leaves pages)).

Lemma get_json_served {R} interrupted answer (parse : bytes -> option R) value size :
  get_json_with_size interrupted answer parse = Ok (value, size) ->
  exists r, answer = Answered (Ok r) /\ parse (response_body r) = Some value.
Proof.
  unfold get_json_with_size. destruct interrupted; [done|]. destruct answer as [?|[r|]]; [done| |done].
  destruct (_ || _); [done|]. destruct (parse _) eqn:E; [|done]. intros [= -> _]. eauto.
Qed.

Record streamed (snapshot : Snapshot) (expected : list bytes32) (s : Scan) (ls : list bytes32) : Prop := {
  streamed_frontier : frontier_holds (scan_frontier s) ls;
  streamed_index : scan_next_index s = N.of_nat (length ls);
  streamed_bound : (scan_next_index s <= snapshot_next_index snapshot)%N;
  streamed_window : scan_window s = window_of (length expected) ls;
  streamed_match : match scan_match_start s with
                   | Some start => occurs expected ls (N.to_nat start)
                       /\ forall p, occurs expected ls p -> p = N.to_nat start
                   | None => forall p, ~ occurs expected ls p
                   end
}.

Lemma streamed_start snapshot expected : expected <> [] -> streamed snapshot expected scan_start [].
Proof.
  intros He. split; cbn; [apply frontier_holds_empty | done | lia | done|].
  intros p H%occurs_bound. cbn in H. destruct expected; [done | cbn in H; lia].
Qed.

Lemma decode_leaf_Ok encoded label leaf :
  decode_leaf encoded label = Ok leaf ->
  exists b, decode_base64 encoded = Some b /\ try_into_bytes32 b = Some leaf.
Proof.
  unfold decode_leaf, merkle_from_bytes. intros H. inv_ok. destruct (canonical_fp _); inv_ok. eauto.
Qed.

Lemma scan_leaf_streamed snapshot expected s encoded s' ls :
  expected <> [] -> streamed snapshot expected s ls -> scan_leaf snapshot expected s encoded = Ok s' ->
  exists leaf, leaf_of encoded = Some leaf /\ streamed snapshot expected s' (ls ++ [leaf]).
Proof.
  intros He [Hf Hi Hb Hw Hm] H. unfold scan_leaf in H. inv_ok.
  match goal with Hd : decode_leaf _ _ = Ok ?l |- _ => apply decode_leaf_Ok in Hd as (b & Hb64 & Hb32); exists l end.
  split; [unfold leaf_of; by rewrite Hb64|].
  repeat match goal with H1 : ?x = Some _, H2 : ?x = Some _ |- _ => rewrite H1 in H2; injection H2 as ->; clear H1 end.
  assert (0 < length expected) as Hlen by (destruct expected; [done | cbn; lia]).
  rewrite Hw, push_window_of in * by done. split; cbn; [by eapply frontier_holds_append| | lia | done |].
  { rewrite length_app, Hi. cbn. lia. }
  case_bool_decide as Hwin; inv_ok.
  - destruct (scan_match_start s) as [m|]; [exfalso; eauto|].
    pose proof (f_equal length Hwin) as Hl. unfold window_of in Hl. rewrite length_drop, length_app in Hl. cbn in Hl.
    split.
    + apply occurs_snoc; [done|]. right. split; [done | lia].
    + intros q [Hq|[_ Hq]]%occurs_snoc; [by apply Hm in Hq | lia | done].
  - destruct (scan_match_start s) as [m|].
    + destruct Hm as [Hm Hu]. split; [apply occurs_snoc; auto|].
      intros q [Hq|[Hq _]]%occurs_snoc; [auto | by apply Hwin in Hq | done].
    + intros q [Hq|[Hq _]]%occurs_snoc; [by apply Hm in Hq | by apply Hwin in Hq | done].
Qed.

Lemma scan_leaves_streamed snapshot expected encoded s s' ls :
  expected <> [] -> streamed snapshot expected s ls -> scan_leaves snapshot expected s encoded = Ok s' ->
  exists new, mapM leaf_of encoded = Some new /\ streamed snapshot expected s' (ls ++ new).
Proof.
  intros He. revert s ls. induction encoded as [|e encoded IH]; intros s ls Hs H; cbn in H; inv_ok.
  { exists []. by rewrite app_nil_r. }
  destruct (scan_leaf_streamed _ _ _ _ _ _ He Hs Ha) as (leaf & Hl & Hs'). destruct (IH _ _ Hs' H) as (new & Hn & Hs2).
  exists (leaf :: new). rewrite <- app_assoc in Hs2. split; [|done]. cbn. by rewrite Hl, Hn.
Qed.

Lemma scan_block_streamed snapshot expected b s s' ls :
  expected <> [] -> streamed snapshot expected s ls -> scan_block snapshot expected s b = Ok s' ->
  exists new, mapM leaf_of (block_leaves b) = Some new /\ streamed snapshot expected s' (ls ++ new).
Proof.
  intros He [Hf Hi Hb Hw Hm] H. unfold scan_block in H. inv_ok.
  eapply scan_leaves_streamed; [done| |eassumption]. by split.
Qed.

Lemma mapM_app_Some {A B} (f : A -> option B) l k l' k' :
  mapM f l = Some l' -> mapM f k = Some k' -> mapM f (l ++ k) = Some (l' ++ k').
Proof. rewrite !mapM_Some. apply Forall2_app. Qed.

Lemma scan_page_streamed snapshot expected s from page s' from' ls :
  expected <> [] -> streamed snapshot expected s ls -> scan_page snapshot expected s from page = Ok (s', from') ->
  exists new, mapM leaf_of (page_leaves page) = Some new /\ streamed snapshot expected s' (ls ++ new).
Proof.
  intros He Hs H. unfold scan_page in H. inv_ok.
  assert (a0 = s') as -> by (case_bool_decide; inv_ok; done).
  clear H Ha. unfold page_leaves. revert s ls Hs Ha0. induction (page_blocks page) as [|b bs IH]; intros s ls Hs H; cbn in H; inv_ok.
  { exists []. by rewrite app_nil_r. }
  destruct (scan_block_streamed _ _ _ _ _ _ He Hs Ha) as (new & Hn & Hs'). destruct (IH _ _ Hs' H) as (more & Hm & Hs2).
  exists (new ++ more). rewrite <- app_assoc in Hs2. split; [|done]. by apply mapM_app_Some.
Qed.

Lemma scan_pages_streamed fuel env snapshot expected s from n total s' ls :
  expected <> [] -> (N.of_nat n <= MAX_RECOVERY_LEAF_REQUESTS)%N -> streamed snapshot expected s ls -> leaves_served env n = Some ls ->
  scan_pages fuel env snapshot expected s from n total = Some (Ok s') ->
  exists n' ls', (N.of_nat n' <= MAX_RECOVERY_LEAF_REQUESTS)%N /\ leaves_served env n' = Some ls' /\ streamed snapshot expected s' ls'
    /\ N.of_nat (length ls') = snapshot_next_index snapshot.
Proof.
  intros He. revert s from n total ls.
  induction fuel as [|fuel IH]; intros s from n total ls Hn Hs Hl H; cbn in H; [discriminate|].
  case_bool_decide as Hdone.
  { injection H as <-. exists n, ls. do 3 (split; [done|]). destruct Hs as [_ Hi Hb _ _]. lia. }
  destruct (scan_interrupted_before env n); [discriminate|]. case_bool_decide as Hbound; [discriminate|]. destruct (scan_expired env n); [discriminate|].
  cbn [orb] in H. destruct (get_json_with_size _ _ _) as [[page size]|] eqn:Hget; [|discriminate].
  case_bool_decide; [discriminate|].
  destruct (scan_page _ _ _ _ _) as [[s2 from2]|] eqn:Hp; [|discriminate].
  destruct (scan_page_streamed _ _ _ _ _ _ _ _ He Hs Hp) as (new & Hnew & Hs2).
  apply get_json_served in Hget as (r & Hr & Hparse). eapply (IH s2 from2 (S n)); [lia|exact Hs2| |exact H].
  unfold leaves_served in *. rewrite seq_S. destruct (mapM (page_served env) (seq 1 n)) as [pages|] eqn:Hpages; [|discriminate Hl].
  rewrite (mapM_app_Some _ _ [1 + n] _ [page] Hpages) by (cbn; unfold page_served; by rewrite Hr, Hparse).
  cbn [mbind option_bind] in *. rewrite map_app, concat_app. cbn [map concat]. rewrite app_nil_r. by apply mapM_app_Some.
Qed.

(** The loop ends within its request bound. *)
Lemma scan_pages_total fuel env snapshot expected s from n total :
  (N.of_nat n <= MAX_RECOVERY_LEAF_REQUESTS)%N -> (MAX_RECOVERY_LEAF_REQUESTS < N.of_nat (n + fuel))%N ->
  is_Some (scan_pages fuel env snapshot expected s from n total).
Proof.
  revert s from n total. induction fuel as [|fuel IH]; intros s from n total Hn Hf; [lia|]. cbn [scan_pages].
  case_bool_decide; [eauto|]. destruct (scan_interrupted_before env n); [eauto|].
  case_bool_decide as Hbound; [cbn; eauto|]. cbn [orb]. destruct (scan_expired env n); [eauto|].
  destruct (get_json_with_size _ _ _) as [[page size]|]; [|eauto].
  case_bool_decide; [eauto|]. destruct (scan_page _ _ _ _ _) as [[s2 from2]|]; [|eauto]. apply IH; lia.
Qed.

Lemma leaves_nonempty l : leaves l <> [].
Proof. by destruct l. Qed.

(** The tree the pass scanned: as many leaves as the snapshot announces, under
    the root it announces. *)
Definition snapshot_of (snapshot : Snapshot) (ls : list bytes32) : Prop :=
  N.of_nat (length ls) = snapshot_next_index snapshot
  /\ match snapshot_root snapshot with Some root => tree_root TREE_DEPTH ls = root | None => ls = [] end.

Lemma read_snapshot_root latest snapshot :
  read_snapshot latest = Ok snapshot -> snapshot_root snapshot = None -> snapshot_next_index snapshot = 0%N.
Proof.
  unfold read_snapshot. intros H Hnone. inv_ok. cbn in *. destruct (tree_state_root _) as [[|c t]|]; inv_ok.
  all: case_bool_decide; [done | discriminate].
Qed.

Context {GT : GenerationTables}.

(** C17. The recovery scan always ends, and what it reports is exact for what the endpoint
    served: a snapshot, and pages within the request bound whose leaves, in the order served,
    are as many as the snapshot announces and hash to its root.  On a match the expected output
    layout occurs in these leaves at the reported position, consecutively, and nowhere else;
    on a no-match it occurs nowhere in them, and the authorization is for the generation and
    candidate that were scanned. *)
Theorem scan_exact_layout_exact p env d candidate :
  exists outcome, scan_exact_layout p env d candidate = Some outcome /\
  let expected := leaves (expected_layout (derived_bound d)) in
  match outcome with
  | Err _ => True
  | Ok found => exists snapshot n ls, snapshot_served env = Some snapshot /\ (N.of_nat n <= MAX_RECOVERY_LEAF_REQUESTS)%N
      /\ leaves_served env n = Some ls /\ snapshot_of snapshot ls
      /\ match found with
         | ScanMatch van positions => occurs expected ls (N.to_nat van) /\ (forall q, occurs expected ls q -> q = N.to_nat van)
             /\ positions = map (fun k => van + N.of_nat k)%N (seq 1 (length expected - 1))
         | ScanNoMatch a => (forall q, ~ occurs expected ls q)
             /\ authorization_identity a = generation_identity (derived_generation d)
             /\ authorization_generation_digest a = generation_digest (derived_generation d)
             /\ authorization_candidate a = candidate
         end
  end.
Proof.
  unfold scan_exact_layout. set (expected := leaves (expected_layout (derived_bound d))).
  assert (expected <> []) as He by apply leaves_nonempty.
  case_bool_decide; [by eexists|]. destruct (get_json_with_size _ _ _) as [[latest size]|] eqn:Hget; [|by eexists].
  destruct (read_snapshot latest) as [snapshot|] eqn:Hsnap; [|by eexists].
  destruct (scan_pages_total scan_fuel env snapshot expected scan_start 0 0 size) as (scanned & Hscan);
    [lia | unfold scan_fuel; lia |].
  rewrite Hscan. cbn [mbind option_bind]. eexists. split; [done|].
  destruct scanned as [s|e]; cbn; [|done]. unfold finish_scan.
  destruct (scan_expired_end env); [done|].
  destruct (scan_pages_streamed scan_fuel env snapshot expected scan_start 0 0 size s [] He) as (n & ls & Hn & Hls & [Hf _ _ _ Hm] & Hlen);
    [lia|by apply streamed_start|done|exact Hscan|].
  destruct (match snapshot_root snapshot with Some _ => _ | None => _ end) eqn:Hroot; [done|].
  assert (snapshot_of snapshot ls) as Hof.
  { split; [done|]. destruct (snapshot_root snapshot) as [root|] eqn:Er.
    - inv_ok. by rewrite <- (frontier_root_holds _ _ Hf).
    - apply (read_snapshot_root _ _ Hsnap) in Er. destruct ls; [done | cbn in Hlen; lia]. }
  assert (snapshot_served env = Some snapshot) as Hserved.
  { apply get_json_served in Hget as (r & Hr & Hp). unfold snapshot_served. rewrite Hr, Hp. cbn. by rewrite Hsnap. }
  destruct (scan_match_start s) as [start|]; cbn; exists snapshot, n, ls; do 4 (split; [done|]); [|done].
  destruct Hm. done.
Qed.
End scan_facts.

(** ** The request bound

    vote-sdk packs whole blocks greedily: a page is closed when the next block
    would exceed the target. Pages are given by their leaf counts. *)
Fixpoint paginate (target : N) (current : option N) (blocks : list N) : list N :=
  match blocks, current with
  | [], None => []
  | [], Some page => [page]
  | b :: rest, None => paginate target (Some b) rest
  | b :: rest, Some page =>
      if bool_decide (page + b <= target)%N then paginate target (Some (page + b)%N) rest
      else page :: paginate target (Some b) rest
  end.

Definition leaf_total (counts : list N) : N := foldr N.add 0%N counts.

Lemma leaf_total_cons n counts : leaf_total (n :: counts) = (n + leaf_total counts)%N.
Proof. done. Qed.

(** Pages are non-empty and any two neighbours exceed the target together. *)
Fixpoint packed (target : N) (pages : list N) : Prop :=
  match pages with
  | [] => True
  | p :: rest => (0 < p)%N /\ match rest with q :: _ => (target < p + q)%N | [] => True end /\ packed target rest
  end.

Lemma paginate_packed target page blocks :
  (0 < page)%N -> Forall (fun b => 0 < b)%N blocks ->
  packed target (paginate target (Some page) blocks)
  /\ leaf_total (paginate target (Some page) blocks) = (page + leaf_total blocks)%N
  /\ exists p rest, paginate target (Some page) blocks = p :: rest /\ (page <= p)%N.
Proof.
  intros Hp Hb. revert page Hp. induction Hb as [|b blocks Hb _ IH]; intros page Hp; cbn [paginate].
  - cbn. split; [done|]. split; [done|]. exists page, []. split; [done | lia].
  - case_bool_decide.
    + destruct (IH (page + b)%N) as (Hpk & Hsum & q & rest & Heq & Hle); [lia|].
      split; [done|]. rewrite leaf_total_cons. split; [lia|]. exists q, rest. split; [done | lia].
    + destruct (IH b Hb) as (Hpk & Hsum & q & rest & Heq & Hle). rewrite Heq in *.
      rewrite !leaf_total_cons in *. split; [split; [done | split; [lia | done]]|]. split; [lia|].
      exists page, (q :: rest). split; [done | lia].
Qed.

Lemma packed_length target pages :
  packed target pages ->
  (N.of_nat (length pages / 2) * (target + 1) + N.of_nat (length pages mod 2) <= leaf_total pages)%N.
Proof.
  assert (length pages <= length pages) as Hn by done. revert Hn. generalize (length pages) at 2 as n. intros n.
  revert pages. induction n as [|n IH]; intros pages Hn; [by destruct pages; cbn in Hn; [|lia]|].
  destruct pages as [|p [|q rest]]; cbn [packed]; intros Hp; [done | destruct Hp; cbn; lia |].
  destruct Hp as (Hp & Hpq & Hq & _ & Hrest).
  cbn in Hn. specialize (IH rest ltac:(lia) Hrest). rewrite !leaf_total_cons. cbn [length].
  replace (S (S (length rest))) with (length rest + 1 * 2) by lia.
  rewrite Nat.div_add, Nat.Div0.mod_add by done. lia.
Qed.

Lemma page_count_bound n leaves target :
  (N.of_nat (n / 2) * (target + 1) + N.of_nat (n mod 2) <= leaves)%N ->
  (N.of_nat n <= maximum_whole_block_page_count leaves target)%N.
Proof.
  intros H. unfold maximum_whole_block_page_count.
  pose proof (Nat.div_mod_eq n 2) as Hn. pose proof (Nat.mod_upper_bound n 2 ltac:(lia)) as Hm.
  pose proof (N.div_mod leaves (target + 1) ltac:(lia)) as Hl.
  pose proof (N.mod_lt leaves (target + 1) ltac:(lia)) as Hr.
  set (q := (leaves / (target + 1))%N) in *. set (r := (leaves mod (target + 1))%N) in *.
  assert (N.of_nat (n / 2) <= q)%N as Hq by nia.
  case_bool_decide; nia.
Qed.

(** The scan's request bound is enough for every tree the protocol allows:
    however the leaves are grouped into blocks, greedy whole-block pagination of
    at most 2^24 leaves needs no more pages than the scan may request. *)
Theorem recovery_request_bound_sufficient blocks :
  Forall (fun b => 0 < b)%N blocks -> (leaf_total blocks <= MAX_RECOVERY_LEAVES)%N ->
  (N.of_nat (length (paginate VOTE_SDK_PAGE_LEAF_TARGET None blocks)) <= MAX_RECOVERY_LEAF_REQUESTS)%N.
Proof.
  intros Hb Htotal. apply page_count_bound.
  destruct Hb as [|b blocks Hb Hrest]; [done|]. cbn [paginate].
  destruct (paginate_packed VOTE_SDK_PAGE_LEAF_TARGET b blocks Hb Hrest) as (Hp & Hsum & _).
  pose proof (packed_length _ _ Hp) as Hlen. rewrite leaf_total_cons in Htotal. lia.
Qed.

(** ** Witnesses *)

Lemma recovery_request_bound_sufficient_witness :
  paginate VOTE_SDK_PAGE_LEAF_TARGET None [3000; 3000; 9000; 1]%N = [3000; 3000; 9000; 1]%N /\
  (N.of_nat (length (paginate VOTE_SDK_PAGE_LEAF_TARGET None [3000; 3000; 9000; 1])) <= MAX_RECOVERY_LEAF_REQUESTS)%N.
Proof.
  split; [vm_compute; reflexivity|].
  apply (recovery_request_bound_sufficient [3000; 3000; 9000; 1]%N).
  - repeat constructor.
  - vm_compute. discriminate.
Defined.

#[local] Instance sample_poseidon : PoseidonCrate := {|
  poseidon_hash := fun a _ => a;
  canonical_fp := fun _ => true
|}.

#[local] Program Instance sample_frontier : FrontierCrate := {|
  Frontier := list bytes32;
  frontier_empty := [];
  frontier_append := fun f x => Some (f ++ [x]);
  frontier_root := tree_root TREE_DEPTH;
  frontier_holds := fun f leaves => f = leaves
|}.
Next Obligation. done. Qed.
Next Obligation. by intros f leaves x f' -> [= <-]. Qed.
Next Obligation. by intros f leaves ->. Qed.

(** A tree whose second leaf starts the sample batch's layout. *)
Definition sample_tree : list bytes32 :=
  bytes32_fill Byte.x55 :: leaves (expected_layout (derived_bound sample_derived_batch)).

(** The [k]-th leaf is the one-character text [k]; the pages are the same for
    every request body. *)
#[local] Instance sample_recovery_json : RecoveryJson := {|
  parse_latest := fun _ => Some (Some {| tree_next_index := 4; tree_state_root := Some [0%N]; tree_height := 7 |});
  parse_leaves := fun _ =>
    Some {| page_blocks :=
              [{| block_height := 3; block_start_index := 0; block_leaves := [[0]; [1]]%N; block_root := Some [0%N] |};
               {| block_height := 7; block_start_index := 2; block_leaves := [[2]; [3]]%N; block_root := Some [0%N] |}];
            page_next_from_height := 0 |};
  decode_base64 := fun t =>
    match t with [c] => bytes32_bytes <$> sample_tree !! N.to_nat c | _ => None end
|}.

Definition sample_client : ChainProtocolClient :=
  {| endpoints := [chars "https://a"; chars "https://b"];
     timing := {| post_timeout := DEFAULT_CHAIN_POST_TIMEOUT; lookup_timeout := DEFAULT_CHAIN_LOOKUP_TIMEOUT |} |}.

Definition json_answer : TransportAnswer :=
  Answered (Ok {| response_status := 200; response_body := []; response_content_type := Some (chars "application/json") |}).

Definition sample_scan_env : ScanEnv :=
  {| scan_answer := fun _ => json_answer; scan_interrupted_before := fun _ => false;
     scan_interrupted_request := fun _ => false; scan_expired := fun _ => false; scan_expired_end := false |}.

Lemma scan_exact_layout_exact_witness :
  scan_exact_layout sample_client sample_scan_env sample_derived_batch None = Some (Ok (ScanMatch 1 [2; 3]%N)) /\
  exists n ls, leaves_served sample_scan_env n = Some ls /\ occurs (leaves (expected_layout (derived_bound sample_derived_batch))) ls 1.
Proof.
  assert (scan_exact_layout sample_client sample_scan_env sample_derived_batch None = Some (Ok (ScanMatch 1 [2; 3]%N))) as H
    by (vm_compute; reflexivity).
  split; [exact H|].
  destruct (scan_exact_layout_exact sample_client sample_scan_env sample_derived_batch None) as (o & Ho & Hs).
  rewrite H in Ho. injection Ho as <-. destruct Hs as (snapshot & n & ls & _ & _ & Hls & _ & Hocc & _). eauto.
Defined.
