(* ===== verification/Coordinator.v ===== *)
(** * The coordinator

    Models [coordinator.rs]: one bounded advancement pass over the store, the
    protocol client, the recovery scan, the clock and the host's cancellation
    and epoch. A pass is a program over a [World] (database, in-flight registry,
    POSTs made so far); every answer of the outside world is chosen by an
    environment, indexed by the number of times it was asked, and other
    components may change the database between any two steps. Futures that the
    code races are one environment choice. *)

From S2P Require Import Prelude Types Diagnostics SubmissionState Identity Coordination Generation Confirmation.
From S2P Require Import StoreRow Store Protocol Tree Recovery.

(** ** Policy *)

Abbreviation MAX_POST_ATTEMPTS_PER_PASS := 8%nat (only parsing).
Abbreviation MAX_RETRY_BACKOFF := (seconds 600)%N (only parsing).

Record CoordinatorPolicy : Type := {
  tracking_window_seconds : N;
  maximum_post_attempts : nat;
  retry_backoffs : list N
}.

(** Durations in nanoseconds. *)
Definition policy_new (tracking_window : N) (attempts : nat) (backoffs : list N) :
  result ChainSubmissionFailure CoordinatorPolicy :=
  let window_seconds := (tracking_window / 1000000000)%N in
  _ ← fail_if (bool_decide (window_seconds = 0)%N
               || negb (bool_decide (tracking_window = seconds window_seconds))
               || bool_decide (attempts = 0) || bool_decide (MAX_POST_ATTEMPTS_PER_PASS < attempts)
               || negb (bool_decide (length backoffs + 1 = attempts))
               || existsb (fun d => bool_decide (d = 0)%N || bool_decide (MAX_RETRY_BACKOFF < d)%N) backoffs)
        (without_state InvalidInput
           (chars "chain coordinator requires a nonzero whole-second tracking window, one to eight attempts, "
            ++ chars "and one bounded nonzero backoff between attempts"));
  Ok {| tracking_window_seconds := window_seconds; maximum_post_attempts := attempts; retry_backoffs := backoffs |}.

Inductive ChainRecoveryMode : Type := StatusOnly | ExactTree.
#[export] Instance ChainRecoveryMode_eq_dec : EqDecision ChainRecoveryMode.
Proof. solve_decision. Defined.

Inductive Interruption : Type := Cancelled | StaleEpoch.

Definition after_dispatch_message (r : Interruption) : text :=
  match r with
  | Cancelled => chars "submission was cancelled after dispatch could not be excluded"
  | StaleEpoch => chars "host operation epoch changed after dispatch could not be excluded"
  end.

Definition interrupted_without_state (r : Interruption) : result ChainSubmissionFailure ChainSubmissionResult :=
  match r with
  | Cancelled => Ok ResultCancelled
  | StaleEpoch => Err (without_state InvalidInput (chars "host operation epoch changed before request dispatch"))
  end.

Inductive LookupProgress : Type :=
| LookupInterrupted
| LookupObserved (o : TransactionStatusObservation)
| LookupFailed (f : LookupFailure).

Definition lookup_diagnostic (f : LookupFailure) : ChainSubmissionDiagnostic :=
  match f with
  | LookupProtocol d => d
  | LookupTransport e => from_redacted_message ReconciliationPending (transport_message e)
  end.

Definition lookup_failure (f : LookupFailure) (s : ChainSubmissionState) : ChainSubmissionFailure :=
  match f with
  | LookupProtocol d => with_durable_state Protocol s (diagnostic_message d)
  | LookupTransport e => with_durable_state Transport s (transport_message e)
  end.

Definition is_retryable_dispatch_ambiguity (r : StoredChainSubmission) : bool :=
  permits_ambiguous_retry (stored_state r).

Definition returned_candidate_is_unusable (r : StoredChainSubmission) : bool :=
  match stored_state r with Recovering None _ => true | _ => false end.

(** A failure without state evidence gets the state the caller knows. *)
Definition attach_state (s : ChainSubmissionState) (e : ChainSubmissionFailure) : ChainSubmissionFailure :=
  match strongest_state e with
  | Some _ => e
  | None => with_durable_state (failure_kind e) s (failure_message e)
  end.

(** A failure always reported at the given state. *)
Definition at_state (s : ChainSubmissionState) (e : ChainSubmissionFailure) : ChainSubmissionFailure :=
  with_durable_state (failure_kind e) s (failure_message e).

(** How a program ends. *)
Inductive outcome (A : Type) : Type :=
| Value (a : A)
| Fails (e : ChainSubmissionFailure)
| Panics.
Arguments Value {A} a.
Arguments Fails {A} e.
Arguments Panics {A}.

Section coordinator.
Context `{ST : StoreTables, B64 : Base64Crate, HX : HexCrate, SH : Sha256Crate, RQ : RusqliteCrate}.
Context {SJ : SerdeJson} {WJ : WireJson} {RJ : RecoveryJson} {PC : PoseidonCrate} {FC : FrontierCrate}.

(** ** Programs *)

(** One POST attempt, with the database and the tick at the moment it is made. *)
Record PostEvent : Type := {
  post_database : Database;
  post_generation : ChainSubmissionGeneration;
  post_reservations : N;
  post_endpoint : nat;
  post_tick : nat
}.

Record World : Type := {
  world_db : Database;
  world_registry : InFlightRegistry;
  world_posts : list PostEvent;
  world_tick : nat
}.

Definition with_db (w : World) (db : Database) : World :=
  {| world_db := db; world_registry := world_registry w; world_posts := world_posts w; world_tick := world_tick w |}.
Definition with_registry (w : World) (r : InFlightRegistry) : World :=
  {| world_db := world_db w; world_registry := r; world_posts := world_posts w; world_tick := world_tick w |}.
Definition with_post (w : World) (p : PostEvent) : World :=
  {| world_db := world_db w; world_registry := world_registry w; world_posts := world_posts w ++ [p];
     world_tick := world_tick w |}.

Definition prog (A : Type) : Type := World -> World * outcome A.

#[export] Instance prog_ret : MRet prog := fun A a w => (w, Value a).
#[export] Instance prog_bind : MBind prog := fun A B f m w =>
  let '(w', o) := m w in
  match o with
  | Value a => f a w'
  | Fails e => (w', Fails e)
  | Panics => (w', Panics)
  end.

Definition raise {A} (e : ChainSubmissionFailure) : prog A := fun w => (w, Fails e).
Definition panic {A} : prog A := fun w => (w, Panics).
Definition lift {A} (r : result ChainSubmissionFailure A) : prog A :=
  match r with Ok a => mret a | Err e => raise e end.
Definition map_failure {A} (f : ChainSubmissionFailure -> ChainSubmissionFailure) (m : prog A) : prog A :=
  fun w => let '(w', o) := m w in
           (w', match o with Fails e => Fails (f e) | Value a => Value a | Panics => Panics end).

(** ** The environment *)

(** How the race between one POST and the host's interruption ends. *)
Inductive PostEnd : Type :=
| PostInterrupted (reason : Interruption) (dispatch_possible : bool)
| PostCompleted (answer : TransportAnswer).

Record Env : Type := {
  env_interference : nat -> Database -> Database;
  env_acquire_error : nat -> option ChainSubmissionFailure;
  env_cancelled : nat -> bool;
  env_epoch : nat -> N;
  env_now : nat -> result ChainSubmissionFailure N;
  env_transaction : nat -> TransactionEnv;
  env_post : nat -> PostEnd;
  (** [None] when the host interrupts the lookup. *)
  env_lookup : nat -> option (nat -> TransportAnswer);
  env_scan : nat -> ScanEnv;
  (** The interruption that ends a backoff early, if any. *)
  env_backoff : nat -> option Interruption
}.

(** The coordinator and the arguments every step of a pass shares. *)
Context (env : Env) (client : ChainProtocolClient) (policy : CoordinatorPolicy).
Context (q : StoreAdvancementRequest) (operation_epoch : N) (recovery : ChainRecoveryMode).

(** Ask the environment; others may have written meanwhile. *)
Definition ask {A} (f : nat -> A) : prog A := fun w =>
  ({| world_db := env_interference env (world_tick w) (world_db w); world_registry := world_registry w;
      world_posts := world_posts w; world_tick := S (world_tick w) |}, Value (f (world_tick w))).

Definition interruption_at (t : nat) : option Interruption :=
  if env_cancelled env t then Some Cancelled
  else if bool_decide (env_epoch env t = operation_epoch) then None else Some StaleEpoch.

Definition interruption : prog (option Interruption) := ask interruption_at.
Definition interrupted : prog bool := r ← interruption; mret (bool_decide (is_Some r)).

Definition now_seconds : prog N := r ← ask (env_now env); lift r.

(** One transaction of the store. *)
Definition on_database {A} (operation : Database -> Database * result ChainSubmissionFailure A) : prog A :=
  fun w => let '(db, r) := operation (world_db w) in lift r (with_db w db).

Definition store {A} (operation : TransactionEnv -> Database -> Database * result ChainSubmissionFailure A) : prog A :=
  te ← ask (env_transaction env); on_database (operation te).

(** [register_in_flight], the guarded block, and the guard's drop at its end. *)
Definition with_in_flight {A} (i : ChainSubmissionIdentity) (refused : ChainSubmissionFailure -> prog A)
  (body : prog A) : prog A := fun w =>
  match register_in_flight (world_registry w) i with
  | Err e => refused e w
  | Ok (registry, k) =>
      let '(w', o) := body (with_registry w registry) in
      (with_registry w' (drop_in_flight (world_registry w') k), o)
  end.

Definition wait_backoff (delay : N) : prog (option Interruption) := ask (env_backoff env).

(** Indexing the backoff table panics out of range. *)
Definition backoff_at (i : nat) : prog N :=
  match retry_backoffs policy !! i with Some d => mret d | None => panic end.

(** ** Store wrappers *)

Definition classify_dispatched_post (g : ChainSubmissionGeneration) (o : SubmissionObservation) :
  prog StoredChainSubmission :=
  now ← map_failure possible_dispatch_error now_seconds;
  map_failure possible_dispatch_error (store (fun te => classify_post te g o now)).

Definition drop_fresh_reservation (g : ChainSubmissionGeneration) : prog unit :=
  _ ← map_failure (at_state DurableSubmitting) now_seconds;
  map_failure (attach_state DurableSubmitting) (store (fun te => remove_fresh_reservation te g)).

Definition reconcile_with_durable_state (g : ChainSubmissionGeneration) (o : SubmissionObservation)
  (d : option ChainSubmissionDiagnostic) (s : ChainSubmissionState) : prog StoredChainSubmission :=
  now ← map_failure (attach_state s) now_seconds;
  map_failure (attach_state s) (store (fun te => reconcile te g o d now)).

Definition reserve_ambiguous (clock_failure : ChainSubmissionFailure -> ChainSubmissionFailure)
  (g : ChainSubmissionGeneration) (s : ChainSubmissionState) : prog StoredChainSubmission :=
  now ← map_failure clock_failure now_seconds;
  map_failure (attach_state s) (store (fun te => reserve_ambiguous_retry te g now)).

Definition public (r : StoredChainSubmission) : prog ChainSubmissionResult := lift (public_result r).

Definition tracking_expired_at (r : StoredChainSubmission) (now : N) : result ChainSubmissionFailure bool :=
  started ← ok_or (tracking_started_at r)
    (with_durable_state InvariantViolation (record_durable_state r)
       (chars "Tracking record has no immutable tracking-start timestamp"));
  Ok (bool_decide (now < started)%N || bool_decide (tracking_window_seconds policy <= now - started)%N).

Definition tracking_expired (r : StoredChainSubmission) : prog bool :=
  now ← map_failure (at_state (record_durable_state r)) now_seconds;
  lift (tracking_expired_at r now).

Definition committed_result (c : ConfirmationCommit) : prog ChainSubmissionResult :=
  match c with CommitInterrupted r | CommitConfirmed r => public r end.

Definition confirm (d : DerivedChainSubmission) (candidate : CandidateTransactionHash)
  (committed : CommittedTransaction) (s : ChainSubmissionState) : prog ChainSubmissionResult :=
  now ← map_failure (at_state s) now_seconds;
  stopped ← interrupted;
  c ← map_failure (attach_state s)
        (store (fun te => confirm_committed te q (derived_generation d) candidate committed (negb stopped) now));
  committed_result c.

Definition confirm_tree_match (d : DerivedChainSubmission) (van : N) (positions : list N) :
  prog ChainSubmissionResult :=
  now ← map_failure (at_state DurableRecovering) now_seconds;
  stopped ← interrupted;
  c ← map_failure (attach_state DurableRecovering)
        (store (fun te => confirm_tree te q (derived_generation d) van positions (negb stopped) now));
  committed_result c.

Definition lookup_or_interruption (candidate : CandidateTransactionHash) : prog LookupProgress :=
  answers ← ask (env_lookup env);
  mret match answers with
       | None => LookupInterrupted
       | Some answer_of =>
           match transaction_status client answer_of with
           | Ok o => LookupObserved o
           | Err f => LookupFailed f
           end
       end.

Definition tracking_expired_diagnostic : ChainSubmissionDiagnostic :=
  from_redacted_message TrackingWindowExpired
    (chars "finite candidate tracking window expired without a definitive result").

Definition finish_inconclusive_tracking (d : DerivedChainSubmission) (r : StoredChainSubmission)
  (diagnostic : option ChainSubmissionDiagnostic) : prog StoredChainSubmission :=
  now ← map_failure (at_state (record_durable_state r)) now_seconds;
  expired ← lift (tracking_expired_at r now);
  if (expired : bool)
  then reconcile_with_durable_state (derived_generation d) (ObsTrackingWindowExpired tracking_expired_diagnostic)
         (Some tracking_expired_diagnostic) (record_durable_state r)
  else reconcile_with_durable_state (derived_generation d) ObsCandidatePending diagnostic (record_durable_state r).

(** ** Scanning and settling *)

Inductive RecoveryScan : Type :=
| RecoveryMatch (van : N) (positions : list N)
| RecoveryNoMatch (a : RecoveryRetryAuthorization)
| RecoveryInterrupted.

(** [scan_tree]; a scan that ran out of fuel would be a panic. *)
Definition scan_tree (d : DerivedChainSubmission) (candidate : option CandidateTransactionHash) : prog RecoveryScan :=
  scan_env ← ask (env_scan env);
  match scan_exact_layout client scan_env d candidate with
  | None => panic
  | Some (Ok (ScanMatch van positions)) => mret (RecoveryMatch van positions)
  | Some (Ok (ScanNoMatch a)) => mret (RecoveryNoMatch a)
  | Some (Err ScanInterrupted) => mret RecoveryInterrupted
  | Some (Err (ScanInvalid diagnostic)) =>
      _ ← reconcile_with_durable_state (derived_generation d) ObsContinueRecovery (Some diagnostic) DurableRecovering;
      raise (with_durable_state Protocol DurableRecovering (diagnostic_message diagnostic))
  | Some (Err (ScanTransport e)) =>
      _ ← reconcile_with_durable_state (derived_generation d) ObsContinueRecovery
            (Some (from_redacted_message ReconciliationPending (transport_message e))) DurableRecovering;
      raise (with_durable_state Transport DurableRecovering (transport_message e))
  end.

Definition spent_diagnostic : ChainSubmissionDiagnostic :=
  from_redacted_message NullifierAlreadySpent
    (chars "vote chain reported nullifier already spent after ambiguous dispatch").

Definition end_hashless (d : DerivedChainSubmission) : prog ChainSubmissionResult :=
  r ← classify_dispatched_post (derived_generation d) (ObsSubmittedWithoutHash spent_diagnostic);
  public r.

Definition settle_nullifier_spent_after_dispatch (d : DerivedChainSubmission) (current : StoredChainSubmission) :
  prog ChainSubmissionResult :=
  if bool_decide (recovery = StatusOnly) then end_hashless d
  else
    s ← scan_tree d None;
    match s with
    | RecoveryMatch van positions => confirm_tree_match d van positions
    | RecoveryNoMatch _ => end_hashless d
    | RecoveryInterrupted => public current
    end.

(** ** POST attempts *)

(** [submit_to_endpoint]; [None] is a panic on a request of another target. *)
Definition submit_to_endpoint (endpoint_index : nat) (d : DerivedChainSubmission) (a : TransportAnswer) :
  option PostAttemptOutcome :=
  let t := target (generation_identity (derived_generation d)) in
  match derived_request d with
  | RequestDelegation w => Some (submit_delegation client endpoint_index w a)
  | RequestImportedDelegation _ =>
      Some (PostLocalFailure (from_redacted_message InvalidProtocolResponse
        (chars "a capability-imported delegation cannot be dispatched by the voter")))
  | RequestVote w => Some (submit_vote client endpoint_index w a)
  | RequestDelegateAndVoteBatch w votes =>
      digest ← batch_digest t; Some (submit_delegate_and_vote_batch client endpoint_index w votes digest a)
  | RequestVoteBatch votes =>
      match t with
      | TargetVoteBatch digest => Some (submit_vote_batch client endpoint_index votes digest a)
      | _ => None
      end
  end.

(** The endpoint of a reservation; a remainder by zero endpoints is a panic. *)
Definition endpoint_index_of (r : StoredChainSubmission) : option nat :=
  if bool_decide (endpoint_count client = 0) then None
  else Some (Nat.modulo (N.to_nat (committed_post_reservations r) - 1) (endpoint_count client)).

Definition record_post (d : DerivedChainSubmission) (r : StoredChainSubmission) (endpoint_index : nat) : prog unit :=
  fun w => (with_post w {| post_database := world_db w; post_generation := derived_generation d;
                           post_reservations := committed_post_reservations r;
                           post_endpoint := endpoint_index; post_tick := world_tick w |}, Value tt).

(** The raced POST: [inl] when the host interrupts it. *)
Definition post_attempt (d : DerivedChainSubmission) (r : StoredChainSubmission) :
  prog (Interruption * bool + PostAttemptOutcome) :=
  match endpoint_index_of r with
  | None => panic
  | Some endpoint_index =>
      _ ← record_post d r endpoint_index;
      ended ← ask (env_post env);
      match ended with
      | PostInterrupted reason possible => mret (inl (reason, possible))
      | PostCompleted answer =>
          match submit_to_endpoint endpoint_index d answer with
          | Some o => mret (inr o)
          | None => panic
          end
      end
  end.

Definition interrupted_dispatch (reason : Interruption) : ChainSubmissionDiagnostic :=
  from_redacted_message AmbiguousDispatch (after_dispatch_message reason).

(** Interruption before dispatch in the attempt loop. *)
Definition stop_unsent (d : DerivedChainSubmission) (r : StoredChainSubmission) (ambiguity_seen : bool)
  (reason : Interruption) : prog ChainSubmissionResult :=
  if ambiguity_seen then public r
  else _ ← drop_fresh_reservation (derived_generation d); lift (interrupted_without_state reason).

Definition reserve_ambiguous_retry_after_backoff (delay : N) (g : ChainSubmissionGeneration)
  (r : StoredChainSubmission) : prog (StoredChainSubmission + StoredChainSubmission) :=
  stopped ← wait_backoff delay;
  if bool_decide (is_Some stopped) then mret (inr r)
  else reserved ← reserve_ambiguous (attach_state (record_durable_state r)) g (record_durable_state r);
       mret (inl reserved).

(** ** Reconciliation and recovery

    [resubmit] stands for [submit_reserved_attempts], which the recovery retry
    re-enters with the attempts used so far. *)
Section reconciliation.
Context (resubmit : DerivedChainSubmission -> StoredChainSubmission -> nat -> prog ChainSubmissionResult).

(** What a recovery retry's POST leads to: a final result, or an ambiguous row. *)
Definition recovery_retry_outcome (d : DerivedChainSubmission) (reserved : StoredChainSubmission)
  (o : PostAttemptOutcome) : prog (ChainSubmissionResult + StoredChainSubmission) :=
  let g := derived_generation d in
  match o with
  | PostAccepted candidate =>
      r ← classify_dispatched_post g (ObsUsableCandidateHash candidate);
      if returned_candidate_is_unusable r then mret (inr r) else p ← public r; mret (inl p)
  | PostPossiblyDispatched diagnostic =>
      r ← classify_dispatched_post g (ObsPossiblyDispatched diagnostic); mret (inr r)
  | PostRejected _ kind diagnostic _ =>
      if has_unresolved_dispatch (stored_state reserved)
         && bool_decide (kind = RejectionNullifierAlreadySpent)
      then p ← settle_nullifier_spent_after_dispatch d reserved; mret (inl p)
      else
        r ← classify_dispatched_post g (ObsDefiniteRejection diagnostic);
        raise (with_durable_state Protocol (record_durable_state r) (diagnostic_message diagnostic))
  | PostDefinitelyUnsent e =>
      _ ← reconcile_with_durable_state g ObsDefinitelyUnsent
            (Some (from_redacted_message ReconciliationPending (transport_message e))) DurableRecovering;
      raise (with_durable_state Transport DurableRecovering (transport_message e))
  | PostLocalFailure diagnostic =>
      _ ← reconcile_with_durable_state g ObsContinueRecovery (Some diagnostic) DurableRecovering;
      raise (with_durable_state Protocol DurableRecovering (diagnostic_message diagnostic))
  end.

Definition submit_recovery_retry (d : DerivedChainSubmission) (reserved : StoredChainSubmission)
  (post_attempts_used : nat) : prog ChainSubmissionResult :=
  let g := derived_generation d in
  stopped ← interrupted;
  if (stopped : bool) then public reserved else
  step ← with_in_flight (generation_identity g) (fun e => raise (at_state DurableRecovering e))
    (ended ← post_attempt d reserved;
     match ended with
     | inl (reason, false) => p ← public reserved; mret (inl p)
     | inl (reason, true) =>
         recovery_retry_outcome d reserved (PostPossiblyDispatched (interrupted_dispatch reason))
     | inr o => recovery_retry_outcome d reserved o
     end);
  match step with
  | inl p => mret p
  | inr ambiguous =>
      if bool_decide (post_attempts_used + 1 = maximum_post_attempts policy) then public ambiguous else
      stopped ← interrupted;
      if (stopped : bool) then public ambiguous else
      delay ← backoff_at post_attempts_used;
      next ← reserve_ambiguous_retry_after_backoff delay g ambiguous;
      match next with
      | inl reserved => resubmit d reserved (post_attempts_used + 1)
      | inr r => public r
      end
  end.

Definition is_recovering (r : StoredChainSubmission) : bool :=
  match stored_state r with Recovering _ _ => true | _ => false end.

Definition recovery_candidate (r : StoredChainSubmission) : option CandidateTransactionHash :=
  match stored_state r with Recovering c _ => c | _ => None end.

(** The backoff before a recovery retry that is not the first POST. *)
Definition recovery_backoff (post_attempts_used : nat) : prog bool :=
  if bool_decide (0 < post_attempts_used) then
    delay ← backoff_at (post_attempts_used - 1);
    stopped ← wait_backoff delay;
    mret (bool_decide (is_Some stopped))
  else mret false.

Definition recover_if_enabled (d : DerivedChainSubmission) (r : StoredChainSubmission)
  (post_attempts_used : nat) : prog ChainSubmissionResult :=
  if bool_decide (recovery = StatusOnly) || is_imported_delegation q || negb (is_recovering r) then public r else
  stopped ← interrupted;
  if (stopped : bool) then public r else
  s ← scan_tree d (recovery_candidate r);
  match s with
  | RecoveryMatch van positions => confirm_tree_match d van positions
  | RecoveryInterrupted => public r
  | RecoveryNoMatch a =>
      if bool_decide (maximum_post_attempts policy <= post_attempts_used) then public r else
      stopped ← interrupted;
      if (stopped : bool) then public r else
      stopped ← recovery_backoff post_attempts_used;
      if (stopped : bool) then public r else
      stopped ← interrupted;
      if (stopped : bool) then public r else
      now ← map_failure (at_state DurableRecovering) now_seconds;
      reserved ← map_failure (attach_state (record_durable_state r))
                   (store (fun te => reserve_recovery_retry te q a now));
      submit_recovery_retry d reserved post_attempts_used
  end.

(** Whether a committed failure of the candidate is the generation's last word. *)
Definition candidate_failure_terminal (d : DerivedChainSubmission) : bool :=
  is_imported_delegation q || is_combined (target (generation_identity (derived_generation d))).

Definition tracked_failure_diagnostic : ChainSubmissionDiagnostic :=
  from_redacted_message ChainRejected (chars "tracked vote-chain transaction committed unsuccessfully").

Definition recovering_failure_diagnostic : ChainSubmissionDiagnostic :=
  from_redacted_message ChainRejected
    (if is_imported_delegation q then chars "imported vote-chain transaction committed unsuccessfully"
     else chars "combined vote-chain transaction committed unsuccessfully").

Definition reconcile_tracking (d : DerivedChainSubmission) (r : StoredChainSubmission)
  (candidate : CandidateTransactionHash) (post_attempts_used : nat) : prog ChainSubmissionResult :=
  let g := derived_generation d in
  stopped ← interrupted;
  if (stopped : bool) then public r else
  progress ← lookup_or_interruption candidate;
  match progress with
  | LookupInterrupted => public r
  | LookupObserved StatusPending =>
      r ← finish_inconclusive_tracking d r None;
      recover_if_enabled d r post_attempts_used
  | LookupFailed failure =>
      expired ← tracking_expired r;
      if (expired : bool) then
        r ← finish_inconclusive_tracking d r (Some (lookup_diagnostic failure));
        recover_if_enabled d r post_attempts_used
      else
        _ ← reconcile_with_durable_state g ObsCandidatePending (Some (lookup_diagnostic failure)) DurableTracking;
        raise (lookup_failure failure DurableTracking)
  | LookupObserved (StatusCommittedFailure _) =>
      let diagnostic := tracked_failure_diagnostic in
      r ← reconcile_with_durable_state g
            (if candidate_failure_terminal d then ObsTerminalCandidateFailure diagnostic
             else ObsCandidateCommittedFailure diagnostic)
            (Some diagnostic) DurableTracking;
      public r
  | LookupObserved (StatusCommittedSuccess committed) => confirm d candidate committed DurableTracking
  end.

Definition reconcile_recovering (d : DerivedChainSubmission) (r : StoredChainSubmission)
  (candidate : CandidateTransactionHash) (post_attempts_used : nat) : prog ChainSubmissionResult :=
  let g := derived_generation d in
  stopped ← interrupted;
  if (stopped : bool) then public r else
  progress ← lookup_or_interruption candidate;
  match progress with
  | LookupInterrupted => public r
  | LookupObserved (StatusCommittedSuccess committed) => confirm d candidate committed DurableRecovering
  | LookupObserved (StatusCommittedFailure _) =>
      if candidate_failure_terminal d then
        r ← reconcile_with_durable_state g (ObsTerminalCandidateFailure recovering_failure_diagnostic)
              (Some recovering_failure_diagnostic) DurableRecovering;
        public r
      else
        r ← reconcile_with_durable_state g
              (ObsCandidateCommittedFailure (from_redacted_message ChainRejected
                 (chars "recovery candidate committed unsuccessfully"))) None DurableRecovering;
        recover_if_enabled d r post_attempts_used
  | LookupObserved StatusPending =>
      r ← reconcile_with_durable_state g ObsCandidatePending None DurableRecovering;
      recover_if_enabled d r post_attempts_used
  | LookupFailed failure =>
      r ← reconcile_with_durable_state g ObsContinueRecovery (Some (lookup_diagnostic failure)) DurableRecovering;
      recover_if_enabled d r post_attempts_used
  end.

Definition reconcile_existing (d : DerivedChainSubmission) (r : StoredChainSubmission)
  (post_attempts_used : nat) : prog ChainSubmissionResult :=
  match stored_state r with
  | Tracking candidate => reconcile_tracking d r candidate post_attempts_used
  | Recovering None _ => recover_if_enabled d r post_attempts_used
  | Recovering (Some candidate) _ => reconcile_recovering d r candidate post_attempts_used
  | _ => public r
  end.
End reconciliation.

(** ** The attempt loop *)

(** What one attempt leaves the loop with: a final result, or the next state. *)
Abbreviation AttemptStep := (ChainSubmissionResult + StoredChainSubmission * bool)%type.

Definition is_final_attempt (attempt_index : nat) : bool :=
  bool_decide (attempt_index + 1 = maximum_post_attempts policy).

(** One POST outcome in the loop. *)
Definition attempt_outcome
  (resubmit : DerivedChainSubmission -> StoredChainSubmission -> nat -> prog ChainSubmissionResult)
  (d : DerivedChainSubmission) (reserved : StoredChainSubmission) (ambiguity_seen : bool) (attempt_index : nat)
  (o : PostAttemptOutcome) : prog AttemptStep :=
  let g := derived_generation d in
  match o with
  | PostAccepted candidate =>
      r ← classify_dispatched_post g (ObsUsableCandidateHash candidate);
      if returned_candidate_is_unusable r then mret (inr (r, true))
      else p ← reconcile_existing resubmit d r (attempt_index + 1); mret (inl p)
  | PostRejected _ kind diagnostic _ =>
      let spent := bool_decide (kind = RejectionNullifierAlreadySpent) in
      if ambiguity_seen && spent then
        p ← settle_nullifier_spent_after_dispatch d reserved; mret (inl p)
      else
        let terminal := negb ambiguity_seen && is_combined (target (generation_identity g)) && negb spent in
        r ← classify_dispatched_post g
              (if terminal then ObsTerminalRejection diagnostic else ObsDefiniteRejection diagnostic);
        if ambiguity_seen
        then raise (with_durable_state Protocol (record_durable_state r) (diagnostic_message diagnostic))
        else p ← public r; mret (inl p)
  | PostPossiblyDispatched diagnostic =>
      r ← classify_dispatched_post g (ObsPossiblyDispatched diagnostic);
      stopped ← interrupted;
      if (stopped : bool) then p ← public r; mret (inl p) else mret (inr (r, true))
  | PostLocalFailure diagnostic =>
      if ambiguity_seen
      then raise (with_durable_state Protocol DurableRecovering (diagnostic_message diagnostic))
      else _ ← drop_fresh_reservation g; raise (without_state Protocol (diagnostic_message diagnostic))
  | PostDefinitelyUnsent e =>
      r ← if ambiguity_seen
          then reconcile_with_durable_state g ObsDefinitelyUnsent
                 (Some (from_redacted_message ReconciliationPending (transport_message e))) DurableRecovering
          else _ ← drop_fresh_reservation g; mret reserved;
      if is_final_attempt attempt_index
      then raise (if ambiguity_seen then with_durable_state Transport DurableRecovering (transport_message e)
                  else without_state Transport (transport_message e))
      else mret (inr (r, ambiguity_seen))
  end.

(** The reservation of the next attempt, after its backoff. *)
Definition reserve_next (d : DerivedChainSubmission) (reserved : StoredChainSubmission) (ambiguity_seen : bool)
  (attempt_index : nat) : prog (ChainSubmissionResult + DerivedChainSubmission * StoredChainSubmission) :=
  if is_final_attempt attempt_index then p ← public reserved; mret (inl p) else
  delay ← backoff_at attempt_index;
  if ambiguity_seen then
    next ← reserve_ambiguous_retry_after_backoff delay (derived_generation d) reserved;
    match next with
    | inl reserved => mret (inr (d, reserved))
    | inr r => p ← public r; mret (inl p)
    end
  else
    stopped ← wait_backoff delay;
    match stopped with
    | Some reason => p ← lift (interrupted_without_state reason); mret (inl p)
    | None =>
        now ← now_seconds;
        admission ← store (fun te => admit_submission te q true (N.of_nat (attempt_index + 2)) now);
        match admission with
        | Ready retry r true =>
            if bool_decide (derived_generation retry = derived_generation d) then mret (inr (retry, r))
            else p ← public r; mret (inl p)
        | Ready _ r false | Authoritative r => p ← public r; mret (inl p)
        | NoAuthoritativeState =>
            raise (without_state InvariantViolation
                     (chars "definitely-unsent retry did not reserve the same generation"))
        end
    end.

(** Registration refused: a fresh reservation is given back first. *)
Definition refuse_attempt {A} (d : DerivedChainSubmission) (ambiguity_seen : bool) (e : ChainSubmissionFailure) :
  prog A :=
  if ambiguity_seen then raise e else _ ← drop_fresh_reservation (derived_generation d); raise e.

(** [submit_reserved_attempts] from [attempt_index] on; both the end of the
    attempt range and the end of the fuel are panics. *)
Fixpoint attempts (fuel : nat) (d : DerivedChainSubmission) (reserved : StoredChainSubmission)
  (ambiguity_seen : bool) (attempt_index : nat) : prog ChainSubmissionResult :=
  match fuel with
  | 0 => panic
  | S fuel =>
      if bool_decide (maximum_post_attempts policy <= attempt_index) then panic else
      let resubmit d r used := attempts fuel d r (is_retryable_dispatch_ambiguity r) used in
      stopped ← interruption;
      match stopped with
      | Some reason => stop_unsent d reserved ambiguity_seen reason
      | None =>
          step ← with_in_flight (generation_identity (derived_generation d)) (refuse_attempt d ambiguity_seen)
            (ended ← post_attempt d reserved;
             next ← match ended with
                    | inl (reason, false) => p ← stop_unsent d reserved ambiguity_seen reason; mret (inl p)
                    | inl (reason, true) =>
                        attempt_outcome resubmit d reserved ambiguity_seen attempt_index
                          (PostPossiblyDispatched (interrupted_dispatch reason))
                    | inr o => attempt_outcome resubmit d reserved ambiguity_seen attempt_index o
                    end;
             match next with
             | inl p => mret (inl p)
             | inr (r, seen) =>
                 reservation ← reserve_next d r seen attempt_index;
                 mret match reservation with
                      | inl p => inl p
                      | inr (d, r) => inr (d, r, seen)
                      end
             end);
          match step with
          | inl p => mret p
          | inr (d, r, seen) => attempts fuel d r seen (attempt_index + 1)
          end
      end
  end.

Definition submit_reserved_attempts (fuel : nat) (d : DerivedChainSubmission) (reserved : StoredChainSubmission)
  (first_attempt_index : nat) : prog ChainSubmissionResult :=
  attempts fuel d reserved (is_retryable_dispatch_ambiguity reserved) first_attempt_index.

(** ** The pass *)

Definition pass_fuel : nat := S (maximum_post_attempts policy).

Definition without_authoritative_state (stopped : option Interruption) :
  result ChainSubmissionFailure ChainSubmissionResult :=
  match stopped with
  | Some Cancelled => Ok ResultCancelled
  | Some StaleEpoch =>
      Err (without_state InvalidInput (chars "host operation epoch changed before chain submission"))
  | None =>
      Err (without_state InvariantViolation (chars "admission returned no state for an active operation"))
  end.

Definition advance_ready (d : DerivedChainSubmission) (r : StoredChainSubmission) : prog ChainSubmissionResult :=
  retry ← if bool_decide (recovery = StatusOnly) && is_retryable_dispatch_ambiguity r
             && negb (is_imported_delegation q)
          then stopped ← interrupted; mret (negb stopped)
          else mret false;
  if (retry : bool) then
    reserved ← reserve_ambiguous (at_state (record_durable_state r)) (derived_generation d) (record_durable_state r);
    submit_reserved_attempts pass_fuel d reserved 0
  else reconcile_existing (submit_reserved_attempts pass_fuel) d r 0.

(** [advance_in_epoch]; the lease is held until the pass returns. *)
Definition advance_in_epoch : prog ChainSubmissionResult :=
  refused ← ask (env_acquire_error env);
  match refused with
  | Some e => raise e
  | None =>
      stopped ← interrupted;
      now ← now_seconds;
      admission ← store (fun te => admit_submission te q (negb stopped) 1 now);
      match admission with
      | NoAuthoritativeState => stopped ← interruption; lift (without_authoritative_state stopped)
      | Authoritative r => public r
      | Ready d r true => submit_reserved_attempts pass_fuel d r 0
      | Ready d r false => advance_ready d r
      end
  end.
End coordinator.
