(* ===== verification/CoordinatorFacts.v ===== *)
(** * Correctness of an advancement pass

    A weakest-precondition calculus for the coordinator's programs, the
    specification of every store operation it calls on the leased submission,
    and the invariant of the pass: what is on record, which POSTs were made, and
    the in-flight registry. *)

From S2P Require Import Prelude Types Diagnostics SubmissionState Identity Coordination Generation Confirmation.
From S2P Require Import StoreRow StoreRowFacts Store StoreFacts StoreInvariant Protocol Tree Recovery Coordinator.

Section calculus.
Context `{ST : StoreTables, B64 : Base64Crate, HX : HexCrate, SH : Sha256Crate, RQ : RusqliteCrate}.

(** [Q] holds of the world and the outcome [m] ends with from [w]. *)
Definition wp {A} (m : prog A) (Q : World -> outcome A -> Prop) (w : World) : Prop :=
  let '(w', o) := m w in Q w' o.

Lemma wp_mono {A} (m : prog A) (Q Q' : World -> outcome A -> Prop) w :
  wp m Q w -> (forall w' o, Q w' o -> Q' w' o) -> wp m Q' w.
Proof. unfold wp. destruct (m w). auto. Qed.

Lemma wp_bind {A B} (m : prog A) (f : A -> prog B) Q w :
  wp m (fun w' o => match o with
                    | Value a => wp (f a) Q w'
                    | Fails e => Q w' (Fails e)
                    | Panics => Q w' Panics
                    end) w -> wp (m ≫= f) Q w.
Proof. unfold wp, mbind, prog_bind. by destruct (m w) as [w' []]. Qed.

Lemma wp_ret {A} (a : A) Q w : Q w (Value a) -> wp (mret a) Q w.
Proof. done. Qed.

Lemma wp_raise {A} e (Q : World -> outcome A -> Prop) w : Q w (Fails e) -> wp (raise e) Q w.
Proof. done. Qed.

Lemma wp_lift {A} (r : result ChainSubmissionFailure A) Q w :
  match r with Ok a => Q w (Value a) | Err e => Q w (Fails e) end -> wp (lift r) Q w.
Proof. by destruct r. Qed.

Lemma wp_map_failure {A} f (m : prog A) Q w :
  wp m (fun w' o => Q w' match o with Fails e => Fails (f e) | Value a => Value a | Panics => Panics end) w ->
  wp (map_failure f m) Q w.
Proof. unfold wp, map_failure. by destruct (m w). Qed.
End calculus.

(** ** Failures of fallible computations *)

(** Every error [m] can end with satisfies [P]. *)
Definition errs {E A} (P : E -> Prop) (m : result E A) : Prop := match m with Err e => P e | Ok _ => True end.

Lemma errs_bind {E A B} (P : E -> Prop) (m : result E A) (f : A -> result E B) :
  errs P m -> (forall a, m = Ok a -> errs P (f a)) -> errs P (m ≫= f).
Proof. destruct m; cbn; auto. Qed.

Lemma errs_mono {E A} (P Q : E -> Prop) (m : result E A) : errs P m -> (forall e, P e -> Q e) -> errs Q m.
Proof. destruct m; cbn; auto. Qed.

Lemma errs_bind_Ok {E A B} (P : E -> Prop) (a : A) (f : A -> result E B) : errs P (f a) -> errs P (Ok a ≫= f).
Proof. done. Qed.

Lemma errs_map_err {E F A} (P : F -> Prop) (g : E -> F) (m : result E A) :
  errs (fun e => P (g e)) m -> errs P (map_err g m).
Proof. by destruct m. Qed.

Lemma errs_fail_if {E} (P : E -> Prop) b (e : E) : P e -> errs P (fail_if b e).
Proof. by destruct b. Qed.

Lemma errs_ok_or {E A} (P : E -> Prop) (o : option A) (e : E) : P e -> errs P (ok_or o e).
Proof. by destruct o. Qed.

Lemma errs_any {E A} (P : E -> Prop) (m : result E A) : (forall e, P e) -> errs P m.
Proof. destruct m; cbn; auto. Qed.

(** Split a chain of binds and guards. *)
Ltac errs_step :=
  match goal with
  | |- errs _ (Ok _) => exact I
  | |- errs _ (Ok _ ≫= _) => apply errs_bind_Ok
  | |- errs _ (_ ≫= _) => apply errs_bind; [|intros ? ?]
  | |- errs _ (fail_if _ _) => apply errs_fail_if
  | |- errs _ (ok_or _ _) => apply errs_ok_or
  | |- errs _ (map_err _ _) => apply errs_map_err
  | |- errs _ (if ?b then _ else _) => destruct b eqn:?
  | |- errs _ (Err _) => cbn [errs]
  end.

(** [e] names no state, or only the durable state [s]. *)
Definition names_at_most (s : option ChainSubmissionState) (e : ChainSubmissionFailure) : Prop :=
  match strongest_state e with
  | None => True
  | Some f => failure_evidence f = EvidenceDurable /\ s = Some (failure_state f)
  end.

Lemma names_without_state s k m : names_at_most s (without_state k m).
Proof. exact I. Qed.
Lemma names_with_durable s k m : names_at_most (Some s) (with_durable_state k s m).
Proof. done. Qed.
#[export] Hint Resolve names_without_state names_with_durable : voting.

Section store_failures.
Context `{ST : StoreTables, B64 : Base64Crate, HX : HexCrate, SH : Sha256Crate, RQ : RusqliteCrate}.

Lemma map_generation_error_names s e : names_at_most s (map_generation_error e).
Proof. exact I. Qed.
Lemma storage_error_names s e : names_at_most s (storage_error e).
Proof. exact I. Qed.
Lemma transition_failure_names s m : names_at_most (Some s) (transition_failure s m).
Proof. done. Qed.
Hint Resolve map_generation_error_names storage_error_names : voting.

Lemma derive_errs t r s : errs (names_at_most s) (derive t r).
Proof. unfold derive. apply errs_map_err, errs_any. auto with voting. Qed.

Lemma preserve_names r e :
  strongest_state e = None ->
  names_at_most (record_durable_state <$> r) (preserve_loaded_state r e).
Proof.
  intros H. unfold preserve_loaded_state. rewrite H. destruct r; [apply names_with_durable|].
  unfold names_at_most. by rewrite H.
Qed.

Lemma derive_for_errs db q r : errs (names_at_most (record_durable_state <$> r)) (derive_for db q r).
Proof.
  unfold derive_for, derive. apply errs_map_err, errs_map_err, errs_any. intros e. by apply preserve_names.
Qed.

Lemma verify_roster_errs q d r : errs (names_at_most (record_durable_state <$> r)) (verify_roster_for q d r).
Proof.
  unfold verify_roster_for, verify_batch_roster. apply errs_map_err.
  destruct (ordered_batch_proposal_ids q); [apply errs_fail_if; by apply preserve_names | exact I].
Qed.

Lemma derive_for_loaded_errs db q r :
  errs (names_at_most (Some (record_durable_state r))) (derive_for db q (Some r)).
Proof. apply (derive_for_errs db q (Some r)). Qed.
Lemma verify_roster_loaded_errs q d r :
  errs (names_at_most (Some (record_durable_state r))) (verify_roster_for q d (Some r)).
Proof. apply (verify_roster_errs q d (Some r)). Qed.

Lemma ensure_generation_errs r g :
  errs (names_at_most (Some (record_durable_state r))) (ensure_generation r g).
Proof. apply errs_fail_if, names_with_durable. Qed.

Lemma persist_errs db r s : errs (names_at_most s) (persist_mutable db r).
Proof. unfold persist_mutable. apply errs_map_err, errs_any. auto with voting. Qed.
End store_failures.

#[export] Hint Resolve map_generation_error_names storage_error_names transition_failure_names
  derive_errs derive_for_loaded_errs verify_roster_loaded_errs ensure_generation_errs persist_errs : voting.

(** Discharge the errors of a transaction whose failures name the loaded state. *)
Ltac errs_auto := repeat errs_step; auto with voting; try solve [apply errs_any; intros; auto with voting].

(** ** The record after a successful operation *)

Section records.
Context `{ST : StoreTables, B64 : Base64Crate, HX : HexCrate, SH : Sha256Crate, RQ : RusqliteCrate}.

(** [db] is legal and [o] is the record of [i] in it. *)
Definition holds (i : ChainSubmissionIdentity) (o : option StoredChainSubmission) (db : Database) : Prop :=
  table_ok (submissions db) /\ load_submission db i = Ok o.

Lemma load_required_loaded db i m r : load_submission db i = Ok (Some r) -> load_required db i m = Ok r.
Proof. intros H. unfold load_required. by rewrite H. Qed.

Lemma effect_holds i o o' db db' :
  holds i o db -> effect (submissions db) (submissions db') -> load_submission db' i = Ok o' -> holds i o' db'.
Proof. intros [Ht _] He Hl. split; [|done]. by eapply effect_ok. Qed.

Lemma persist_fits db db' i old r' :
  submissions db !! submission_identity_key i = Some old -> stored_identity r' = i ->
  persist_mutable db r' = Ok db' -> integers_fit r'.
Proof.
  intros Hold Hid H. unfold persist_mutable in H. inv_ok. unfold sql_update in Ha. rewrite Hold in Ha. inv_ok.
  match goal with Hm : mutated_row _ _ = Ok _ |- _ => destruct (mutated_row_Ok _ _ _ Hm) as (? & ? & ? & _) end.
  by repeat split.
Qed.

Lemma persist_loads db db' i old r r' :
  table_ok (submissions db) -> submissions db !! submission_identity_key i = Some old -> identity_valid i ->
  represents i old r -> legal_successor r r' ->
  hashes_free (submissions db) (submission_identity_key i) r r' ->
  persist_mutable db r' = Ok db' -> load_submission db' i = Ok (Some (reloaded r')).
Proof.
  intros Ht Hold Hi Hrep Hlegal Hfree H.
  assert (stored_identity r' = i) as Hid.
  { rewrite (suc_identity _ _ (legal_successor_of _ _ Hlegal)). apply Hrep. }
  pose proof (persist_fits _ _ _ _ r' Hold Hid H) as Hfit.
  destruct (persist_legal db i old r r' Ht Hold Hi Hrep Hlegal Hfit Hfree) as (db2 & H2 & Hl & _).
  rewrite H in H2. by inv_ok.
Qed.

(** What stays the same in a record an operation replaces. *)
Definition same_submission_record (r r' : StoredChainSubmission) : Prop :=
  stored_generation_digest r' = stored_generation_digest r
  /\ committed_post_reservations r' = committed_post_reservations r.

(** The result of recording an observation. *)
Definition observed (i : ChainSubmissionIdentity) (r : StoredChainSubmission) (o : SubmissionObservation)
  (db' : Database) (r' : StoredChainSubmission) : Prop :=
  (exists o', (o' = o \/ exists c, o = ObsUsableCandidateHash c /\ o' = ObsPossiblyDispatched owned_by_another)
     /\ apply_submission_observation (Some (stored_state r)) o' = Ok (Some (stored_state r')))
  /\ same_submission_record r r'
  /\ (holds i (Some (reloaded r')) db' \/
      (holds i None db' /\ is_combined (target i) = true /\ exists d, stored_state r' = Rejected d)).

Lemma observation_transaction_spec i g o d now db r :
  identity_valid i -> holds i (Some r) db -> generation_identity g = i ->
  stored_generation_digest r = generation_digest g -> observation_ok o -> diagnostic_legal d ->
  errs (names_at_most (Some (record_durable_state r))) (observation_transaction g o d now db)
  /\ forall db' r', observation_transaction g o d now db = Ok (db', r') -> observed i r o db' r'.
Proof.
  intros Hi [Ht Hload] <- Hdig Ho Hd.
  destruct (load_submission_Ok _ _ _ Ht Hi Hload) as (row & Hrow & Hrep).
  assert (forall m, load_required db (generation_identity g) m = Ok r) as Hreq.
  { intros m. by apply load_required_loaded. }
  split.
  - unfold observation_transaction. rewrite Hreq. cbn [mbind result_bind].
    errs_auto.
  - intros db' r' H.
    pose proof (observation_effect g o d now db db' r' Ht Hi Ho Hd H) as He.
    unfold observation_transaction in H. rewrite Hreq in H. cbn [mbind result_bind] in H. inv_ok.
    match goal with Hn : apply_submission_observation _ _ = Ok (Some ?s) |- _ => rename Hn into Hstep; rename s into s' end.
    pose proof (settle_legal r s' (record_durable_state r) d now _ (rep_ok _ _ _ Hrep)
      (effective_observation_ok db g o Ho) Hd Hstep) as Hlegal.
    assert (exists o', (o' = o \/ exists c, o = ObsUsableCandidateHash c /\ o' = ObsPossiblyDispatched owned_by_another)
      /\ apply_submission_observation (Some (stored_state r)) o' = Ok (Some s')) as Heff.
    { exists (effective_observation db g o). split; [|done].
      destruct o; cbn; auto. destruct (hash_owned_elsewhere _ _ _); eauto. }
    destruct (retires_combined_generation _ _) eqn:Hretire; inv_ok; (split; [done | split; [done|]]).
    + right. unfold retires_combined_generation in Hretire. inv_ok.
      assert (load_submission {| submissions := sql_delete (submissions db)
        (submission_identity_key (generation_identity g)); domain := a1 |} (generation_identity g) = Ok None) as Hnone.
      { unfold load_submission, load_row, sql_delete. cbn. by rewrite lookup_delete_eq. }
      split; [by eapply effect_holds|]. split.
      * rewrite <- (rep_record_identity _ _ _ Hrep). done.
      * cbn [stored_state settle_after_transition with_bookkeeping with_state] in *. destruct s'; try done. eauto.
    + left. eapply effect_holds; [by split | exact He|]. eapply persist_loads; try eassumption.
      by eapply transition_hashes_free.
Qed.

(** A new reservation on a recovering record: one more POST, no candidate. *)
Definition reserved_again (i : ChainSubmissionIdentity) (r : StoredChainSubmission) (db' : Database)
  (r' : StoredChainSubmission) : Prop :=
  holds i (Some (reloaded r')) db'
  /\ stored_generation_digest r' = stored_generation_digest r
  /\ committed_post_reservations r' = (committed_post_reservations r + 1)%N
  /\ exists c d, stored_state r = Recovering c d /\ stored_state r' = Recovering None d.

Lemma retry_persist_loads i old db db' r h d count now :
  identity_valid i -> table_ok (submissions db) -> submissions db !! submission_identity_key i = Some old ->
  represents i old r -> stored_state r = Recovering h d -> (committed_post_reservations r <= count)%N ->
  let r' := with_bookkeeping (with_state r (Recovering None d)) count (tracking_started_at r) (stored_diagnostic r)
              (N.max now (updated_at r)) in
  persist_mutable db r' = Ok db' -> load_submission db' i = Ok (Some (reloaded r')).
Proof.
  intros Hi Ht Hrow Hrep Hs Hcount r' H.
  pose proof (ok_state _ (rep_ok _ _ _ Hrep)) as Hst. rewrite Hs in Hst.
  eapply persist_loads; try eassumption.
  - apply bookkeeping_legal; rewrite ?Hs; try done; apply Hrep.
  - apply hashes_free_state. cbn. intros x [|]; discriminate.
Qed.

Lemma ambiguous_retry_spec i g now db r :
  identity_valid i -> holds i (Some r) db -> generation_identity g = i ->
  stored_generation_digest r = generation_digest g ->
  errs (names_at_most (Some (record_durable_state r))) (ambiguous_retry_transaction g now db)
  /\ forall db' r', ambiguous_retry_transaction g now db = Ok (db', r') ->
       reserved_again i r db' r' /\ permits_ambiguous_retry (stored_state r) = true.
Proof.
  intros Hi [Ht Hload] <- Hdig.
  destruct (load_submission_Ok _ _ _ Ht Hi Hload) as (row & Hrow & Hrep).
  assert (forall m, load_required db (generation_identity g) m = Ok r) as Hreq.
  { intros m. by apply load_required_loaded. }
  assert (permits_ambiguous_retry (stored_state r) = true -> exists d, stored_state r = Recovering None d) as Hrec.
  { destruct (stored_state r) as [| |[]| | |]; cbn; try discriminate. eauto. }
  unfold ambiguous_retry_transaction. rewrite Hreq. cbn [mbind result_bind]. split.
  - errs_auto. inv_ok. destruct Hrec as (d & Hs); [done|]. unfold record_durable_state. rewrite Hs. done.
  - intros db' r' H.
    pose proof (ambiguous_retry_effect g now db db' r' Ht Hi) as He.
    unfold ambiguous_retry_transaction in He. rewrite Hreq in He. specialize (He H). inv_ok.
    match goal with Hn : next_reservation _ = Some ?c |- _ => apply next_reservation_Some in Hn as [-> _] end.
    destruct Hrec as (d & Hs); [done|]. split; [|done].
    match goal with Hp : persist_mutable _ _ = _ |- _ => rename Hp into Hpersist end.
    assert (with_state r (Recovering None d) = r) as Hsame by (destruct r; cbn in *; by subst).
    split; [|split; [done | split; [done | eauto]]].
    eapply effect_holds; [by split | exact He|].
    pose proof (retry_persist_loads _ row db db' r None d (committed_post_reservations r + 1) now Hi Ht Hrow Hrep Hs) as Hl.
    rewrite Hsame in Hl. apply Hl; [lia | done].
Qed.

Lemma recovery_candidate_matches_true s c :
  recovery_candidate_matches s c = true -> exists d, s = Recovering c d.
Proof. destruct s as [| |c' d| | |]; cbn; try discriminate. intros ->%bool_decide_eq_true. eauto. Qed.

Lemma recovery_retry_errs q a now db r :
  load_submission db (request_identity q) = Ok (Some r) -> authorization_identity a = request_identity q ->
  errs (names_at_most (Some (record_durable_state r))) (recovery_retry_transaction q a now db).
Proof.
  intros Hload Ha.
  assert (forall m, load_required db (request_identity q) m = Ok r) as Hreq.
  { intros m. by apply load_required_loaded. }
  unfold recovery_retry_transaction. rewrite Ha, Hreq. errs_auto; [exact I|]. inv_ok.
  edestruct recovery_candidate_matches_true as (d & Hs); [eassumption|].
  unfold record_durable_state. rewrite Hs. done.
Qed.

Lemma recovery_retry_reserves q a now db r db' r' :
  identity_valid (request_identity q) -> holds (request_identity q) (Some r) db ->
  authorization_identity a = request_identity q ->
  recovery_retry_transaction q a now db = Ok (db', r') ->
  reserved_again (request_identity q) r db' r' /\ stored_generation_digest r = authorization_generation_digest a.
Proof.
  intros Hi [Ht Hload] Ha H.
  destruct (load_submission_Ok _ _ _ Ht Hi Hload) as (row & Hrow & Hrep).
  assert (forall m, load_required db (request_identity q) m = Ok r) as Hreq.
  { intros m. by apply load_required_loaded. }
  assert (identity_valid (authorization_identity a)) as Hia by (by rewrite Ha).
  pose proof (recovery_retry_effect q a now db db' r' Ht Hia H) as He.
  unfold recovery_retry_transaction in H. inv_ok.
  match goal with Hl : load_required _ _ _ = Ok _ |- _ => rewrite Ha, Hreq in Hl; injection Hl as <- end.
  edestruct recovery_candidate_matches_true as (d & Hs); [eassumption|].
  match goal with Hn : next_reservation _ = Some ?c |- _ => apply next_reservation_Some in Hn as [-> _] end.
  match goal with Hp : persist_mutable _ _ = _ |- _ => rename Hp into Hpersist end.
  rewrite Hs in Hpersist |- *. cbn [retire_candidate] in *. split; [|done].
  split; [|split; [done | split; [done | eauto]]].
  eapply effect_holds; [by split | exact He|].
  eapply (retry_persist_loads _ row db db' r); [done|done|done|done|exact Hs|lia|exact Hpersist].
Qed.

Lemma remove_errs g db r :
  load_submission db (generation_identity g) = Ok (Some r) ->
  errs (names_at_most (Some (record_durable_state r))) (remove_transaction g db).
Proof.
  intros Hload. unfold remove_transaction. rewrite (load_required_loaded _ _ _ _ Hload). errs_auto.
Qed.

Lemma remove_removes g db db' x :
  identity_valid (generation_identity g) -> table_ok (submissions db) ->
  remove_transaction g db = Ok (db', x) -> holds (generation_identity g) None db'.
Proof.
  intros Hi Ht H. unfold remove_transaction in H. inv_ok. split; [by apply table_ok_delete|].
  unfold load_submission, load_row, sql_delete. cbn [submissions with_submissions]. by rewrite lookup_delete_eq.
Qed.

(** A transaction commits its operation's result or leaves the database alone. *)
Lemma transact_cases {R} te (op : Database -> result ChainSubmissionFailure (Database * R)) db :
  (exists e, transact te op db = (db, Err e) /\ ((exists se, e = storage_error se) \/ op db = Err e)) \/
  (exists db' x, transact te op db = (db', Ok x) /\ op db = Ok (db', x)).
Proof.
  unfold transact. destruct (begin_error te); [left; eauto 10|].
  destruct (op db) as [[db' x]|e]; [|left; eauto 10].
  destruct (commit_error te); [left; eauto 10 | right; eauto].
Qed.

(** *** Confirmation *)

Lemma commit_loads db r i row t rq d v now db' c :
  holds i (Some r) db -> identity_valid i -> submissions db !! submission_identity_key i = Some row ->
  represents i row r -> derive t rq = Ok d -> confirmation_typed v ->
  commit_confirmation db r (derived_bound d) v now = Ok (db', c) ->
  exists r', c = CommitConfirmed r' /\ holds i (Some (reloaded r')) db' /\ stored_state r' = Confirmed v.
Proof.
  intros [Ht Hload] Hi Hrow Hrep Hd Hv H.
  pose proof (commit_effect db r i row t rq d v now db' c Ht Hi Hrow Hrep Hd Hv H) as He.
  unfold commit_confirmation in H. inv_ok.
  match goal with Hn : apply_submission_observation _ _ = _ |- _ => rename Hn into Hstep end.
  match goal with Hp : persist_mutable _ _ = _ |- _ => rename Hp into Hpersist end.
  pose proof (confirmed_transition _ _ _ Hstep) as ->.
  assert (confirmation_ok v) as Hok.
  { apply Hv, (layout_accepts_short t rq d); [done|].
    match goal with Hp : apply_confirmed_generation _ _ _ = _ |- _ => unfold apply_confirmed_generation in Hp;
      destruct (layout_accepts (derived_bound d) _); [done | discriminate] end. }
  eexists. split; [done|]. split; [|done]. eapply effect_holds; [by split | exact He|].
  eapply (persist_loads {| submissions := submissions db; domain := a1 |}); try eassumption.
  - apply (bookkeeping_legal r (Confirmed v)); try done; apply Hrep.
  - apply hashes_free_state. intros h Hh.
    destruct (transition_hashes _ (ObsConfirmed v) _ h Hok Hstep Hh) as [?|[?|[=]]]; auto.
Qed.

Lemma commit_errs db r b v now :
  errs (names_at_most (Some (record_durable_state r))) (commit_confirmation db r b v now).
Proof. unfold commit_confirmation. errs_auto. Qed.

(** The result of a confirmation: interrupted before the commit, or confirmed. *)
Definition confirmed_or_kept (i : ChainSubmissionIdentity) (r : StoredChainSubmission) (db' : Database)
  (c : ConfirmationCommit) : Prop :=
  (c = CommitInterrupted r /\ holds i (Some r) db') \/
  (exists r' v, c = CommitConfirmed r' /\ holds i (Some (reloaded r')) db' /\ stored_state r' = Confirmed v).

Lemma confirm_committed_errs q g c e allowed now db r :
  load_submission db (generation_identity g) = Ok (Some r) ->
  errs (names_at_most (Some (record_durable_state r))) (confirm_committed_transaction q g c e allowed now db).
Proof.
  intros Hload. unfold confirm_committed_transaction. rewrite (load_required_loaded _ _ _ _ Hload).
  errs_auto; try apply commit_errs.
Qed.

Lemma confirm_tree_errs q g van ps allowed now db r :
  load_submission db (generation_identity g) = Ok (Some r) ->
  errs (names_at_most (Some (record_durable_state r))) (confirm_tree_transaction q g van ps allowed now db).
Proof.
  intros Hload. unfold confirm_tree_transaction. rewrite (load_required_loaded _ _ _ _ Hload).
  errs_auto; try apply commit_errs.
Qed.

Lemma confirm_committed_spec q g c e allowed now db r db' x :
  identity_valid (generation_identity g) -> holds (generation_identity g) (Some r) db ->
  confirm_committed_transaction q g c e allowed now db = Ok (db', x) ->
  confirmed_or_kept (generation_identity g) r db' x.
Proof.
  intros Hi [Ht Hload] H. destruct (load_submission_Ok _ _ _ Ht Hi Hload) as (row & Hrow & Hrep).
  unfold confirm_committed_transaction, derive_for in H. inv_ok.
  match goal with Hl : load_required _ _ _ = Ok _ |- _ =>
    rewrite (load_required_loaded _ _ _ _ Hload) in Hl; injection Hl as <- end.
  destruct (negb allowed); inv_ok; [by left|]. right.
  edestruct commit_loads as (r' & -> & Hh & Hs); [by split| | | | | |eassumption|eauto]; try eassumption.
  match goal with Hv : (if ?b then _ else _) = Ok _ |- _ => destruct b end;
    eauto using validate_imported_typed, validate_hash_typed.
Qed.

Lemma confirm_tree_spec q g van ps allowed now db r db' x :
  identity_valid (generation_identity g) -> holds (generation_identity g) (Some r) db ->
  confirm_tree_transaction q g van ps allowed now db = Ok (db', x) ->
  confirmed_or_kept (generation_identity g) r db' x.
Proof.
  intros Hi [Ht Hload] H. destruct (load_submission_Ok _ _ _ Ht Hi Hload) as (row & Hrow & Hrep).
  unfold confirm_tree_transaction, derive_for in H. inv_ok.
  match goal with Hl : load_required _ _ _ = Ok _ |- _ =>
    rewrite (load_required_loaded _ _ _ _ Hload) in Hl; injection Hl as <- end.
  destruct (negb allowed); inv_ok; [by left|]. right.
  edestruct commit_loads as (r' & -> & Hh & Hs); [by split| | | | | |eassumption|eauto]; try eassumption.
  by eapply confirmation_from_tree_typed.
Qed.

(** *** Admission *)

Lemma insert_row_loads db i row r db' :
  insert_row db i (Ok row) = Ok db' -> represents i row r -> load_submission db' i = Ok (Some r).
Proof.
  intros H Hrep. unfold insert_row, sql_insert in H. cbn [mbind result_bind] in H. inv_ok.
  eapply load_submission_total; [|exact Hrep]. cbn [submissions with_submissions]. apply lookup_insert_eq.
Qed.

Lemma insert_row_errs db i row s : errs (names_at_most s) (insert_row db i row).
Proof. unfold insert_row. apply errs_map_err, errs_any. auto with voting. Qed.

Lemma guards_errs db i s :
  errs (names_at_most s) (combined_guard db i) /\ errs (names_at_most s) (delegation_guard db i)
  /\ errs (names_at_most s) (successor_guard db i).
Proof.
  unfold combined_guard, delegation_guard, successor_guard. split; [|split]; errs_auto; exact I.
Qed.

(** What admission returns about the record [o] it found. *)
Definition admission_result (q : StoreAdvancementRequest) (n now : N) (o : option StoredChainSubmission)
  (db' : Database) (x : StoreAdmission) : Prop :=
  let i := request_identity q in
  match x with
  | NoAuthoritativeState => o = None /\ holds i None db'
  | Authoritative r => holds i (Some r) db' \/ holds i (Some (reloaded r)) db'
  | Ready d r fresh =>
      holds i (Some r) db' /\ (exists t, derive t (derivation q) = Ok d)
      /\ stored_generation_digest r = generation_digest (derived_generation d)
      /\ if fresh then r = fresh_submission (derived_generation d) n now /\ is_imported_delegation q = false
         else stored_state r <> Submitting
  end.

Lemma admit_new_errs db q batch n now s : errs (names_at_most s) (admit_new db q batch n now).
Proof.
  destruct (guards_errs db (request_identity q) s) as (G1 & G2 & G3).
  unfold admit_new. errs_auto; try apply insert_row_errs; try exact I.
  - destruct batch; [exact I | apply derive_errs].
  - unfold verify_batch_roster. destruct (ordered_batch_proposal_ids q); [apply errs_fail_if|]; exact I.
Qed.

Lemma admit_new_spec db q batch n now db' x :
  identity_valid (request_identity q) -> validate_target q = Ok tt -> holds (request_identity q) None db ->
  (forall d, batch = Some d -> exists t, derive t (derivation q) = Ok d) ->
  admit_new db q batch n now = Ok (db', x) -> admission_result q n now None db' x.
Proof.
  intros Hi Hq [Ht Hload] Hbatch H.
  pose proof (load_submission_Ok _ _ _ Ht Hi Hload) as Hnone. cbn in Hnone.
  assert (effect (submissions db) (submissions db')) as He.
  { eapply admit_new_effect; [done..| |exact H]. intros d Hd. destruct (Hbatch d Hd) as (t & Hdt).
    by apply derive_identity in Hdt. }
  assert (forall r, load_submission db' (request_identity q) = Ok (Some r) -> holds (request_identity q) (Some r) db') as Hh.
  { intros r Hl. eapply effect_holds; [by split | exact He | done]. }
  unfold admit_new in H. inv_ok. destruct (is_imported_delegation q) eqn:Himp; inv_ok.
  - match goal with Hd : derive _ _ = Ok ?d |- _ => pose proof (derive_identity _ _ _ Hd) as Hgi;
      fold (request_identity q) in Hgi; rename Hd into Hderive end.
    match goal with Hins : insert_imported_delegation _ _ _ = Ok _ |- _ => unfold insert_imported_delegation in Hins;
      destruct (insert_row_Ok _ _ _ _ Hins) as (row & Hrow); rewrite Hrow in Hins; rename Hins into Hinsert end.
    assert (target (request_identity q) = TargetDelegation) as Htarget.
    { unfold is_imported_delegation, validate_target in *. destruct (derivation q); try discriminate.
      by destruct (target (request_identity q)). }
    destruct (imported_row_represents _ _ _ _ _ Hi Hgi Htarget Hrow) as (Hrep & _).
    cbn [stored_identity adopted_imported_delegation] in Hinsert. rewrite Hgi in Hinsert.
    split; [apply Hh; by eapply insert_row_loads|]. split; [eauto|]. done.
  - match goal with Hd : match batch with _ => _ end = Ok ?d |- _ =>
      assert (exists t, derive t (derivation q) = Ok d) as Hderive by (destruct batch; inv_ok; eauto) end.
    destruct Hderive as (t & Hderive). pose proof (derive_identity _ _ _ Hderive) as Hgi. fold (request_identity q) in Hgi.
    match goal with Hins : insert_fresh _ _ = Ok _ |- _ => unfold insert_fresh in Hins;
      destruct (insert_row_Ok _ _ _ _ Hins) as (row & Hrow); rewrite Hrow in Hins; rename Hins into Hinsert end.
    destruct (fresh_row_represents _ _ _ _ _ Hi Hgi Hrow) as (Hrep & _).
    cbn [stored_identity fresh_submission] in Hinsert. rewrite Hgi in Hinsert.
    split; [apply Hh; by eapply insert_row_loads|]. split; [eauto|]. done.
Qed.

(** A failure reports the record: a durable state it names is the one on record,
    and when it says that a dispatch may have happened there is a record. *)
Definition truthful_failure (o : option StoredChainSubmission) (e : ChainSubmissionFailure) : Prop :=
  match strongest_state e with
  | None => True
  | Some f =>
      match failure_evidence f with
      | EvidenceDurable => exists r, o = Some r /\ record_durable_state r = failure_state f
      | KnownPossiblyDispatched => is_Some o
      end
  end.

Lemma names_truthful o e : names_at_most (record_durable_state <$> o) e -> truthful_failure o e.
Proof.
  unfold names_at_most, truthful_failure. destruct (strongest_state e) as [f|]; [|done].
  intros [-> Hs]. destruct o; [|done]. injection Hs. eauto.
Qed.

Lemma possible_truthful r e : truthful_failure (Some r) (possible_dispatch_error e).
Proof. cbn. eauto. Qed.

Lemma normalize_spec db r now db' r' :
  identity_valid (stored_identity r) -> holds (stored_identity r) (Some r) db -> is_submitting r = true ->
  normalize_abandoned db r now = Ok (db', r') -> holds (stored_identity r) (Some (reloaded r')) db'.
Proof.
  intros Hi [Ht Hload] Hsub H. destruct (load_submission_Ok _ _ _ Ht Hi Hload) as (row & Hrow & Hrep).
  pose proof (normalize_effect db r now _ row db' r' Ht Hi Hrow Hrep Hsub H) as He.
  unfold is_submitting in Hsub. destruct (stored_state r) eqn:Es; try discriminate.
  unfold normalize_abandoned in H. rewrite Es in H. cbn in H. inv_ok.
  eapply effect_holds; [by split | exact He|]. eapply persist_loads; try eassumption.
  - apply (bookkeeping_legal r (Recovering None abandoned_diagnostic)); rewrite ?Es; try done;
      try apply from_redacted_message_ok; apply Hrep.
  - apply hashes_free_state. cbn. intros h [|]; discriminate.
Qed.

Lemma admit_existing_spec db q r batch db' x n now :
  (forall d, batch = Some d -> exists t, derive t (derivation q) = Ok d) ->
  holds (request_identity q) (Some r) db -> is_submitting r = false ->
  admit_existing db q r batch = Ok (db', x) -> admission_result q n now (Some r) db' x.
Proof.
  intros Hbatch Hh Hsub H. unfold admit_existing in H. inv_ok.
  destruct (terminal_record r); cbn [admission_result]; [by left|]. split; [done|]. split.
  - destruct batch; inv_ok; [eauto|]. unfold derive_for in *. inv_ok. eauto.
  - unfold ensure_generation in *. inv_ok. split; [done|]. intros E. unfold is_submitting in Hsub. by rewrite E in Hsub.
Qed.

Lemma batch_derivation_errs db q o :
  errs (names_at_most (record_durable_state <$> o))
    (if is_batch q then derived ← derive_for db q o; _ ← verify_roster_for q derived o; Ok (Some derived) else Ok None).
Proof.
  destruct (is_batch q); [|exact I]. apply errs_bind; [apply derive_for_errs|]. intros d _.
  apply errs_bind; [apply verify_roster_errs|]. intros u _. exact I.
Qed.

Lemma batch_derivation_derives db q o b :
  (if is_batch q then derived ← derive_for db q o; _ ← verify_roster_for q derived o; Ok (Some derived) else Ok None) = Ok b ->
  forall d, b = Some d -> exists t, derive t (derivation q) = Ok d.
Proof. intros H d ->. destruct (is_batch q); inv_ok. unfold derive_for in *. inv_ok. eauto. Qed.

Lemma admit_transaction_spec q work n now db o db' x :
  identity_valid (request_identity q) -> validate_target q = Ok tt -> holds (request_identity q) o db ->
  admit_transaction q work n now db = Ok (db', x) -> admission_result q n now o db' x.
Proof.
  intros Hi Hq [Ht Hload] H. unfold admit_transaction in H. rewrite Hload in H. apply result_bind_Ok in H as (o' & [= <-] & H).
  destruct o as [r|].
  - destruct (load_submission_Ok _ _ _ Ht Hi Hload) as (row & Hrow & Hrep).
    destruct (is_submitting r) eqn:Hsub.
    + apply result_bind_Ok in H as ([db2 r2] & Hn & [= <- <-]). cbn. right.
      pose proof (rep_record_identity _ _ _ Hrep) as Hri. rewrite <- Hri.
      eapply normalize_spec; rewrite ?Hri; try eassumption; by split.
    + destruct (negb work); [injection H as <- <-; left; by split|].
      apply result_bind_Ok in H as (b & Hb & H).
      eapply admit_existing_spec; [|by split|done|exact H]. by eapply batch_derivation_derives.
  - destruct (negb work); [injection H as <- <-; split; [done|by split]|].
    apply result_bind_Ok in H as (b & Hb & H).
    eapply admit_new_spec; [done|done|by split| |exact H]. by eapply batch_derivation_derives.
Qed.

Lemma admit_transaction_errs q work n now db o :
  load_submission db (request_identity q) = Ok o ->
  (forall r, o = Some r -> is_submitting r = false) ->
  errs (names_at_most (record_durable_state <$> o)) (admit_transaction q work n now db).
Proof.
  intros Hload Hsub. unfold admit_transaction. rewrite Hload. apply errs_bind_Ok. destruct o as [r|].
  - rewrite (Hsub r eq_refl). destruct (negb work); [exact I|].
    apply errs_bind; [apply (batch_derivation_errs db q (Some r))|]. intros b _.
    unfold admit_existing. errs_auto. { destruct b; [exact I|]. apply derive_for_loaded_errs. }
    { apply verify_roster_errs. }
    { apply ensure_generation_errs. }
  - destruct (negb work); [exact I|]. apply errs_bind; [apply (batch_derivation_errs db q None)|].
    intros b _. apply admit_new_errs.
Qed.

Lemma admit_submission_spec te q work n now db o :
  identity_valid (request_identity q) -> holds (request_identity q) o db ->
  let '(db', x) := admit_submission te q work n now db in
  match x with
  | Ok x => admission_result q n now o db' x
  | Err e => db' = db /\ truthful_failure o e
  end.
Proof.
  intros Hi Hh. unfold admit_submission. destruct (validate_target q) as [[]|e] eqn:Hq.
  2: { split; [done|]. apply names_truthful. unfold validate_target in Hq.
       destruct (derivation q), (target (request_identity q)); inv_ok; exact I. }
  destruct Hh as [Ht Hload].
  destruct (transact_cases te (admit_transaction q work n now) db) as [(e & Htr & He)|(db' & x & Htr & Hok)]; rewrite Htr.
  - destruct (normalizes_abandoned te q db) eqn:En; cbn [map_err]; (split; [done|]);
      unfold normalizes_abandoned in En; rewrite Hload in En.
    + destruct (begin_error te), o; try discriminate. apply possible_truthful.
    + apply names_truthful. unfold transact in Htr. destruct (begin_error te); [injection Htr as <-; exact I|].
      destruct He as [[se ->]|He]; [exact I|].
      assert (forall r, o = Some r -> is_submitting r = false) as Hsub by by intros r ->.
      pose proof (admit_transaction_errs q work n now db _ Hload Hsub) as Hx. by rewrite He in Hx.
  - destruct (normalizes_abandoned te q db); cbn [map_err]; eapply admit_transaction_spec; try eassumption; by split.
Qed.

End records.
