(* ===== verification/CoordinatorPass.v ===== *)
(** * An advancement pass, end to end

    The invariant of one pass of the coordinator: the record of the leased
    submission, the POSTs made so far with the reservations they were made
    under, and the in-flight registry. From it, what the host can rely on: every
    POST follows its durable reservation, the pass always ends, and its report
    is true of the record on file. *)

From S2P Require Import Prelude Types Diagnostics SubmissionState Identity Coordination Generation Confirmation.
From S2P Require Import StoreRow StoreRowFacts Store StoreFacts StoreInvariant Protocol Tree Recovery.
From S2P Require Import Coordinator CoordinatorFacts.

(** ** Diagnostics of the protocol and of the scan *)

Section answers.
Context `{ST : StoreTables, B64 : Base64Crate, HX : HexCrate, SH : Sha256Crate, RQ : RusqliteCrate}.
Context {SJ : SerdeJson} {WJ : WireJson} {RJ : RecoveryJson} {PC : PoseidonCrate} {FC : FrontierCrate}.

(** Every diagnostic of an outcome went through redaction. *)
Definition outcome_ok (o : PostAttemptOutcome) : Prop :=
  match o with
  | PostPossiblyDispatched d | PostRejected _ _ d _ | PostLocalFailure d => diagnostic_ok d
  | _ => True
  end.

Definition lookup_failure_ok (f : LookupFailure) : Prop :=
  match f with LookupProtocol d => diagnostic_ok d | LookupTransport _ => True end.

Definition scan_failure_ok (f : RecoveryScanFailure) : Prop :=
  match f with ScanInvalid d => diagnostic_ok d | _ => True end.

Lemma validate_json_errs r : errs diagnostic_ok (validate_json_response r).
Proof. unfold validate_json_response. errs_auto; apply from_redacted_message_ok. Qed.

Lemma classify_result_ok status parsed : outcome_ok (classify_result status parsed).
Proof.
  unfold classify_result. case_bool_decide.
  { destruct (hash ← result_tx_hash parsed; normalize_candidate_hash hash); [exact I | apply from_redacted_message_ok]. }
  case_bool_decide; [destruct (rejected_candidate _) | case_bool_decide]; apply from_redacted_message_ok.
Qed.

Lemma route_answers_ok r endpoint d :
  gateway_shaped_route_answer r endpoint = Some d \/ replaced_route_answer r endpoint = Some d -> diagnostic_ok d.
Proof.
  unfold gateway_shaped_route_answer, replaced_route_answer. destruct (oversized r); [naive_solver|].
  intros [H|H].
  - destruct (negb _ || _); [discriminate|]. destruct (parse_gateway_error _); [|discriminate].
    injection H as <-. apply from_redacted_message_ok.
  - destruct (bool_decide _ || _); [|discriminate]. injection H as <-. apply from_redacted_message_ok.
Qed.

Lemma parse_post_response_ok r endpoint expected : outcome_ok (parse_post_response r endpoint expected).
Proof.
  unfold parse_post_response.
  destruct (gateway_shaped_route_answer r endpoint) eqn:Hg; [by apply (route_answers_ok r endpoint); left|].
  destruct (replaced_route_answer r endpoint) eqn:Hr; [by apply (route_answers_ok r endpoint); right|].
  pose proof (validate_json_errs r) as Hv. destruct (validate_json_response r); [|exact Hv].
  destruct (parse_transaction_result _); [|apply from_redacted_message_ok].
  destruct (batch_digest_problem _ _); [apply from_redacted_message_ok | apply classify_result_ok].
Qed.

Lemma post_serialized_ok p i endpoint label body expected a :
  outcome_ok (post_serialized p i endpoint label body expected a).
Proof.
  unfold post_serialized. destruct body; [|apply from_redacted_message_ok]. unfold post.
  destruct (post_refused _ _ _); [apply from_redacted_message_ok|].
  destruct a as [[]|[r|e]]; cbn [classify_answer]; try apply from_redacted_message_ok; try exact I.
  - apply parse_post_response_ok.
  - case_bool_decide; [exact I | apply from_redacted_message_ok].
Qed.

(** The request derived for a target is one its endpoint takes. *)
Lemma submit_to_endpoint_total client t r d e a :
  derive t r = Ok d -> (match r with DeriveVoteBatch i => match target i with
                          | TargetVoteBatch _ | TargetDelegateAndVoteBatch _ => True | _ => False end | _ => True end) ->
  exists o, submit_to_endpoint client e d a = Some o /\ outcome_ok o.
Proof.
  intros Hd Hr. unfold submit_to_endpoint. rewrite (derive_identity _ _ _ Hd).
  destruct r as [i sig|i|i|i]; unfold derive in Hd; inv_ok; cbn [derivation_identity].
  - unfold derive_delegation in Hd. inv_ok. eexists. split; [done|]. apply post_serialized_ok.
  - unfold derive_imported_delegation in Hd. inv_ok. eexists. split; [done|]. apply from_redacted_message_ok.
  - unfold derive_vote in Hd. inv_ok. eexists. split; [done|]. apply post_serialized_ok.
  - unfold derive_vote_batch in Hd. inv_ok. destruct (target i) as [| |digest|digest] eqn:Et; try done; inv_ok;
      eexists; (split; [done|]); apply post_serialized_ok.
Qed.

Lemma parse_status_errs r : errs diagnostic_ok (parse_status_response r).
Proof.
  unfold parse_status_response. errs_auto; try apply from_redacted_message_ok; try apply validate_json_errs.
Qed.

Lemma status_loop_errs answers saw failure :
  match failure with Some f => lookup_failure_ok f | None => True end ->
  errs lookup_failure_ok (status_loop answers saw failure).
Proof.
  revert saw failure. induction answers as [|a answers IH]; intros saw failure Hf; cbn [status_loop].
  - destruct saw; [exact I|]. destruct failure; [done|]. apply from_redacted_message_ok.
  - assert (errs lookup_failure_ok (observe_status a)) as Ha.
    { destruct a as [[]|[r|e]]; try exact I. cbn. pose proof (parse_status_errs r). by destruct (parse_status_response r). }
    destruct (observe_status a) as [[]|e]; try exact I; apply IH; first [exact Hf | exact Ha].
Qed.

Lemma lookup_diagnostic_ok f : lookup_failure_ok f -> diagnostic_ok (lookup_diagnostic f).
Proof. destruct f; intros H; first [exact H | apply from_redacted_message_ok]. Qed.

(** *** The scan *)

Lemma get_json_errs {R} b a (parse : bytes -> option R) : errs scan_failure_ok (get_json_with_size b a parse).
Proof.
  unfold get_json_with_size. destruct b; [exact I|]. destruct a as [[]|[r|e]]; try exact I.
  destruct (_ || _); [apply from_redacted_message_ok|]. destruct (parse _); [exact I | apply from_redacted_message_ok].
Qed.

Lemma decode_leaf_errs encoded label : errs scan_failure_ok (decode_leaf encoded label).
Proof. unfold decode_leaf. errs_auto; try apply errs_ok_or; apply from_redacted_message_ok. Qed.

Lemma read_snapshot_errs latest : errs scan_failure_ok (read_snapshot latest).
Proof.
  unfold read_snapshot. errs_auto; try apply from_redacted_message_ok; try exact I.
  destruct (tree_state_root _) as [[|c value]|].
  2: { apply errs_bind; [apply decode_leaf_errs|]. intros; exact I. }
  all: match goal with |- errs _ (if ?b then _ else _) => destruct b end; [exact I | apply from_redacted_message_ok].
Qed.

Lemma scan_leaf_errs snapshot expected s encoded : errs scan_failure_ok (scan_leaf snapshot expected s encoded).
Proof.
  unfold scan_leaf. errs_auto; try apply from_redacted_message_ok; try apply decode_leaf_errs; exact I.
Qed.

Lemma scan_leaves_errs snapshot expected encoded s : errs scan_failure_ok (scan_leaves snapshot expected s encoded).
Proof.
  revert s. induction encoded as [|e encoded IH]; intros s; [exact I|]. cbn [scan_leaves].
  apply errs_bind; [apply scan_leaf_errs | intros; apply IH].
Qed.

Lemma scan_block_errs snapshot expected s b : errs scan_failure_ok (scan_block snapshot expected s b).
Proof.
  unfold scan_block.
  errs_auto; try apply from_redacted_message_ok; try apply decode_leaf_errs; try apply scan_leaves_errs; exact I.
Qed.

Lemma scan_page_errs snapshot expected s from page : errs scan_failure_ok (scan_page snapshot expected s from page).
Proof.
  unfold scan_page. errs_auto; try apply from_redacted_message_ok.
  generalize s. induction (page_blocks page) as [|b blocks IH]; intros s'; [exact I|]. cbn [scan_blocks].
  apply errs_bind; [apply scan_block_errs | intros; apply IH].
Qed.

Lemma scan_pages_errs fuel env snapshot expected s from n total r :
  scan_pages fuel env snapshot expected s from n total = Some r -> errs scan_failure_ok r.
Proof.
  revert s from n total. induction fuel as [|fuel IH]; intros s from n total H; cbn [scan_pages] in H; [discriminate|].
  case_bool_decide; [by injection H as <-|]. destruct (scan_interrupted_before env n); [by injection H as <-|].
  destruct (_ || _); [injection H as <-; apply from_redacted_message_ok|].
  pose proof (get_json_errs (scan_interrupted_request env (S n)) (scan_answer env (S n)) parse_leaves) as Hg.
  destruct (get_json_with_size _ _ _) as [[page size]|e]; [|injection H as <-; exact Hg].
  case_bool_decide; [injection H as <-; apply from_redacted_message_ok|].
  pose proof (scan_page_errs snapshot expected s from page) as Hp.
  destruct (scan_page _ _ _ _ _) as [[s2 from2]|e]; [by eapply IH | injection H as <-; exact Hp].
Qed.

(** The scan always ends; a proof that the layout is absent authorizes a retry of
    this generation only. *)
Lemma scan_exact_layout_ends p env d (candidate : option CandidateTransactionHash) :
  exists r, scan_exact_layout p env d candidate = Some r /\ errs scan_failure_ok r
    /\ forall a, r = Ok (ScanNoMatch a) -> authorization_identity a = generation_identity (derived_generation d)
         /\ authorization_candidate a = candidate.
Proof.
  unfold scan_exact_layout. case_bool_decide; [eexists; split; [done|]; by split; [apply from_redacted_message_ok|]|].
  pose proof (get_json_errs (scan_interrupted_request env 0) (scan_answer env 0) parse_latest) as Hg.
  destruct (get_json_with_size _ _ _) as [[latest size]|e]; [|eexists; split; [done|]; by split].
  pose proof (read_snapshot_errs latest) as Hs. destruct (read_snapshot latest) as [snapshot|e];
    [|eexists; split; [done|]; by split].
  destruct (scan_pages_total scan_fuel env snapshot (leaves (expected_layout (derived_bound d))) scan_start 0 0 size)
    as [r Hr]; [unfold MAX_RECOVERY_LEAF_REQUESTS; lia | unfold scan_fuel; lia|].
  cbv zeta. rewrite Hr. cbn [mbind option_bind]. eexists. split; [done|]. pose proof (scan_pages_errs _ _ _ _ _ _ _ _ _ Hr) as He.
  destruct r as [s|e]; [|by split]. cbn [mbind result_bind]. unfold finish_scan.
  destruct (scan_expired_end env); [by split; [apply from_redacted_message_ok|]|].
  destruct (match snapshot_root snapshot with Some _ => _ | None => _ end); [by split; [apply from_redacted_message_ok|]|].
  destruct (scan_match_start s); (split; [exact I|]); [discriminate|]. by intros a [= <-].
Qed.
End answers.

(** ** The invariant *)

(** [x] is [r] as the database has it: the same, or with its diagnostics reloaded. *)
Definition filed (r x : StoredChainSubmission) : Prop := x = r \/ x = reloaded r.

Lemma filed_state r x :
  filed r x -> stored_state x = stored_state r \/ stored_state x = redacted_state (stored_state r).
Proof. intros [->| ->]; [by left|]. right. unfold reloaded. by destruct (mutable_columns r) as [[??]?]. Qed.

Lemma filed_same r x : filed r x ->
  committed_post_reservations x = committed_post_reservations r
  /\ stored_generation_digest x = stored_generation_digest r
  /\ record_durable_state x = record_durable_state r.
Proof.
  intros [->| ->]; [done|]. unfold record_durable_state, reloaded. destruct (mutable_columns r) as [[??]?].
  split; [done|]. split; [done|]. cbn. by destruct (stored_state r).
Qed.

Lemma filed_submitting r x : filed r x -> stored_state r = Submitting -> stored_state x = Submitting.
Proof. intros [H|H]%filed_state E; by rewrite H, E. Qed.

Lemma filed_recovering r x c d :
  filed r x -> stored_state r = Recovering c d -> exists d', stored_state x = Recovering c d'
    /\ diagnostic_kind d' = diagnostic_kind d.
Proof. intros [H|H]%filed_state E; rewrite H, E; cbn; eauto. Qed.

Section pass.
Context `{ST : StoreTables, B64 : Base64Crate, HX : HexCrate, SH : Sha256Crate, RQ : RusqliteCrate}.
Context {SJ : SerdeJson} {WJ : WireJson} {RJ : RecoveryJson} {PC : PoseidonCrate} {FC : FrontierCrate}.
Context (env : Env) (client : ChainProtocolClient) (policy : CoordinatorPolicy).
Context (q : StoreAdvancementRequest) (operation_epoch : N) (recovery : ChainRecoveryMode).

(** The operation lease: whoever else writes keeps the table legal and leaves the
    leased row alone. *)
Definition lease_respected : Prop := forall t db, table_ok (submissions db) ->
  table_ok (submissions (env_interference env t db))
  /\ submissions (env_interference env t db) !! submission_identity_key (request_identity q)
     = submissions db !! submission_identity_key (request_identity q).

(** What a pass relies on: a well-formed identity, the lease, a constructed
    policy and client, and clock and lease failures that name no state. *)
Record pass_environment : Prop := {
  pass_identity : identity_valid (request_identity q);
  pass_lease : lease_respected;
  pass_clock : forall t, errs (fun e => strongest_state e = None) (env_now env t);
  pass_acquire : forall t e, env_acquire_error env t = Some e -> strongest_state e = None;
  pass_policy : length (retry_backoffs policy) + 1 = maximum_post_attempts policy;
  pass_endpoints : endpoint_count client <> 0
}.

(** One POST follows its reservation: at the moment it is made, the submission is
    on record with the posted generation, unclassified or recovering without a
    candidate, and the reservation count picks the endpoint. *)
Definition post_reserved (p : PostEvent) : Prop :=
  is_imported_delegation q = false
  /\ generation_identity (post_generation p) = request_identity q
  /\ post_endpoint p = (N.to_nat (post_reservations p) - 1) mod endpoint_count client
  /\ (0 < post_reservations p)%N
  /\ exists x, holds (request_identity q) (Some x) (post_database p)
       /\ stored_generation_digest x = generation_digest (post_generation p)
       /\ committed_post_reservations x = post_reservations p
       /\ (stored_state x = Submitting \/ exists d, stored_state x = Recovering None d).

(** The sample of the host's control right before a step showed no interruption. *)
Definition permitted_at (tick : nat) : Prop :=
  exists t, tick = S t /\ interruption_at env operation_epoch t = None.

(** At most [k] POSTs, each permitted and reserved, under increasing counts up to [b]. *)
Definition journal (b : N) (k : nat) (ps : list PostEvent) : Prop :=
  Forall (fun p => post_reserved p /\ permitted_at (post_tick p)) ps /\ StronglySorted N.lt (post_reservations <$> ps)
  /\ Forall (fun p => post_reservations p <= b)%N ps /\ length ps <= k.

(** Registered keys have a live guard. *)
Definition registry_ok (R : InFlightRegistry) : Prop := forall key n, in_flight R !! key = Some n -> 0 < n.

Definition framed (R : InFlightRegistry) (b : N) (k : nat) (w : World) : Prop :=
  (world_registry w = R /\ registry_ok R) /\ journal b k (world_posts w).

Definition standing (R : InFlightRegistry) (o : option StoredChainSubmission) (b : N) (k : nat) (w : World) : Prop :=
  holds (request_identity q) o (world_db w) /\ framed R b k w.

(** What the coordinator has in hand is on file. *)
Definition on_file (R : InFlightRegistry) (o : option StoredChainSubmission) (b : N) (k : nat) (w : World) : Prop :=
  exists x, option_Forall2 filed o x /\ standing R x b k w.

Definition ended (R : InFlightRegistry) (P : option StoredChainSubmission -> Prop) (w : World) : Prop :=
  exists o b, standing R o b (maximum_post_attempts policy) w /\ P o.

(** A result reports the record: a cancellation that there is none, a rejection of
    a combined submission possibly its retirement, anything else what is on file. *)
Definition truthful_result (o : option StoredChainSubmission) (p : ChainSubmissionResult) : Prop :=
  match p with
  | ResultCancelled => o = None
  | _ =>
      (exists r x, o = Some x /\ filed r x /\ public_result r = Ok p)
      \/ (o = None /\ is_combined (target (request_identity q)) = true /\ exists d, p = ResultRejected d)
  end.

Definition told (R : InFlightRegistry) (p : ChainSubmissionResult) (w : World) : Prop :=
  ended R (fun o => truthful_result o p) w.

(** [m] does not panic, its failures are truthful, and [Q] holds of its value. *)
Definition runs {A} (R : InFlightRegistry) (m : prog A) (Q : A -> World -> Prop) (w : World) : Prop :=
  wp m (fun w' out => match out with
                      | Value a => Q a w'
                      | Fails e => ended R (fun o => truthful_failure o e) w'
                      | Panics => False
                      end) w.

Lemma runs_mono {A} R (m : prog A) (Q Q' : A -> World -> Prop) w :
  runs R m Q w -> (forall a w', Q a w' -> Q' a w') -> runs R m Q' w.
Proof. intros H HQ. eapply wp_mono; [exact H|]. intros w' []; auto. Qed.

Lemma runs_bind {A B} R (m : prog A) (f : A -> prog B) Q w :
  runs R m (fun a w' => runs R (f a) Q w') w -> runs R (m ≫= f) Q w.
Proof. intros H. apply wp_bind. eapply wp_mono; [exact H|]. intros w' []; auto. Qed.

Lemma runs_ret {A} R (a : A) (Q : A -> World -> Prop) w : Q a w -> runs R (mret a) Q w.
Proof. done. Qed.

Lemma runs_raise {A} R e (Q : A -> World -> Prop) w :
  ended R (fun o => truthful_failure o e) w -> runs R (raise e) Q w.
Proof. done. Qed.

Lemma standing_weaken R o b b' k k' w :
  standing R o b k w -> (b <= b')%N -> k <= k' -> standing R o b' k' w.
Proof.
  intros (Hh & HR & Hp & Hs & Hb & Hk) ? ?. split; [done|]. split; [done|]. split; [done|]. split; [done|].
  split; [|lia]. eapply Forall_impl; [exact Hb|]. cbn. lia.
Qed.

Lemma standing_db R o o' b k w db : standing R o b k w -> holds (request_identity q) o' db -> standing R o' b k (with_db w db).
Proof. intros (_ & HR & Hj) Hh. by split. Qed.

Lemma standing_ended R o b k w (P : option StoredChainSubmission -> Prop) :
  standing R o b k w -> k <= maximum_post_attempts policy -> P o -> ended R P w.
Proof. intros H Hk HP. exists o, b. split; [|done]. by eapply standing_weaken. Qed.

Lemma standing_on_file R o b k w : standing R o b k w -> on_file R o b k w.
Proof. exists o. split; [|done]. destruct o; constructor. by left. Qed.

Lemma on_file_weaken R o b b' k k' w : on_file R o b k w -> (b <= b')%N -> k <= k' -> on_file R o b' k' w.
Proof. intros (x & Hx & H) ??. exists x. split; [done|]. by eapply standing_weaken. Qed.

(** *** Failures that name the state of the record in hand *)

Definition reports (o : option StoredChainSubmission) (f : ChainSubmissionFailure -> ChainSubmissionFailure) : Prop :=
  forall x e, option_Forall2 filed o x -> names_at_most (record_durable_state <$> x) e -> truthful_failure x (f e).

Lemma durable_truthful r x k m s :
  record_durable_state r = s -> option_Forall2 filed (Some r) x -> truthful_failure x (with_durable_state k s m).
Proof. intros <- Hx. inversion Hx as [? y Hf|]; subst. apply filed_same in Hf as (_ & _ & Hd). cbn. eauto. Qed.

Lemma reports_attach r s : record_durable_state r = s -> reports (Some r) (attach_state s).
Proof.
  intros Hs x e Hx He. unfold attach_state. destruct (strongest_state e) eqn:Es; [by apply names_truthful|].
  by eapply durable_truthful.
Qed.

Lemma reports_at r s : record_durable_state r = s -> reports (Some r) (at_state s).
Proof. intros Hs x e Hx He. by eapply durable_truthful. Qed.

Lemma reports_possible r : reports (Some r) possible_dispatch_error.
Proof. intros x e Hx _. inversion Hx. apply possible_truthful. Qed.

Lemma reports_plain o : reports o (fun e => e).
Proof. intros x e _ He. by apply names_truthful. Qed.

Lemma on_file_fails R o b k w e :
  on_file R o b k w -> k <= maximum_post_attempts policy ->
  (forall x, option_Forall2 filed o x -> truthful_failure x e) -> ended R (fun x => truthful_failure x e) w.
Proof. intros (x & Hx & H) Hk He. eapply standing_ended; eauto. Qed.

Lemma runs_fail {A} R r s b k w kind m (Q : A -> World -> Prop) :
  on_file R (Some r) b k w -> k <= maximum_post_attempts policy -> record_durable_state r = s ->
  runs R (raise (with_durable_state kind s m)) Q w.
Proof. intros H Hk Hs. eapply runs_raise, on_file_fails; eauto using durable_truthful. Qed.

Lemma runs_public R r b k w :
  on_file R (Some r) b k w -> k <= maximum_post_attempts policy -> runs R (public r) (told R) w.
Proof.
  intros (x & Hx & H) Hk. unfold public. destruct (public_result r) as [p|e] eqn:Hp; cbn [lift].
  - apply runs_ret. eapply standing_ended; [done|done|]. inversion Hx as [? y Hf|]; subst.
    unfold public_result in Hp.
    destruct (stored_state r) eqn:Es; try discriminate; injection Hp as <-; cbn; left;
      exists r, y; unfold public_result; by rewrite Es.
  - apply runs_raise. eapply standing_ended; [done|done|].
    assert (record_durable_state r = DurableSubmitting /\
      exists m, e = with_durable_state InvariantViolation DurableSubmitting m) as [Hd [m ->]].
    { unfold public_result in Hp. unfold record_durable_state. destruct (stored_state r); inv_ok; eauto. }
    by eapply durable_truthful.
Qed.

(** *** Steps of the environment *)

Context (Henv : pass_environment).

Lemma wp_ask_tick {A} (f : nat -> A) R o b k w (Q : World -> outcome A -> Prop) :
  on_file R o b k w ->
  (forall t w', on_file R o b k w' -> world_tick w' = S t -> Q w' (Value (f t))) -> wp (ask env f) Q w.
Proof.
  intros (x & Hx & (Ht & Hl) & HR & Hj) HQ. apply HQ; [|done]. exists x. split; [done|]. split; [|done]. cbn [world_db].
  destruct (pass_lease Henv (world_tick w) (world_db w) Ht) as [Ht' Hrow]. split; [done|].
  unfold load_submission, load_row in *. by rewrite Hrow.
Qed.

Lemma wp_ask {A} (f : nat -> A) R o b k w (Q : World -> outcome A -> Prop) :
  on_file R o b k w -> (forall t w', on_file R o b k w' -> Q w' (Value (f t))) -> wp (ask env f) Q w.
Proof. intros H HQ. eapply wp_ask_tick; eauto. Qed.

Lemma runs_ask {A} (f : nat -> A) R o b k w (Q : A -> World -> Prop) :
  on_file R o b k w -> (forall t w', on_file R o b k w' -> Q (f t) w') -> runs R (ask env f) Q w.
Proof. intros H HQ. by eapply wp_ask. Qed.

Lemma runs_interrupted R o b k w (Q : bool -> World -> Prop) :
  on_file R o b k w -> (forall s w', on_file R o b k w' -> Q s w') -> runs R (interrupted env operation_epoch) Q w.
Proof. intros H HQ. apply runs_bind. eapply runs_ask; [exact H|]. intros t w' H'. by apply runs_ret, HQ. Qed.

(** A sample of the control that shows no interruption permits the next step. *)
Lemma runs_sample R o b k w (Q : bool -> World -> Prop) :
  on_file R o b k w -> (forall s w', on_file R o b k w' -> (s = false -> permitted_at (world_tick w')) -> Q s w') ->
  runs R (interrupted env operation_epoch) Q w.
Proof.
  intros H HQ. apply runs_bind. eapply wp_ask_tick; [exact H|]. intros t w' H' Ht. apply runs_ret, HQ; [done|].
  intros Hs. exists t. split; [done|]. apply bool_decide_eq_false, eq_None_not_Some in Hs. done.
Qed.

Lemma runs_clock f R o b k w (Q : N -> World -> Prop) :
  on_file R o b k w -> k <= maximum_post_attempts policy -> reports o f ->
  (forall n w', on_file R o b k w' -> Q n w') -> runs R (map_failure f (now_seconds env)) Q w.
Proof.
  intros H Hk Hf HQ. apply wp_map_failure, wp_bind. eapply (wp_ask _ R o b k); [exact H|]. intros t w' H'.
  pose proof (pass_clock Henv t) as Hc. apply wp_lift. destruct (env_now env t) as [n|e]; [by apply HQ|].
  eapply on_file_fails; [done|done|]. intros x Hx. apply Hf; [done|]. unfold names_at_most. by rewrite Hc.
Qed.

(** A transaction on the leased record. *)
Lemma runs_transact {A} f (tx : Database -> result ChainSubmissionFailure (Database * A)) R o b k w
  (Q : A -> World -> Prop) :
  on_file R o b k w -> k <= maximum_post_attempts policy -> reports o f ->
  (forall x db, option_Forall2 filed o x -> holds (request_identity q) x db ->
     errs (names_at_most (record_durable_state <$> x)) (tx db)
     /\ forall db' a w', tx db = Ok (db', a) -> world_db w' = db' -> framed R b k w' -> Q a w') ->
  runs R (map_failure f (store env (fun te => transact te tx))) Q w.
Proof.
  intros H Hk Hf Htx. apply wp_map_failure, wp_bind. eapply (wp_ask _ R o b k); [exact H|].
  intros t w' (x & Hx & Hh & HF). destruct (Htx x (world_db w') Hx Hh) as [Herr Hok].
  unfold wp, on_database. destruct (transact_cases (env_transaction env t) tx (world_db w'))
    as [(e & -> & He)|(db' & a & -> & Ha)]; cbn.
  - exists x, b. split; [by eapply standing_weaken; [split|..]|]. apply Hf; [done|].
    destruct He as [[se ->]|He]; [exact I|]. by rewrite He in Herr.
  - by eapply Hok.
Qed.

(** *** Store operations *)

Definition for_record (g : ChainSubmissionGeneration) (r : StoredChainSubmission) : Prop :=
  generation_identity g = request_identity q /\ stored_generation_digest r = generation_digest g.

Lemma for_filed g r x : for_record g r -> filed r x -> for_record g x.
Proof. intros [Hi Hd] (_ & Hx & _)%filed_same. split; [done|]. by rewrite Hx. Qed.

(** The record in hand after an observation of [r]. *)
Definition after (R : InFlightRegistry) (r : StoredChainSubmission) (o : SubmissionObservation) (b : N) (k : nat)
  (r' : StoredChainSubmission) (w : World) : Prop :=
  exists x, filed r x /\ observed (request_identity q) x o (world_db w) r' /\ framed R b k w.

Lemma runs_observe f g o d n r R b k w (Q : StoredChainSubmission -> World -> Prop) :
  on_file R (Some r) b k w -> k <= maximum_post_attempts policy -> reports (Some r) f -> for_record g r ->
  observation_ok o -> diagnostic_legal d -> (forall r' w', after R r o b k r' w' -> Q r' w') ->
  runs R (map_failure f (store env (fun te => reconcile te g o d n))) Q w.
Proof.
  intros H Hk Hf Hg Ho Hd HQ. eapply (runs_transact f (observation_transaction g o d n)); try eassumption.
  intros y db Hy Hh. inversion Hy as [? x Hx|]; subst. destruct (for_filed _ _ _ Hg Hx) as [Hi Hdig].
  destruct (observation_transaction_spec (request_identity q) g o d n db x) as [Herr Hok]; try done.
  { apply Henv. }
  split; [exact Herr|]. intros db' r' w' Htx Hw HF. apply HQ. exists x. rewrite Hw. eauto.
Qed.

Lemma runs_classify g o r R b k w (Q : StoredChainSubmission -> World -> Prop) :
  on_file R (Some r) b k w -> k <= maximum_post_attempts policy -> for_record g r -> observation_ok o ->
  (forall r' w', after R r o b k r' w' -> Q r' w') -> runs R (classify_dispatched_post env g o) Q w.
Proof.
  intros H Hk Hg Ho HQ. apply runs_bind. eapply runs_clock; [exact H|done|apply reports_possible|].
  intros n w' H'. by eapply runs_observe; eauto using reports_possible.
Qed.

Lemma runs_reconcile g o d s r R b k w (Q : StoredChainSubmission -> World -> Prop) :
  on_file R (Some r) b k w -> k <= maximum_post_attempts policy -> for_record g r -> observation_ok o ->
  diagnostic_legal d -> record_durable_state r = s ->
  (forall r' w', after R r o b k r' w' -> Q r' w') -> runs R (reconcile_with_durable_state env g o d s) Q w.
Proof.
  intros H Hk Hg Ho Hd Hs HQ. apply runs_bind. eapply runs_clock; [exact H|done|by apply reports_attach|].
  intros n w' H'. by eapply runs_observe; eauto using reports_attach.
Qed.

Lemma after_public R r o b k r' w :
  after R r o b k r' w -> k <= maximum_post_attempts policy -> runs R (public r') (told R) w.
Proof.
  intros (x & Hx & (_ & _ & [Hh|(Hh & Hc & d & Hd)]) & HF) Hk.
  - eapply runs_public; [|done]. exists (Some (reloaded r')). split; [constructor; by right | by split].
  - unfold public, public_result. rewrite Hd. apply runs_ret. eapply standing_ended; [by split|done|].
    right. eauto.
Qed.

Lemma after_same R r o b k r' w g :
  after R r o b k r' w -> for_record g r ->
  for_record g r' /\ committed_post_reservations r' = committed_post_reservations r.
Proof.
  intros (x & Hx & (_ & [Hd Hc] & _) & _) Hg. destruct (for_filed _ _ _ Hg Hx) as [Hi Hdx].
  split; [split; [done|]; by rewrite Hd|]. rewrite Hc. by apply filed_same.
Qed.

(** The transition an observation took, from the state on file. *)
Lemma after_transition R r o b k r' w :
  after R r o b k r' w ->
  (exists x o', filed r x /\ (o' = o \/ exists c, o = ObsUsableCandidateHash c /\ o' = ObsPossiblyDispatched owned_by_another)
     /\ apply_submission_observation (Some (stored_state x)) o' = Ok (Some (stored_state r')))
  /\ ((forall d, stored_state r' <> Rejected d) -> on_file R (Some r') b k w).
Proof.
  intros (x & Hx & ((o' & Ho & Ht) & _ & Hh) & HF). split; [exists x, o'; eauto|]. intros Hnot.
  destruct Hh as [Hh|(_ & _ & d & Hd)]; [|by destruct (Hnot d)].
  exists (Some (reloaded r')). split; [constructor; by right | by split].
Qed.

(** Observations that leave a recovering record recovering, with its candidate. *)
Definition keeps_recovering (c : option CandidateTransactionHash) (o : SubmissionObservation) : Prop :=
  match o with
  | ObsContinueRecovery | ObsDefiniteRejection _ | ObsDefinitelyUnsent | ObsPossiblyDispatched _ => True
  | ObsCandidatePending => is_Some c
  | _ => False
  end.

Lemma after_recovering R r o b k r' w c d :
  after R r o b k r' w -> stored_state r = Recovering c d -> keeps_recovering c o ->
  (exists d', stored_state r' = Recovering c d') /\ on_file R (Some r') b k w.
Proof.
  intros [(x & o' & Hx & Ho & Ht) Hon]%after_transition Hs Hk.
  destruct (filed_recovering _ _ _ _ Hx Hs) as (d1 & Hs1 & _). rewrite Hs1 in Ht.
  assert (exists d', stored_state r' = Recovering c d') as [d' Hd'].
  { destruct Ho as [->|(h & -> & ->)]; [|done].
    destruct o; try done; destruct c; cbn in Ht, Hk; try (by destruct Hk); injection Ht as <-; eauto. }
  split; [eauto|]. apply Hon. rewrite Hd'. done.
Qed.

(** A fresh reservation is given back. *)
Lemma runs_drop g r R b k w (Q : unit -> World -> Prop) :
  on_file R (Some r) b k w -> k <= maximum_post_attempts policy -> for_record g r -> stored_state r = Submitting ->
  (forall u w', standing R None b k w' -> Q u w') -> runs R (drop_fresh_reservation env g) Q w.
Proof.
  intros H Hk Hg Hs HQ.
  assert (record_durable_state r = DurableSubmitting) as Hd by (unfold record_durable_state; by rewrite Hs).
  apply runs_bind. eapply runs_clock; [exact H|done|by apply reports_at|]. intros n w' H'.
  eapply (runs_transact _ (remove_transaction g)); [exact H'|done|by apply reports_attach|].
  intros y db Hy Hh. inversion Hy as [? x Hx|]; subst. destruct (for_filed _ _ _ Hg Hx) as [Hi Hdig]. split.
  - apply remove_errs. rewrite Hi. apply Hh.
  - intros db' u w2 Htx Hw HF. apply HQ. split; [|done]. rewrite Hw, <- Hi. eapply remove_removes; [|apply Hh|exact Htx].
    rewrite Hi. apply Henv.
Qed.

(** The record in hand after one more reservation of [r]. *)
Definition reserved (R : InFlightRegistry) (g : ChainSubmissionGeneration) (r : StoredChainSubmission) (b : N) (k : nat)
  (r' : StoredChainSubmission) (w : World) : Prop :=
  on_file R (Some r') b k w /\ for_record g r'
  /\ committed_post_reservations r' = (committed_post_reservations r + 1)%N
  /\ exists d, stored_state r' = Recovering None d.

Lemma reserved_again_reserved R g r x b k r' w :
  filed r x -> for_record g x -> reserved_again (request_identity q) x (world_db w) r' -> framed R b k w ->
  reserved R g r b k r' w.
Proof.
  intros Hx [Hi Hd] (Hh & Hdig & Hc & c & d & _ & Hs) HF. split; [|split; [|split; [|eauto]]].
  - exists (Some (reloaded r')). split; [constructor; by right | by split].
  - split; [done|]. by rewrite Hdig.
  - rewrite Hc. destruct (filed_same _ _ Hx) as (Hcount & _). by rewrite Hcount.
Qed.

Lemma runs_reserve_ambiguous clock g s r R b k w (Q : StoredChainSubmission -> World -> Prop) :
  on_file R (Some r) b k w -> k <= maximum_post_attempts policy -> for_record g r ->
  record_durable_state r = s -> reports (Some r) clock ->
  (forall r' w', reserved R g r b k r' w' -> is_retryable_dispatch_ambiguity r' = true -> Q r' w') ->
  runs R (reserve_ambiguous env clock g s) Q w.
Proof.
  intros H Hk Hg Hs Hclock HQ. apply runs_bind. eapply runs_clock; [exact H|done|done|]. intros n w' H'.
  eapply (runs_transact _ (ambiguous_retry_transaction g n)); [exact H'|done|by apply reports_attach|].
  intros y db Hy Hh. inversion Hy as [? x Hx|]; subst. pose proof (for_filed _ _ _ Hg Hx) as Hgx.
  destruct (ambiguous_retry_spec (request_identity q) g n db x) as [Herr Hok]; try apply Hgx; try done.
  { apply Henv. }
  split; [exact Herr|]. intros db' r' w2 Htx Hw HF. destruct (Hok db' r' Htx) as [Hre Hp]. subst db'.
  apply HQ; [by eapply reserved_again_reserved|].
  destruct Hre as (_ & _ & _ & c & d & Hxs & Hs'). unfold is_retryable_dispatch_ambiguity.
  rewrite Hxs in Hp. rewrite Hs'. by destruct c.
Qed.

Lemma runs_reserve_recovery a n s g r R b k w (Q : StoredChainSubmission -> World -> Prop) :
  on_file R (Some r) b k w -> k <= maximum_post_attempts policy -> for_record g r ->
  record_durable_state r = s -> authorization_identity a = request_identity q ->
  (forall r' w', reserved R g r b k r' w' -> Q r' w') ->
  runs R (map_failure (attach_state s) (store env (fun te => reserve_recovery_retry te q a n))) Q w.
Proof.
  intros H Hk Hg Hs Ha HQ.
  eapply (runs_transact _ (recovery_retry_transaction q a n)); [exact H|done|by apply reports_attach|].
  intros y db Hy Hh. inversion Hy as [? x Hx|]; subst. pose proof (for_filed _ _ _ Hg Hx) as Hgx.
  split; [by eapply recovery_retry_errs; [apply Hh|]|]. intros db' r' w2 Htx Hw HF. subst db'.
  destruct (recovery_retry_reserves q a n db x (world_db w2) r') as [Hre _]; try done; [apply Henv|].
  apply HQ. by eapply reserved_again_reserved.
Qed.

(** *** Confirmation *)

Lemma runs_commit tx s r R b k w :
  on_file R (Some r) b k w -> k <= maximum_post_attempts policy -> record_durable_state r = s ->
  (forall n stopped x db, filed r x -> holds (request_identity q) (Some x) db ->
     errs (names_at_most (Some (record_durable_state x))) (tx stopped n db)
     /\ forall db' c, tx stopped n db = Ok (db', c) -> confirmed_or_kept (request_identity q) x db' c) ->
  runs R (now ← map_failure (at_state s) (now_seconds env);
          stopped ← interrupted env operation_epoch;
          c ← map_failure (attach_state s) (store env (fun te => transact te (tx stopped now)));
          committed_result c) (told R) w.
Proof.
  intros H Hk Hs Htx. apply runs_bind. eapply runs_clock; [exact H|done|by apply reports_at|]. intros n w1 H1.
  apply runs_bind. eapply runs_interrupted; [exact H1|]. intros stopped w2 H2.
  apply runs_bind. eapply (runs_transact _ (tx stopped n)); [exact H2|done|by apply reports_attach|].
  intros y db Hy Hh. inversion Hy as [? x Hx|]; subst. destruct (Htx n stopped x db Hx Hh) as [Herr Hok].
  split; [exact Herr|]. intros db' c w3 Hc Hw HF. destruct (Hok db' c Hc) as [[-> Hh']|(r' & v & -> & Hh' & _)]; cbn.
  - eapply runs_public; [|done]. apply standing_on_file. subst db'. by split.
  - eapply runs_public; [|done]. exists (Some (reloaded r')). subst db'. split; [constructor; by right | by split].
Qed.

Lemma runs_confirm d candidate committed s r R b k w :
  on_file R (Some r) b k w -> k <= maximum_post_attempts policy -> record_durable_state r = s ->
  for_record (derived_generation d) r ->
  runs R (confirm env q operation_epoch d candidate committed s) (told R) w.
Proof.
  intros H Hk Hs [Hi _]. unfold confirm, confirm_committed.
  apply (runs_commit
    (fun stopped n => confirm_committed_transaction q (derived_generation d) candidate committed (negb stopped) n)
    s r R b k w H Hk Hs). rewrite <- Hi. intros n stopped x db Hx Hh. split; [apply confirm_committed_errs, Hh|].
  intros db' c Hc. eapply confirm_committed_spec; [|done|exact Hc]. rewrite Hi. apply Henv.
Qed.

Lemma runs_confirm_tree d van positions r R b k w :
  on_file R (Some r) b k w -> k <= maximum_post_attempts policy -> record_durable_state r = DurableRecovering ->
  for_record (derived_generation d) r ->
  runs R (confirm_tree_match env q operation_epoch d van positions) (told R) w.
Proof.
  intros H Hk Hs [Hi _]. unfold confirm_tree_match, confirm_tree.
  apply (runs_commit (fun stopped n => confirm_tree_transaction q (derived_generation d) van positions (negb stopped) n)
    DurableRecovering r R b k w H Hk Hs). rewrite <- Hi. intros n stopped x db Hx Hh. split; [apply confirm_tree_errs, Hh|].
  intros db' c Hc. eapply confirm_tree_spec; [|done|exact Hc]. rewrite Hi. apply Henv.
Qed.

(** *** Lookup, tracking and scan *)

Lemma runs_lookup candidate R o b k w (Q : LookupProgress -> World -> Prop) :
  on_file R o b k w ->
  (forall p w', on_file R o b k w' -> match p with LookupFailed f => lookup_failure_ok f | _ => True end -> Q p w') ->
  runs R (lookup_or_interruption env client candidate) Q w.
Proof.
  intros H HQ. apply runs_bind. eapply runs_ask; [exact H|]. intros t w' H'. apply runs_ret, HQ; [done|].
  destruct (env_lookup env t) as [answer_of|]; [|exact I].
  pose proof (status_loop_errs (map answer_of (seq 0 (endpoint_count client))) false None I) as He.
  unfold transaction_status. by destruct (status_loop _ _ _).
Qed.

Lemma tracking_expired_errs r n :
  errs (names_at_most (Some (record_durable_state r))) (tracking_expired_at policy r n).
Proof. unfold tracking_expired_at. errs_auto. Qed.

(** Computations on the record in hand. *)
Lemma runs_lift {A} (m : result ChainSubmissionFailure A) r R b k w (Q : A -> World -> Prop) :
  on_file R (Some r) b k w -> k <= maximum_post_attempts policy ->
  errs (names_at_most (Some (record_durable_state r))) m -> (forall a, Q a w) -> runs R (lift m) Q w.
Proof.
  intros H Hk He HQ. apply wp_lift. destruct m as [a|e]; [apply HQ|].
  eapply on_file_fails; [done|done|]. intros x Hx. apply names_truthful.
  inversion Hx as [? y Hy|]; subst. apply filed_same in Hy as (_ & _ & Hd). cbn. by rewrite Hd.
Qed.

Lemma runs_tracking_expired r R b k w (Q : bool -> World -> Prop) :
  on_file R (Some r) b k w -> k <= maximum_post_attempts policy ->
  (forall e w', on_file R (Some r) b k w' -> Q e w') -> runs R (tracking_expired env policy r) Q w.
Proof.
  intros H Hk HQ. apply runs_bind. eapply runs_clock; [exact H|done|by apply reports_at|]. intros n w' H'.
  eapply runs_lift; [done|done|apply tracking_expired_errs|]. auto.
Qed.

(** An inconclusive lookup leaves the record tracking, or recovering with its candidate. *)
Lemma runs_finish_inconclusive d r diagnostic R b k w (Q : StoredChainSubmission -> World -> Prop) :
  on_file R (Some r) b k w -> k <= maximum_post_attempts policy -> for_record (derived_generation d) r ->
  is_tracking (stored_state r) = true -> diagnostic_legal diagnostic ->
  (forall r' w', on_file R (Some r') b k w' -> for_record (derived_generation d) r' ->
     committed_post_reservations r' = committed_post_reservations r -> Q r' w') ->
  runs R (finish_inconclusive_tracking env policy d r diagnostic) Q w.
Proof.
  intros H Hk Hg Ht Hd HQ. apply runs_bind. eapply runs_clock; [exact H|done|by apply reports_at|]. intros n w1 H1.
  apply runs_bind. eapply runs_lift; [done|done|apply tracking_expired_errs|]. intros expired.
  assert (forall o r' w', (o = ObsCandidatePending \/ exists x, o = ObsTrackingWindowExpired x) ->
    after R r o b k r' w' -> Q r' w') as Hafter.
  { intros o r' w' Ho Ha. destruct (after_same _ _ _ _ _ _ _ _ Ha Hg) as [Hg' Hc].
    destruct (after_transition _ _ _ _ _ _ _ Ha) as [(x & o' & Hx & Ho' & Hstep) Hon]. apply HQ; try done. apply Hon.
    apply filed_state in Hx as Hst. destruct Ho' as [->|(? & -> & _)]; [|naive_solver].
    destruct (stored_state r) as [|h| | | |]; try discriminate Ht.
    assert (stored_state x = Tracking h) as Hxs by naive_solver. rewrite Hxs in Hstep.
    destruct Ho as [->|[? ->]]; cbn in Hstep; injection Hstep as <-; discriminate. }
  destruct expired; (eapply runs_reconcile; [done|done|done| | |done|intros r' w' Ha; eapply Hafter; [|exact Ha]; eauto]);
    try done; apply from_redacted_message_ok.
Qed.

Definition scan_answers (s : RecoveryScan) : Prop :=
  match s with RecoveryNoMatch a => authorization_identity a = request_identity q | _ => True end.

Lemma runs_scan d candidate c diagnostic r R b k w (Q : RecoveryScan -> World -> Prop) :
  on_file R (Some r) b k w -> k <= maximum_post_attempts policy -> for_record (derived_generation d) r ->
  stored_state r = Recovering c diagnostic ->
  (forall s w', on_file R (Some r) b k w' -> scan_answers s -> Q s w') ->
  runs R (scan_tree env client d candidate) Q w.
Proof.
  intros H Hk Hg Hs HQ.
  assert (record_durable_state r = DurableRecovering) as Hd by (unfold record_durable_state; by rewrite Hs).
  apply runs_bind. eapply runs_ask; [exact H|]. intros t w' H'.
  assert (forall o x w2 kind m, diagnostic_ok x -> o = ObsContinueRecovery -> on_file R (Some r) b k w2 ->
    runs R (_ ← reconcile_with_durable_state env (derived_generation d) o (Some x) DurableRecovering;
            raise (with_durable_state kind DurableRecovering m)) Q w2) as Hfail.
  { intros o x w2 kind m Hx -> H2. apply runs_bind. eapply runs_reconcile; try done. intros r' w3 Ha.
    destruct (after_recovering _ _ _ _ _ _ _ _ _ Ha Hs I) as [[d' Hs'] Hon].
    eapply runs_fail; [done|done|]. unfold record_durable_state. by rewrite Hs'. }
  destruct (scan_exact_layout_ends client (env_scan env t) d candidate) as (res & -> & He & Ha).
  destruct res as [[van positions|a]|[dg|e|]]; try (apply runs_ret, HQ; [done|]); try exact I.
  - cbn. destruct (Ha a eq_refl) as [-> _]. apply Hg.
  - apply Hfail; [apply from_redacted_message_ok|done|done].
  - apply Hfail; [exact He|done|done].
Qed.

Lemma runs_end_hashless d r R b k w :
  on_file R (Some r) b k w -> k <= maximum_post_attempts policy -> for_record (derived_generation d) r ->
  runs R (end_hashless env d) (told R) w.
Proof.
  intros H Hk Hg. apply runs_bind. eapply runs_classify; [done|done|done|apply from_redacted_message_ok|].
  intros r' w' Ha. by eapply after_public.
Qed.

Lemma runs_settle_spent d r c diagnostic R b k w :
  on_file R (Some r) b k w -> k <= maximum_post_attempts policy -> for_record (derived_generation d) r ->
  stored_state r = Recovering c diagnostic ->
  runs R (settle_nullifier_spent_after_dispatch env client q operation_epoch recovery d r) (told R) w.
Proof.
  intros H Hk Hg Hs. unfold settle_nullifier_spent_after_dispatch. case_bool_decide; [by eapply runs_end_hashless|].
  apply runs_bind. eapply runs_scan; [done|done|done|done|]. intros s w' H' Ha. destruct s.
  - eapply runs_confirm_tree; try done. unfold record_durable_state. by rewrite Hs.
  - by eapply runs_end_hashless.
  - by eapply runs_public.
Qed.

(** *** The in-flight guard *)

(** [P] holds under a registry and does not depend on which. *)
Definition relocatable {A} (P : InFlightRegistry -> A -> World -> Prop) : Prop :=
  forall R R' a w, registry_ok R' -> P R a w -> world_registry w = R /\ P R' a (with_registry w R').

Lemma standing_relocate R R' o b k w :
  registry_ok R' -> standing R o b k w -> world_registry w = R /\ standing R' o b k (with_registry w R').
Proof. intros Hok (Hh & [HR _] & Hj). by split. Qed.

Lemma on_file_relocate R R' o b k w :
  registry_ok R' -> on_file R o b k w -> world_registry w = R /\ on_file R' o b k (with_registry w R').
Proof.
  intros Hok (x & Hx & H). destruct (standing_relocate R R' x b k w Hok H) as [HR H']. split; [done|]. by exists x.
Qed.

Lemma ended_relocate R R' P w :
  registry_ok R' -> ended R P w -> world_registry w = R /\ ended R' P (with_registry w R').
Proof.
  intros Hok (x & b & H & HP). destruct (standing_relocate R R' _ _ _ w Hok H) as [HR H']. split; [done|]. by exists x, b.
Qed.

Lemma register_drop R i R' key :
  registry_ok R -> register_in_flight R i = Ok (R', key) -> registry_ok R' /\ drop_in_flight R' key = R.
Proof.
  intros Hok H. unfold register_in_flight in H. destruct R as [poisoned_ m]; cbn in *. destruct poisoned_; [done|].
  injection H as <- <-. unfold registry_ok in *. cbn in *. split.
  - intros k n. unfold increment. destruct (decide (operation_key i = k)) as [<-|Hne].
    + rewrite lookup_insert_eq. intros [= <-]. lia.
    + rewrite lookup_insert_ne by done. apply Hok.
  - unfold drop_in_flight, increment, decrement. cbn. rewrite lookup_insert_eq.
    destruct (m !! operation_key i) as [n|] eqn:Hm; cbn.
    + specialize (Hok _ _ Hm). rewrite bool_decide_false by lia. rewrite insert_insert_eq. f_equal.
      apply insert_id. rewrite Hm. f_equal. lia.
    + by rewrite delete_insert_id.
Qed.

Lemma runs_in_flight {A} (P : InFlightRegistry -> A -> World -> Prop) refused body R i o b k w :
  relocatable P -> on_file R o b k w ->
  (forall e, strongest_state e = None -> runs R (refused e) (P R) w) ->
  (forall R', on_file R' o b k (with_registry w R') -> runs R' body (P R') (with_registry w R')) ->
  runs R (with_in_flight i refused body) (P R) w.
Proof.
  intros HP H Href Hbody. assert (world_registry w = R /\ registry_ok R) as [HR Hok].
  { destruct H as (x & _ & _ & HR & _). exact HR. }
  unfold runs, wp, with_in_flight. rewrite HR. destruct (register_in_flight R i) as [[R' key]|e] eqn:Hreg.
  2: { apply Href. unfold register_in_flight in Hreg. destruct (poisoned R); by inv_ok. }
  destruct (register_drop _ _ _ _ Hok Hreg) as [Hok' Hdrop].
  specialize (Hbody R'). unfold runs, wp in Hbody.
  destruct (body (with_registry w R')) as [w2 out].
  assert (on_file R' o b k (with_registry w R')) as H' by (by apply (on_file_relocate R R' o b k w)).
  specialize (Hbody H'). destruct out as [a|e|]; [| |done].
  - destruct (HP R' R a w2 Hok Hbody) as [-> HPR]. by rewrite Hdrop.
  - destruct (ended_relocate R' R _ w2 Hok Hbody) as [-> HE]. by rewrite Hdrop.
Qed.

(** *** One POST *)

(** [d] was derived for the request and may be dispatched. *)
Definition dispatchable (d : DerivedChainSubmission) : Prop :=
  is_imported_delegation q = false /\ validate_target q = Ok tt /\ exists t, derive t (derivation q) = Ok d.

Definition postable (r : StoredChainSubmission) : Prop :=
  stored_state r = Submitting \/ exists d, stored_state r = Recovering None d.

Lemma StronglySorted_snoc (l : list N) x :
  StronglySorted N.lt l -> Forall (fun y => y < x)%N l -> StronglySorted N.lt (l ++ [x]).
Proof.
  induction 1 as [|y l Hs IH Hy]; intros Hx; cbn; [repeat constructor|].
  apply Forall_cons in Hx as [Hyx Hx]. constructor; [by apply IH|]. apply Forall_app. by split; [|constructor].
Qed.

Lemma journal_post b k p ps :
  journal b k ps -> (b < post_reservations p)%N -> post_reserved p -> permitted_at (post_tick p) -> journal (post_reservations p) (S k) (ps ++ [p]).
Proof.
  intros (Hall & Hs & Hb & Hk) Hp Hr Ht. split; [|split; [|split]].
  - apply Forall_app. by split; [|constructor].
  - rewrite fmap_app. apply StronglySorted_snoc; [done|]. apply Forall_fmap. eapply Forall_impl; [exact Hb|]. cbn. lia.
  - apply Forall_app. split; [|by constructor]. eapply Forall_impl; [exact Hb|]. cbn. lia.
  - rewrite length_app. cbn. lia.
Qed.

Lemma runs_post d r R b k w (Q : Interruption * bool + PostAttemptOutcome -> World -> Prop) :
  on_file R (Some r) b k w -> (b < committed_post_reservations r)%N -> for_record (derived_generation d) r ->
  dispatchable d -> postable r -> permitted_at (world_tick w) ->
  (forall e w', on_file R (Some r) (committed_post_reservations r) (S k) w' ->
     match e with inr o => outcome_ok o | inl _ => True end -> Q e w') ->
  runs R (post_attempt env client d r) Q w.
Proof.
  intros (y & Hy & Hh & HR & Hj) Hb Hg (Himp & Htarget & t & Hd) Hp Hperm HQ. unfold post_attempt, endpoint_index_of.
  rewrite bool_decide_false by apply (pass_endpoints Henv). apply runs_bind.
  inversion Hy as [? x Hx|]; subst. destruct (filed_same _ _ Hx) as (Hc & _ & _).
  unfold runs, wp, record_post. apply runs_bind. eapply (runs_ask _ R (Some r) (committed_post_reservations r) (S k)).
  { exists (Some x). split; [by constructor|]. split; [exact Hh|]. split; [done|]. apply (journal_post b k); [done|done| |exact Hperm].
    destruct (for_filed _ _ _ Hg Hx) as [Hi Hdig].
    split; [done|]. split; [done|]. split; [done|]. split; [cbn; lia|]. exists x. split; [done|]. split; [done|].
    split; [done|]. destruct Hp as [Hs|[dg Hs]]; [left; by eapply filed_submitting|].
    right. by destruct (filed_recovering _ _ _ _ Hx Hs) as (? & ? & _); eauto. }
  intros tick w' H'. destruct (env_post env tick) as [reason possible|answer]; [by apply runs_ret, HQ|].
  edestruct (submit_to_endpoint_total client t (derivation q) d) as (o & -> & Ho); [done| |by apply runs_ret, HQ].
  unfold validate_target, request_identity in Htarget. destruct (derivation q); try done. cbn in Htarget.
  by destruct (target i).
Qed.

(** *** Recovery retries *)

(** The record in hand is recovering without a candidate. *)
Definition ambiguous (R : InFlightRegistry) (g : ChainSubmissionGeneration) (c : N) (k : nat)
  (r : StoredChainSubmission) (w : World) : Prop :=
  on_file R (Some r) c k w /\ for_record g r /\ committed_post_reservations r = c
  /\ exists d, stored_state r = Recovering None d.

Lemma recovering_durable r c d : stored_state r = Recovering c d -> record_durable_state r = DurableRecovering.
Proof. intros Hs. unfold record_durable_state. by rewrite Hs. Qed.

(** An accepted answer whose hash the store could not use leaves the record ambiguous. *)
Lemma after_unusable R r o c k r' w g :
  after R r o c k r' w -> for_record g r -> committed_post_reservations r = c ->
  returned_candidate_is_unusable r' = true -> ambiguous R g c k r' w.
Proof.
  intros Ha Hg Hc Hu. destruct (after_same _ _ _ _ _ _ _ _ Ha Hg) as [Hg' Hc'].
  destruct (after_transition _ _ _ _ _ _ _ Ha) as [_ Hon]. unfold returned_candidate_is_unusable in Hu.
  destruct (stored_state r') as [| |[] dg| | |] eqn:Es; try discriminate.
  split; [by apply Hon|]. split; [done|]. split; [by rewrite Hc'|]. by exists dg.
Qed.

(** A dispatch that may have happened leaves the record ambiguous. *)
Lemma after_possible R r dg c k r' w g :
  after R r (ObsPossiblyDispatched dg) c k r' w -> for_record g r -> committed_post_reservations r = c ->
  postable r -> ambiguous R g c k r' w.
Proof.
  intros Ha Hg Hc Hp. eapply after_unusable; try done.
  destruct (after_transition _ _ _ _ _ _ _ Ha) as [(x & o' & Hx & Ho & Ht) _].
  destruct Ho as [->|(? & [=] & _)]. unfold returned_candidate_is_unusable.
  destruct Hp as [Hs|[d Hs]].
  - rewrite (filed_submitting _ _ Hx Hs) in Ht. cbn in Ht. by injection Ht as <-.
  - destruct (filed_recovering _ _ _ _ Hx Hs) as (d' & Hs' & _). rewrite Hs' in Ht. cbn in Ht. by injection Ht as <-.
Qed.

Lemma runs_public_inl {B} R r w (Q : ChainSubmissionResult + B -> World -> Prop) :
  runs R (public r) (told R) w -> (forall p w', told R p w' -> Q (inl p) w') ->
  runs R (p ← public r; mret (inl p)) Q w.
Proof. intros H HQ. apply runs_bind. eapply runs_mono; [exact H|]. intros p w' Hp. by apply runs_ret, HQ. Qed.

Lemma runs_keep_and_fail {A} g o d r c diagnostic R b k w kind m (Q : A -> World -> Prop) :
  on_file R (Some r) b k w -> k <= maximum_post_attempts policy -> for_record g r ->
  stored_state r = Recovering c diagnostic -> keeps_recovering c o -> observation_ok o -> diagnostic_ok d ->
  runs R (_ ← reconcile_with_durable_state env g o (Some d) DurableRecovering;
          raise (with_durable_state kind DurableRecovering m)) Q w.
Proof.
  intros H Hk Hg Hs Hkeep Ho Hd. apply runs_bind.
  eapply runs_reconcile; [done|done|done|done|done|by eapply recovering_durable|]. intros r' w' Ha.
  destruct (after_recovering _ _ _ _ _ _ _ _ _ Ha Hs Hkeep) as [[d' Hs'] Hon].
  eapply runs_fail; [done|done|]. by eapply recovering_durable.
Qed.

(** A rejection of a recovering record is reported with the record unchanged. *)
Lemma runs_rejected {A} g dg r c diagnostic R b k w (Q : A -> World -> Prop) :
  on_file R (Some r) b k w -> k <= maximum_post_attempts policy -> for_record g r ->
  stored_state r = Recovering c diagnostic -> diagnostic_ok dg ->
  runs R (r' ← classify_dispatched_post env g (ObsDefiniteRejection dg);
          raise (with_durable_state Protocol (record_durable_state r') (diagnostic_message dg))) Q w.
Proof.
  intros H Hk Hg Hs Hd. apply runs_bind. eapply runs_classify; [done|done|done|done|]. intros r' w' Ha.
  destruct (after_recovering _ _ _ _ _ _ _ _ _ Ha Hs I) as [_ Hon]. by eapply runs_fail.
Qed.

Lemma runs_recovery_outcome d r diagnostic o R k w
  (Q : ChainSubmissionResult + StoredChainSubmission -> World -> Prop) :
  on_file R (Some r) (committed_post_reservations r) k w -> k <= maximum_post_attempts policy ->
  for_record (derived_generation d) r -> stored_state r = Recovering None diagnostic -> outcome_ok o ->
  (forall p w', told R p w' -> Q (inl p) w') ->
  (forall r' w', ambiguous R (derived_generation d) (committed_post_reservations r) k r' w' -> Q (inr r') w') ->
  runs R (recovery_retry_outcome env client q operation_epoch recovery d r o) Q w.
Proof.
  intros H Hk Hg Hs Ho Hinl Hinr. assert (postable r) as Hp by (right; eauto).
  destruct o as [candidate|code kind dg cand|dg|e|dg]; cbn [recovery_retry_outcome].
  - apply runs_bind. eapply runs_classify; [done|done|done|exact I|]. intros r' w' Ha.
    destruct (returned_candidate_is_unusable r') eqn:Hu.
    + apply runs_ret, Hinr. by eapply after_unusable.
    + eapply runs_public_inl; [by eapply after_public|done].
  - destruct (_ && _).
    + apply runs_bind. eapply runs_mono; [by eapply runs_settle_spent|]. intros p w' Hp'. by apply runs_ret, Hinl.
    + by eapply runs_rejected.
  - eapply runs_keep_and_fail; [done|done|done|done|exact I|exact I|exact Ho].
  - eapply runs_keep_and_fail; [done|done|done|done|exact I|exact I|apply from_redacted_message_ok].
  - apply runs_bind. eapply runs_classify; [done|done|done|exact Ho|]. intros r' w' Ha.
    apply runs_ret, Hinr. by eapply after_possible.
Qed.

(** [backoff_at] is in range before the last attempt. *)
Lemma runs_backoff i R w (Q : N -> World -> Prop) :
  S i < maximum_post_attempts policy -> (forall n, Q n w) -> runs R (backoff_at policy i) Q w.
Proof.
  intros Hi HQ. unfold backoff_at. destruct (lookup_lt_is_Some_2 (retry_backoffs policy) i) as [n ->].
  - pose proof (pass_policy Henv). lia.
  - by apply runs_ret.
Qed.

Lemma runs_reserve_after_backoff delay g c k r R w
  (Q : StoredChainSubmission + StoredChainSubmission -> World -> Prop) :
  ambiguous R g c k r w -> k <= maximum_post_attempts policy ->
  (forall r' w', reserved R g r c k r' w' -> is_retryable_dispatch_ambiguity r' = true -> Q (inl r') w') ->
  (forall w', ambiguous R g c k r w' -> Q (inr r) w') ->
  runs R (reserve_ambiguous_retry_after_backoff env delay g r) Q w.
Proof.
  intros (H & Hg & Hc & Hs) Hk Hinl Hinr. apply runs_bind. eapply runs_ask; [exact H|]. intros t w' H'.
  case_bool_decide; [by apply runs_ret, Hinr|].
  apply runs_bind. eapply runs_reserve_ambiguous; [done|done|done|done|by apply reports_attach|].
  intros r' w2 Hr Hret. by apply runs_ret, Hinl.
Qed.

Lemma told_relocatable : relocatable told.
Proof. intros R R' p w Hok H. by apply ended_relocate. Qed.

(** Re-entry of the attempt loop with [used] POSTs made, from [lo] on. *)
Definition resubmits (lo : nat)
  (resubmit : DerivedChainSubmission -> StoredChainSubmission -> nat -> prog ChainSubmissionResult) : Prop :=
  forall R d r used b w, lo <= used -> used < maximum_post_attempts policy -> on_file R (Some r) b used w ->
    (b < committed_post_reservations r)%N -> for_record (derived_generation d) r -> dispatchable d ->
    (exists dg, stored_state r = Recovering None dg) -> is_retryable_dispatch_ambiguity r = true ->
    runs R (resubmit d r used) (told R) w.

Section reconciliation.
Context (lo : nat) (resubmit : DerivedChainSubmission -> StoredChainSubmission -> nat -> prog ChainSubmissionResult).
Context (Hresubmit : resubmits lo resubmit).

Definition retry_step (d : DerivedChainSubmission) (c : N) (k : nat) (R : InFlightRegistry)
  (step : ChainSubmissionResult + StoredChainSubmission) (w : World) : Prop :=
  match step with inl p => told R p w | inr r => ambiguous R (derived_generation d) c k r w end.

Lemma retry_step_relocatable d c k : relocatable (retry_step d c k).
Proof.
  intros R R' [p|r] w Hok H; [by apply told_relocatable|]. destruct H as (H & Hrest).
  destruct (on_file_relocate R R' _ _ _ _ Hok H) as [HR H']. split; [done|]. by split.
Qed.

Lemma runs_recovery_retry d r used b R w :
  lo <= used + 1 -> used < maximum_post_attempts policy -> on_file R (Some r) b used w ->
  (b < committed_post_reservations r)%N -> for_record (derived_generation d) r -> dispatchable d ->
  (exists dg, stored_state r = Recovering None dg) ->
  runs R (submit_recovery_retry env client policy q operation_epoch recovery resubmit d r used) (told R) w.
Proof.
  intros Hlo Hused H Hb Hg Hd [dg Hs]. apply runs_bind. eapply runs_sample; [exact H|]. intros stopped w1 H1 Hperm.
  destruct stopped; [eapply runs_public; [done|lia]|]. apply runs_bind.
  eapply runs_mono.
  - eapply (runs_in_flight (retry_step d (committed_post_reservations r) (S used)));
      [apply retry_step_relocatable|exact H1|..].
    + intros e He. eapply runs_raise, on_file_fails; [done|lia|]. intros x Hx.
      eapply durable_truthful; [by eapply recovering_durable|done].
    + intros R' H2. apply runs_bind. eapply runs_post; [done|done|done|done|right; eauto|by apply Hperm|].
      intros [[reason []]|o] w3 H3 Ho.
      * eapply runs_recovery_outcome; [done|lia|done|done|apply from_redacted_message_ok|done|done].
      * eapply runs_public_inl; [eapply runs_public; [done|lia]|done].
      * eapply runs_recovery_outcome; [done|lia|done|done|done|done|done].
  - intros [p|r1] w2 Hstep; [by apply runs_ret|]. destruct Hstep as (H2 & Hg2 & Hc2 & Hs2).
    case_bool_decide; [eapply runs_public; [done|lia]|].
    apply runs_bind. eapply runs_interrupted; [exact H2|]. intros stopped w3 H3.
    destruct stopped; [eapply runs_public; [done|lia]|].
    apply runs_bind. apply runs_backoff; [lia|]. intros delay.
    apply runs_bind. eapply runs_reserve_after_backoff; [by split|lia| |].
    + intros r2 w4 (H4 & Hg4 & Hc4 & Hs4) Hret.
      eapply (Hresubmit R d r2 (used + 1) (committed_post_reservations r)); try done; try lia.
      by replace (used + 1) with (S used) by lia.
    + intros w4 (H4 & _). eapply runs_public; [done|lia].
Qed.

Lemma runs_recovery_backoff used R r b k w (Q : bool -> World -> Prop) :
  on_file R (Some r) b k w -> used < maximum_post_attempts policy -> (forall s w', on_file R (Some r) b k w' -> Q s w') ->
  runs R (recovery_backoff env policy used) Q w.
Proof.
  intros H Hu HQ. unfold recovery_backoff. case_bool_decide; [|by apply runs_ret, HQ].
  apply runs_bind. apply runs_backoff; [lia|]. intros delay. apply runs_bind. eapply runs_ask; [exact H|].
  intros t w' H'. by apply runs_ret, HQ.
Qed.

(** The record in hand, with at most [used] POSTs made under its reservations. *)
Definition in_hand (R : InFlightRegistry) (d : DerivedChainSubmission) (used : nat) (r : StoredChainSubmission)
  (w : World) : Prop :=
  on_file R (Some r) (committed_post_reservations r) used w /\ for_record (derived_generation d) r.

Definition derived_for_request (d : DerivedChainSubmission) : Prop :=
  validate_target q = Ok tt /\ exists t, derive t (derivation q) = Ok d.

Lemma runs_recover d r used R w :
  lo <= used + 1 -> used <= maximum_post_attempts policy -> in_hand R d used r w -> derived_for_request d ->
  runs R (recover_if_enabled env client policy q operation_epoch recovery resubmit d r used) (told R) w.
Proof.
  intros Hlo Hused [H Hg] [Hvt Hder]. unfold recover_if_enabled.
  destruct (bool_decide _ || is_imported_delegation q || negb _) eqn:Hguard; [by eapply runs_public|].
  apply orb_false_iff in Hguard as [[_ Himp]%orb_false_iff Hrec]. apply negb_false_iff in Hrec.
  assert (exists c dg, stored_state r = Recovering c dg) as (c & dg & Hs).
  { unfold is_recovering in Hrec. destruct (stored_state r); try discriminate. eauto. }
  pose proof (recovering_durable _ _ _ Hs) as Hdur.
  apply runs_bind. eapply runs_interrupted; [exact H|]. intros s1 w1 H1. destruct s1; [by eapply runs_public|].
  apply runs_bind. eapply runs_scan; [exact H1|done|done|done|]. intros [van ps|a|] w2 H2 Ha;
    [by eapply runs_confirm_tree| |by eapply runs_public].
  case_bool_decide; [by eapply runs_public|].
  apply runs_bind. eapply runs_interrupted; [exact H2|]. intros s3 w3 H3. destruct s3; [by eapply runs_public|].
  apply runs_bind. eapply runs_recovery_backoff; [exact H3|lia|]. intros s4 w4 H4. destruct s4; [by eapply runs_public|].
  apply runs_bind. eapply runs_interrupted; [exact H4|]. intros s5 w5 H5. destruct s5; [by eapply runs_public|].
  apply runs_bind. eapply runs_clock; [exact H5|done|by apply reports_at|]. intros n w6 H6.
  apply runs_bind. eapply runs_reserve_recovery; [exact H6|done|done|done|done|]. intros r7 w7 (H7 & Hg7 & Hc7 & Hs7).
  eapply runs_recovery_retry; try done; lia.
Qed.

Lemma after_pending R r h b k r' w :
  after R r ObsCandidatePending b k r' w -> stored_state r = Tracking h ->
  stored_state r' = Tracking h /\ on_file R (Some r') b k w.
Proof.
  intros [(x & o' & Hx & Ho & Ht) Hon]%after_transition Hs. destruct Ho as [->|(? & [=] & _)].
  assert (stored_state x = Tracking h) as Hxs by (apply filed_state in Hx; rewrite Hs in Hx; naive_solver).
  rewrite Hxs in Ht. cbn in Ht. injection Ht as Ht. split; [done|]. apply Hon. by rewrite <- Ht.
Qed.

(** The record after an observation that does not end it, in hand for recovery. *)
Lemma after_in_hand R r o used r' w d :
  after R r o (committed_post_reservations r) used r' w -> for_record (derived_generation d) r ->
  (forall x, stored_state r' <> Rejected x) -> in_hand R d used r' w.
Proof.
  intros Ha Hg Hnot. destruct (after_same _ _ _ _ _ _ _ _ Ha Hg) as [Hg' Hc].
  split; [|done]. rewrite Hc. by apply (after_transition _ _ _ _ _ _ _ Ha).
Qed.

Lemma runs_lookup_failure {A} f s r R b k w (Q : A -> World -> Prop) :
  on_file R (Some r) b k w -> k <= maximum_post_attempts policy -> record_durable_state r = s ->
  runs R (raise (lookup_failure f s)) Q w.
Proof. intros H Hk Hs. destruct f; by eapply runs_fail. Qed.

Lemma runs_reconcile_tracking d r h used R w :
  lo <= used + 1 -> used <= maximum_post_attempts policy -> in_hand R d used r w -> derived_for_request d ->
  stored_state r = Tracking h ->
  runs R (reconcile_tracking env client policy q operation_epoch recovery resubmit d r h used) (told R) w.
Proof.
  intros Hlo Hused [H Hg] Hd Hs.
  assert (record_durable_state r = DurableTracking) as Hdur by (unfold record_durable_state; by rewrite Hs).
  assert (forall w' dg, on_file R (Some r) (committed_post_reservations r) used w' -> diagnostic_legal dg ->
    runs R (r ← finish_inconclusive_tracking env policy d r dg;
            recover_if_enabled env client policy q operation_epoch recovery resubmit d r used) (told R) w') as Hfinish.
  { intros w' dg H' Hdg. apply runs_bind. eapply runs_finish_inconclusive; try done; [by rewrite Hs|].
    intros r' w2 H2 Hg2 Hc2. apply runs_recover; try done. split; [by rewrite Hc2|done]. }
  apply runs_bind. eapply runs_interrupted; [exact H|]. intros s1 w1 H1. destruct s1; [by eapply runs_public|].
  apply runs_bind. eapply runs_lookup; [exact H1|]. intros p w2 H2 Hp. destruct p as [|[|t|t]|f].
  - by eapply runs_public.
  - by apply Hfinish.
  - by eapply runs_confirm.
  - apply runs_bind. eapply runs_reconcile; [done|done|done| | |done|intros; by eapply after_public].
    + destruct (candidate_failure_terminal _ _); apply from_redacted_message_ok.
    + apply from_redacted_message_ok.
  - apply lookup_diagnostic_ok in Hp. apply runs_bind. eapply runs_tracking_expired; [exact H2|done|].
    intros expired w3 H3. destruct expired; [by apply Hfinish|].
    apply runs_bind. eapply runs_reconcile; [done|done|done|exact I|exact Hp|done|]. intros r' w4 Ha.
    destruct (after_pending _ _ _ _ _ _ _ Ha Hs) as [Hs' Hon]. eapply runs_lookup_failure; [done|done|].
    unfold record_durable_state. by rewrite Hs'.
Qed.

Lemma runs_reconcile_recovering d r h dg used R w :
  lo <= used + 1 -> used <= maximum_post_attempts policy -> in_hand R d used r w -> derived_for_request d ->
  stored_state r = Recovering (Some h) dg ->
  runs R (reconcile_recovering env client policy q operation_epoch recovery resubmit d r h used) (told R) w.
Proof.
  intros Hlo Hused [H Hg] Hd Hs. pose proof (recovering_durable _ _ _ Hs) as Hdur.
  assert (forall w' o x, on_file R (Some r) (committed_post_reservations r) used w' -> diagnostic_legal x ->
    observation_ok o -> (forall r' w', after R r o (committed_post_reservations r) used r' w' -> forall y, stored_state r' <> Rejected y) ->
    runs R (r ← reconcile_with_durable_state env (derived_generation d) o x DurableRecovering;
            recover_if_enabled env client policy q operation_epoch recovery resubmit d r used) (told R) w') as Hgo.
  { intros w' o x H' Hx Ho Hnot. apply runs_bind. eapply runs_reconcile; try done. intros r' w2 Ha.
    apply runs_recover; try done. eapply after_in_hand; eauto. }
  assert (forall o r' w', keeps_recovering (Some h) o -> after R r o (committed_post_reservations r) used r' w' ->
    forall y, stored_state r' <> Rejected y) as Hkeeps.
  { intros o r' w' Hk Ha y. by destruct (after_recovering _ _ _ _ _ _ _ _ _ Ha Hs Hk) as [[d' ->] _]. }
  apply runs_bind. eapply runs_interrupted; [exact H|]. intros s1 w1 H1. destruct s1; [by eapply runs_public|].
  apply runs_bind. eapply runs_lookup; [exact H1|]. intros p w2 H2 Hp. destruct p as [|[|t|t]|f].
  - by eapply runs_public.
  - apply Hgo; [done|exact I|exact I|]. intros r' w'. apply Hkeeps. cbn. eauto.
  - by eapply runs_confirm.
  - destruct (candidate_failure_terminal _ _).
    + apply runs_bind. eapply runs_reconcile; [done|done|done|apply from_redacted_message_ok|apply from_redacted_message_ok|done|].
      intros; by eapply after_public.
    + apply Hgo; [done|exact I|apply from_redacted_message_ok|]. intros r' w' Ha y Hy.
      destruct (after_transition _ _ _ _ _ _ _ Ha) as [(x & o' & Hx & [->|(? & [=] & _)] & Ht) _].
      destruct (filed_recovering _ _ _ _ Hx Hs) as (d' & Hs' & _). rewrite Hs', Hy in Ht. discriminate Ht.
  - apply Hgo; [done|by apply lookup_diagnostic_ok|exact I|]. intros r' w'. by apply Hkeeps.
Qed.

Lemma runs_reconcile_existing d r used R w :
  lo <= used + 1 -> used <= maximum_post_attempts policy -> in_hand R d used r w -> derived_for_request d ->
  runs R (reconcile_existing env client policy q operation_epoch recovery resubmit d r used) (told R) w.
Proof.
  intros Hlo Hused H Hd. unfold reconcile_existing. destruct (stored_state r) as [|h|[h|] dg| | |] eqn:Es;
    try (by eapply runs_public; [apply H|]).
  - by apply runs_reconcile_tracking.
  - by eapply runs_reconcile_recovering.
  - by apply runs_recover.
Qed.
End reconciliation.

(** *** Admission *)

Lemma runs_plain_clock R o b k w (Q : N -> World -> Prop) :
  on_file R o b k w -> k <= maximum_post_attempts policy -> (forall n w', on_file R o b k w' -> Q n w') ->
  runs R (now_seconds env) Q w.
Proof.
  intros H Hk HQ. pose proof (runs_clock (fun e => e) R o b k w Q H Hk (reports_plain o) HQ) as Hrun.
  unfold runs, wp, map_failure in Hrun. unfold runs, wp. by destruct (now_seconds env w) as [w' []].
Qed.

Lemma runs_admit work n now R o b k w (Q : StoreAdmission -> World -> Prop) :
  on_file R o b k w -> k <= maximum_post_attempts policy ->
  (forall x o' w', option_Forall2 filed o o' -> admission_result q n now o' (world_db w') x -> framed R b k w' ->
     validate_target q = Ok tt -> Q x w') ->
  runs R (store env (fun te => admit_submission te q work n now)) Q w.
Proof.
  intros H Hk HQ. apply wp_bind. eapply (wp_ask _ R o b k); [exact H|]. intros t w' (o' & Ho & Hh & HF).
  pose proof (admit_submission_spec (env_transaction env t) q work n now (world_db w') o' (pass_identity Henv) Hh) as Hs.
  unfold wp, on_database. destruct (admit_submission _ _ _ _ _ _) as [db' [x|e]] eqn:Hadmit; cbn.
  - eapply HQ; [exact Ho|exact Hs|done|].
    unfold admit_submission in Hadmit. by destruct (validate_target q) as [[]|].
  - destruct Hs as [-> He]. exists o', b. split; [|done]. eapply standing_weaken; [by split|done|done].
Qed.

(** *** The attempt loop *)

(** Where attempt [idx] stands: the first of its kind, or after an ambiguity. *)
Definition phase (seen : bool) (idx : nat) (r : StoredChainSubmission) : Prop :=
  if seen then exists dg, stored_state r = Recovering None dg
  else stored_state r = Submitting /\ committed_post_reservations r = N.of_nat (idx + 1).

Lemma phase_postable seen idx r : phase seen idx r -> postable r.
Proof. destruct seen; [by right|]. intros [? _]. by left. Qed.

Definition attempt_ready (d : DerivedChainSubmission) (r : StoredChainSubmission) (seen : bool) (idx : nat)
  (R : InFlightRegistry) (w : World) : Prop :=
  idx < maximum_post_attempts policy
  /\ (exists b, on_file R (Some r) b idx w /\ (b < committed_post_reservations r)%N)
  /\ for_record (derived_generation d) r /\ dispatchable d /\ phase seen idx r.

Lemma told_cancelled R b k w reason :
  standing R None b k w -> k <= maximum_post_attempts policy ->
  runs R (lift (interrupted_without_state reason)) (told R) w.
Proof. intros H Hk. destruct reason; by eapply standing_ended. Qed.

Lemma runs_stop_unsent d r seen idx reason b k R w :
  on_file R (Some r) b k w -> k <= maximum_post_attempts policy -> for_record (derived_generation d) r ->
  phase seen idx r -> runs R (stop_unsent env d r seen reason) (told R) w.
Proof.
  intros H Hk Hg Hp. destruct seen; cbn [stop_unsent]; [by eapply runs_public|]. destruct Hp as [Hs _].
  apply runs_bind. eapply runs_drop; [done|done|done|done|]. intros u w' H'. by eapply told_cancelled.
Qed.

(** What an attempt that goes on leaves: an ambiguous record, or no record. *)
Definition attempt_over (d : DerivedChainSubmission) (idx : nat) (R : InFlightRegistry) (c : N)
  (next : StoredChainSubmission * bool) (w : World) : Prop :=
  if next.2 then ambiguous R (derived_generation d) c (S idx) next.1 w
  else standing R None c (S idx) w /\ c = N.of_nat (idx + 1) /\ S idx < maximum_post_attempts policy.

Definition attempt_step (d : DerivedChainSubmission) (idx : nat) (R : InFlightRegistry) (c : N)
  (step : ChainSubmissionResult + StoredChainSubmission * bool) (w : World) : Prop :=
  match step with inl p => told R p w | inr next => attempt_over d idx R c next w end.

Lemma final_attempt idx : is_final_attempt policy idx = false -> idx < maximum_post_attempts policy ->
  S idx < maximum_post_attempts policy.
Proof. unfold is_final_attempt. case_bool_decide; [discriminate|]. lia. Qed.

Lemma runs_unsent d r seen idx e R w :
  on_file R (Some r) (committed_post_reservations r) (S idx) w -> idx < maximum_post_attempts policy ->
  for_record (derived_generation d) r -> phase seen idx r ->
  runs R (r' ← if seen
               then reconcile_with_durable_state env (derived_generation d) ObsDefinitelyUnsent
                      (Some (from_redacted_message ReconciliationPending (transport_message e))) DurableRecovering
               else _ ← drop_fresh_reservation env (derived_generation d); mret r;
          if is_final_attempt policy idx
          then raise (if seen then with_durable_state Transport DurableRecovering (transport_message e)
                      else without_state Transport (transport_message e))
          else mret (inr (r', seen)))
    (attempt_step d idx R (committed_post_reservations r)) w.
Proof.
  intros H Hidx Hg Hp. apply runs_bind. destruct seen.
  - destruct Hp as [dg Hs]. eapply runs_reconcile; [done|lia|done|exact I|apply from_redacted_message_ok| |].
    { by eapply recovering_durable. }
    intros r' w' Ha. destruct (after_same _ _ _ _ _ _ _ _ Ha Hg) as [Hg' Hc'].
    destruct (after_recovering _ _ _ _ _ _ _ _ _ Ha Hs I) as [[d' Hs'] Hon].
    destruct (is_final_attempt policy idx).
    + eapply runs_fail; [done|lia|]. by eapply recovering_durable.
    + apply runs_ret. split; [done|]. split; [done|]. split; [done|]. by exists d'.
  - destruct Hp as [Hs Hc]. apply runs_bind. eapply runs_drop; [done|lia|done|done|]. intros u w' H'.
    apply runs_ret. destruct (is_final_attempt policy idx) eqn:Hf.
    + apply runs_raise. eapply standing_ended; [exact H'|lia|exact I].
    + apply runs_ret. split; [done|]. split; [done|]. by apply final_attempt.
Qed.

Lemma runs_attempt_outcome resubmit d r seen idx o R w :
  resubmits (S idx) resubmit ->
  on_file R (Some r) (committed_post_reservations r) (S idx) w -> idx < maximum_post_attempts policy ->
  for_record (derived_generation d) r -> dispatchable d -> phase seen idx r -> outcome_ok o ->
  runs R (attempt_outcome env client policy q operation_epoch recovery resubmit d r seen idx o)
    (attempt_step d idx R (committed_post_reservations r)) w.
Proof.
  intros Hres H Hidx Hg Hd Hp Ho. destruct o as [candidate|code kind dg cand|dg|e|dg]; cbn [attempt_outcome].
  - apply runs_bind. eapply runs_classify; [done|lia|done|exact I|]. intros r' w' Ha.
    destruct (returned_candidate_is_unusable r') eqn:Hu.
    + apply runs_ret. by eapply after_unusable.
    + apply runs_bind. eapply runs_mono; [|intros p w2 Hp2; apply runs_ret; exact Hp2].
      destruct (stored_state r') eqn:Es.
      6: { unfold reconcile_existing. rewrite Es. eapply after_public; [done|lia]. }
      all: apply (runs_reconcile_existing (S idx)); try done; try lia; try (split; apply Hd);
        replace (idx + 1) with (S idx) by lia; eapply after_in_hand; try done; by rewrite Es.
  - destruct seen; cbn [andb negb].
    + destruct Hp as [dg' Hs]. case_bool_decide.
      * apply runs_bind. eapply runs_mono; [eapply runs_settle_spent; [done|lia|done|done]|].
        intros p w' Hp'. by apply runs_ret.
      * eapply runs_rejected; [done|lia|done|done|done].
    + apply runs_bind. eapply runs_classify; [done|lia|done| |].
      { by destruct (_ && _). }
      intros r' w' Ha. eapply runs_public_inl; [eapply after_public; [done|lia]|done].
  - destruct seen.
    + destruct Hp as [dg' Hs]. eapply runs_fail; [done|lia|]. by eapply recovering_durable.
    + destruct Hp as [Hs Hc]. apply runs_bind. eapply runs_drop; [done|lia|done|done|]. intros u w' H'.
      apply runs_raise. eapply standing_ended; [exact H'|lia|exact I].
  - by apply runs_unsent.
  - apply runs_bind. eapply runs_classify; [done|lia|done|exact Ho|]. intros r' w' Ha.
    assert (ambiguous R (derived_generation d) (committed_post_reservations r) (S idx) r' w') as Hamb.
    { eapply after_possible; [done|done|done|]. by eapply phase_postable. }
    destruct Hamb as [H' Hrest]. apply runs_bind. eapply runs_interrupted; [exact H'|]. intros stopped w2 H2.
    destruct stopped.
    + eapply runs_public_inl; [eapply runs_public; [done|lia]|done].
    + apply runs_ret. by split.
Qed.

(** A reservation in hand for the next attempt, or the end of the pass. *)
Definition next_attempt (seen : bool) (idx : nat) (R : InFlightRegistry)
  (next : ChainSubmissionResult + DerivedChainSubmission * StoredChainSubmission) (w : World) : Prop :=
  match next with
  | inl p => told R p w
  | inr (d, r) => attempt_ready d r seen (S idx) R w
  end.

(** A fresh admission for attempt [idx] of this pass is ready to be posted. *)
Lemma fresh_ready n now o d r b idx R w :
  admission_result q n now o (world_db w) (Ready d r true) -> framed R b idx w -> validate_target q = Ok tt ->
  idx < maximum_post_attempts policy -> n = N.of_nat (idx + 1) -> (b < n)%N ->
  on_file R (Some r) b idx w /\ attempt_ready d r false idx R w.
Proof.
  intros (Hh & [t Hd] & Hdig & Hr & Himp) HF Hvt Hidx Hn Hb.
  assert (on_file R (Some r) b idx w) as Hon by (apply standing_on_file; by split). split; [done|].
  split; [done|]. split; [exists b; split; [done|]; subst r; cbn; lia|].
  split; [split; [by rewrite (derive_identity _ _ _ Hd)|done]|]. split; [split; [done|]; split; by eauto|]. by subst r.
Qed.

Lemma runs_reserve_next d r seen idx c R w :
  attempt_over d idx R c (r, seen) w -> idx < maximum_post_attempts policy -> dispatchable d ->
  runs R (reserve_next env policy q d r seen idx) (next_attempt seen idx R) w.
Proof.
  intros H Hidx Hd. unfold reserve_next. destruct (is_final_attempt policy idx) eqn:Hf.
  { destruct seen; cbn in H.
    - destruct H as [H _]. eapply runs_public_inl; [eapply runs_public; [done|lia]|done].
    - destruct H as (_ & _ & H). unfold is_final_attempt in Hf. apply bool_decide_eq_true in Hf. lia. }
  pose proof (final_attempt _ Hf Hidx) as Hnext. apply runs_bind, runs_backoff; [done|]. intros delay. destruct seen.
  - apply runs_bind. eapply runs_reserve_after_backoff; [exact H|lia| |].
    + intros r' w' (H' & Hg' & Hc' & Hs') _. apply runs_ret. split; [done|].
      split; [exists c; split; [done|]; destruct H as (_ & _ & Hc & _); cbn in Hc; lia|]. by split.
    + intros w' (H' & _). eapply runs_public_inl; [eapply runs_public; [done|lia]|done].
  - destruct H as (H & Hc & _). apply runs_bind. eapply runs_ask; [by apply standing_on_file|].
    intros t w1 (x & Hx & H1). inversion Hx; subst x. destruct (env_backoff env t) as [reason|].
    { apply runs_bind. eapply runs_mono; [eapply told_cancelled; [done|lia]|]. intros p w2 Hp. by apply runs_ret. }
    apply runs_bind. eapply runs_plain_clock; [by apply standing_on_file|lia|]. intros now w2 H2.
    apply runs_bind. eapply runs_admit; [exact H2|lia|]. intros adm o' w3 Ho Hadm HF Hvt.
    destruct adm as [|r'|d' r' []].
    + apply runs_raise. destruct Hadm as [_ Hh]. eapply standing_ended; [by split|lia|exact I].
    + eapply runs_public_inl; [eapply (runs_public R r' c (S idx)); [|lia]|done].
      destruct Hadm as [Hh|Hh]; eexists; (split; [constructor; [by left + by right]|by split]).
    + destruct (fresh_ready (N.of_nat (idx + 2)) now o' d' r' c (S idx) R w3) as [Hon Hready]; try done; try lia.
      case_bool_decide as Hgen; [by apply runs_ret|].
      eapply runs_public_inl; [eapply runs_public; [done|lia]|done].
    + destruct Hadm as (Hh & _). eapply runs_public_inl; [eapply (runs_public R r' c (S idx)); [|lia]|done].
      apply standing_on_file. by split.
Qed.

Lemma runs_refuse {A} d r seen idx e b R w (Q : A -> World -> Prop) :
  on_file R (Some r) b idx w -> idx < maximum_post_attempts policy -> for_record (derived_generation d) r ->
  phase seen idx r -> strongest_state e = None -> runs R (refuse_attempt env d seen e) Q w.
Proof.
  intros H Hidx Hg Hp He. assert (forall o, truthful_failure o e) as Ht by (intros o; unfold truthful_failure; by rewrite He).
  destruct seen; cbn [refuse_attempt].
  - eapply runs_raise, on_file_fails; [done|lia|]. auto.
  - destruct Hp as [Hs _]. apply runs_bind. eapply runs_drop; [done|lia|done|done|]. intros u w' H'.
    apply runs_raise. eapply standing_ended; [exact H'|lia|auto].
Qed.

Definition loop_step (idx : nat) (R : InFlightRegistry)
  (step : ChainSubmissionResult + DerivedChainSubmission * StoredChainSubmission * bool) (w : World) : Prop :=
  match step with
  | inl p => told R p w
  | inr (d, r, seen) => attempt_ready d r seen (S idx) R w
  end.

Lemma loop_step_relocatable idx : relocatable (loop_step idx).
Proof.
  intros R R' [p|[[d r] seen]] w Hok H; [by apply told_relocatable|].
  destruct H as (Hi & (b & H & Hb) & Hrest). destruct (on_file_relocate R R' _ _ _ _ Hok H) as [HR H'].
  split; [done|]. split; [done|]. split; [by exists b|done].
Qed.

Lemma runs_attempts fuel d r seen idx R w :
  maximum_post_attempts policy - idx <= fuel -> attempt_ready d r seen idx R w ->
  runs R (attempts env client policy q operation_epoch recovery fuel d r seen idx) (told R) w.
Proof.
  revert d r seen idx R w. induction fuel as [|fuel IH]; intros d r seen idx R w Hfuel (Hidx & (b & H & Hb) & Hg & Hd & Hp); [lia|].
  assert (resubmits (S idx) (fun d r used =>
    attempts env client policy q operation_epoch recovery fuel d r (is_retryable_dispatch_ambiguity r) used)) as Hres.
  { intros R1 d1 r1 used b1 w1 Hlo Hu H1 Hb1 Hg1 Hd1 Hs1 Hret. rewrite Hret. apply IH; [lia|].
    split; [done|]. split; [by exists b1|]. by split. }
  cbn [attempts]. rewrite bool_decide_false by lia.
  apply runs_bind. eapply wp_ask_tick; [exact H|]. intros t w1 H1 Htick.
  destruct (interruption_at env operation_epoch t) as [reason|] eqn:Hint.
  { eapply runs_stop_unsent; [done|lia|done|done]. }
  apply runs_bind. eapply runs_mono.
  - eapply (runs_in_flight (loop_step idx)); [apply loop_step_relocatable|exact H1|..].
    + intros e He. by eapply runs_refuse.
    + intros R' H2. apply runs_bind. eapply runs_post; [done|done|done|done|by eapply phase_postable|by exists t|].
      intros ended_ w3 H3 Ho. apply runs_bind.
      eapply (runs_mono _ _ (attempt_step d idx R' (committed_post_reservations r))).
      * destruct ended_ as [[reason []]|o].
        -- apply runs_attempt_outcome; try done. apply from_redacted_message_ok.
        -- apply runs_bind. eapply runs_mono; [eapply runs_stop_unsent; [done|lia|done|done]|].
           intros p w4 Hp4. by apply runs_ret.
        -- by apply runs_attempt_outcome.
      * intros [p|[r' seen']] w4 Hstep; [by apply runs_ret|].
        apply runs_bind. eapply runs_mono; [by eapply runs_reserve_next|].
        intros [p|[d' r2]] w5 H5; by apply runs_ret.
  - intros [p|[[d' r'] seen']] w2 H2; [by apply runs_ret|]. apply IH; [lia|].
    by replace (idx + 1) with (S idx) by lia.
Qed.

(** *** The pass *)

Lemma runs_submit_reserved used : resubmits used
  (submit_reserved_attempts env client policy q operation_epoch recovery (pass_fuel policy)).
Proof.
  intros R d r idx b w _ Hidx H Hb Hg Hd Hs Hret. unfold submit_reserved_attempts. rewrite Hret.
  apply runs_attempts; [unfold pass_fuel; lia|]. split; [done|]. split; [by exists b|]. by split.
Qed.

Lemma attempts_positive : 0 < maximum_post_attempts policy.
Proof. pose proof (pass_policy Henv). lia. Qed.

Lemma runs_advance_ready d r R w :
  in_hand R d 0 r w -> derived_for_request d ->
  runs R (advance_ready env client policy q operation_epoch recovery d r) (told R) w.
Proof.
  intros [H Hg] Hd. pose proof attempts_positive as Hpos. unfold advance_ready.
  destruct (bool_decide _ && is_retryable_dispatch_ambiguity r && negb (is_imported_delegation q)) eqn:Hcase.
  2: { apply runs_bind, runs_ret. apply (runs_reconcile_existing 0); try lia; [apply runs_submit_reserved|by split|done]. }
  apply andb_prop in Hcase as [_ Himp]. apply negb_true_iff in Himp.
  apply runs_bind, runs_bind. eapply runs_interrupted; [exact H|]. intros stopped w1 H1. apply runs_ret.
  destruct stopped; cbn [negb].
  { apply (runs_reconcile_existing 0); try lia; [apply runs_submit_reserved|by split|done]. }
  apply runs_bind. eapply runs_reserve_ambiguous; [exact H1|lia|done|done|by apply reports_at|].
  intros r' w2 (H2 & Hg2 & Hc2 & Hs2) Hret.
  eapply (runs_submit_reserved 0); try done; lia.
Qed.

Lemma runs_advance R o w :
  standing R o 0 0 w -> runs R (advance_in_epoch env client policy q operation_epoch recovery) (told R) w.
Proof.
  intros H. pose proof attempts_positive as Hpos. apply runs_bind.
  eapply runs_ask; [by apply standing_on_file|]. intros t w1 H1.
  destruct (env_acquire_error env t) as [e|] eqn:Hacq.
  { eapply runs_raise, on_file_fails; [done|lia|]. intros x _. unfold truthful_failure. by rewrite (pass_acquire Henv t e). }
  apply runs_bind. eapply runs_interrupted; [exact H1|]. intros stopped w2 H2.
  apply runs_bind. eapply runs_plain_clock; [exact H2|lia|]. intros now w3 H3.
  apply runs_bind. eapply runs_admit; [exact H3|lia|]. intros adm o' w4 Ho Hadm HF Hvt. destruct adm as [|r|d r []].
  - destruct Hadm as [-> Hh]. apply runs_bind.
    eapply (runs_ask _ R None 0 0); [apply standing_on_file; by split|]. intros t2 w5 (x & Hx & H5). inversion Hx; subst x.
    destruct (interruption_at env operation_epoch t2) as [[]|]; (eapply standing_ended; [exact H5|lia|done]).
  - eapply (runs_public R r 0 0); [|lia].
    destruct Hadm as [Hh|Hh]; eexists; (split; [constructor; [by left + by right]|by split]).
  - destruct (fresh_ready 1 now o' d r 0 0 R w4) as [_ Hready]; try done; try lia.
    assert (is_retryable_dispatch_ambiguity r = false) as Hfresh.
    { destruct Hready as (_ & _ & _ & _ & Hs & _). unfold is_retryable_dispatch_ambiguity. by rewrite Hs. }
    unfold submit_reserved_attempts. rewrite Hfresh. apply runs_attempts; [unfold pass_fuel; lia|done].
  - destruct Hadm as (Hh & [t2 Hd] & Hdig & _). apply runs_advance_ready; [|by split; eauto].
    split; [|split; [by rewrite (derive_identity _ _ _ Hd)|done]].
    eapply on_file_weaken; [apply standing_on_file; by split|lia|lia].
Qed.

Lemma load_total db : table_ok (submissions db) -> exists o, load_submission db (request_identity q) = Ok o.
Proof.
  intros Ht. destruct (submissions db !! submission_identity_key (request_identity q)) as [row|] eqn:Hrow.
  - destruct (table_at (submissions db) (request_identity q) row Ht (pass_identity Henv) Hrow) as [r Hr].
    exists (Some r). by eapply load_submission_total.
  - exists None. unfold load_submission, load_row. by rewrite Hrow.
Qed.

(** The pass from any legal database, before any POST. *)
Lemma advance_runs w :
  table_ok (submissions (world_db w)) -> registry_ok (world_registry w) -> world_posts w = [] ->
  runs (world_registry w) (advance_in_epoch env client policy q operation_epoch recovery) (told (world_registry w)) w.
Proof.
  intros Ht HR Hp. destruct (load_total _ Ht) as [o Ho]. apply (runs_advance _ o). split; [by split|]. split; [done|].
  rewrite Hp. repeat constructor.
Qed.
End pass.

(** ** What the host can rely on *)

Section guarantees.
Context `{ST : StoreTables, B64 : Base64Crate, HX : HexCrate, SH : Sha256Crate, RQ : RusqliteCrate}.
Context {SJ : SerdeJson} {WJ : WireJson} {RJ : RecoveryJson} {PC : PoseidonCrate} {FC : FrontierCrate}.

(** A pass from any legal world ends in a standing one, with a truthful report. *)
Lemma advance_standing env client policy q epoch recovery w :
  pass_environment env client policy q -> table_ok (submissions (world_db w)) ->
  registry_ok (world_registry w) -> world_posts w = [] ->
  exists w' out o b, advance_in_epoch env client policy q epoch recovery w = (w', out)
    /\ standing env client q epoch (world_registry w) o b (maximum_post_attempts policy) w'
    /\ match out with
       | Value p => truthful_result q o p
       | Fails e => truthful_failure o e
       | Panics => False
       end.
Proof.
  intros Henv Ht HR Hp. pose proof (advance_runs env client policy q epoch recovery Henv w Ht HR Hp) as H.
  unfold runs, wp in H. destruct (advance_in_epoch env client policy q epoch recovery w) as [w' out].
  exists w', out. destruct out as [p|e|]; [| |done]; destruct H as (o & b & H & Ho); eauto.
Qed.

(** C1. Every POST of a pass follows its durable reservation. At the moment of
    each POST the database already holds the submission with the digest of the
    generation being posted and with exactly the reservation count the POST is
    made under, unclassified or recovering with no candidate; the count picks
    the endpoint in rotation; an imported delegation is never posted. The
    counts strictly increase over the pass, so no reservation is posted twice,
    and a pass makes at most the policy's number of POSTs. *)
Theorem posts_follow_reservations env client policy q epoch recovery w :
  pass_environment env client policy q -> table_ok (submissions (world_db w)) ->
  registry_ok (world_registry w) -> world_posts w = [] ->
  let posts := world_posts (advance_in_epoch env client policy q epoch recovery w).1 in
  Forall (post_reserved client q) posts /\ StronglySorted N.lt (post_reservations <$> posts)
  /\ length posts <= maximum_post_attempts policy.
Proof.
  intros Henv Ht HR Hp.
  destruct (advance_standing env client policy q epoch recovery w Henv Ht HR Hp) as (w' & out & o & b & -> & H & _).
  destruct H as (_ & _ & Hall & Hs & _ & Hk). cbn. split; [|by split]. eapply Forall_impl; [exact Hall|]. by intros p [].
Qed.

(** C21. No POST is made for a cancelled or superseded operation: the step right
    before each POST sampled the host's control, and that sample showed neither
    a cancellation nor a changed epoch. *)
Theorem posts_follow_control_samples env client policy q epoch recovery w :
  pass_environment env client policy q -> table_ok (submissions (world_db w)) ->
  registry_ok (world_registry w) -> world_posts w = [] ->
  Forall (fun p => permitted_at env epoch (post_tick p))
    (world_posts (advance_in_epoch env client policy q epoch recovery w).1).
Proof.
  intros Henv Ht HR Hp.
  destruct (advance_standing env client policy q epoch recovery w Henv Ht HR Hp) as (w' & out & o & b & -> & H & _).
  destruct H as (_ & _ & Hall & _). cbn. eapply Forall_impl; [exact Hall|]. by intros p [].
Qed.

(** C22. A pass always ends and cleans up: it neither panics nor runs out of
    attempts, whatever the network, the clock, the transactions and the host
    answer, and it leaves the table legal and the in-flight registry exactly as
    it found it. *)
Theorem pass_ends_cleanly env client policy q epoch recovery w :
  pass_environment env client policy q -> table_ok (submissions (world_db w)) ->
  registry_ok (world_registry w) -> world_posts w = [] ->
  let '(w', out) := advance_in_epoch env client policy q epoch recovery w in
  out <> Panics /\ world_registry w' = world_registry w /\ table_ok (submissions (world_db w')).
Proof.
  intros Henv Ht HR Hp.
  destruct (advance_standing env client policy q epoch recovery w Henv Ht HR Hp) as (w' & out & o & b & -> & H & Ho).
  destruct H as ([Ht' _] & [HR' _] & _). split; [by destruct out|]. by split.
Qed.

(** C7. The report of a pass is true of the record on file when it returns. A
    result is the public form of the stored record, up to the redaction its
    diagnostic gets when reloaded; [Cancelled] means there is no record; only a
    combined submission's rejection may have retired its record. A failure that
    names a durable state names the stored one, a failure that says a dispatch
    may have happened has a record behind it. *)
Theorem pass_report_truthful env client policy q epoch recovery w :
  pass_environment env client policy q -> table_ok (submissions (world_db w)) ->
  registry_ok (world_registry w) -> world_posts w = [] ->
  let '(w', out) := advance_in_epoch env client policy q epoch recovery w in
  exists o, load_submission (world_db w') (request_identity q) = Ok o
    /\ match out with
       | Value p => truthful_result q o p
       | Fails e => truthful_failure o e
       | Panics => False
       end.
Proof.
  intros Henv Ht HR Hp.
  destruct (advance_standing env client policy q epoch recovery w Henv Ht HR Hp) as (w' & out & o & b & -> & H & Ho).
  destruct H as ([_ Hl] & _). eauto.
Qed.
End guarantees.

(** ** Witnesses *)

#[local] Existing Instances sample_hex sample_sha256 sample_tables sample_base64 sample_confirmation_tables sample_store_tables sample_rusqlite
  sample_poseidon sample_frontier sample_recovery_json.
#[local] Instance sample_serde : SerdeJson := {|
  parse_transaction_result := fun _ => None;
  parse_transaction_status := fun _ => None;
  parse_gateway_error := fun _ => None;
  from_utf8_lossy := fun _ => []
|}.

#[local] Instance sample_wire_json : WireJson := {|
  delegation_to_json := fun _ => Ok [];
  vote_to_json := fun _ => Ok [];
  vote_batch_to_json := fun _ => Ok [];
  delegate_and_vote_batch_to_json := fun _ _ => Ok []
|}.

Definition sample_policy : CoordinatorPolicy :=
  {| tracking_window_seconds := 60; maximum_post_attempts := 3; retry_backoffs := [seconds 1; seconds 2] |}.

(** The first POST times out unreleased, the later ones after their release. *)
Definition sample_env : Env :=
  {| env_interference := fun _ db => db; env_acquire_error := fun _ => None; env_cancelled := fun _ => false;
     env_epoch := fun _ => 7%N; env_now := fun t => Ok (N.of_nat (100 + t)); env_transaction := fun _ => undisturbed;
     env_post := fun t => PostCompleted (TimedOut (bool_decide (7 < t)));
     env_lookup := fun _ => None; env_scan := fun _ => sample_scan_env; env_backoff := fun _ => None |}.

Definition sample_world : World :=
  {| world_db := sample_empty; world_registry := empty_registry; world_posts := []; world_tick := 0 |}.

Definition sample_pass : World * outcome ChainSubmissionResult :=
  advance_in_epoch sample_env sample_client sample_policy sample_request 7 StatusOnly sample_world.

Lemma sample_environment : pass_environment sample_env sample_client sample_policy sample_request.
Proof.
  split; try done.
Qed.

Lemma sample_registry_ok : registry_ok (world_registry sample_world).
Proof. intros key n. cbn. by rewrite lookup_empty. Qed.

(** The pass posts three times, under the reservations 1, 2 and 3. *)
Lemma sample_posts :
  map (fun p => (post_reservations p, post_endpoint p, post_tick p)) (world_posts sample_pass.1)
  = [(1%N, 0, 5); (2%N, 1, 12); (3%N, 0, 20)].
Proof. vm_compute. reflexivity. Qed.

Lemma sample_world_ok : table_ok (submissions (world_db sample_world)).
Proof. apply table_ok_empty. Qed.

Lemma posts_follow_reservations_witness :
  length (world_posts sample_pass.1) = 3 /\ Forall (post_reserved sample_client sample_request) (world_posts sample_pass.1).
Proof.
  split; [by rewrite <- (length_map (fun p => (post_reservations p, post_endpoint p, post_tick p))), sample_posts|].
  unfold sample_pass. exact (proj1 (posts_follow_reservations sample_env sample_client sample_policy sample_request 7
    StatusOnly sample_world sample_environment sample_world_ok sample_registry_ok eq_refl)).
Defined.

Lemma posts_follow_control_samples_witness :
  length (world_posts sample_pass.1) = 3
  /\ Forall (fun p => permitted_at sample_env 7 (post_tick p)) (world_posts sample_pass.1).
Proof.
  split; [by rewrite <- (length_map (fun p => (post_reservations p, post_endpoint p, post_tick p))), sample_posts|].
  unfold sample_pass. exact (posts_follow_control_samples sample_env sample_client sample_policy sample_request 7
    StatusOnly sample_world sample_environment sample_world_ok sample_registry_ok eq_refl).
Defined.

Lemma pass_ends_cleanly_witness :
  sample_pass.2 <> Panics /\ world_registry sample_pass.1 = empty_registry.
Proof.
  pose proof (pass_ends_cleanly sample_env sample_client sample_policy sample_request 7 StatusOnly sample_world
    sample_environment sample_world_ok sample_registry_ok eq_refl) as H.
  unfold sample_pass. destruct (advance_in_epoch _ _ _ _ _ _ _) as [w' out]. destruct H as (Ho & HR & _). by split.
Defined.

Lemma pass_report_truthful_witness :
  exists o, load_submission (world_db sample_pass.1) (request_identity sample_request) = Ok o
    /\ match sample_pass.2 with Value p => truthful_result sample_request o p | Fails e => truthful_failure o e | Panics => False end.
Proof.
  pose proof (pass_report_truthful sample_env sample_client sample_policy sample_request 7 StatusOnly sample_world
    sample_environment sample_world_ok sample_registry_ok eq_refl) as H.
  unfold sample_pass. destruct (advance_in_epoch _ _ _ _ _ _ _) as [w' out]. exact H.
Defined.
