(* ===== verification/NoteBundling.v ===== *)
(** * Note bundle planning

    Models [note_bundling.rs] and the note validation it calls: bundle policies
    with their builders and their checked deserialization, the value-aware
    packing of notes into bundles, the dust and privacy drops, and the
    eligibility rule. Arithmetic that leaves the width of the code's integers
    ends the computation with [None]: a checked build panics there, an unchecked
    one wraps. Sums in [u128] are exact, since a list has fewer than 2^64
    notes. *)

From S2P Require Import Prelude Sorting Types.

(** ** Notes *)

Record NoteInfo : Type := {
  note_commitment : bytes;
  note_nullifier : bytes;
  note_value : N;
  note_position : N;
  note_diversifier : bytes;
  note_rho : bytes;
  note_rseed : bytes;
  note_scope : N;
  note_ufvk : string
}.
#[export] Instance NoteInfo_eq_dec : EqDecision NoteInfo.
Proof. solve_decision. Defined.

Definition validate_32_bytes (v : bytes) (name : text) : result VotingError unit :=
  fail_if (negb (bool_decide (length v = 32)))
    (VeInvalidInput (name ++ chars " must be 32 bytes, got " ++ decimal_nat (length v))).

Definition note_field (i : nat) (field : string) : text :=
  chars "notes[" ++ decimal_nat i ++ chars "]." ++ chars field.

Fixpoint validate_notes_from (i : nat) (notes : list NoteInfo) : result VotingError unit :=
  match notes with
  | [] => Ok tt
  | note :: rest =>
      _ ← validate_32_bytes (note_commitment note) (note_field i "commitment");
      _ ← validate_32_bytes (note_nullifier note) (note_field i "nullifier");
      validate_notes_from (S i) rest
  end.

Definition validate_notes_for_round (notes : list NoteInfo) : result VotingError unit :=
  _ ← fail_if (bool_decide (notes = [])) (VeInvalidInput (chars "notes must not be empty"));
  validate_notes_from 0 notes.

(** ** Policies *)

Abbreviation RECOVERABLE_V1_MAX_REAL_NOTES_PER_BUNDLE := 5%nat (only parsing).
Abbreviation RECOVERABLE_V1_BUNDLE_ADDITION_THRESHOLD_ZATOSHI := (25000 * 100000000)%N (only parsing).
Abbreviation RECOVERABLE_V1_MAX_PRIVACY_BUNDLES := 2%nat (only parsing).
Abbreviation RECOVERABLE_V1_PRIVACY_DROP_BPS := 100%N (only parsing).
Abbreviation RECOVERABLE_V1_MAX_PRIVACY_DROP_ZATOSHI := 100000000000%N (only parsing).
Abbreviation MAX_PRIVACY_DROP_BPS := 500%N (only parsing).
Abbreviation BPS_DENOMINATOR := 10000%N (only parsing).

Inductive BundlePlannerVersion : Type := V1.

Record PrivacyTrimPolicy : Type := {
  max_bundles : nat;
  drop_bps : N;
  max_drop_zatoshi : option N
}.

Record BundlePolicy : Type := {
  planner_version : BundlePlannerVersion;
  max_real_notes_per_bundle : nat;
  bundle_addition_threshold : option N;
  privacy_trim_policy : option PrivacyTrimPolicy
}.

Definition default_privacy_trim : PrivacyTrimPolicy :=
  {| max_bundles := RECOVERABLE_V1_MAX_PRIVACY_BUNDLES; drop_bps := RECOVERABLE_V1_PRIVACY_DROP_BPS;
     max_drop_zatoshi := Some RECOVERABLE_V1_MAX_PRIVACY_DROP_ZATOSHI |}.

Definition default_bundle_policy : BundlePolicy :=
  {| planner_version := V1; max_real_notes_per_bundle := RECOVERABLE_V1_MAX_REAL_NOTES_PER_BUNDLE;
     bundle_addition_threshold := None; privacy_trim_policy := Some default_privacy_trim |}.

Definition capacity_error (got : N) : VotingError :=
  VeInvalidInput (chars "max_real_notes_per_bundle must be in 1..=" ++ decimal_nat BUNDLE_NOTE_SLOTS
    ++ chars ", got " ++ decimal got).

Definition new_with_planner_version (capacity : nat) (version : BundlePlannerVersion) :
  result VotingError BundlePolicy :=
  if bool_decide (1 <= capacity <= BUNDLE_NOTE_SLOTS) then
    Ok {| planner_version := version; max_real_notes_per_bundle := capacity;
          bundle_addition_threshold := None; privacy_trim_policy := Some default_privacy_trim |}
  else Err (capacity_error (N.of_nat capacity)).

(** [from_optional_max_real_notes_per_bundle]; a [u32] always fits a [usize]. *)
Definition bundle_policy_from_optional (capacity : option nat) : result VotingError BundlePolicy :=
  match capacity with
  | Some capacity => new_with_planner_version capacity V1
  | None => Ok default_bundle_policy
  end.

Definition with_bundle_addition_threshold (p : BundlePolicy) (threshold : N) : BundlePolicy :=
  {| planner_version := planner_version p; max_real_notes_per_bundle := max_real_notes_per_bundle p;
     bundle_addition_threshold := Some threshold; privacy_trim_policy := privacy_trim_policy p |}.

Definition with_privacy_trim (p : BundlePolicy) (t : option PrivacyTrimPolicy) : BundlePolicy :=
  {| planner_version := planner_version p; max_real_notes_per_bundle := max_real_notes_per_bundle p;
     bundle_addition_threshold := bundle_addition_threshold p; privacy_trim_policy := t |}.

Definition with_max_privacy_bundles (p : BundlePolicy) (target : option nat) : BundlePolicy :=
  with_privacy_trim p
    ((fun target =>
        let t := default default_privacy_trim (privacy_trim_policy p) in
        {| max_bundles := target; drop_bps := drop_bps t; max_drop_zatoshi := max_drop_zatoshi t |})
     <$> target).

Definition with_privacy_drop_bps (p : BundlePolicy) (bps : N) : result VotingError BundlePolicy :=
  _ ← fail_if (bool_decide (MAX_PRIVACY_DROP_BPS < bps)%N)
        (VeInvalidInput (chars "privacy_drop_bps must be <= " ++ decimal MAX_PRIVACY_DROP_BPS
           ++ chars ", got " ++ decimal bps));
  Ok (with_privacy_trim p
        ((fun t => {| max_bundles := max_bundles t; drop_bps := bps; max_drop_zatoshi := max_drop_zatoshi t |})
         <$> privacy_trim_policy p)).

Definition with_max_privacy_drop_zatoshi (p : BundlePolicy) (clamp : option N) : BundlePolicy :=
  with_privacy_trim p
    ((fun t => {| max_bundles := max_bundles t; drop_bps := drop_bps t; max_drop_zatoshi := clamp |})
     <$> privacy_trim_policy p).

(** [TryFrom<UncheckedBundlePolicy>]: the unchecked fields are a policy's. *)
Definition bundle_policy_try_from (u : BundlePolicy) : result VotingError BundlePolicy :=
  p ← new_with_planner_version (max_real_notes_per_bundle u) (planner_version u);
  let p := match bundle_addition_threshold u with
           | Some threshold => with_bundle_addition_threshold p threshold
           | None => p
           end in
  match privacy_trim_policy u with
  | None => Ok (with_max_privacy_bundles p None)
  | Some t =>
      p ← with_privacy_drop_bps (with_max_privacy_bundles p (Some (max_bundles t))) (drop_bps t);
      Ok (with_max_privacy_drop_zatoshi p (max_drop_zatoshi t))
  end.

Definition recoverable_bundle_policy_v1 : BundlePolicy :=
  {| planner_version := V1; max_real_notes_per_bundle := RECOVERABLE_V1_MAX_REAL_NOTES_PER_BUNDLE;
     bundle_addition_threshold := Some RECOVERABLE_V1_BUNDLE_ADDITION_THRESHOLD_ZATOSHI;
     privacy_trim_policy := Some default_privacy_trim |}.

Definition privacy_drop_budget_v1 (p : BundlePolicy) (total_value : N) : N :=
  match privacy_trim_policy p with
  | None => 0
  | Some t =>
      let budget := (total_value * drop_bps t / BPS_DENOMINATOR)%N in
      match max_drop_zatoshi t with Some clamp => N.min budget clamp | None => budget end
  end.

(** ** Planning *)

(** Bundles carry the running total kept beside them. *)
Abbreviation Bundle := (N * list NoteInfo)%type.

Record PrivacyTrim : Type := { dropped_bundles : N; dropped_notes : N; dropped_value : N }.

Record ChunkResult : Type := {
  bundles : list (list NoteInfo);
  eligible_weight : N;
  dropped_count : nat;
  privacy_trim : PrivacyTrim
}.

Definition no_trim : PrivacyTrim := {| dropped_bundles := 0; dropped_notes := 0; dropped_value := 0 |}.

Fixpoint value_sum (notes : list NoteInfo) : N :=
  match notes with [] => 0 | note :: rest => note_value note + value_sum rest end.

(** Value descending, then position ascending. *)
Definition note_before (a b : NoteInfo) : bool :=
  bool_decide (note_value b < note_value a)%N
  || (bool_decide (note_value a = note_value b) && bool_decide (note_position a <= note_position b)%N).

Definition position_before (a b : NoteInfo) : bool := bool_decide (note_position a <= note_position b)%N.

Definition bundle_addition_would_exceed_threshold_v1 (current value : N) (threshold : option N) : bool :=
  match threshold with
  | Some threshold =>
      match checked_add64 current value with Some total => bool_decide (threshold < total)%N | None => true end
  | None => false
  end.

(** One round of the packing loop; the bundle being filled is the head. *)
Definition add_note (p : BundlePolicy) (packed : list Bundle) (note : NoteInfo) : option (list Bundle) :=
  let needs_new_bundle :=
    match packed with
    | (total, bundle) :: _ =>
        if bool_decide (max_real_notes_per_bundle p <= length bundle) then true
        else if bool_decide (bundle = []) then false
        else bundle_addition_would_exceed_threshold_v1 total (note_value note) (bundle_addition_threshold p)
    | [] => true
    end in
  match if needs_new_bundle then (0%N, []) :: packed else packed with
  | (total, bundle) :: rest =>
      total ← checked_add64 total (note_value note); Some ((total, bundle ++ [note]) :: rest)
  | [] => None
  end.

Fixpoint pack (p : BundlePolicy) (packed : list Bundle) (notes : list NoteInfo) : option (list Bundle) :=
  match notes with
  | [] => Some packed
  | note :: rest => packed ← add_note p packed note; pack p packed rest
  end.

Definition quantized (total : N) : N := (total / BALLOT_DIVISOR * BALLOT_DIVISOR)%N.

(** The eligible bundles in order, with the sum of their quantized totals. *)
Fixpoint keep_eligible (weight : N) (packed : list Bundle) : option (N * list Bundle) :=
  match packed with
  | [] => Some (weight, [])
  | (total, bundle) :: rest =>
      if bool_decide (BALLOT_DIVISOR <= total)%N then
        weight ← checked_add64 weight (quantized total);
        kept ← keep_eligible weight rest;
        Some (kept.1, (total, bundle) :: kept.2)
      else keep_eligible weight rest
  end.

Definition bundle_position (b : Bundle) : N :=
  match b.2 with n :: _ => note_position n | [] => u64_max end.

(** Total descending, then first position ascending. *)
Definition bundle_before (a b : Bundle) : bool :=
  bool_decide (b.1 < a.1)%N || (bool_decide (a.1 = b.1) && bool_decide (bundle_position a <= bundle_position b)%N).

Definition order_bundles (kept : list Bundle) : list Bundle :=
  sort_by bundle_before (map (fun b => (b.1, sort_by position_before b.2)) kept).

(** The privacy trim pops bundles off the end; [tail_first] is the reversed list. *)
Fixpoint trim_loop (target : nat) (budget dropped weight : N) (t : PrivacyTrim) (tail_first : list Bundle) :
  option (N * N * PrivacyTrim * list Bundle) :=
  match tail_first with
  | (total, bundle) :: rest =>
      if bool_decide (length tail_first <= target) || bool_decide (budget < dropped + total)%N
      then Some (dropped, weight, t, tail_first)
      else
        weight ← checked_sub weight (quantized total);
        _ ← (if bool_decide (dropped_bundles t + 1 <= u32_max)%N then Some tt else None);
        _ ← (if bool_decide (dropped_notes t + N.of_nat (length bundle) <= u32_max)%N then Some tt else None);
        trim_loop target budget (dropped + total) weight
          {| dropped_bundles := dropped_bundles t + 1;
             dropped_notes := dropped_notes t + N.of_nat (length bundle);
             dropped_value := dropped_value t |} rest
  | [] => Some (dropped, weight, t, [])
  end.

Definition privacy_trim_step (p : BundlePolicy) (total_value weight : N) (kept : list Bundle) :
  option (N * PrivacyTrim * list Bundle) :=
  match privacy_trim_policy p with
  | None => Some (weight, no_trim, kept)
  | Some t =>
      trimmed ← trim_loop (Nat.max (max_bundles t) 1) (privacy_drop_budget_v1 p total_value) 0 weight no_trim
                  (reverse kept);
      let '(dropped, weight, trim, tail_first) := trimmed in
      Some (weight, {| dropped_bundles := dropped_bundles trim; dropped_notes := dropped_notes trim;
                       dropped_value := N.min dropped u64_max |}, reverse tail_first)
  end.

Definition chunk_notes_v1_with_policy (notes : list NoteInfo) (p : BundlePolicy) : option ChunkResult :=
  if bool_decide (notes = []) then
    Some {| bundles := []; eligible_weight := 0; dropped_count := 0; privacy_trim := no_trim |}
  else
    packed ← pack p [] (sort_by note_before notes);
    let packed := reverse packed in
    kept ← keep_eligible 0 packed;
    trimmed ← privacy_trim_step p (value_sum notes) kept.1 (order_bundles kept.2);
    let '(weight, trim, surviving) := trimmed in
    Some {| bundles := map snd surviving; eligible_weight := weight;
            dropped_count := length (concat (map snd packed)) - length (concat (map snd kept.2));
            privacy_trim := trim |}.

Definition chunk_notes_with_policy (notes : list NoteInfo) (p : BundlePolicy) : option ChunkResult :=
  match planner_version p with V1 => chunk_notes_v1_with_policy notes p end.

(** First occurrence of every nullifier; [seen] is the set filled by the filter. *)
Fixpoint distinct_notes_from (seen : list bytes) (notes : list NoteInfo) : list NoteInfo :=
  match notes with
  | [] => []
  | note :: rest =>
      if bool_decide (note_nullifier note ∈ seen) then distinct_notes_from seen rest
      else note :: distinct_notes_from (note_nullifier note :: seen) rest
  end.

Definition distinct_notes_by_nullifier_v1 (notes : list NoteInfo) : list NoteInfo := distinct_notes_from [] notes.

Definition canonical_note_bundle_plan_for_notes (notes : list NoteInfo) (p : BundlePolicy) :
  result VotingError (option ChunkResult) :=
  match planner_version p with
  | V1 =>
      _ ← validate_notes_for_round notes;
      Ok (chunk_notes_v1_with_policy (distinct_notes_by_nullifier_v1 notes) p)
  end.

(** *** Eligibility *)

Record MinimumVotingEligibility : Type := { distinct_note_count : nat; voting_weight : N }.

Definition is_eligible (e : MinimumVotingEligibility) : bool := bool_decide (BALLOT_DIVISOR <= voting_weight e)%N.

(** The status and the plan it was derived from; [Ok None] is an arithmetic overflow. *)
Definition minimum_voting_eligibility_and_plan_for_notes (notes : list NoteInfo) (p : BundlePolicy) :
  result VotingError (option (MinimumVotingEligibility * ChunkResult)) :=
  if bool_decide (notes = []) then
    Ok (option_map (fun plan => ({| distinct_note_count := 0; voting_weight := 0 |}, plan))
          (chunk_notes_with_policy notes p))
  else
    plan ← canonical_note_bundle_plan_for_notes notes p;
    Ok (option_map (fun plan => ({| distinct_note_count := length (concat (bundles plan));
                                    voting_weight := eligible_weight plan |}, plan)) plan).

(** [notes_for_pir_proof_cache]. *)
Definition notes_for_pir_proof_cache (notes : list NoteInfo) (p : BundlePolicy) :
  result VotingError (option (list NoteInfo)) :=
  if bool_decide (notes = []) then Ok (Some [])
  else plan ← canonical_note_bundle_plan_for_notes notes p; Ok (option_map (fun plan => concat (bundles plan)) plan).

(** ** Sums and orders *)

Fixpoint totals (bs : list Bundle) : N := match bs with [] => 0 | b :: rest => b.1 + totals rest end.
Fixpoint weights (bs : list Bundle) : N := match bs with [] => 0 | b :: rest => quantized b.1 + weights rest end.
Abbreviation notes_of bs := (concat (map snd bs)).

Lemma value_sum_app l k : value_sum (l ++ k) = (value_sum l + value_sum k)%N.
Proof. induction l as [|n l IH]; [done|]. cbn. rewrite IH. lia. Qed.

Lemma totals_app l k : totals (l ++ k) = (totals l + totals k)%N.
Proof. induction l as [|b l IH]; [done|]. cbn. rewrite IH. lia. Qed.

Lemma weights_app l k : weights (l ++ k) = (weights l + weights k)%N.
Proof. induction l as [|b l IH]; [done|]. cbn. rewrite IH. lia. Qed.

#[export] Instance value_sum_Permutation : Proper (Permutation ==> eq) value_sum.
Proof. intros l k H. induction H; cbn; lia. Qed.
#[export] Instance totals_Permutation : Proper (Permutation ==> eq) totals.
Proof. intros l k H. induction H; cbn; lia. Qed.
#[export] Instance weights_Permutation : Proper (Permutation ==> eq) weights.
Proof. intros l k H. induction H; cbn; lia. Qed.
#[export] Instance concat_Permutation {A} : Proper (Permutation ==> Permutation) (@concat A).
Proof.
  intros l k H. induction H; cbn; [done|by f_equiv| |by etrans].
  rewrite !(assoc_L (++)). by rewrite (Permutation_app_comm y x).
Qed.

Lemma quantized_le total : (quantized total <= total)%N.
Proof. unfold quantized. rewrite N.mul_comm. apply N.Div0.mul_div_le. Qed.

Lemma weights_le bs : (weights bs <= totals bs)%N.
Proof. induction bs as [|b bs IH]; cbn; [done|]. pose proof (quantized_le b.1). lia. Qed.

Lemma checked_add64_Some a b c : checked_add64 a b = Some c <-> c = (a + b)%N /\ (a + b <= u64_max)%N.
Proof. unfold checked_add64. case_bool_decide; naive_solver. Qed.

Lemma checked_add64_fits a b : (a + b <= u64_max)%N -> checked_add64 a b = Some (a + b)%N.
Proof. intros H. by apply checked_add64_Some. Qed.

Lemma note_before_total a b : note_before a b = true \/ note_before b a = true.
Proof. unfold note_before. repeat case_bool_decide; cbn; try lia; auto. Qed.
Lemma note_before_trans a b c : note_before a b = true -> note_before b c = true -> note_before a c = true.
Proof. unfold note_before. repeat case_bool_decide; cbn; try done; lia. Qed.
Lemma bundle_before_total a b : bundle_before a b = true \/ bundle_before b a = true.
Proof. unfold bundle_before. repeat case_bool_decide; cbn; try lia; auto. Qed.
Lemma bundle_before_trans a b c : bundle_before a b = true -> bundle_before b c = true -> bundle_before a c = true.
Proof. unfold bundle_before. repeat case_bool_decide; cbn; try done; lia. Qed.
Lemma position_before_total a b : position_before a b = true \/ position_before b a = true.
Proof. unfold position_before. repeat case_bool_decide; auto; lia. Qed.
Lemma position_before_trans a b c :
  position_before a b = true -> position_before b c = true -> position_before a c = true.
Proof. unfold position_before. repeat case_bool_decide; try done; lia. Qed.

(** ** Packing *)

(** A packed bundle: non-empty, within capacity, with its total, and over the
    threshold only when it is a single note. *)
Definition bundle_packed (p : BundlePolicy) (b : Bundle) : Prop :=
  b.2 <> [] /\ length b.2 <= max_real_notes_per_bundle p /\ b.1 = value_sum b.2
  /\ match bundle_addition_threshold p with
     | Some threshold => length b.2 = 1 \/ (b.1 <= threshold)%N
     | None => True
     end.

Lemma add_note_packed p packed note packed' :
  1 <= max_real_notes_per_bundle p -> Forall (bundle_packed p) packed -> add_note p packed note = Some packed' ->
  Forall (bundle_packed p) packed' /\ notes_of (reverse packed') = notes_of (reverse packed) ++ [note].
Proof.
  intros Hcap Hall H. unfold add_note in H.
  assert (forall total, (0 + note_value note)%N = total -> bundle_packed p (total, [note])) as Hone.
  { intros total <-. split; [done|]. cbn. split; [done|]. split; [lia|]. destruct (bundle_addition_threshold p); auto. }
  destruct packed as [|[total bundle] rest].
  { destruct (checked_add64 0 _) as [total|] eqn:Hadd; [|done]. injection H as <-.
    apply checked_add64_Some in Hadd as [-> _]. split; [by constructor; [apply Hone|]|done]. }
  apply Forall_cons in Hall as [Hb Hrest]. destruct Hb as (Hne & Hlen & Htot & Hth). cbn in Hne, Hlen, Htot, Hth.
  assert (forall n, reverse (n :: (total, bundle) :: rest) = reverse ((total, bundle) :: rest) ++ [n]) as Hrev.
  { intros n. by rewrite reverse_cons. }
  destruct (if bool_decide _ then true else _) eqn:Hnew.
  - destruct (checked_add64 0 _) as [t|] eqn:Hadd; [|done]. injection H as <-.
    apply checked_add64_Some in Hadd as [-> _]. split.
    + constructor; [by apply Hone|]. constructor; [|done]. by split.
    + rewrite Hrev, map_app, concat_app. done.
  - destruct (checked_add64 total _) as [t|] eqn:Hadd; [|done]. injection H as <-.
    apply checked_add64_Some in Hadd as [-> Hfit]. case_bool_decide as Hc; [done|].
    rewrite bool_decide_false in Hnew by done. split.
    + constructor; [|done]. split; [by destruct bundle|]. cbn [fst snd]. rewrite length_app, value_sum_app. cbn.
      split; [lia|]. split; [lia|]. unfold bundle_addition_would_exceed_threshold_v1 in Hnew.
      destruct (bundle_addition_threshold p); [|done]. rewrite checked_add64_fits in Hnew by done.
      apply bool_decide_eq_false in Hnew. right. lia.
    + rewrite !reverse_cons, !map_app, !concat_app. cbn. by rewrite !app_nil_r, (assoc_L (++)).
Qed.

Lemma pack_packed p notes packed packed' :
  1 <= max_real_notes_per_bundle p -> Forall (bundle_packed p) packed -> pack p packed notes = Some packed' ->
  Forall (bundle_packed p) packed' /\ notes_of (reverse packed') = notes_of (reverse packed) ++ notes.
Proof.
  intros Hcap. revert packed. induction notes as [|note notes IH]; intros packed Hall H; cbn in H.
  - injection H as <-. by rewrite app_nil_r.
  - destruct (add_note p packed note) as [mid|] eqn:Hadd; [|done]. cbn in H.
    destruct (add_note_packed p packed note mid Hcap Hall Hadd) as [Hmid Hn].
    destruct (IH mid Hmid H) as [Hall' Hn']. split; [done|]. by rewrite Hn', Hn, <- (assoc_L (++)).
Qed.

(** A bundle takes no more notes: it is full, or the next note would exceed the threshold. *)
Definition closed_before (p : BundlePolicy) (b : Bundle) (next : NoteInfo) : Prop :=
  length b.2 = max_real_notes_per_bundle p
  \/ match bundle_addition_threshold p with Some threshold => (threshold < b.1 + note_value next)%N | None => False end.

(** A bundle is started only when the one before it takes no more. *)
Definition filled_in_order (p : BundlePolicy) (packed : list Bundle) : Prop :=
  forall before b b' after next, packed = before ++ b :: b' :: after -> head b'.2 = Some next -> closed_before p b next.

Definition filled_reversed (p : BundlePolicy) (packed : list Bundle) : Prop :=
  forall before b b' after next, packed = before ++ b' :: b :: after -> head b'.2 = Some next -> closed_before p b next.

Lemma filled_reverse p packed : filled_reversed p packed -> filled_in_order p (reverse packed).
Proof.
  intros H before b b' after next Heq. apply (H (reverse after) b b' (reverse before)).
  rewrite <- (reverse_involutive packed), Heq, reverse_app, !reverse_cons, <- !app_assoc. done.
Qed.

Lemma add_note_filled p packed note packed' :
  (totals packed + note_value note <= u64_max)%N -> Forall (bundle_packed p) packed -> filled_reversed p packed ->
  add_note p packed note = Some packed' -> filled_reversed p packed'.
Proof.
  intros Hfit Hall Hf H. unfold add_note in H. destruct packed as [|[total bundle] rest].
  { destruct (checked_add64 0 _); [|done]. injection H as <-. intros [|x [|y before]] b b' after next Heq; discriminate Heq. }
  apply Forall_cons in Hall as [(Hne & Hlen & _) _]. cbn in Hne, Hlen, Hfit.
  destruct (if bool_decide _ then true else _) eqn:Hnew.
  - destruct (checked_add64 0 _); [|done]. injection H as <-. intros [|x before] b b' after next Heq Hh; [|injection Heq as _ Heq; by eapply Hf].
    injection Heq as <- <- <-. injection Hh as <-. unfold closed_before. cbn [fst snd]. case_bool_decide as Hc; [left; lia|right].
    rewrite bool_decide_false in Hnew by done. unfold bundle_addition_would_exceed_threshold_v1 in Hnew.
    destruct (bundle_addition_threshold p); [|done]. rewrite checked_add64_fits in Hnew by lia. by apply bool_decide_eq_true in Hnew.
  - destruct (checked_add64 total _); [|done]. injection H as <-. intros [|x before] b b' after next Heq Hh.
    + injection Heq as <- ->. cbn in Hh. apply (Hf [] b (total, bundle) after next eq_refl). by destruct bundle.
    + injection Heq as <- ->. by apply (Hf ((total, bundle) :: before) b b' after).
Qed.

Lemma add_note_totals p packed note packed' :
  add_note p packed note = Some packed' -> totals packed' = (totals packed + note_value note)%N.
Proof.
  unfold add_note. destruct packed as [|[total bundle] rest]; [|destruct (if bool_decide _ then true else _)];
    (destruct (checked_add64 _ _) eqn:Hadd; [|done]); intros [= <-]; apply checked_add64_Some in Hadd as [-> _]; cbn; lia.
Qed.

Lemma pack_filled p notes packed packed' :
  1 <= max_real_notes_per_bundle p -> (totals packed + value_sum notes <= u64_max)%N ->
  Forall (bundle_packed p) packed -> filled_reversed p packed -> pack p packed notes = Some packed' -> filled_reversed p packed'.
Proof.
  intros Hcap. revert packed. induction notes as [|note notes IH]; intros packed Hfit Hall Hf H; cbn in H; [by injection H as <-|].
  cbn in Hfit. destruct (add_note p packed note) as [mid|] eqn:Hadd; [|done]. cbn in H.
  apply (IH mid); [rewrite (add_note_totals _ _ _ _ Hadd); lia| |eapply add_note_filled; [|exact Hall|exact Hf|exact Hadd]; lia|done].
  by eapply add_note_packed.
Qed.

Lemma totals_packed p bs : Forall (bundle_packed p) bs -> totals bs = value_sum (notes_of bs).
Proof. induction 1 as [|b bs (_ & _ & Ht & _) _ IH]; cbn; [done|]. rewrite value_sum_app. lia. Qed.

Lemma pack_total p notes packed :
  1 <= max_real_notes_per_bundle p -> Forall (bundle_packed p) packed ->
  (totals packed + value_sum notes <= u64_max)%N -> is_Some (pack p packed notes).
Proof.
  intros Hcap. revert packed. induction notes as [|note notes IH]; intros packed Hall Hfit; cbn; [eauto|]. cbn in Hfit.
  assert (exists mid, add_note p packed note = Some mid /\ totals mid = (totals packed + note_value note)%N) as (mid & Hadd & Ht).
  { unfold add_note. destruct packed as [|[total bundle] rest].
    - rewrite checked_add64_fits by lia. eexists. split; [done|]. cbn. lia.
    - cbn in Hfit |- *. destruct (if bool_decide _ then true else _);
        rewrite checked_add64_fits by lia; (eexists; split; [done|]); cbn; lia. }
  rewrite Hadd. cbn. apply IH; [|lia]. by eapply add_note_packed.
Qed.

(** ** Dust *)

Definition eligible (b : Bundle) : Prop := (BALLOT_DIVISOR <= b.1)%N.
#[export] Instance eligible_dec b : Decision (eligible b) := decide (BALLOT_DIVISOR <= b.1)%N.

Lemma keep_eligible_spec weight packed weight' kept :
  keep_eligible weight packed = Some (weight', kept) ->
  kept = filter eligible packed /\ weight' = (weight + weights kept)%N.
Proof.
  revert weight weight' kept. induction packed as [|[total bundle] packed IH]; intros weight weight' kept H; cbn in H.
  - injection H as <- <-. split; [done|]. cbn. lia.
  - rewrite filter_cons. case_bool_decide as He.
    + destruct (checked_add64 _ _) as [w|] eqn:Hadd; [|done]. cbn in H.
      apply checked_add64_Some in Hadd as [-> _].
      destruct (keep_eligible _ packed) as [[w k]|] eqn:Hk; [|done]. cbn in H. injection H as <- <-.
      apply IH in Hk as [-> ->]. rewrite decide_True by done. split; [done|]. cbn. lia.
    + rewrite decide_False by done. eauto.
Qed.

Lemma keep_eligible_total weight packed :
  (weight + totals packed <= u64_max)%N -> is_Some (keep_eligible weight packed).
Proof.
  revert weight. induction packed as [|[total bundle] packed IH]; intros weight Hfit; cbn in *; [eauto|].
  pose proof (quantized_le total). case_bool_decide; [|apply IH; lia].
  rewrite checked_add64_fits by lia. cbn. destruct (IH (weight + quantized total)%N) as [x ->]; [lia|]. cbn. eauto.
Qed.

(** ** The privacy trim *)

(** The trim removes the front of [tail_first] while it can and must. *)
Lemma trim_loop_spec target budget dropped weight t tail_first dropped' weight' t' rest :
  trim_loop target budget dropped weight t tail_first = Some (dropped', weight', t', rest) ->
  exists removed, tail_first = removed ++ rest /\ dropped' = (dropped + totals removed)%N
    /\ weight = (weight' + weights removed)%N
    /\ t' = {| dropped_bundles := dropped_bundles t + N.of_nat (length removed);
               dropped_notes := dropped_notes t + N.of_nat (length (notes_of removed));
               dropped_value := dropped_value t |}
    /\ (removed = [] \/ (dropped' <= budget)%N /\ target <= length rest)
    /\ (length rest <= target \/ exists b rest', rest = b :: rest' /\ (budget < dropped' + b.1)%N).
Proof.
  revert dropped weight t. induction tail_first as [|[total bundle] tf IH]; intros dropped weight t H; cbn in H.
  { injection H as <- <- <- <-. exists []. destruct t; cbn. rewrite !N.add_0_r. repeat split; auto. left. lia. }
  destruct (bool_decide (S (length tf) <= target) || _) eqn:Hstop.
  { injection H as <- <- <- <-. exists []. destruct t; cbn. rewrite !N.add_0_r. repeat split; auto.
    apply orb_true_iff in Hstop as [Hs%bool_decide_eq_true|Hs%bool_decide_eq_true]; [by left|right; eauto]. }
  apply orb_false_iff in Hstop as [Hlong%bool_decide_eq_false Hb%bool_decide_eq_false]. unfold checked_sub in H.
  destruct (bool_decide (quantized total <= weight)%N) eqn:Hw; [cbn in H|discriminate H].
  apply bool_decide_eq_true in Hw.
  destruct (bool_decide (dropped_bundles t + 1 <= _)%N); [cbn in H|discriminate H].
  destruct (bool_decide (dropped_notes t + _ <= _)%N); [cbn in H|discriminate H].
  apply IH in H as (removed & -> & -> & Hweight & -> & Hbudget & Hend). exists ((total, bundle) :: removed).
  cbn. rewrite length_app. split; [done|]. split; [lia|]. split; [lia|].
  split; [f_equal; lia|]. split; [right; destruct Hbudget as [->|[]]; cbn in *; lia|].
  destruct Hend as [|(b & rest' & -> & Hlt)]; [by left|right]. exists b, rest'. split; [done|]. lia.
Qed.

Lemma trim_loop_total target budget dropped weight t tail_first :
  (weights tail_first <= weight)%N -> (dropped_bundles t + N.of_nat (length tail_first) <= u32_max)%N ->
  (dropped_notes t + N.of_nat (length (notes_of tail_first)) <= u32_max)%N ->
  is_Some (trim_loop target budget dropped weight t tail_first).
Proof.
  revert dropped weight t. induction tail_first as [|[total bundle] tf IH]; intros dropped weight t Hw Hb Hn; cbn in *; [eauto|].
  destruct (_ || _); [eauto|]. rewrite length_app in Hn. unfold checked_sub.
  rewrite !bool_decide_true by lia. cbn. apply IH; cbn; lia.
Qed.

(** No [n] of the bundles are cheaper than the [n] cheapest. *)
Definition cheaper (a b : Bundle) : Prop := (a.1 <= b.1)%N.

Lemma take_cheaper n x (l : list Bundle) :
  StronglySorted cheaper l -> Forall (cheaper x) l -> n <= length l ->
  (totals (take n (x :: l)) <= totals (take n l))%N.
Proof.
  intros Hs. revert n x. induction Hs as [|y l Hs IH Hy]; intros n x Hx Hn; destruct n as [|n]; cbn in Hn |- *; try lia.
  apply Forall_cons in Hx as [Hxy _]. unfold cheaper in Hxy.
  assert (n <= length l) as Hn' by lia. pose proof (IH n y Hy Hn'). lia.
Qed.

Lemma cheapest_first (l d : list Bundle) :
  StronglySorted cheaper l -> d ⊆+ l -> (totals (take (length d) l) <= totals d)%N.
Proof.
  intros Hs. revert d. induction Hs as [|x l Hs IH Hx]; intros d Hd.
  - apply submseteq_nil_r in Hd as ->. done.
  - apply submseteq_cons_r in Hd as [Hd|(d' & Hp & Hd)].
    + etrans; [|by apply IH]. apply take_cheaper; [done|done|]. by apply submseteq_length.
    + rewrite Hp. cbn. apply IH in Hd. lia.
Qed.

(** ** The plan *)

(** A valid policy: capacity within the circuit's slots, drop share within 5%. *)
Definition policy_ok (p : BundlePolicy) : Prop :=
  1 <= max_real_notes_per_bundle p <= BUNDLE_NOTE_SLOTS
  /\ match privacy_trim_policy p with Some t => (drop_bps t <= MAX_PRIVACY_DROP_BPS)%N | None => True end.

(** A bundle of a plan: packed, worth at least a ballot, notes by position. *)
Definition bundle_planned (p : BundlePolicy) (b : Bundle) : Prop :=
  bundle_packed p b /\ eligible b /\ StronglySorted position_before b.2.

(** The trim stopped at its target, or no larger set of bundles fits the budget. *)
Definition trim_settled (p : BundlePolicy) (total_value : N) (kept trimmed : list Bundle) : Prop :=
  match privacy_trim_policy p with
  | None => trimmed = []
  | Some t =>
      (trimmed = [] \/ (totals trimmed <= privacy_drop_budget_v1 p total_value)%N /\ Nat.max (max_bundles t) 1 <= length kept)
      /\ (length kept <= Nat.max (max_bundles t) 1 \/
          forall d, d ⊆+ kept ++ trimmed -> (totals d <= privacy_drop_budget_v1 p total_value)%N ->
            length d <= length trimmed)
  end.

(** [packed] are the bundles the packing loop leaves, [dust] those under a ballot. *)
Record planned (p : BundlePolicy) (notes : list NoteInfo) (r : ChunkResult) (packed kept trimmed : list Bundle)
  (dust : list Bundle := filter (fun b => ~ eligible b) packed) : Prop := {
  plan_packed : pack p [] (sort_by note_before notes) = Some (reverse packed);
  plan_sequence : notes_of packed = sort_by note_before notes;
  plan_bundled : Forall (bundle_packed p) packed;
  plan_filled : filled_in_order p packed;
  plan_order : order_bundles (filter eligible packed) = kept ++ trimmed;
  plan_bundles : bundles r = map snd kept;
  plan_partition : notes_of (kept ++ trimmed ++ dust) ≡ₚ notes;
  plan_kept : Forall (bundle_planned p) (kept ++ trimmed);
  plan_sorted : StronglySorted bundle_before (kept ++ trimmed);
  plan_weight : eligible_weight r = weights kept;
  plan_dropped : dropped_count r = length (notes_of dust);
  plan_trim : privacy_trim r = {| dropped_bundles := N.of_nat (length trimmed);
                                  dropped_notes := N.of_nat (length (notes_of trimmed));
                                  dropped_value := totals trimmed |};
  plan_settled : trim_settled p (value_sum notes) kept trimmed
}.

Lemma filter_partition {A} (P : A -> Prop) `{!forall x, Decision (P x)} (l : list A) :
  filter P l ++ filter (fun x => ~ P x) l ≡ₚ l.
Proof.
  induction l as [|x l IH]; [done|]. rewrite !filter_cons. destruct (decide (P x)).
  - rewrite decide_False by naive_solver. cbn. by rewrite IH.
  - rewrite decide_True by done. by rewrite <- Permutation_middle, IH.
Qed.

Lemma order_bundles_planned p kept :
  Forall (bundle_packed p) kept -> Forall eligible kept ->
  Forall (bundle_planned p) (order_bundles kept) /\ StronglySorted bundle_before (order_bundles kept)
  /\ notes_of (order_bundles kept) ≡ₚ notes_of kept /\ totals (order_bundles kept) = totals kept
  /\ weights (order_bundles kept) = weights kept /\ length (order_bundles kept) = length kept.
Proof.
  intros Hp He. unfold order_bundles. split; [|split; [|split; [|split; [|split]]]].
  - rewrite sort_by_Permutation. apply Forall_map. rewrite Forall_forall in Hp, He |- *. intros b Hb.
    destruct (Hp b Hb) as (Hne & Hlen & Ht & Hth). split; [|split; [exact (He b Hb)|]].
    + unfold bundle_packed. cbn [fst snd]. rewrite length_sort_by. split.
      { intros Hnil. apply Hne, Permutation_nil_r. by rewrite <- Hnil, sort_by_Permutation. }
      split; [done|]. split; [by rewrite sort_by_Permutation|done].
    + apply sort_by_sorted; [apply position_before_total|apply position_before_trans].
  - apply sort_by_sorted; [apply bundle_before_total|apply bundle_before_trans].
  - rewrite sort_by_Permutation, map_map. clear Hp He. induction kept as [|b kept IH]; [done|]. cbn.
    by rewrite sort_by_Permutation, IH.
  - rewrite sort_by_Permutation. clear. induction kept as [|b kept IH]; [done|]. cbn. by rewrite IH.
  - rewrite sort_by_Permutation. clear. induction kept as [|b kept IH]; [done|]. cbn. by rewrite IH.
  - by rewrite length_sort_by, length_map.
Qed.

Lemma sorted_cheaper (l : list Bundle) : StronglySorted bundle_before l -> StronglySorted cheaper (reverse l).
Proof.
  induction 1 as [|b l Hs IH Hb]; [constructor|]. rewrite reverse_cons.
  assert (Forall (fun x => cheaper x b) (reverse l)) as Hall.
  { rewrite reverse_Permutation. eapply Forall_impl; [exact Hb|]. intros x Hx. unfold cheaper, bundle_before in *.
    apply Is_true_eq_true in Hx. repeat case_bool_decide; cbn in Hx; try done; lia. }
  revert Hall. induction IH as [|x k Hk IHk Hx]; intros Hall; cbn; [repeat constructor|].
  apply Forall_cons in Hall as [Hxb Hall]. constructor; [by apply IHk|]. apply Forall_app. by split; [|constructor].
Qed.

(** The trim step, from the ordered bundles. *)
Lemma privacy_trim_step_spec p total_value weight ordered :
  StronglySorted bundle_before ordered -> (weights ordered <= weight)%N ->
  (N.of_nat (length ordered) <= u32_max)%N -> (N.of_nat (length (notes_of ordered)) <= u32_max)%N ->
  (totals ordered <= u64_max)%N ->
  exists kept trimmed, ordered = kept ++ trimmed
    /\ privacy_trim_step p total_value weight ordered
       = Some ((weight - weights trimmed)%N,
               {| dropped_bundles := N.of_nat (length trimmed); dropped_notes := N.of_nat (length (notes_of trimmed));
                  dropped_value := totals trimmed |}, kept)
    /\ trim_settled p total_value kept trimmed.
Proof.
  intros Hs Hw Hb Hn Ht. unfold privacy_trim_step, trim_settled. destruct (privacy_trim_policy p) as [t|].
  2: { exists ordered, []. rewrite app_nil_r, N.sub_0_r. done. }
  destruct (trim_loop_total (Nat.max (max_bundles t) 1) (privacy_drop_budget_v1 p total_value) 0 weight no_trim
    (reverse ordered)) as [[[[dropped weight'] trim] rest] Hloop].
  { by rewrite reverse_Permutation. }
  { cbn. rewrite length_reverse. lia. }
  { cbn. rewrite reverse_Permutation. lia. }
  rewrite Hloop. apply trim_loop_spec in Hloop as (removed & Hrev & -> & -> & -> & Hbudget & Hend).
  exists (reverse rest), (reverse removed).
  assert (ordered = reverse rest ++ reverse removed) as -> by (by rewrite <- reverse_app, <- Hrev, reverse_involutive).
  assert (totals (reverse removed) = totals removed) as Htot by (by rewrite reverse_Permutation).
  assert (weights (reverse removed) = weights removed) as Hwei by (by rewrite reverse_Permutation).
  assert (length (notes_of (reverse removed)) = length (notes_of removed)) as Hlen by (by rewrite reverse_Permutation).
  rewrite totals_app, Htot in Ht. rewrite Htot, Hwei, Hlen, length_reverse. split; [done|]. split.
  { cbn. repeat f_equal; lia. }
  split; [destruct Hbudget as [->|[? ?]]; [by left|right; by rewrite length_reverse]|].
  destruct Hend as [|(b & rest' & -> & Hlt)]; [left; by rewrite length_reverse|right].
  intros d Hd Hfit. destruct (decide (length d <= length removed)) as [|Hlong]; [done|exfalso].
  apply sorted_cheaper in Hs. rewrite Hrev in Hs.
  assert (d ⊆+ removed ++ b :: rest') as Hsub.
  { etrans; [exact Hd|]. rewrite !reverse_Permutation. by rewrite (Permutation_app_comm removed). }
  apply cheapest_first in Hsub; [|done].
  assert (totals removed + b.1 <= totals (take (length d) (removed ++ b :: rest')))%N as Hmore; [|lia].
  replace (length d) with (length removed + S (length d - length removed - 1)) by lia.
  rewrite take_app_add, totals_app. cbn. lia.
Qed.

(** Bundles are not empty, so there are no more of them than notes. *)
Lemma bundles_le_notes p bs : Forall (bundle_packed p) bs -> length bs <= length (notes_of bs).
Proof.
  induction 1 as [|b bs (Hne & _) _ IH]; cbn; [done|]. rewrite length_app. destruct b.2; [done|]. cbn. lia.
Qed.

Lemma pack_plan p notes :
  1 <= max_real_notes_per_bundle p -> (value_sum notes <= u64_max)%N ->
  exists packed, pack p [] (sort_by note_before notes) = Some (reverse packed)
    /\ Forall (bundle_packed p) packed /\ notes_of packed = sort_by note_before notes /\ filled_in_order p packed
    /\ totals packed = value_sum notes.
Proof.
  intros Hcap Hfit. destruct (pack_total p (sort_by note_before notes) []) as [packed Hpack];
    [done|constructor|by rewrite sort_by_Permutation|].
  destruct (pack_packed _ _ _ _ Hcap (Forall_nil_2 _) Hpack) as [Hall Hnotes].
  exists (reverse packed). rewrite reverse_involutive. split; [done|]. rewrite Hnotes.
  assert (Forall (bundle_packed p) (reverse packed)) as Hrev by (by rewrite reverse_Permutation).
  split; [done|]. split; [done|]. split; [|by rewrite (totals_packed p), Hnotes, sort_by_Permutation].
  apply filled_reverse. eapply (pack_filled p (sort_by note_before notes) []); [done|by rewrite sort_by_Permutation|constructor| |exact Hpack].
  by intros [].
Qed.

Lemma chunk_notes_planned p notes :
  1 <= max_real_notes_per_bundle p -> (value_sum notes <= u64_max)%N -> (N.of_nat (length notes) <= u32_max)%N ->
  exists r packed kept trimmed, chunk_notes_with_policy notes p = Some r /\ planned p notes r packed kept trimmed.
Proof.
  intros Hcap Hvalue Hcount. unfold chunk_notes_with_policy, chunk_notes_v1_with_policy.
  destruct (planner_version p). case_bool_decide as Hnil.
  { subst notes. eexists _, [], [], []. split; [done|]. constructor; try done; try apply SSorted_nil; try apply Forall_nil_2.
    { by intros []. }
    unfold trim_settled. destruct (privacy_trim_policy p); [|done]. split; [by left|left; cbn; lia]. }
  destruct (pack_plan p notes Hcap Hvalue) as (packed & Hpack & Hall & Hseq & Hfilled & Htotals).
  assert (notes_of packed ≡ₚ notes) as Hnotes by (by rewrite Hseq, sort_by_Permutation). rewrite Hpack. cbn [mbind option_bind]. rewrite reverse_involutive.
  destruct (keep_eligible_total 0 packed) as [[weight kept0] Hkeep]; [lia|].
  rewrite Hkeep. cbn [mbind option_bind fst snd]. apply keep_eligible_spec in Hkeep as [-> ->].
  set (survivors := filter eligible packed). set (dust := filter (fun b => ~ eligible b) packed).
  pose proof (filter_partition eligible packed) as Hpart. fold survivors dust in Hpart.
  destruct (order_bundles_planned p survivors) as (Hplanned & Hsorted & Hn & Ht & Hw & Hl).
  { by apply Forall_filter_keep. }
  { apply Forall_forall. intros b Hb. by apply list_elem_of_filter in Hb as [? _]. }
  assert (notes_of survivors ++ notes_of dust ≡ₚ notes) as Hsplit
    by (by rewrite <- concat_app, <- map_app, Hpart).
  assert (length (notes_of survivors) + length (notes_of dust) = length notes) as Hlens
    by (by rewrite <- length_app, Hsplit).
  assert (length survivors <= length (notes_of survivors)) as Hsl
    by (apply (bundles_le_notes p); by apply Forall_filter_keep).
  assert (totals survivors + totals dust = value_sum notes)%N as Hts by (by rewrite <- totals_app, Hpart).
  destruct (privacy_trim_step_spec p (value_sum notes) (0 + weights survivors) (order_bundles survivors))
    as (kept & trimmed & Hord & -> & Hsettled); [done|rewrite Hw; lia|rewrite Hl; lia|rewrite Hn; lia|rewrite Ht; lia|].
  eexists _, packed, kept, trimmed. split; [done|]. fold survivors in Hord |- *.
  assert (weights survivors = weights kept + weights trimmed)%N as Hws by (by rewrite <- weights_app, <- Hord).
  constructor; cbn [bundles eligible_weight dropped_count privacy_trim]; fold survivors dust;
    try rewrite <- Hord; try done.
  - by rewrite app_assoc, <- Hord, map_app, concat_app, Hn.
  - lia.
  - rewrite Hnotes. lia.
Qed.

(** The trim weighs bundles by their totals, which ordering keeps. *)
Lemma trim_survivors p v packed kept trimmed t d :
  privacy_trim_policy p = Some t -> order_bundles (filter eligible packed) = kept ++ trimmed ->
  trim_settled p v kept trimmed -> d ⊆+ filter eligible packed -> (totals d <= privacy_drop_budget_v1 p v)%N ->
  length kept <= Nat.max (max_bundles t) 1 \/ length kept + length d <= length (filter eligible packed).
Proof.
  intros Ht Hord Hsettled Hd Hfit. unfold trim_settled in Hsettled. rewrite Ht in Hsettled.
  destruct Hsettled as [_ [|Hmax]]; [by left|right].
  set (f := fun b : Bundle => (b.1, sort_by position_before b.2)).
  assert (totals (map f d) = totals d) as Htot by (clear; induction d as [|b d IH]; [done|]; cbn; by rewrite IH).
  assert (length (kept ++ trimmed) = length (filter eligible packed)) as Hlen
    by (by rewrite <- Hord; unfold order_bundles; rewrite length_sort_by, length_map).
  specialize (Hmax (map f d)). rewrite Htot, length_map, <- Hord in Hmax. rewrite length_app in Hlen.
  enough (length d <= length trimmed) by lia. apply Hmax; [|done].
  unfold order_bundles. rewrite sort_by_Permutation. by apply fmap_submseteq.
Qed.

Lemma budget_share p v t :
  privacy_trim_policy p = Some t -> policy_ok p ->
  (privacy_drop_budget_v1 p v * 20 <= v)%N
  /\ match max_drop_zatoshi t with Some c => (privacy_drop_budget_v1 p v <= c)%N | None => True end.
Proof.
  intros Ht [_ Hbps]. unfold privacy_drop_budget_v1. rewrite Ht in Hbps |- *.
  assert (v * drop_bps t / BPS_DENOMINATOR * 20 <= v)%N as Hshare.
  { assert (v * drop_bps t / BPS_DENOMINATOR <= v * 500 / (500 * 20))%N as Hle.
    { apply N.Div0.div_le_mono. apply N.mul_le_mono_l. exact Hbps. }
    rewrite (N.mul_comm v 500), N.Div0.div_mul_cancel_l in Hle by done.
    pose proof (N.Div0.mul_div_le v 20). lia. }
  destruct (max_drop_zatoshi t); [|done]. split; lia.
Qed.

(** ** Notes in any order *)

Lemma distinct_notes_elem seen notes n :
  (forall a b, a ∈ notes -> b ∈ notes -> note_nullifier a = note_nullifier b -> a = b) ->
  n ∈ distinct_notes_from seen notes <-> n ∈ notes /\ note_nullifier n ∉ seen.
Proof.
  revert seen. induction notes as [|a notes IH]; intros seen Hid; cbn; [set_solver|].
  assert (forall x y, x ∈ notes -> y ∈ notes -> note_nullifier x = note_nullifier y -> x = y) as Hid'.
  { intros. apply Hid; [by right|by right|done]. }
  case_bool_decide as Hseen.
  - rewrite IH by done. set_solver.
  - rewrite elem_of_cons, IH, not_elem_of_cons, elem_of_cons by done. split.
    + intros [->|(? & ? & ?)]; auto.
    + intros [[->|Hin] Hnot]; [by left|]. destruct (decide (note_nullifier n = note_nullifier a)) as [Heq|]; [|by right].
      left. apply Hid; [by right|by left|done].
Qed.

Lemma distinct_notes_NoDup seen notes : NoDup (distinct_notes_from seen notes).
Proof.
  revert seen. induction notes as [|a notes IH]; intros seen; cbn; [constructor|]. case_bool_decide; [done|].
  constructor; [|done]. assert (forall k s, note_nullifier a ∈ s -> a ∉ distinct_notes_from s k) as Hnot; [|apply Hnot; by left].
  clear. induction k as [|x k IH]; intros s Hs; cbn; [set_solver|]. case_bool_decide as Hx; [by apply IH|].
  apply not_elem_of_cons. split; [by intros ->|]. apply IH. by right.
Qed.

Lemma validate_notes_from_ok i notes :
  validate_notes_from i notes = Ok tt <->
  forall n, n ∈ notes -> length (note_commitment n) = 32 /\ length (note_nullifier n) = 32.
Proof.
  revert i. induction notes as [|n notes IH]; intros i; cbn; [set_solver|]. unfold validate_32_bytes, fail_if.
  destruct (bool_decide (length (note_commitment n) = 32)) eqn:Hc; [apply bool_decide_eq_true in Hc|apply bool_decide_eq_false in Hc];
    (destruct (bool_decide (length (note_nullifier n) = 32)) eqn:Hn; [apply bool_decide_eq_true in Hn|apply bool_decide_eq_false in Hn]); cbn;
    rewrite ?IH; set_solver.
Qed.

Lemma chunk_notes_permutation p notes notes' :
  notes ≡ₚ notes' -> (forall a b, a ∈ notes -> b ∈ notes -> note_position a = note_position b -> a = b) ->
  chunk_notes_v1_with_policy notes p = chunk_notes_v1_with_policy notes' p.
Proof.
  intros Hp Hpos. unfold chunk_notes_v1_with_policy.
  rewrite (bool_decide_ext (notes = []) (notes' = [])).
  2: { split; intros ->; [by apply Permutation_nil_l in Hp|by apply Permutation_nil_r in Hp]. }
  rewrite (sort_by_unique note_before note_before_total note_before_trans notes notes' Hp), (value_sum_Permutation _ _ Hp); [done|].
  intros a b Ha Hb Hab Hba. apply Hpos; [done..|]. unfold note_before in *.
  repeat case_bool_decide; cbn in *; try done; lia.
Qed.

(** ** Policies the crate can build *)

Inductive policy_built : BundlePolicy -> Prop :=
  | built_new capacity p : new_with_planner_version capacity V1 = Ok p -> policy_built p
  | built_optional capacity p : bundle_policy_from_optional capacity = Ok p -> policy_built p
  | built_default : policy_built default_bundle_policy
  | built_recoverable : policy_built recoverable_bundle_policy_v1
  | built_threshold p threshold : policy_built p -> policy_built (with_bundle_addition_threshold p threshold)
  | built_target p target : policy_built p -> policy_built (with_max_privacy_bundles p target)
  | built_drop p bps p' : policy_built p -> with_privacy_drop_bps p bps = Ok p' -> policy_built p'
  | built_clamp p clamp : policy_built p -> policy_built (with_max_privacy_drop_zatoshi p clamp)
  | built_decoded u p : bundle_policy_try_from u = Ok p -> policy_built p.

Lemma default_policy_ok : policy_ok default_bundle_policy.
Proof. split; [by split; vm_compute; repeat constructor|]. vm_compute. discriminate. Qed.

Lemma new_policy_ok capacity version p : new_with_planner_version capacity version = Ok p -> policy_ok p.
Proof. unfold new_with_planner_version. case_bool_decide; [|done]. injection 1 as <-. by split. Qed.

Lemma with_privacy_drop_bps_ok p bps p' : policy_ok p -> with_privacy_drop_bps p bps = Ok p' -> policy_ok p'.
Proof.
  intros [Hcap _] H. unfold with_privacy_drop_bps, fail_if in H. case_bool_decide; [done|]. injection H as <-.
  split; [done|]. cbn. destruct (privacy_trim_policy p); cbn; [lia|done].
Qed.

Lemma with_max_privacy_bundles_ok p target : policy_ok p -> policy_ok (with_max_privacy_bundles p target).
Proof. intros [Hcap Ht]. split; [done|]. destruct target; [|done]. cbn. destruct (privacy_trim_policy p); done. Qed.

Lemma try_from_ok u p : bundle_policy_try_from u = Ok p -> policy_ok u /\ p = u.
Proof.
  unfold bundle_policy_try_from, new_with_planner_version, with_privacy_drop_bps, fail_if. intros H.
  case_bool_decide; [|done]. destruct u as [v cap [th|] [[mb bps cl]|]]; cbn in *.
  all: try (case_bool_decide; [done|]); cbn in H; injection H as <-; split; try done; split; cbn in *; try done; lia.
Qed.

Lemma try_from_policy_ok p : policy_ok p -> bundle_policy_try_from p = Ok p.
Proof.
  intros [Hcap Hbps]. unfold bundle_policy_try_from, new_with_planner_version, with_privacy_drop_bps, fail_if.
  rewrite bool_decide_true by done. destruct p as [v cap [th|] [[mb bps cl]|]]; cbn in *.
  all: try rewrite bool_decide_false by lia; done.
Qed.

(** ** Properties *)

(** What a plan is: [packed] are bundles of consecutive notes, largest note first, each
    started only when the one before took no more; those worth a ballot are [kept] or
    [trimmed], the others are dust. *)
Record bundle_plan (p : BundlePolicy) (notes : list NoteInfo) (r : ChunkResult) (packed kept trimmed : list Bundle)
  (dust : list Bundle := filter (fun b => ~ eligible b) packed) : Prop := {
  plan_in_order : notes_of packed = sort_by note_before notes;
  plan_each : Forall (bundle_packed p) packed;
  plan_greedy : filled_in_order p packed;
  plan_survivors : kept ++ trimmed ≡ₚ map (fun b => (b.1, sort_by position_before b.2)) (filter eligible packed);
  plan_largest_first : StronglySorted bundle_before (kept ++ trimmed);
  plan_trim_allowed : match privacy_trim_policy p with
    | None => trimmed = []
    | Some t => trimmed = [] \/ (totals trimmed <= privacy_drop_budget_v1 p (value_sum notes))%N /\ Nat.max (max_bundles t) 1 <= length kept
    end;
  plan_result : r = {| bundles := map snd kept; eligible_weight := weights kept; dropped_count := length (notes_of dust);
    privacy_trim := {| dropped_bundles := N.of_nat (length trimmed); dropped_notes := N.of_nat (length (notes_of trimmed));
                       dropped_value := value_sum (notes_of trimmed) |} |};
  plan_complete : notes_of kept ++ notes_of trimmed ++ notes_of dust ≡ₚ notes
}.

(** C5. For any notes whose values sum to a [u64], planning under a valid policy succeeds and
    the result is the plan of those notes.  The notes, largest first, are cut into
    consecutive bundles of at most [max_real_notes_per_bundle] notes, over the addition
    threshold only when of a single note; a bundle ends only where it is full or the next
    note would exceed the threshold.  The bundles worth a ballot, by their notes' values, are
    ordered largest first, and all of them are in the result except a tail that the privacy
    policy lets go: within its budget, and not below its bundle target.  The reported weight
    is the sum of the quantized values, the dropped and trimmed notes, bundles and value are
    counted exactly, and every note is in one planned, trimmed or too small bundle. *)
Theorem bundle_plan_partitions_notes (p : BundlePolicy) (notes : list NoteInfo) :
  policy_ok p -> (value_sum notes <= u64_max)%N -> (N.of_nat (length notes) <= u32_max)%N ->
  exists r packed kept trimmed, chunk_notes_with_policy notes p = Some r /\ bundle_plan p notes r packed kept trimmed.
Proof.
  intros [[Hcap _] _] Hvalue Hcount.
  destruct (chunk_notes_planned p notes Hcap Hvalue Hcount) as (r & packed & kept & trimmed & Hr & H).
  exists r, packed, kept, trimmed. split; [done|]. constructor; [apply H|apply H|apply H| |apply H| | |].
  - rewrite <- (plan_order _ _ _ _ _ _ H). unfold order_bundles. by rewrite sort_by_Permutation.
  - pose proof (plan_settled _ _ _ _ _ _ H) as Hs. unfold trim_settled in Hs. by destruct (privacy_trim_policy p); [destruct Hs|].
  - pose proof (plan_bundles _ _ _ _ _ _ H) as Hb. pose proof (plan_weight _ _ _ _ _ _ H) as Hw.
    pose proof (plan_dropped _ _ _ _ _ _ H) as Hd. pose proof (plan_trim _ _ _ _ _ _ H) as Ht.
    rewrite <- (totals_packed p). { destruct r; cbn in *. by subst. }
    pose proof (plan_kept _ _ _ _ _ _ H) as [_ Hk]%Forall_app. eapply Forall_impl; [exact Hk|]. by intros b [? _].
  - rewrite <- !concat_app, <- !map_app. apply H.
Qed.

(** C19. The privacy trim is as aggressive as its budget allows and no more.  What it
    drops is at most 5% of the wallet's value and at most the policy's clamp; it either
    reaches the bundle target or leaves the fewest bundles that dropping any set of
    eligible bundles within the budget could leave. *)
Theorem privacy_trim_minimal (p : BundlePolicy) (notes : list NoteInfo) (t : PrivacyTrimPolicy) :
  policy_ok p -> privacy_trim_policy p = Some t ->
  (value_sum notes <= u64_max)%N -> (N.of_nat (length notes) <= u32_max)%N ->
  exists r packed,
    chunk_notes_with_policy notes p = Some r
    /\ pack p [] (sort_by note_before notes) = Some (reverse packed)
    /\ (dropped_value (privacy_trim r) * 20 <= value_sum notes)%N
    /\ match max_drop_zatoshi t with Some c => (dropped_value (privacy_trim r) <= c)%N | None => True end
    /\ (N.of_nat (length (bundles r)) + dropped_bundles (privacy_trim r) = N.of_nat (length (filter eligible packed)))%N
    /\ (length (bundles r) <= Nat.max (max_bundles t) 1 \/
        forall dropped, dropped ⊆+ filter eligible packed ->
          (totals dropped <= privacy_drop_budget_v1 p (value_sum notes))%N ->
          length (bundles r) + length dropped <= length (filter eligible packed)).
Proof.
  intros Hok Ht Hvalue Hcount. pose proof Hok as [[Hcap _] _].
  destruct (chunk_notes_planned p notes Hcap Hvalue Hcount) as (r & packed & kept & trimmed & Hr & H).
  exists r, packed. split; [done|]. split; [apply H|]. rewrite (plan_trim _ _ _ _ _ _ H), (plan_bundles _ _ _ _ _ _ H).
  cbn [dropped_value dropped_bundles]. rewrite length_map.
  destruct (budget_share p (value_sum notes) t Ht Hok) as [Hshare Hclamp].
  pose proof (plan_settled _ _ _ _ _ _ H) as Hs. pose proof Hs as Hs'. unfold trim_settled in Hs'. rewrite Ht in Hs'.
  destruct Hs' as [Hfit _].
  assert (totals trimmed <= privacy_drop_budget_v1 p (value_sum notes))%N by (destruct Hfit as [->|[]]; [cbn; lia|done]).
  split; [lia|]. split; [destruct (max_drop_zatoshi t); [lia|done]|]. split.
  { assert (length (kept ++ trimmed) = length (filter eligible packed)) as Hlen.
    { rewrite <- (plan_order _ _ _ _ _ _ H). unfold order_bundles. by rewrite length_sort_by, length_map. }
    rewrite length_app in Hlen. lia. }
  destruct (decide (length kept <= Nat.max (max_bundles t) 1)); [by left|right]. intros d Hd Hbudget.
  by destruct (trim_survivors _ _ _ _ _ _ _ Ht (plan_order _ _ _ _ _ _ H) Hs Hd Hbudget).
Qed.

(** C35. The canonical plan depends on the set of notes alone: notes given in another
    order, or repeated, have the same plan, as long as a nullifier and a tree position
    each name one note. *)
Theorem bundle_plan_order_independent (p : BundlePolicy) (notes notes' : list NoteInfo) (plan : option ChunkResult) :
  (forall n, n ∈ notes <-> n ∈ notes') ->
  (forall a b, a ∈ notes -> b ∈ notes -> note_nullifier a = note_nullifier b -> a = b) ->
  (forall a b, a ∈ notes -> b ∈ notes -> note_position a = note_position b -> a = b) ->
  canonical_note_bundle_plan_for_notes notes p = Ok plan ->
  canonical_note_bundle_plan_for_notes notes' p = Ok plan.
Proof.
  intros Hset Hnf Hpos H. unfold canonical_note_bundle_plan_for_notes in *. destruct (planner_version p).
  assert (forall a b, a ∈ notes' -> b ∈ notes' -> note_nullifier a = note_nullifier b -> a = b) as Hnf'.
  { intros a b Ha%Hset Hb%Hset. by apply Hnf. }
  unfold validate_notes_for_round, fail_if in *. case_bool_decide as Hnil; [done|]. cbn in H.
  destruct (validate_notes_from 0 notes) as [[]|] eqn:Hv; [|done]. cbn in H. injection H as <-.
  rewrite validate_notes_from_ok in Hv.
  assert (notes' <> []) as Hnil'.
  { destruct notes as [|n k]; [done|]. intros ->. apply (not_elem_of_nil n), Hset. by left. }
  rewrite bool_decide_false by done.
  assert (validate_notes_from 0 notes' = Ok tt) as Hv'.
  { apply validate_notes_from_ok. intros n Hn. by apply Hv, Hset. }
  cbn. rewrite Hv'. cbn. f_equal. symmetry. apply chunk_notes_permutation.
  - apply NoDup_Permutation; [apply distinct_notes_NoDup..|]. intros n. unfold distinct_notes_by_nullifier_v1.
    by rewrite !distinct_notes_elem, Hset by done.
  - unfold distinct_notes_by_nullifier_v1. intros a b. rewrite !distinct_notes_elem by done.
    intros [Ha _] [Hb _]. by apply Hpos.
Qed.

(** Every bundle policy the crate can build, by a constructor, a chain of [with_*]
    setters or decoding, is valid: its capacity is within the circuit's note slots and
    its drop share within 5%.  Decoding accepts exactly the valid policies and returns
    them unchanged, so an encoded policy decodes to itself. *)
Theorem built_policies_valid (p : BundlePolicy) :
  policy_built p -> policy_ok p /\ bundle_policy_try_from p = Ok p.
Proof.
  intros Hb. assert (policy_ok p) as Hok; [|by split; [|apply try_from_policy_ok]].
  induction Hb as [capacity p H|[capacity|] p H| | |p threshold _ IH|p target _ IH|p bps p' _ IH H|p clamp _ IH|u p H].
  - by apply new_policy_ok in H.
  - by apply new_policy_ok in H.
  - injection H as <-. exact default_policy_ok.
  - exact default_policy_ok.
  - exact default_policy_ok.
  - exact IH.
  - by apply with_max_privacy_bundles_ok.
  - by eapply with_privacy_drop_bps_ok.
  - destruct IH as [Hcap Ht]. split; [done|]. cbn. by destruct (privacy_trim_policy p).
  - apply try_from_ok in H as [? ->]. done.
Qed.

(** ** Witnesses *)

Definition sample_note (i : nat) (value : N) : NoteInfo :=
  let tag := match Byte.of_nat i with Some b => b | None => Byte.x00 end in
  {| note_commitment := repeat tag 32; note_nullifier := repeat tag 32; note_value := value;
     note_position := N.of_nat i; note_diversifier := []; note_rho := []; note_rseed := []; note_scope := 0;
     note_ufvk := "uview" |}.

(** Eight notes; one at a time per bundle they plan to three bundles after the trim. *)
Definition sample_notes : list NoteInfo :=
  [sample_note 1 900000000; sample_note 2 800000000; sample_note 3 700000000; sample_note 4 13000000;
   sample_note 5 12600000; sample_note 6 12500000; sample_note 7 100; sample_note 8 99].

Definition sample_bundle_policy : BundlePolicy :=
  {| planner_version := V1; max_real_notes_per_bundle := 1; bundle_addition_threshold := Some 500000000%N;
     privacy_trim_policy := Some {| max_bundles := 2; drop_bps := 300; max_drop_zatoshi := Some 40000000%N |} |}.

Lemma sample_bundle_policy_ok : policy_ok sample_bundle_policy.
Proof. split; [by split; vm_compute; repeat constructor|]. vm_compute. discriminate. Qed.

Lemma bundle_plan_partitions_notes_witness :
  exists r packed kept trimmed, chunk_notes_with_policy sample_notes sample_bundle_policy = Some r
    /\ bundle_plan sample_bundle_policy sample_notes r packed kept trimmed.
Proof.
  apply (bundle_plan_partitions_notes sample_bundle_policy sample_notes sample_bundle_policy_ok); vm_compute; discriminate.
Defined.

(** The sample trim stops short of its target, so the minimality is what binds. *)
Lemma privacy_trim_minimal_witness :
  option_map (fun r => (length (bundles r), dropped_count r, privacy_trim r))
    (chunk_notes_with_policy sample_notes sample_bundle_policy)
  = Some (3, 2, {| dropped_bundles := 3; dropped_notes := 3; dropped_value := 38100000 |})
  /\ exists r packed,
    chunk_notes_with_policy sample_notes sample_bundle_policy = Some r
    /\ pack sample_bundle_policy [] (sort_by note_before sample_notes) = Some (reverse packed)
    /\ (dropped_value (privacy_trim r) * 20 <= value_sum sample_notes)%N
    /\ (dropped_value (privacy_trim r) <= 40000000)%N
    /\ (N.of_nat (length (bundles r)) + dropped_bundles (privacy_trim r) = N.of_nat (length (filter eligible packed)))%N
    /\ (length (bundles r) <= 2 \/
        forall dropped, dropped ⊆+ filter eligible packed ->
          (totals dropped <= privacy_drop_budget_v1 sample_bundle_policy (value_sum sample_notes))%N ->
          length (bundles r) + length dropped <= length (filter eligible packed)).
Proof.
  split; [vm_compute; reflexivity|].
  apply (privacy_trim_minimal sample_bundle_policy sample_notes _ sample_bundle_policy_ok eq_refl); vm_compute; discriminate.
Defined.

Definition two_notes : list NoteInfo := [sample_note 1 20000000; sample_note 2 30000000].
Definition two_notes_again : list NoteInfo := [sample_note 2 30000000; sample_note 1 20000000; sample_note 2 30000000].
Definition two_notes_plan : ChunkResult :=
  {| bundles := [two_notes]; eligible_weight := 50000000; dropped_count := 0; privacy_trim := no_trim |}.

Lemma bundle_plan_order_independent_witness :
  canonical_note_bundle_plan_for_notes two_notes_again default_bundle_policy = Ok (Some two_notes_plan).
Proof.
  apply (bundle_plan_order_independent default_bundle_policy two_notes two_notes_again).
  - intros n. unfold two_notes, two_notes_again. rewrite !elem_of_cons, elem_of_nil. tauto.
  - intros a b. unfold two_notes. rewrite !elem_of_cons, !elem_of_nil.
    intros [->|[->|[]]] [->|[->|[]]]; vm_compute; intros H; first [reflexivity|discriminate H].
  - intros a b. unfold two_notes. rewrite !elem_of_cons, !elem_of_nil.
    intros [->|[->|[]]] [->|[->|[]]]; vm_compute; intros H; first [reflexivity|discriminate H].
  - vm_compute. reflexivity.
Defined.

Lemma built_policies_valid_witness :
  policy_ok (with_bundle_addition_threshold (with_max_privacy_bundles default_bundle_policy (Some 3)) 7)
  /\ bundle_policy_try_from (with_bundle_addition_threshold (with_max_privacy_bundles default_bundle_policy (Some 3)) 7)
     = Ok (with_bundle_addition_threshold (with_max_privacy_bundles default_bundle_policy (Some 3)) 7).
Proof. apply built_policies_valid. apply built_threshold, built_target, built_default. Defined.
