(* ===== verification/ShareTiming.v ===== *)
(** * Helper-share timing

    Models [share_policy/timing.rs] and [share_policy/submission_schedule.rs]: the
    last-moment buffer of a round, the randomized submission time of a share, the
    recovery clocks of a delegated share and the delay until the next status poll.
    Times are [u64] Unix seconds with the code's saturating arithmetic.  The
    [f64]-driven variant of the submission time, used by tests and foreign callers,
    is not modelled. *)

From S2P Require Import Prelude Types.

(** A helper endpoint, as configured. *)
Abbreviation url := text (only parsing).

(** ** Rounds *)

Definition LAST_MOMENT_BUFFER_FRACTION_NUMERATOR : N := 2.
Definition LAST_MOMENT_BUFFER_FRACTION_DENOMINATOR : N := 5.
Definition LAST_MOMENT_BUFFER_MAX_SECONDS : N := 6 * 60 * 60.

Definition last_moment_buffer_seconds (ceremony_start vote_end : N) : option N :=
  duration ← checked_sub vote_end ceremony_start;
  if bool_decide (duration = 0%N) then None
  else
    let numerator := (duration * LAST_MOMENT_BUFFER_FRACTION_NUMERATOR)%N in
    let denominator := LAST_MOMENT_BUFFER_FRACTION_DENOMINATOR in
    let buffer := ((numerator + denominator - 1) / denominator)%N in
    Some (N.min buffer LAST_MOMENT_BUFFER_MAX_SECONDS).

Definition last_moment_deadline_seconds (ceremony_start vote_end : N) : option N :=
  buffer ← last_moment_buffer_seconds ceremony_start vote_end; Some (vote_end - buffer)%N.

Definition is_last_moment (now ceremony_start vote_end : N) : bool :=
  match last_moment_deadline_seconds ceremony_start vote_end with
  | Some deadline => bool_decide (deadline <= now)%N && bool_decide (now < vote_end)%N
  | None => false
  end.

(** ** Submission times *)

Definition SHARE_SUBMIT_AT_RANDOM_BYTES : nat := 8.
Definition SHARE_SUBMIT_AT_MAX_DELAY_SECONDS : N := 100 * 60 * 60.

Definition delayed_share_window_seconds (now vote_end : N) (buffer : option N) (single_share : bool) : option N :=
  if single_share then None
  else
    buffer ← buffer;
    if bool_decide (buffer = 0%N) then None
    else
      let deadline := (vote_end - buffer)%N in
      if bool_decide (deadline <= now)%N then None
      else Some (N.min (deadline - now) SHARE_SUBMIT_AT_MAX_DELAY_SECONDS).

Definition share_submit_at_random_bytes_required (now vote_end : N) (buffer : option N) (single_share : bool) : nat :=
  match delayed_share_window_seconds now vote_end buffer single_share with
  | Some _ => SHARE_SUBMIT_AT_RANDOM_BYTES
  | None => 0
  end.

Definition scheduled_share_submit_at_from_entropy (now vote_end : N) (buffer : option N) (single_share : bool)
  (random : bytes) : result VotingError N :=
  match delayed_share_window_seconds now vote_end buffer single_share with
  | None => Ok 0%N
  | Some window =>
      _ ← fail_if (bool_decide (length random < SHARE_SUBMIT_AT_RANDOM_BYTES))
            (VeInvalidInput (chars "submit_at_random_bytes must contain at least "
               ++ decimal_nat SHARE_SUBMIT_AT_RANDOM_BYTES ++ chars " bytes"));
      let sample := le_value (take 8 random) in
      let delay := N.shiftr (sample * window) 64 in
      Ok (saturating_add64 now delay)
  end.

(** ** Tracking *)

Record ShareDelegationRecord : Type := {
  share_round_id : string;
  share_bundle_index : N;
  share_proposal_id : N;
  share_index : N;
  sent_to_urls : list url;
  ambiguous_urls : list url;
  attempting_urls : list url;
  share_target_count : N;
  share_nullifier : bytes;
  share_confirmed : bool;
  submit_at : N;
  created_at : N
}.

Record ShareTimingPolicy : Type := {
  status_check_grace_seconds : N;
  min_overdue_threshold_seconds : N;
  max_overdue_threshold_seconds : N;
  resubmit_cutoff_seconds : N;
  ready_poll_interval_seconds : N;
  future_check_max_delay_seconds : N;
  min_tracking_delay_seconds : N
}.

Definition default_share_timing_policy : ShareTimingPolicy :=
  {| status_check_grace_seconds := 10; min_overdue_threshold_seconds := 30;
     max_overdue_threshold_seconds := 60 * 60; resubmit_cutoff_seconds := 10;
     ready_poll_interval_seconds := 15; future_check_max_delay_seconds := 30;
     min_tracking_delay_seconds := 3 |}.

Definition share_recovery_base_time (share : ShareDelegationRecord) : N :=
  if bool_decide (0 < submit_at share)%N then submit_at share else created_at share.

Definition is_share_ready_for_status_check (share : ShareDelegationRecord) (now : N) (policy : ShareTimingPolicy) : bool :=
  if share_confirmed share then false
  else bool_decide (saturating_add64 (share_recovery_base_time share) (status_check_grace_seconds policy) <= now)%N.

Definition overdue_threshold_seconds (share : ShareDelegationRecord) (vote_end : N) (policy : ShareTimingPolicy) : N :=
  let remaining_window := (vote_end - share_recovery_base_time share)%N in
  let threshold := (remaining_window / 4)%N in
  let max_threshold := N.max (max_overdue_threshold_seconds policy) (min_overdue_threshold_seconds policy) in
  N.min (N.max threshold (min_overdue_threshold_seconds policy)) max_threshold.

Definition is_share_resubmission_window_open (now vote_end : N) (policy : ShareTimingPolicy) : bool :=
  bool_decide (saturating_add64 now (resubmit_cutoff_seconds policy) < vote_end)%N.

Definition should_resubmit_share (share : ShareDelegationRecord) (now vote_end : N) (policy : ShareTimingPolicy) : bool :=
  if share_confirmed share then false
  else
    let retry_at := saturating_add64 (share_recovery_base_time share) (overdue_threshold_seconds share vote_end policy) in
    bool_decide (retry_at <= now)%N && is_share_resubmission_window_open now vote_end policy.

Definition min_second (current : option N) (candidate : N) : option N :=
  match current with
  | Some current => if bool_decide (current <= candidate)%N then Some current else Some candidate
  | None => Some candidate
  end.

(** The loop's variables: [next_second], [has_unconfirmed] and [has_ready]. *)
Fixpoint tracking_scan (now : N) (policy : ShareTimingPolicy) (scan : option N * bool * bool)
  (shares : list ShareDelegationRecord) : option N * bool * bool :=
  match shares with
  | [] => scan
  | share :: rest =>
      let '(next_second, has_unconfirmed, has_ready) := scan in
      if share_confirmed share then tracking_scan now policy scan rest
      else
        let check_at := saturating_add64 (share_recovery_base_time share) (status_check_grace_seconds policy) in
        if bool_decide (now < check_at)%N
        then tracking_scan now policy (min_second next_second check_at, true, has_ready) rest
        else tracking_scan now policy (next_second, true, true) rest
  end.

Definition next_tracking_delay_seconds (shares : list ShareDelegationRecord) (now : N) (policy : ShareTimingPolicy) :
  option N :=
  let '(next_second, has_unconfirmed, has_ready) := tracking_scan now policy (None, false, false) shares in
  if has_unconfirmed then
    let future_delay := option_map (fun next => N.min (next - now) (future_check_max_delay_seconds policy)) next_second in
    let ready_delay := if has_ready then Some (ready_poll_interval_seconds policy) else None in
    let delay := match ready_delay, future_delay with
                 | Some ready, Some future => N.min ready future
                 | Some ready, None => ready
                 | None, Some future => future
                 | None, None => ready_poll_interval_seconds policy
                 end in
    Some (N.max delay (min_tracking_delay_seconds policy))
  else None.

Record ShareTrackingSummary : Type := {
  summary_total : N;
  summary_confirmed : N;
  summary_waiting : N;
  summary_ready : N;
  summary_overdue : N
}.

Definition count_share (now : N) (vote_end : option N) (policy : ShareTimingPolicy) (s : ShareTrackingSummary)
  (share : ShareDelegationRecord) : ShareTrackingSummary :=
  let '(Build_ShareTrackingSummary total confirmed waiting ready overdue) := s in
  if share_confirmed share then Build_ShareTrackingSummary total (confirmed + 1) waiting ready overdue
  else if match vote_end with Some vote_end => should_resubmit_share share now vote_end policy | None => false end
  then Build_ShareTrackingSummary total confirmed waiting ready (overdue + 1)
  else if is_share_ready_for_status_check share now policy
  then Build_ShareTrackingSummary total confirmed waiting (ready + 1) overdue
  else Build_ShareTrackingSummary total confirmed (waiting + 1) ready overdue.

Definition summarize_share_tracking (shares : list ShareDelegationRecord) (now : N) (vote_end : option N)
  (policy : ShareTimingPolicy) : ShareTrackingSummary :=
  foldl (count_share now vote_end policy) (Build_ShareTrackingSummary (N.of_nat (length shares)) 0 0 0 0) shares.

(** ** Facts *)

Lemma window_bounds now vote_end buffer single window :
  delayed_share_window_seconds now vote_end buffer single = Some window ->
  exists b, buffer = Some b /\ (0 < b)%N /\ single = false
    /\ (0 < window)%N /\ (now + window <= vote_end - b)%N /\ (window <= SHARE_SUBMIT_AT_MAX_DELAY_SECONDS)%N.
Proof.
  unfold delayed_share_window_seconds. destruct single; [done|]. destruct buffer as [b|]; [|done]. cbn.
  do 2 (case_bool_decide; [done|]). injection 1 as <-. exists b.
  unfold SHARE_SUBMIT_AT_MAX_DELAY_SECONDS in *. repeat split; lia.
Qed.

Lemma no_window now vote_end buffer single :
  delayed_share_window_seconds now vote_end buffer single = None <->
  single = true \/ buffer = None \/ buffer = Some 0%N \/ exists b, buffer = Some b /\ (vote_end - b <= now)%N.
Proof.
  unfold delayed_share_window_seconds. destruct single; [naive_solver|]. destruct buffer as [b|]; cbn; [|naive_solver].
  do 2 (case_bool_decide; [naive_solver|]). split; [done|].
  intros [Hx|[Hx|[Hx|(b' & Hx & Hle)]]]; simplify_eq; lia.
Qed.

(** A sampled delay falls in the window, whatever the entropy. *)
Lemma scheduled_submit_at now vote_end buffer single random window :
  delayed_share_window_seconds now vote_end buffer single = Some window -> (vote_end <= u64_max)%N ->
  SHARE_SUBMIT_AT_RANDOM_BYTES <= length random ->
  exists at_seconds, scheduled_share_submit_at_from_entropy now vote_end buffer single random = Ok at_seconds
    /\ (now <= at_seconds < now + window)%N.
Proof.
  intros Hw Hend Hlen. pose proof Hw as (b & _ & _ & _ & Hpos & Hdead & _)%window_bounds.
  unfold scheduled_share_submit_at_from_entropy. rewrite Hw. unfold fail_if. rewrite bool_decide_false by lia. cbn [mbind result_bind].
  set (sample := le_value (take 8 random)).
  assert (sample < 2 ^ 64)%N as Hs.
  { pose proof (le_value_bound (take 8 random)) as Hb. rewrite length_take in Hb.
    unfold SHARE_SUBMIT_AT_RANDOM_BYTES in Hlen. replace (8 `min` length random) with 8 in Hb by lia. exact Hb. }
  assert (N.shiftr (sample * window) 64 < window)%N as Hd.
  { rewrite N.shiftr_div_pow2. apply N.Div0.div_lt_upper_bound. nia. }
  eexists. split; [done|]. unfold saturating_add64. lia.
Qed.

Lemma buffer_deadline ceremony_start vote_end b :
  last_moment_buffer_seconds ceremony_start vote_end = Some b ->
  (ceremony_start < vote_end)%N /\ (0 < b <= LAST_MOMENT_BUFFER_MAX_SECONDS)%N
  /\ (b = LAST_MOMENT_BUFFER_MAX_SECONDS \/ 2 * (vote_end - ceremony_start) <= 5 * b < 2 * (vote_end - ceremony_start) + 5)%N.
Proof.
  unfold last_moment_buffer_seconds, checked_sub. case_bool_decide; [|done]. cbn. case_bool_decide; [done|].
  injection 1 as <-.
  unfold LAST_MOMENT_BUFFER_FRACTION_NUMERATOR, LAST_MOMENT_BUFFER_FRACTION_DENOMINATOR, LAST_MOMENT_BUFFER_MAX_SECONDS.
  remember (vote_end - ceremony_start)%N as d eqn:Hd.
  pose proof (N.div_mod (d * 2 + 5 - 1) 5 ltac:(done)). pose proof (N.mod_lt (d * 2 + 5 - 1) 5 ltac:(done)).
  remember ((d * 2 + 5 - 1) / 5)%N as q eqn:Hq. remember ((d * 2 + 5 - 1) mod 5)%N as r eqn:Hr. clear Hq Hr.
  destruct (N.min_spec q (6 * 60 * 60)) as [[? ->]|[? ->]]; (split; [lia|]); (split; [lia|]); [right|left]; lia.
Qed.

Lemma buffer_none ceremony_start vote_end :
  last_moment_buffer_seconds ceremony_start vote_end = None <-> (vote_end <= ceremony_start)%N.
Proof.
  unfold last_moment_buffer_seconds, checked_sub. case_bool_decide; cbn; [|split; [lia|done]].
  case_bool_decide; split; try done; lia.
Qed.

(** The check time of an unconfirmed share. *)
Definition check_time (policy : ShareTimingPolicy) (share : ShareDelegationRecord) : N :=
  saturating_add64 (share_recovery_base_time share) (status_check_grace_seconds policy).

(** What a scan knows of the shares it has read. *)
Definition scanned (now : N) (policy : ShareTimingPolicy) (shares : list ShareDelegationRecord)
  (scan : option N * bool * bool) : Prop :=
  let '(next_second, has_unconfirmed, has_ready) := scan in
  let pending s := s ∈ shares /\ share_confirmed s = false in
  (has_unconfirmed = true <-> exists s, pending s)
  /\ (has_ready = true <-> exists s, pending s /\ (check_time policy s <= now)%N)
  /\ (forall s, pending s -> (now < check_time policy s)%N -> exists next, next_second = Some next /\ (next <= check_time policy s)%N)
  /\ (forall next, next_second = Some next -> exists s, pending s /\ check_time policy s = next /\ (now < next)%N).

Lemma min_second_spec current candidate :
  exists m, min_second current candidate = Some m /\ (m <= candidate)%N
    /\ (forall c, current = Some c -> (m <= c)%N) /\ (m = candidate \/ current = Some m).
Proof.
  unfold min_second. destruct current as [c|]; [|exists candidate; naive_solver].
  case_bool_decide; [exists c|exists candidate]; (split; [done|]); (split; [lia|]); (split; [intros c' [= ->]; lia|auto]).
Qed.

Lemma scanned_confirmed now policy seen share scan :
  share_confirmed share = true -> scanned now policy seen scan -> scanned now policy (seen ++ [share]) scan.
Proof.
  intros Hc. destruct scan as [[next hu] hr]. unfold scanned.
  assert (forall s, s ∈ seen ++ [share] /\ share_confirmed s = false <-> s ∈ seen /\ share_confirmed s = false) as E.
  { intros s. rewrite elem_of_app, list_elem_of_singleton. naive_solver congruence. }
  setoid_rewrite E. done.
Qed.

Lemma scanned_future now policy seen share next hu hr :
  share_confirmed share = false -> (now < check_time policy share)%N ->
  scanned now policy seen (next, hu, hr) ->
  scanned now policy (seen ++ [share]) (min_second next (check_time policy share), true, hr).
Proof.
  intros Hc Hlt (Hu & Hr & Hlow & Hhit). unfold scanned. setoid_rewrite elem_of_app. setoid_rewrite list_elem_of_singleton.
  destruct (min_second_spec next (check_time policy share)) as (m & Hm & Hle & Hold & Hsrc). rewrite Hm. split; [|split; [|split]].
  - split; [|done]. intros _. exists share. naive_solver.
  - rewrite Hr. split; [intros (s & [? ?] & ?); exists s; naive_solver|].
    intros (s & [[Hs| ->] Hsc] & Hle'); [by exists s|lia].
  - intros s [[Hs| ->] Hsc] Hs'; exists m; (split; [done|]); [|done].
    destruct (Hlow s (conj Hs Hsc) Hs') as (n & Hn & ?). pose proof (Hold n Hn). lia.
  - intros n [= <-]. destruct Hsrc as [->|Hsrc]; [exists share; naive_solver|].
    destruct (Hhit m Hsrc) as (s & [? ?] & ? & ?). exists s. naive_solver.
Qed.

Lemma scanned_ready now policy seen share next hu hr :
  share_confirmed share = false -> (check_time policy share <= now)%N ->
  scanned now policy seen (next, hu, hr) -> scanned now policy (seen ++ [share]) (next, true, true).
Proof.
  intros Hc Hle (Hu & Hr & Hlow & Hhit). unfold scanned. setoid_rewrite elem_of_app. setoid_rewrite list_elem_of_singleton.
  split; [|split; [|split]].
  - split; [|done]. intros _. exists share. naive_solver.
  - split; [|done]. intros _. exists share. naive_solver.
  - intros s [[Hs| ->] Hsc] Hs'; [by apply Hlow|lia].
  - intros n Hn. destruct (Hhit n Hn) as (s & [? ?] & ? & ?). exists s. naive_solver.
Qed.

Lemma tracking_scan_scanned now policy seen scan shares :
  scanned now policy seen scan -> scanned now policy (seen ++ shares) (tracking_scan now policy scan shares).
Proof.
  revert seen scan. induction shares as [|share shares IH]; intros seen [[next hu] hr] Hscan.
  { by rewrite app_nil_r. }
  replace (seen ++ share :: shares) with ((seen ++ [share]) ++ shares) by (by rewrite <- app_assoc).
  cbn [tracking_scan]. fold (check_time policy share). destruct (share_confirmed share) eqn:Hc.
  { apply IH. by apply scanned_confirmed. }
  case_bool_decide; apply IH; [by apply scanned_future with hu|apply scanned_ready with hu hr; [done|lia|done]].
Qed.

Lemma scanned_all now policy shares : scanned now policy shares (tracking_scan now policy (None, false, false) shares).
Proof.
  apply (tracking_scan_scanned now policy []). unfold scanned. setoid_rewrite elem_of_nil. naive_solver.
Qed.

(** The summary counts every share once. *)
Lemma summary_partitions shares now vote_end policy :
  let s := summarize_share_tracking shares now vote_end policy in
  summary_total s = (summary_confirmed s + summary_waiting s + summary_ready s + summary_overdue s)%N.
Proof.
  unfold summarize_share_tracking.
  assert (forall l s, summary_confirmed (foldl (count_share now vote_end policy) s l)
            + summary_waiting (foldl (count_share now vote_end policy) s l)
            + summary_ready (foldl (count_share now vote_end policy) s l)
            + summary_overdue (foldl (count_share now vote_end policy) s l)
          = summary_confirmed s + summary_waiting s + summary_ready s + summary_overdue s + N.of_nat (length l)
          /\ summary_total (foldl (count_share now vote_end policy) s l) = summary_total s)%N as Hfold.
  { induction l as [|x l IH]; intros s; [cbn; lia|]. cbn [foldl length].
    destruct (IH (count_share now vote_end policy s x)) as [-> ->]. destruct s. unfold count_share.
    repeat case_match; cbn -[N.of_nat]; lia. }
  cbn -[N.of_nat]. edestruct Hfold as [-> ->]. cbn -[N.of_nat]. lia.
Qed.

(** ** Properties *)

(** C37. Scheduling a share under the round's own last-moment buffer always succeeds with
    eight bytes of entropy, and no entropy can place a delayed share in the last moment:
    a share is sent at once when it is a single share or the round is in its last moment,
    over or mistimed, and is otherwise delayed to a time that is at least [now], less than
    100 hours away, before the round's end and outside its last-moment window. *)
Theorem share_schedule_avoids_last_moment (now ceremony_start vote_end : N) (single_share : bool) (random : bytes) :
  (vote_end <= u64_max)%N -> SHARE_SUBMIT_AT_RANDOM_BYTES <= length random ->
  exists at_seconds,
    scheduled_share_submit_at_from_entropy now vote_end (last_moment_buffer_seconds ceremony_start vote_end)
      single_share random = Ok at_seconds
    /\ (single_share = true \/ (vote_end <= ceremony_start)%N \/ (vote_end <= now)%N
        \/ is_last_moment now ceremony_start vote_end = true -> at_seconds = 0%N)
    /\ (single_share = false -> (ceremony_start < vote_end)%N -> (now < vote_end)%N ->
        is_last_moment now ceremony_start vote_end = false ->
        (now <= at_seconds < now + SHARE_SUBMIT_AT_MAX_DELAY_SECONDS)%N /\ (at_seconds < vote_end)%N
        /\ is_last_moment at_seconds ceremony_start vote_end = false).
Proof.
  intros Hend Hlen. unfold is_last_moment, last_moment_deadline_seconds.
  destruct (last_moment_buffer_seconds ceremony_start vote_end) as [b|] eqn:Hbuf.
  2: { apply buffer_none in Hbuf. exists 0%N. unfold scheduled_share_submit_at_from_entropy.
       assert (delayed_share_window_seconds now vote_end None single_share = None) as -> by (apply no_window; auto).
       split; [done|]. split; [done|]. lia. }
  pose proof Hbuf as (Hround & [Hb _] & _)%buffer_deadline. cbn [mbind option_bind].
  destruct (delayed_share_window_seconds now vote_end (Some b) single_share) as [window|] eqn:Hw.
  - destruct (scheduled_submit_at _ _ _ _ _ _ Hw Hend Hlen) as (t & Ht & Hin). exists t. split; [done|].
    apply window_bounds in Hw as (b' & [= <-] & _ & Hs & Hpos & Hdead & Hmax). split.
    + rewrite Hs, andb_true_iff, !bool_decide_eq_true. intros [?|[?|[?|[? ?]]]]; [done|lia..].
    + intros _ _ Hnow _. rewrite andb_false_iff, !bool_decide_eq_false. lia.
  - exists 0%N. unfold scheduled_share_submit_at_from_entropy. rewrite Hw. split; [done|]. split; [done|].
    rewrite andb_false_iff, !bool_decide_eq_false. intros -> _ Hnow Hlast.
    apply no_window in Hw as [?|[?|[?|(b' & ? & ?)]]]; simplify_eq; lia.
Qed.

Lemma share_schedule_avoids_last_moment_witness :
  exists at_seconds,
    scheduled_share_submit_at_from_entropy 1500 200000 (last_moment_buffer_seconds 1000 200000) false
      (repeat Byte.xab 8) = Ok at_seconds
    /\ (false = true \/ (200000 <= 1000)%N \/ (200000 <= 1500)%N
        \/ is_last_moment 1500 1000 200000 = true -> at_seconds = 0%N)
    /\ (false = false -> (1000 < 200000)%N -> (1500 < 200000)%N -> is_last_moment 1500 1000 200000 = false ->
        (1500 <= at_seconds < 1500 + SHARE_SUBMIT_AT_MAX_DELAY_SECONDS)%N /\ (at_seconds < 200000)%N
        /\ is_last_moment at_seconds 1000 200000 = false).
Proof.
  apply (share_schedule_avoids_last_moment 1500 1000 200000 false (repeat Byte.xab 8)).
  - vm_compute. discriminate.
  - vm_compute. repeat constructor.
Defined.

(** C38. Tracking keeps polling exactly while a share is unconfirmed, and on time: the
    delay is never under the policy's minimum and never over the longer poll interval;
    a share whose check time has passed is polled again within the ready interval, and
    a share still to come is polled by its check time, unless the minimum delay is
    longer.  A delay that is neither the minimum nor a policy interval ends exactly at
    the check time of some unconfirmed share. *)
Theorem tracking_polls_on_time (shares : list ShareDelegationRecord) (now : N) (policy : ShareTimingPolicy) :
  let lowest := min_tracking_delay_seconds policy in
  match next_tracking_delay_seconds shares now policy with
  | None => forall s, s ∈ shares -> share_confirmed s = true
  | Some delay =>
      (exists s, s ∈ shares /\ share_confirmed s = false)
      /\ (lowest <= delay)%N
      /\ (delay <= N.max lowest (N.max (ready_poll_interval_seconds policy) (future_check_max_delay_seconds policy)))%N
      /\ (forall s, s ∈ shares -> is_share_ready_for_status_check s now policy = true ->
            (delay <= N.max lowest (ready_poll_interval_seconds policy))%N)
      /\ (forall s, s ∈ shares -> share_confirmed s = false -> is_share_ready_for_status_check s now policy = false ->
            (delay <= N.max lowest (check_time policy s - now))%N)
      /\ (delay = lowest \/ delay = ready_poll_interval_seconds policy \/ delay = future_check_max_delay_seconds policy
          \/ exists s, s ∈ shares /\ share_confirmed s = false /\ (now + delay)%N = check_time policy s)
  end.
Proof.
  unfold next_tracking_delay_seconds. pose proof (scanned_all now policy shares) as Hscan.
  destruct (tracking_scan now policy (None, false, false) shares) as [[next hu] hr].
  destruct Hscan as (Hu & Hr & Hlow & Hhit). destruct hu.
  2: { intros s Hs. destruct (share_confirmed s) eqn:Hc; [done|]. destruct Hu as [_ Hu]. discriminate Hu. eauto. }
  split; [by apply Hu|]. split; [lia|].
  assert (next = None -> hr = true) as Hsome.
  { intros ->. apply Hr. destruct (proj1 Hu eq_refl) as (s & Hs). exists s. split; [done|].
    destruct (decide (check_time policy s <= now)%N); [done|]. destruct (Hlow s Hs) as (? & ? & ?); [lia|done]. }
  split; [destruct hr, next; cbn; lia|]. split; [|split].
  - intros s Hs Hready. unfold is_share_ready_for_status_check in Hready. destruct (share_confirmed s) eqn:Hc; [done|].
    apply bool_decide_eq_true in Hready. rewrite (proj2 Hr) by (by exists s). destruct next; cbn; lia.
  - intros s Hs Hc Hready. unfold is_share_ready_for_status_check in Hready. rewrite Hc in Hready.
    apply bool_decide_eq_false in Hready. destruct (Hlow s (conj Hs Hc)) as (n & -> & Hn);
      [unfold check_time; lia|]. destruct hr; cbn; lia.
  - destruct next as [n|]; [|rewrite Hsome by done; cbn; lia]. cbn.
    destruct (Hhit n eq_refl) as (s & [Hs Hc] & <- & Hlt).
    destruct (N.max_spec (if hr then N.min (ready_poll_interval_seconds policy)
      (N.min (check_time policy s - now) (future_check_max_delay_seconds policy))
      else N.min (check_time policy s - now) (future_check_max_delay_seconds policy)) (min_tracking_delay_seconds policy)) as [[? Hmax]|[? Hmax]];
    [left; destruct hr; lia|]. right.
    destruct (decide (check_time policy s - now <= future_check_max_delay_seconds policy)%N);
      destruct (decide (ready_poll_interval_seconds policy <= N.min (check_time policy s - now) (future_check_max_delay_seconds policy))%N);
      destruct hr; try (left; lia); right; try (left; lia); right; exists s; (split; [done|]); (split; [done|]); lia.
Qed.
