(* ===== verification/SharePlacement.v ===== *)
(** * Helper-share placement

    Models [share_policy/server_order.rs] and [share_policy/initial_placement.rs]: how
    many helpers a share goes to, the entropy-driven shuffle of the helper list, the
    order of resubmission, and the batch planner that balances the shares of a
    commitment over the helpers under a quota.  Byte counts are [usize] with the
    code's saturating and checked products; the slices of the entropy inputs are
    within bounds by the length checks before them. *)

From S2P Require Import Prelude Sorting Types ShareTiming.

(** ** Policy *)

Definition VOTE_COMMITMENT_SHARE_COUNT : nat := 16.
Abbreviation SHARE_HELPER_INITIAL_MAX_FRACTION_NUMERATOR := 3%nat (only parsing).
Abbreviation SHARE_HELPER_INITIAL_MAX_FRACTION_DENOMINATOR := 4%nat (only parsing).
Definition SHARE_HELPER_MAX_INITIAL_SHARES_PER_SERVER : nat :=
  VOTE_COMMITMENT_SHARE_COUNT * SHARE_HELPER_INITIAL_MAX_FRACTION_NUMERATOR
    / SHARE_HELPER_INITIAL_MAX_FRACTION_DENOMINATOR.
Definition SHARE_HELPER_TARGET_COUNT_CAP : nat := 10.

Definition share_submission_target_count (server_count : nat) : nat :=
  Nat.min (server_count / 2 + server_count mod 2) SHARE_HELPER_TARGET_COUNT_CAP.

Definition effective_share_submission_target_count (stored_target_count : N) (server_count : nat) : nat :=
  let target_count :=
    if bool_decide (stored_target_count = 0%N) then share_submission_target_count server_count
    else N.to_nat stored_target_count in
  Nat.min (Nat.min target_count SHARE_HELPER_TARGET_COUNT_CAP) server_count.

Definition div_ceil (a b : nat) : nat := a / b + (if bool_decide (a mod b = 0) then 0 else 1).

Definition minimum_complete_batch_planning_server_count (target_count : nat) : nat :=
  if bool_decide (target_count = 0) then 0
  else div_ceil (VOTE_COMMITMENT_SHARE_COUNT * target_count) SHARE_HELPER_MAX_INITIAL_SHARES_PER_SERVER.

Record ShareServerSelectionPolicy : Type := {
  policy_target_count : nat;
  max_shares_per_server : nat;
  min_server_count : nat;
  preflight_soft_timeout_milliseconds : N;
  preflight_hard_timeout_milliseconds : N;
  post_timeout_milliseconds : N;
  initial_delivery_timeout_milliseconds : N;
  max_concurrent_posts : nat
}.

Definition share_server_selection_policy (server_count : nat) : ShareServerSelectionPolicy :=
  let target_count := share_submission_target_count server_count in
  let '(max_shares, min_servers) :=
    if bool_decide (server_count = 0) then (0, 0)
    else if bool_decide (server_count = 1) then (VOTE_COMMITMENT_SHARE_COUNT, 1)
    else (SHARE_HELPER_MAX_INITIAL_SHARES_PER_SERVER, minimum_complete_batch_planning_server_count target_count) in
  {| policy_target_count := target_count; max_shares_per_server := max_shares; min_server_count := min_servers;
     preflight_soft_timeout_milliseconds := 2000; preflight_hard_timeout_milliseconds := 30000;
     post_timeout_milliseconds := 30000; initial_delivery_timeout_milliseconds := 60000;
     max_concurrent_posts := 128 |}.

(** ** Shuffles *)

Definition saturating_mul64 (a b : N) : N := N.min (a * b) u64_max.

Definition share_server_order_random_bytes_required (server_count : nat) : N :=
  saturating_mul64 (N.of_nat (server_count - 1)) 8.

Definition duplicate_servers : VotingError := VeInvalidInput (chars "server_urls must not contain duplicates").

Fixpoint unique_from (seen servers : list url) : result VotingError unit :=
  match servers with
  | [] => Ok tt
  | server :: rest => if bool_decide (server ∈ seen) then Err duplicate_servers else unique_from (server :: seen) rest
  end.

Definition require_unique_share_servers (servers : list url) : result VotingError unit := unique_from [] servers.

(** [slice::swap]; both indices are in range where it is called. *)
Definition swap {A} (l : list A) (i j : nat) : list A :=
  match l !! i, l !! j with Some a, Some b => <[i := b]> (<[j := a]> l) | _, _ => l end.

(** The loop over [(1..len).rev()], eight bytes a turn. *)
Fixpoint shuffle {A} (index : nat) (random : bytes) (ordered : list A) : list A :=
  match index with
  | O => ordered
  | S next =>
      let sample := le_value (take 8 random) in
      let swap_index := N.to_nat (sample mod N.of_nat (index + 1)) in
      shuffle next (drop 8 random) (swap ordered index swap_index)
  end.

Definition shuffled_share_server_order (servers : list url) (random : bytes) : result VotingError (list url) :=
  _ ← require_unique_share_servers servers;
  let needed := share_server_order_random_bytes_required (length servers) in
  _ ← fail_if (bool_decide (N.of_nat (length random) < needed)%N)
        (VeInvalidInput (chars "server_random_bytes must contain at least " ++ decimal needed
           ++ chars " bytes for " ++ decimal_nat (length servers) ++ chars " servers"));
  Ok (shuffle (length servers - 1) random servers).

Definition select_share_submission_targets_from_order (servers : list url) (target_count : nat) : list url :=
  take (Nat.min target_count (length servers)) servers.

Definition select_share_submission_targets (servers : list url) (target_count : nat) (random : bytes) :
  result VotingError (list url) :=
  let target_count := Nat.min target_count (length servers) in
  if bool_decide (target_count = 0) then Ok []
  else
    order ← shuffled_share_server_order servers random;
    Ok (select_share_submission_targets_from_order order target_count).

(** ** Resubmission *)

Definition untried_servers (configured sent : list url) : list url := filter (fun server => server ∉ sent) configured.
Definition already_sent_servers (configured sent : list url) : list url := filter (fun server => server ∈ sent) configured.

Definition resubmission_server_order_random_bytes_required (configured sent : list url) : N :=
  saturating_add64 (share_server_order_random_bytes_required (length (untried_servers configured sent)))
    (share_server_order_random_bytes_required (length (already_sent_servers configured sent))).

Definition resubmission_server_order_from_groups (untried already_sent : list url) : list url := untried ++ already_sent.

Definition resubmission_server_order (configured sent : list url) (random : bytes) : result VotingError (list url) :=
  _ ← require_unique_share_servers configured;
  let untried := untried_servers configured sent in
  let already_sent := already_sent_servers configured sent in
  let untried_bytes := N.to_nat (share_server_order_random_bytes_required (length untried)) in
  let already_sent_bytes := N.to_nat (share_server_order_random_bytes_required (length already_sent)) in
  let needed := resubmission_server_order_random_bytes_required configured sent in
  _ ← fail_if (bool_decide (N.of_nat (length random) < needed)%N)
        (VeInvalidInput (chars "server_random_bytes must contain at least " ++ decimal needed
           ++ chars " bytes for resubmission order"));
  randomized_untried ← shuffled_share_server_order untried (take untried_bytes random);
  randomized_already_sent ← shuffled_share_server_order already_sent (take already_sent_bytes (drop untried_bytes random));
  Ok (resubmission_server_order_from_groups randomized_untried randomized_already_sent).

Definition resubmission_server_order_from_configured_order (configured sent : list url) : list url :=
  resubmission_server_order_from_groups (untried_servers configured sent) (already_sent_servers configured sent).

(** ** Initial placement *)

Record ShareSubmissionPlan : Type := {
  plan_immediate : bool;
  plan_submit_at : N;
  plan_target_count : nat;
  target_servers : list url
}.

Record ImmediateShareKey : Type := {
  immediate_bundle_index : N;
  immediate_proposal_id : N;
  immediate_share_index : N
}.

Abbreviation IMMEDIATE_SHARE_INDEX := 0%N (only parsing).

Definition round_immediate_share_key (highest_bundle_index : option N) (voted_proposal_ids : list N) :
  option ImmediateShareKey :=
  bundle_index ← highest_bundle_index;
  proposal_id ← match voted_proposal_ids with [] => None | id :: rest => Some (foldl N.min id rest) end;
  Some {| immediate_bundle_index := bundle_index; immediate_proposal_id := proposal_id;
          immediate_share_index := IMMEDIATE_SHARE_INDEX |}.

Record ShareSubmissionRandomBytesRequired : Type := {
  submit_at_random_bytes : N;
  server_random_bytes : N
}.

Definition share_submission_random_bytes_required (share_count server_count : nat) (now vote_end : N)
  (buffer : option N) (single_share : bool) : ShareSubmissionRandomBytesRequired :=
  let submit_at_per_share := N.of_nat (share_submit_at_random_bytes_required now vote_end buffer single_share) in
  let server_per_share := share_server_order_random_bytes_required server_count in
  {| submit_at_random_bytes := saturating_mul64 submit_at_per_share (N.of_nat share_count);
     server_random_bytes := saturating_mul64 server_per_share (N.of_nat share_count) |}.

Definition require_share_servers (servers : list url) : result VotingError unit :=
  _ ← fail_if (bool_decide (servers = [])) (VeInvalidInput (chars "server_urls must not be empty"));
  require_unique_share_servers servers.

Definition build_share_submission_plan (immediate : bool) (target_count : nat) (targets : list url) (submit_at : N) :
  result VotingError ShareSubmissionPlan :=
  _ ← fail_if (bool_decide (u32_max < N.of_nat target_count)%N)
        (VeInvalidInput (chars "target_count " ++ decimal_nat target_count ++ chars " does not fit u32"));
  Ok {| plan_immediate := immediate; plan_submit_at := submit_at; plan_target_count := target_count;
        target_servers := targets |}.

Definition plan_share_submission (servers : list url) (now vote_end : N) (buffer : option N) (single_share : bool)
  (submit_at_random server_random : bytes) : result VotingError ShareSubmissionPlan :=
  _ ← require_share_servers servers;
  let target_count := share_submission_target_count (length servers) in
  targets ← select_share_submission_targets servers target_count server_random;
  submit_at ← scheduled_share_submit_at_from_entropy now vote_end buffer single_share submit_at_random;
  build_share_submission_plan false target_count targets submit_at.

(** [server_usage.get(server).copied().unwrap_or(0)]. *)
Abbreviation usage := (gmap url nat).
Definition used (server_usage : usage) (server : url) : nat := default 0 (server_usage !! server).

Definition ranked_before (server_usage : usage) (a b : nat * url) : bool :=
  bool_decide (used server_usage a.2 < used server_usage b.2)
  || (bool_decide (used server_usage a.2 = used server_usage b.2) && bool_decide (a.1 <= b.1)).

Definition under_quota (quota : option nat) (server_usage : usage) (ranked : nat * url) : Prop :=
  match quota with Some maximum => used server_usage ranked.2 < maximum | None => True end.
#[export] Instance under_quota_dec quota server_usage ranked : Decision (under_quota quota server_usage ranked).
Proof. destruct quota; cbn; apply _. Defined.

Definition use_server (server_usage : usage) (server : url) : usage :=
  <[server := S (used server_usage server)]> server_usage.

Definition select_batch_share_submission_targets (servers : list url) (target_count : nat) (quota : option nat)
  (server_usage : usage) (random : bytes) : result VotingError (list url * usage) :=
  order ← shuffled_share_server_order servers random;
  let ranked := sort_by (ranked_before server_usage) (imap pair order) in
  let selected := map snd (take target_count (filter (under_quota quota server_usage) ranked)) in
  _ ← fail_if (negb (bool_decide (length selected = target_count)))
        (VeInvalidInput (chars "cannot select " ++ decimal_nat target_count
           ++ chars " distinct helpers without exceeding the initial per-helper share quota"));
  Ok (selected, foldl use_server server_usage selected).

Definition checked_random_bytes_required (per_share : N) (share_count : nat) (name : string) : result VotingError N :=
  ok_or (if bool_decide (per_share * N.of_nat share_count <= u64_max)%N then Some (per_share * N.of_nat share_count)%N else None)
    (VeInvalidInput (chars name ++ chars " requirement overflows usize")).

(** The planning loop's parameters, fixed before the first share. *)
Record batch : Type := {
  batch_servers : list url;
  batch_target_count : nat;
  batch_quota : option nat;
  batch_now : N;
  batch_vote_end : N;
  batch_buffer : option N;
  batch_single_share : bool;
  batch_designated : option N;
  submit_at_bytes_per_share : nat;
  server_bytes_per_share : nat;
  batch_submit_at_random : bytes;
  batch_server_random : bytes
}.

Definition slice (random : bytes) (start size : nat) : bytes := take size (drop start random).

(** One turn of the loop. *)
Definition plan_one_share (b : batch) (server_usage : usage) (index : nat) :
  result VotingError (ShareSubmissionPlan * usage) :=
  let submit_at_start := index * submit_at_bytes_per_share b in
  let server_start := index * server_bytes_per_share b in
  targets ← select_batch_share_submission_targets (batch_servers b) (batch_target_count b) (batch_quota b)
    server_usage (slice (batch_server_random b) server_start (server_bytes_per_share b));
  let immediate := bool_decide (batch_designated b = Some (N.of_nat index mod (u32_max + 1))%N) in
  submit_at ←
    (if immediate then Ok 0%N
     else scheduled_share_submit_at_from_entropy (batch_now b) (batch_vote_end b) (batch_buffer b)
            (batch_single_share b) (slice (batch_submit_at_random b) submit_at_start (submit_at_bytes_per_share b)));
  plan ← build_share_submission_plan immediate (batch_target_count b) targets.1 submit_at;
  Ok (plan, targets.2).

(** Shares [index..index + remaining]. *)
Fixpoint plan_shares (b : batch) (server_usage : usage) (index remaining : nat) :
  result VotingError (list ShareSubmissionPlan) :=
  match remaining with
  | O => Ok []
  | S remaining =>
      planned ← plan_one_share b server_usage index;
      plans ← plan_shares b planned.2 (S index) remaining;
      Ok (planned.1 :: plans)
  end.

Definition plan_share_submissions_with_preferred_servers (share_count : nat) (ranked_servers : list url)
  (preferred_server_count : nat) (now vote_end : N) (buffer : option N) (single_share : bool) (designated : option N)
  (submit_at_random server_random : bytes) : result VotingError (list ShareSubmissionPlan) :=
  _ ← fail_if (single_share && negb (bool_decide (share_count = 1)))
        (VeInvalidInput (chars "single_share planning requires exactly one share payload, got " ++ decimal_nat share_count));
  _ ← fail_if (match designated with Some index => bool_decide (share_count <= N.to_nat index) | None => false end)
        (VeInvalidInput (chars "immediate_share_index must be less than share_count " ++ decimal_nat share_count));
  if bool_decide (share_count = 0) then Ok []
  else
    let server_count := length ranked_servers in
    _ ← require_share_servers ranked_servers;
    _ ← fail_if (bool_decide (server_count < preferred_server_count))
          (VeInvalidInput (chars "preferred_server_count must not exceed ranked_server_urls length"));
    let submit_at_bytes := share_submit_at_random_bytes_required now vote_end buffer single_share in
    let server_bytes := share_server_order_random_bytes_required server_count in
    submit_at_needed ← checked_random_bytes_required (N.of_nat submit_at_bytes) share_count "submit_at_random_bytes";
    server_needed ← checked_random_bytes_required server_bytes share_count "server_random_bytes";
    _ ← fail_if (bool_decide (N.of_nat (length submit_at_random) < submit_at_needed)%N)
          (VeInvalidInput (chars "submit_at_random_bytes must contain at least " ++ decimal submit_at_needed ++ chars " bytes"));
    _ ← fail_if (bool_decide (N.of_nat (length server_random) < server_needed)%N)
          (VeInvalidInput (chars "server_random_bytes must contain at least " ++ decimal server_needed ++ chars " bytes"));
    let target_count := share_submission_target_count server_count in
    let complete_normal_batch := bool_decide (share_count = VOTE_COMMITMENT_SHARE_COUNT) && negb single_share in
    let selection_policy := share_server_selection_policy server_count in
    let minimum := if complete_normal_batch then min_server_count selection_policy else target_count in
    _ ← fail_if (bool_decide (server_count < minimum))
          (VeInvalidInput (chars "complete share batch requires at least " ++ decimal_nat minimum
             ++ chars " helpers to keep each helper at or below "
             ++ decimal_nat SHARE_HELPER_MAX_INITIAL_SHARES_PER_SERVER ++ chars " initial shares"));
    let planning_server_count := Nat.min (Nat.max preferred_server_count minimum) server_count in
    plan_shares
      {| batch_servers := take planning_server_count ranked_servers; batch_target_count := target_count;
         batch_quota := if complete_normal_batch && bool_decide (1 < planning_server_count)
                        then Some SHARE_HELPER_MAX_INITIAL_SHARES_PER_SERVER else None;
         batch_now := now; batch_vote_end := vote_end; batch_buffer := buffer; batch_single_share := single_share;
         batch_designated := designated; submit_at_bytes_per_share := submit_at_bytes;
         server_bytes_per_share := N.to_nat server_bytes; batch_submit_at_random := submit_at_random;
         batch_server_random := server_random |}
      ∅ 0 share_count.

Definition plan_share_submissions (share_count : nat) (servers : list url) (now vote_end : N) (buffer : option N)
  (single_share : bool) (designated : option N) (submit_at_random server_random : bytes) :
  result VotingError (list ShareSubmissionPlan) :=
  plan_share_submissions_with_preferred_servers share_count servers (length servers) now vote_end buffer single_share
    designated submit_at_random server_random.

(** ** Shuffles are permutations *)

Lemma unique_from_ok seen servers :
  unique_from seen servers = Ok tt <-> NoDup servers /\ forall s, s ∈ servers -> s ∉ seen.
Proof.
  revert seen. induction servers as [|server servers IH]; intros seen; cbn.
  { split; [|done]. intros _. split; [constructor|]. intros s Hs. by apply elem_of_nil in Hs. }
  rewrite NoDup_cons. case_bool_decide as Hin.
  { split; [done|]. intros [_ H]. destruct (H server); [by left|done]. }
  rewrite IH. split.
  - intros [Hnd Hs]. split; [split; [|done]|].
    + intros Hserver. destruct (Hs server Hserver). by left.
    + intros s [->|H]%elem_of_cons; [done|]. intros Hseen. destruct (Hs s H). by right.
  - intros [[Hnot Hnd] Hs]. split; [done|]. intros s H [->|Hseen]%elem_of_cons; [done|].
    destruct (Hs s); [by right|done].
Qed.

Lemma require_unique_ok servers : NoDup servers -> require_unique_share_servers servers = Ok tt.
Proof. intros. apply unique_from_ok. split; [done|]. intros s _. apply not_elem_of_nil. Qed.

Lemma insert_delete_Permutation {A} (l : list A) i x : i < length l -> <[i := x]> l ≡ₚ x :: delete i l.
Proof.
  intros Hi. rewrite (delete_Permutation (<[i := x]> l) i x) by (by apply list_lookup_insert_eq). f_equiv.
  revert l Hi. induction i as [|i IH]; intros [|y l] Hi; cbn in *; try lia; [done|]. by rewrite IH by lia.
Qed.

Lemma swap_Permutation {A} (l : list A) i j : swap l i j ≡ₚ l.
Proof.
  unfold swap. destruct (l !! i) as [a|] eqn:Ha; [|done]. destruct (l !! j) as [b|] eqn:Hb; [|done].
  destruct (decide (i = j)) as [->|Hne].
  { simplify_eq. by rewrite list_insert_insert_eq, list_insert_id. }
  assert (i < length l) as Hi by (by apply lookup_lt_Some in Ha).
  assert (j < length l) as Hj by (by apply lookup_lt_Some in Hb).
  assert (a :: delete i (<[j := a]> l) ≡ₚ a :: delete j l) as Hk%(Permutation_cons_inv).
  { rewrite <- (insert_delete_Permutation l j a) by done. symmetry. apply delete_Permutation.
    by rewrite list_lookup_insert_ne. }
  rewrite insert_delete_Permutation by (by rewrite length_insert). rewrite Hk.
  symmetry. by apply delete_Permutation.
Qed.

Lemma shuffle_Permutation {A} index random (l : list A) : shuffle index random l ≡ₚ l.
Proof.
  revert random l. induction index as [|index IH]; intros random l; cbn; [done|]. by rewrite IH, swap_Permutation.
Qed.

Lemma shuffled_ok servers random :
  NoDup servers -> (share_server_order_random_bytes_required (length servers) <= N.of_nat (length random))%N ->
  shuffled_share_server_order servers random = Ok (shuffle (length servers - 1) random servers).
Proof.
  intros Hnd Hlen. unfold shuffled_share_server_order. rewrite require_unique_ok by done. cbn [mbind result_bind].
  unfold fail_if. rewrite bool_decide_false by lia. done.
Qed.

Lemma order_bytes_small n :
  (N.of_nat n <= u32_max)%N -> share_server_order_random_bytes_required n = N.of_nat (8 * (n - 1)).
Proof. unfold share_server_order_random_bytes_required, saturating_mul64, u32_max, u64_max. lia. Qed.

Lemma order_bytes_room n m total random :
  n + m = total -> (N.of_nat total <= u32_max)%N ->
  (saturating_add64 (N.of_nat (8 * (n - 1))) (N.of_nat (8 * (m - 1))) <= N.of_nat random)%N ->
  8 * (n - 1) + 8 * (m - 1) <= random.
Proof.
  intros <- Hn H. unfold saturating_add64 in H.
  assert (8 * u32_max <= u64_max)%N by (vm_compute; discriminate).
  rewrite N.min_l in H by lia. lia.
Qed.

(** The last places are settled from the end; entropy picks what goes there. *)
Lemma lookup_swap_place {A} (l : list A) i j x : i < length l -> l !! j = Some x -> swap l i j !! i = Some x.
Proof.
  intros Hi Hx. unfold swap. destruct (lookup_lt_is_Some_2 l i Hi) as [a Ha]. rewrite Ha, Hx.
  by rewrite list_lookup_insert_eq by (by rewrite length_insert).
Qed.

Lemma lookup_swap_past {A} (l : list A) i j k : i < k -> j < k -> swap l i j !! k = l !! k.
Proof.
  intros Hi Hj. unfold swap. destruct (l !! i), (l !! j); try done. by rewrite !list_lookup_insert_ne by lia.
Qed.

Lemma length_swap {A} (l : list A) i j : length (swap l i j) = length l.
Proof. by rewrite swap_Permutation. Qed.

Lemma agree_drop {A} (l k : list A) n :
  length l = length k -> (forall i, n <= i -> l !! i = k !! i) -> drop n l = drop n k.
Proof. intros Hlen H. apply list_eq. intros i. rewrite !lookup_drop. apply H. lia. Qed.

Lemma shuffle_reaches {A} index (l target : list A) :
  l ≡ₚ target -> index < length l -> (N.of_nat (length l) <= u32_max)%N ->
  (forall i, index < i -> l !! i = target !! i) ->
  exists random, length random = 8 * index /\ forall more, shuffle index (random ++ more) l = target.
Proof.
  revert l. induction index as [|index IH]; intros l Hperm Hi Hbound Hagree.
  { exists []. split; [done|]. intros more. cbn. pose proof (Permutation_length Hperm) as Hlen.
    destruct l as [|x l], target as [|y target]; try done.
    assert (l = target) as ->.
    { apply list_eq. intros i. apply (Hagree (S i)). lia. }
    pose proof (Permutation_app_inv_r target [x] [y] Hperm) as Hxy. by apply Permutation_singleton_l in Hxy as [= ->]. }
  assert (exists x, target !! S index = Some x) as [x Hx].
  { apply lookup_lt_is_Some_2. by rewrite <- Hperm. }
  assert (take (S (S index)) l ≡ₚ take (S (S index)) target) as Hpre.
  { apply (Permutation_app_inv_r (drop (S (S index)) l)).
    rewrite take_drop, (agree_drop l target), take_drop; [done|by rewrite Hperm|]. intros i Hii. apply Hagree. lia. }
  assert (exists j, l !! j = Some x /\ j <= S index) as (j & Hj & Hle).
  { assert (x ∈ take (S (S index)) l) as Hin.
    { rewrite Hpre. apply list_elem_of_lookup_2 with (S index). by rewrite lookup_take_lt by lia. }
    apply list_elem_of_lookup_1 in Hin as [j Hj]. exists j.
    pose proof (lookup_lt_Some _ _ _ Hj) as Hlt. rewrite length_take in Hlt.
    rewrite lookup_take_lt in Hj by lia. split; [done|lia]. }
  destruct (IH (swap l (S index) j)) as (random & Hlen & Hr).
  - by rewrite swap_Permutation.
  - rewrite length_swap. lia.
  - by rewrite length_swap.
  - intros i Hii. destruct (decide (i = S index)) as [->|].
    + by rewrite (lookup_swap_place _ _ _ _ Hi Hj).
    + rewrite lookup_swap_past by lia. apply Hagree. lia.
  - exists (le_bytes 8 (N.of_nat j) ++ random). split; [rewrite length_app, length_le_bytes; lia|].
    intros more. cbn [shuffle]. rewrite <- app_assoc, take_app_length', drop_app_length' by (by rewrite length_le_bytes).
    rewrite le_value_le_bytes by (apply u64_max_pow; unfold u32_max, u64_max in *; lia).
    rewrite N.mod_small by lia. rewrite Nat2N.id. apply Hr.
Qed.

(** ** Balance *)

Definition less_used (u : usage) (a b : url) : Prop := used u a <= used u b.

Fixpoint usage_sum (u : usage) (servers : list url) : nat :=
  match servers with [] => 0 | s :: rest => used u s + usage_sum u rest end.

#[export] Instance usage_sum_Permutation u : Proper (Permutation ==> eq) (usage_sum u).
Proof. intros l k H. induction H; cbn; lia. Qed.

Lemma usage_sum_app u l k : usage_sum u (l ++ k) = usage_sum u l + usage_sum u k.
Proof. induction l; cbn; lia. Qed.

Lemma usage_sum_const u c l : Forall (fun s => used u s = c) l -> usage_sum u l = c * length l.
Proof. induction 1 as [|s l Hs _ IH]; cbn; [lia|]. rewrite Hs, IH. lia. Qed.

(** Usage over [servers] takes at most two adjacent values and sums to [total]. *)
Definition balanced (servers : list url) (u : usage) (total : nat) : Prop :=
  exists c, (forall s, s ∈ servers -> used u s = c \/ used u s = S c) /\ usage_sum u servers = total.

Lemma used_use u s s' : used (use_server u s) s' = used u s' + (if decide (s' = s) then 1 else 0).
Proof.
  unfold use_server, used. destruct (decide (s' = s)) as [->|].
  - rewrite lookup_insert_eq. cbn. lia.
  - rewrite lookup_insert_ne by done. lia.
Qed.

Lemma used_foldl u sel s : NoDup sel -> used (foldl use_server u sel) s = used u s + (if decide (s ∈ sel) then 1 else 0).
Proof.
  intros Hnd. revert u. induction Hnd as [|x sel Hx Hnd IH]; intros u; cbn [foldl].
  - rewrite decide_False by apply not_elem_of_nil. lia.
  - rewrite IH, used_use. destruct (decide (s = x)) as [->|].
    + rewrite (decide_False (P := x ∈ sel)) by done. rewrite (decide_True (P := x ∈ x :: sel)) by left. lia.
    + destruct (decide (s ∈ sel)); [rewrite decide_True by (by right); lia|].
      rewrite decide_False by (by rewrite not_elem_of_cons). lia.
Qed.

Lemma two_levels u c l :
  StronglySorted (less_used u) l -> (forall s, s ∈ l -> used u s = c \/ used u s = S c) ->
  exists low high, l = low ++ high /\ Forall (fun s => used u s = c) low /\ Forall (fun s => used u s = S c) high.
Proof.
  induction 1 as [|x l Hl IH Hx]; intros Hin; [by exists [], []|].
  destruct IH as (low & high & -> & Hlow & Hhigh); [intros; apply Hin; by right|].
  destruct (Hin x) as [Hc|Hc]; [by left|by exists (x :: low), high; repeat constructor|].
  destruct low as [|y low]; [by exists [], (x :: high); repeat constructor|].
  apply Forall_cons in Hx as [Hxy _]. apply Forall_cons in Hlow as [Hy _]. unfold less_used in Hxy. lia.
Qed.

Lemma usage_after u sel rest :
  NoDup (sel ++ rest) -> usage_sum (foldl use_server u sel) (sel ++ rest) = usage_sum u (sel ++ rest) + length sel.
Proof.
  intros (Hsel & Hdis & Hrest)%NoDup_app. rewrite !usage_sum_app.
  assert (forall l, (forall s, s ∈ l -> s ∈ sel) -> usage_sum (foldl use_server u sel) l = usage_sum u l + length l) as Hin.
  { induction l as [|s l IH]; intros H; cbn; [lia|]. rewrite used_foldl by done. rewrite decide_True by (apply H; by left).
    rewrite IH; [lia|]. intros; apply H; by right. }
  assert (forall l, (forall s, s ∈ l -> s ∉ sel) -> usage_sum (foldl use_server u sel) l = usage_sum u l) as Hout.
  { induction l as [|s l IH]; intros H; cbn; [done|]. rewrite used_foldl by done.
    rewrite decide_False by (apply H; by left). rewrite IH; [lia|]. intros; apply H; by right. }
  rewrite Hin, Hout; [lia| |done]. intros s Hs Hsel'. by apply (Hdis s).
Qed.

(** Taking the [t] least used servers keeps the usage balanced. *)
Lemma balanced_take servers order u total t :
  NoDup servers -> order ≡ₚ servers -> StronglySorted (less_used u) order -> t <= length servers ->
  balanced servers u total -> balanced servers (foldl use_server u (take t order)) (total + t).
Proof.
  intros Hnd Hperm Hs Ht (c & Hc & Hsum).
  assert (NoDup order) as Hnd' by (by rewrite Hperm). assert (t <= length order) as Ht' by (by rewrite Hperm).
  destruct (two_levels u c order Hs) as (low & high & Horder & Hlow & Hhigh); [intros s H; apply Hc; by rewrite <- Hperm|].
  assert (usage_sum (foldl use_server u (take t order)) servers = total + t) as Htotal.
  { rewrite <- Hperm. pose proof (usage_after u (take t order) (drop t order)) as H. rewrite take_drop in H.
    rewrite H, length_take by done. rewrite Hperm at 1. rewrite Hsum. lia. }
  assert (NoDup (take t order)) as Hndt by (by apply NoDup_take).
  rewrite Forall_forall in Hlow, Hhigh.
  destruct (decide (t <= length low)).
  - exists c. split; [|done]. intros s Hs'. rewrite used_foldl by done. destruct (decide (s ∈ take t order)) as [Hin|].
    + rewrite Horder, take_app_le in Hin by done. rewrite (Hlow s) by (by eapply elem_of_take_1). lia.
    + destruct (Hc s Hs'); lia.
  - exists (S c). split; [|done]. intros s Hs'. rewrite used_foldl by done.
    assert (s ∈ order) as Hso by (by rewrite Hperm). rewrite Horder, elem_of_app in Hso. destruct Hso as [Hso|Hso].
    + rewrite (Hlow s) by done. rewrite decide_True; [lia|]. rewrite Horder, take_app_ge by lia.
      apply elem_of_app. by left.
    + rewrite (Hhigh s) by done. destruct (decide _); lia.
Qed.

(** Under the quota, the least used servers are still free. *)
Lemma quota_leaves_targets servers order u total t maximum :
  order ≡ₚ servers -> StronglySorted (less_used u) order -> 0 < t -> balanced servers u total ->
  total + t <= maximum * length servers ->
  take t (filter (fun s => used u s < maximum) order) = take t order.
Proof.
  intros Hperm Hs Ht (c & Hc & Hsum) Hroom.
  destruct (two_levels u c order Hs) as (low & high & -> & Hlow & Hhigh); [intros s H; apply Hc; by rewrite <- Hperm|].
  assert (c * length low + S c * length high = total) as Htot.
  { by rewrite <- Hsum, <- Hperm, usage_sum_app, (usage_sum_const u c), (usage_sum_const u (S c)). }
  rewrite <- Hperm, length_app in Hroom. rewrite filter_app.
  assert (c < maximum) as Hcm by nia.
  rewrite (filter_all (fun s => used u s < maximum) low) by (eapply Forall_impl; [exact Hlow|cbn; intros; lia]).
  destruct (decide (S c < maximum)).
  { by rewrite (filter_all (fun s => used u s < maximum) high) by (eapply Forall_impl; [exact Hhigh|cbn; intros; lia]). }
  assert (maximum = S c) as -> by lia. rewrite !take_app_le by nia. done.
Qed.

(** ** Choosing the targets of a share *)

Lemma ranked_before_total u x y : ranked_before u x y = true \/ ranked_before u y x = true.
Proof.
  unfold ranked_before. rewrite !orb_true_iff, !andb_true_iff, !bool_decide_eq_true. lia.
Qed.

Lemma ranked_before_trans u x y z : ranked_before u x y = true -> ranked_before u y z = true -> ranked_before u x z = true.
Proof. unfold ranked_before. rewrite !orb_true_iff, !andb_true_iff, !bool_decide_eq_true. lia. Qed.

Lemma map_snd_imap_pair (l : list url) : map snd (imap pair l) = l.
Proof.
  apply list_eq. intros i. change (map snd) with (fmap (M := list) (snd (A := nat) (B := url))).
  rewrite list_lookup_fmap, list_lookup_imap. by destruct (l !! i).
Qed.

Lemma map_filter_quota quota u (l : list (nat * url)) :
  map snd (filter (under_quota quota u) l)
  = match quota with Some m => filter (fun s => used u s < m) (map snd l) | None => map snd l end.
Proof.
  destruct quota as [m|]; [|by rewrite filter_all by (by apply Forall_forall)].
  induction l as [|[i s] l IH]; [done|]. cbn [map snd].
  destruct (decide (used u s < m)); [rewrite !filter_cons_True by done|by rewrite !filter_cons_False by done].
  cbn [map snd]. by rewrite IH.
Qed.

(** The candidates, least used first; the selection takes its head. *)
Lemma select_batch_spec servers t quota u random :
  NoDup servers -> (share_server_order_random_bytes_required (length servers) <= N.of_nat (length random))%N ->
  exists order, order ≡ₚ servers /\ StronglySorted (less_used u) order
    /\ forall sel, sel = take t match quota with Some m => filter (fun s => used u s < m) order | None => order end ->
       length sel = t ->
       select_batch_share_submission_targets servers t quota u random = Ok (sel, foldl use_server u sel).
Proof.
  intros Hnd Hlen. set (order := shuffle (length servers - 1) random servers).
  set (ranked := sort_by (ranked_before u) (imap pair order)). exists (map snd ranked). split; [|split].
  - unfold ranked. rewrite sort_by_Permutation, map_snd_imap_pair. apply shuffle_Permutation.
  - pose proof (sort_by_sorted _ (ranked_before_total u) (ranked_before_trans u) (imap pair order)) as Hs.
    fold ranked in Hs. induction Hs as [|[i s] l Hl IH Hx]; cbn; constructor; [done|]. apply Forall_map.
    eapply Forall_impl; [exact Hx|]. intros [j s'] Hb. apply Is_true_eq_true in Hb. unfold ranked_before in Hb.
    rewrite orb_true_iff, andb_true_iff, !bool_decide_eq_true in Hb. unfold less_used. cbn in *. lia.
  - intros sel Hsel Ht. unfold select_batch_share_submission_targets. rewrite shuffled_ok by done. cbn [mbind result_bind].
    fold order ranked. rewrite <- firstn_map, map_filter_quota, <- Hsel. unfold fail_if. by rewrite bool_decide_true.
Qed.

Lemma scheduled_ok now vote_end buffer single random :
  share_submit_at_random_bytes_required now vote_end buffer single <= length random ->
  is_ok (scheduled_share_submit_at_from_entropy now vote_end buffer single random) = true.
Proof.
  unfold share_submit_at_random_bytes_required, scheduled_share_submit_at_from_entropy.
  destruct (delayed_share_window_seconds _ _ _ _); [|done]. intros H. unfold fail_if. by rewrite bool_decide_false by lia.
Qed.

(** How many of the plans send their share to a server. *)
Definition placements (plans : list ShareSubmissionPlan) (server : url) : nat :=
  length (filter (fun p => server ∈ target_servers p) plans).

(** What the batch promises of the plan at a position. *)
Record plan_fits (b : batch) (index : nat) (p : ShareSubmissionPlan) : Prop := {
  fits_immediate : plan_immediate p = bool_decide (batch_designated b = Some (N.of_nat index));
  fits_submit_at : if plan_immediate p then plan_submit_at p = 0%N
    else scheduled_share_submit_at_from_entropy (batch_now b) (batch_vote_end b) (batch_buffer b) (batch_single_share b)
           (slice (batch_submit_at_random b) (index * submit_at_bytes_per_share b) (submit_at_bytes_per_share b))
         = Ok (plan_submit_at p);
  fits_count : plan_target_count p = batch_target_count b;
  fits_length : length (target_servers p) = batch_target_count b;
  fits_distinct : NoDup (target_servers p);
  fits_pool : forall s, s ∈ target_servers p -> s ∈ batch_servers b
}.

(** A batch the checks before the loop let through. *)
Record batch_ok (b : batch) (count : nat) : Prop := {
  ok_servers : NoDup (batch_servers b);
  ok_target : 0 < batch_target_count b <= length (batch_servers b);
  ok_target_u32 : (N.of_nat (batch_target_count b) <= u32_max)%N;
  ok_count : (N.of_nat count <= u32_max)%N;
  ok_submit_bytes : submit_at_bytes_per_share b
    = share_submit_at_random_bytes_required (batch_now b) (batch_vote_end b) (batch_buffer b) (batch_single_share b);
  ok_server_bytes : (share_server_order_random_bytes_required (length (batch_servers b)) <= N.of_nat (server_bytes_per_share b))%N;
  ok_submit_random : count * submit_at_bytes_per_share b <= length (batch_submit_at_random b);
  ok_server_random : count * server_bytes_per_share b <= length (batch_server_random b);
  ok_quota : forall m, batch_quota b = Some m -> count * batch_target_count b <= m * length (batch_servers b)
}.

Lemma length_slice random start size : start + size <= length random -> length (slice random start size) = size.
Proof. intros H. unfold slice. rewrite length_take, length_drop. lia. Qed.

Lemma plan_one_share_fits b count u index :
  batch_ok b count -> index < count -> balanced (batch_servers b) u (index * batch_target_count b) ->
  exists p u', plan_one_share b u index = Ok (p, u') /\ plan_fits b index p
    /\ balanced (batch_servers b) u' (S index * batch_target_count b)
    /\ forall s, used u' s = used u s + placements [p] s.
Proof.
  intros Hok Hi Hbal. set (t := batch_target_count b) in *. pose proof (ok_target _ _ Hok) as Ht. pose proof (ok_target_u32 _ _ Hok) as Hu32. fold t in Ht, Hu32.
  destruct (select_batch_spec (batch_servers b) t (batch_quota b) u
    (slice (batch_server_random b) (index * server_bytes_per_share b) (server_bytes_per_share b)))
    as (order & Hperm & Hsorted & Hsel); [apply Hok| |].
  { rewrite length_slice; [apply Hok|]. pose proof (ok_server_random _ _ Hok). nia. }
  assert (take t order = take t match batch_quota b with Some m => filter (fun s => used u s < m) order | None => order end) as Htake.
  { destruct (batch_quota b) as [m|] eqn:Hq; [|done]. symmetry.
    apply (quota_leaves_targets (batch_servers b) order u (index * t)); try done; [lia|].
    pose proof (ok_quota _ _ Hok m Hq). fold t in H. nia. }
  assert (length (take t order) = t) as Hlen by (rewrite length_take, Hperm; lia).
  specialize (Hsel _ Htake Hlen).
  assert (NoDup (take t order)) as Hnd by (apply NoDup_take; rewrite Hperm; apply Hok).
  set (immediate := bool_decide (batch_designated b = Some (N.of_nat index))).
  assert (exists at_s, (if immediate then Ok 0%N else scheduled_share_submit_at_from_entropy (batch_now b) (batch_vote_end b)
    (batch_buffer b) (batch_single_share b) (slice (batch_submit_at_random b) (index * submit_at_bytes_per_share b)
    (submit_at_bytes_per_share b))) = Ok at_s) as [at_s Hat].
  { destruct immediate; [eauto|]. edestruct scheduled_share_submit_at_from_entropy eqn:E; [eauto|].
    apply (f_equal is_ok) in E. rewrite scheduled_ok in E; [done|]. rewrite length_slice; [by rewrite (ok_submit_bytes _ _ Hok)|].
    pose proof (ok_submit_random _ _ Hok). nia. }
  exists {| plan_immediate := immediate; plan_submit_at := at_s; plan_target_count := t; target_servers := take t order |},
    (foldl use_server u (take t order)). split.
  { unfold plan_one_share. fold t. rewrite Hsel. cbn [mbind result_bind fst snd].
    rewrite N.mod_small by (pose proof (ok_count _ _ Hok); lia). fold immediate. rewrite Hat. cbn [mbind result_bind].
    unfold build_share_submission_plan, fail_if. rewrite bool_decide_false by lia. done. }
  split; [|split].
  - constructor; cbn; try done; [by destruct immediate; simplify_eq|]. intros s Hs. rewrite <- Hperm. by eapply elem_of_take_1.
  - replace (S index * t) with (index * t + t) by lia. by apply balanced_take; [apply Hok| | |lia|].
  - intros s. rewrite used_foldl by done. unfold placements. rewrite filter_cons. cbn [target_servers].
    by destruct (decide (s ∈ take t order)).
Qed.

Lemma plan_shares_fit b count u index remaining :
  batch_ok b count -> index + remaining = count -> balanced (batch_servers b) u (index * batch_target_count b) ->
  exists plans u', plan_shares b u index remaining = Ok plans /\ length plans = remaining
    /\ (forall i p, plans !! i = Some p -> plan_fits b (index + i) p)
    /\ balanced (batch_servers b) u' (count * batch_target_count b)
    /\ forall s, used u' s = used u s + placements plans s.
Proof.
  intros Hok. revert u index. induction remaining as [|remaining IH]; intros u index Hcount Hbal.
  { exists [], u. replace count with index by lia. split; [done|]. split; [done|]. split; [done|]. split; [done|].
    intros s. unfold placements. cbn. lia. }
  destruct (plan_one_share_fits b count u index Hok) as (p & u1 & Hp & Hfits & Hbal1 & Hused1); [lia|done|].
  destruct (IH u1 (S index)) as (plans & u2 & Hplans & Hlen & Hall & Hbal2 & Hused2); [lia|done|].
  exists (p :: plans), u2. cbn [plan_shares]. rewrite Hp. cbn [mbind result_bind fst snd]. rewrite Hplans.
  split; [done|]. split; [cbn; by rewrite Hlen|]. split; [|split; [done|]].
  - intros [|i] q Hq; cbn in Hq; [simplify_eq; by rewrite Nat.add_0_r|].
    replace (index + S i) with (S index + i) by lia. by apply Hall.
  - intros s. rewrite Hused2, Hused1. unfold placements. rewrite !filter_cons. destruct (decide _); cbn; lia.
Qed.

Lemma balanced_empty servers : balanced servers ∅ 0.
Proof. exists 0. split; [by left|]. by induction servers. Qed.

(** No server of a balanced usage exceeds the average, rounded up. *)
Lemma balanced_within servers u total m s :
  balanced servers u total -> total <= m * length servers -> s ∈ servers -> used u s <= m.
Proof.
  intros (c & Hc & Hsum) Hroom Hs.
  assert (forall l, (forall x, x ∈ l -> used u x = c \/ used u x = S c) -> c * length l <= usage_sum u l) as Hlow.
  { induction l as [|x l IH]; intros H; cbn; [lia|]. destruct (H x); [by left| |]; specialize (IH ltac:(intros; apply H; by right)); lia. }
  apply list_elem_of_split in Hs as (l1 & l2 & ->).
  pose proof (Hlow l1 ltac:(intros; apply Hc, elem_of_app; by left)).
  pose proof (Hlow l2 ltac:(intros; apply Hc, elem_of_app; right; by right)).
  rewrite usage_sum_app in Hsum. cbn in Hsum. rewrite length_app in Hroom. cbn in Hroom.
  destruct (Hc s) as [E|E]; [apply elem_of_app; right; by left|..]; rewrite E in *; nia.
Qed.

Lemma balanced_close servers u total s s' :
  balanced servers u total -> s ∈ servers -> s' ∈ servers -> used u s <= S (used u s').
Proof. intros (c & Hc & _) Hs Hs'. destruct (Hc s Hs), (Hc s' Hs'); lia. Qed.

(** ** Enough helpers *)

Lemma target_count_bounds n :
  1 <= n -> 1 <= share_submission_target_count n /\ 2 * share_submission_target_count n <= n + 1.
Proof.
  intros Hn. unfold share_submission_target_count, SHARE_HELPER_TARGET_COUNT_CAP.
  pose proof (Nat.div_mod n 2 ltac:(done)). pose proof (Nat.mod_upper_bound n 2 ltac:(done)). lia.
Qed.

Lemma div_ceil_bounds a b : 0 < b -> a <= b * div_ceil a b < a + b.
Proof.
  intros Hb. unfold div_ceil. pose proof (Nat.div_mod a b ltac:(lia)). pose proof (Nat.mod_upper_bound a b ltac:(lia)).
  case_bool_decide; nia.
Qed.

(** The minimum pool of a complete batch has room for it and is always there. *)
Lemma minimum_pool n :
  2 <= n -> let r := minimum_complete_batch_planning_server_count (share_submission_target_count n) in
  2 <= r <= n /\ share_submission_target_count n <= r
  /\ VOTE_COMMITMENT_SHARE_COUNT * share_submission_target_count n <= SHARE_HELPER_MAX_INITIAL_SHARES_PER_SERVER * r.
Proof.
  intros Hn. destruct (target_count_bounds n) as [Ht1 Ht2]; [lia|]. cbv zeta.
  unfold minimum_complete_batch_planning_server_count. rewrite bool_decide_false by lia.
  change SHARE_HELPER_MAX_INITIAL_SHARES_PER_SERVER with 12. change VOTE_COMMITMENT_SHARE_COUNT with 16.
  pose proof (div_ceil_bounds (16 * share_submission_target_count n) 12 ltac:(lia)). lia.
Qed.

(** ** Resubmission groups *)

Lemma groups_Permutation configured sent : untried_servers configured sent ++ already_sent_servers configured sent ≡ₚ configured.
Proof.
  unfold untried_servers, already_sent_servers. induction configured as [|x l IH]; [done|].
  rewrite !filter_cons. destruct (decide (x ∈ sent)).
  - rewrite (decide_False (P := x ∉ sent)) by naive_solver. by rewrite <- Permutation_middle, IH.
  - rewrite (decide_True (P := x ∉ sent)) by done. cbn. by rewrite IH.
Qed.

Lemma resubmission_ok configured sent random :
  NoDup configured -> (N.of_nat (length configured) <= u32_max)%N ->
  (resubmission_server_order_random_bytes_required configured sent <= N.of_nat (length random))%N ->
  exists r1 r2, resubmission_server_order configured sent random
    = Ok (shuffle (length (untried_servers configured sent) - 1) r1 (untried_servers configured sent)
          ++ shuffle (length (already_sent_servers configured sent) - 1) r2 (already_sent_servers configured sent)).
Proof.
  intros Hnd Hbound Hlen. unfold resubmission_server_order, resubmission_server_order_from_groups.
  pose proof (groups_Permutation configured sent) as Hsplit.
  rewrite require_unique_ok by done. rewrite (bool_decide_false (N.of_nat (length random) < _)%N) by lia.
  unfold resubmission_server_order_random_bytes_required in Hlen.
  set (u := untried_servers configured sent) in *. set (a := already_sent_servers configured sent) in *.
  assert (length u + length a = length configured) as Hl by (by rewrite <- length_app, Hsplit).
  assert (NoDup (u ++ a)) as (Hu & _ & Ha)%NoDup_app by (by rewrite Hsplit).
  assert (share_server_order_random_bytes_required (length u) = N.of_nat (8 * (length u - 1))) as Hub
    by (apply order_bytes_small; lia).
  assert (share_server_order_random_bytes_required (length a) = N.of_nat (8 * (length a - 1))) as Hab
    by (apply order_bytes_small; lia).
  rewrite Hub, Hab in Hlen |- *. rewrite !Nat2N.id.
  assert (8 * (length u - 1) + 8 * (length a - 1) <= length random) as Hroom
    by (apply (order_bytes_room _ _ (length configured)); [exact Hl|exact Hbound|exact Hlen]).
  rewrite (shuffled_ok u) by (done || (rewrite Hub, length_take; lia)).
  rewrite (shuffled_ok a) by (done || (rewrite Hab, length_take, length_drop; lia)).
  do 2 eexists. reflexivity.
Qed.

(** ** Properties *)

(** A request that meets the documented preconditions: distinct helpers, the entropy
    [share_submission_random_bytes_required] asks for, a batch position for the
    immediate share, and sizes that fit memory. *)
Record request_ok (share_count : nat) (ranked : list url) (preferred : nat) (now vote_end : N) (buffer : option N)
  (single_share : bool) (designated : option N) (submit_at_random server_random : bytes) : Prop := {
  request_servers : NoDup ranked;
  request_some : ranked <> [];
  request_preferred : preferred <= length ranked;
  request_single : single_share = true -> share_count = 1;
  request_designated : forall i, designated = Some i -> N.to_nat i < share_count;
  request_count : (N.of_nat share_count <= u32_max)%N;
  request_size : (N.of_nat (length ranked) * 8 * N.of_nat share_count <= u64_max)%N;
  request_submit_bytes :
    (submit_at_random_bytes (share_submission_random_bytes_required share_count (length ranked) now vote_end buffer single_share)
     <= N.of_nat (length submit_at_random))%N;
  request_server_bytes :
    (server_random_bytes (share_submission_random_bytes_required share_count (length ranked) now vote_end buffer single_share)
     <= N.of_nat (length server_random))%N
}.

Definition complete_batch (share_count : nat) (single_share : bool) : bool :=
  bool_decide (share_count = VOTE_COMMITMENT_SHARE_COUNT) && negb single_share.

(** The helpers the planner draws from. *)
Definition planning_pool (share_count : nat) (ranked : list url) (preferred : nat) (single_share : bool) : list url :=
  let minimum := if complete_batch share_count single_share then min_server_count (share_server_selection_policy (length ranked))
                 else share_submission_target_count (length ranked) in
  take (Nat.min (Nat.max preferred minimum) (length ranked)) ranked.

Lemma minimum_bounds share_count n single_share :
  1 <= n ->
  let minimum := if complete_batch share_count single_share then min_server_count (share_server_selection_policy n)
                 else share_submission_target_count n in
  share_submission_target_count n <= minimum <= n
  /\ (complete_batch share_count single_share = true -> 2 <= n -> 2 <= minimum
      /\ share_count * share_submission_target_count n <= SHARE_HELPER_MAX_INITIAL_SHARES_PER_SERVER * minimum).
Proof.
  intros Hn. destruct (target_count_bounds n Hn). cbv zeta. unfold complete_batch. unfold share_server_selection_policy.
  destruct (bool_decide (share_count = _) && negb single_share) eqn:Hc; [|split; [lia|done]].
  apply andb_true_iff in Hc as [->%bool_decide_eq_true _]. rewrite (bool_decide_false (n = 0)) by lia.
  case_bool_decide as H1; cbn [min_server_count].
  - split; [lia|]. lia.
  - pose proof (minimum_pool n ltac:(lia)) as Hpool. cbv zeta in Hpool. split; [lia|]. intros _ _. lia.
Qed.

Lemma submit_bytes_bound now vote_end buffer single_share :
  share_submit_at_random_bytes_required now vote_end buffer single_share <= 8.
Proof. unfold share_submit_at_random_bytes_required, SHARE_SUBMIT_AT_RANDOM_BYTES. case_match; lia. Qed.

Lemma planner_runs share_count ranked preferred now vote_end buffer single_share designated submit_at_random server_random :
  request_ok share_count ranked preferred now vote_end buffer single_share designated submit_at_random server_random ->
  share_count <> 0 ->
  exists b, plan_share_submissions_with_preferred_servers share_count ranked preferred now vote_end buffer single_share
              designated submit_at_random server_random = plan_shares b ∅ 0 share_count
    /\ batch_ok b share_count
    /\ batch_servers b = planning_pool share_count ranked preferred single_share
    /\ batch_target_count b = share_submission_target_count (length ranked)
    /\ batch_designated b = designated
    /\ batch_now b = now /\ batch_vote_end b = vote_end /\ batch_buffer b = buffer /\ batch_single_share b = single_share
    /\ (complete_batch share_count single_share = true -> 2 <= length ranked ->
        batch_quota b = Some SHARE_HELPER_MAX_INITIAL_SHARES_PER_SERVER).
Proof.
  intros Hreq Hcount. unfold plan_share_submissions_with_preferred_servers.
  fold (complete_batch share_count single_share).
  assert (1 <= length ranked) as Hn by (destruct ranked; [by destruct (request_some _ _ _ _ _ _ _ _ _ _ Hreq)|cbn; lia]).
  pose proof (minimum_bounds share_count (length ranked) single_share Hn) as [Hmin Hfull].
  destruct (target_count_bounds (length ranked) Hn) as [Ht1 Ht2].
  destruct Hreq as [Hnd Hne Hpref Hsingle Hdes Hc32 Hsize Hsubmit Hserver].
  assert (single_share && negb (bool_decide (share_count = 1)) = false) as ->.
  { destruct single_share; [|done]. by rewrite Hsingle. }
  assert (match designated with Some index => bool_decide (share_count <= N.to_nat index) | None => false end = false) as ->.
  { destruct designated as [i|]; [|done]. apply bool_decide_false. specialize (Hdes i eq_refl). lia. }
  cbn [fail_if mbind result_bind]. rewrite (bool_decide_false (share_count = 0)) by done.
  unfold require_share_servers. rewrite (bool_decide_false (ranked = [])) by done. cbn [fail_if mbind result_bind].
  rewrite require_unique_ok by done. cbn [mbind result_bind].
  rewrite (bool_decide_false (length ranked < preferred)) by lia. cbn [fail_if mbind result_bind].
  unfold share_submission_random_bytes_required in Hsubmit, Hserver. cbn in Hsubmit, Hserver.
  set (sb := share_submit_at_random_bytes_required now vote_end buffer single_share) in *.
  assert (sb <= 8) as Hsb by apply submit_bytes_bound.
  set (vb := share_server_order_random_bytes_required (length ranked)) in *.
  assert (vb <= N.of_nat (length ranked) * 8)%N as Hvb by (unfold vb, share_server_order_random_bytes_required, saturating_mul64; lia).
  assert (N.of_nat sb * N.of_nat share_count <= u64_max)%N as Hs1 by (clear -Hc32 Hsb; unfold u32_max, u64_max in *; nia).
  assert (vb * N.of_nat share_count <= u64_max)%N as Hv1 by (etrans; [apply N.mul_le_mono_r, Hvb|exact Hsize]).
  unfold saturating_mul64 in Hsubmit, Hserver. rewrite N.min_l in Hsubmit, Hserver by done.
  unfold checked_random_bytes_required. rewrite (bool_decide_true _ Hs1), (bool_decide_true _ Hv1). cbn [ok_or mbind result_bind].
  rewrite (bool_decide_false (N.of_nat (length submit_at_random) < _)%N) by lia.
  rewrite (bool_decide_false (N.of_nat (length server_random) < _)%N) by lia. cbn [fail_if mbind result_bind].
  rewrite (bool_decide_false (length ranked < _)) by lia. cbn [fail_if mbind result_bind].
  eexists. split; [reflexivity|]. cbn [batch_servers batch_target_count batch_designated batch_now batch_vote_end batch_buffer
    batch_single_share batch_quota]. unfold planning_pool.
  set (minimum := if complete_batch share_count single_share then _ else _) in *.
  set (size := Nat.min (Nat.max preferred minimum) (length ranked)).
  assert (length (take size ranked) = size) as Hsize' by (rewrite length_take; unfold size; lia).
  split; [|split; [done|]; repeat (split; [done|]); intros Hcomplete Hn2; rewrite Hcomplete;
           by rewrite bool_decide_true by (unfold size; specialize (Hfull Hcomplete Hn2); lia)].
  constructor; cbn [batch_servers batch_target_count batch_quota batch_now batch_vote_end batch_buffer batch_single_share
    submit_at_bytes_per_share server_bytes_per_share batch_submit_at_random batch_server_random]; rewrite ?Hsize'; try done.
  - by apply NoDup_take.
  - unfold size. lia.
  - unfold share_submission_target_count, SHARE_HELPER_TARGET_COUNT_CAP, u32_max. lia.
  - rewrite N2Nat.id. unfold vb, share_server_order_random_bytes_required, saturating_mul64, size. lia.
  - lia.
  - lia.
  - intros m. destruct (complete_batch share_count single_share) eqn:Hcomplete; [|done]. cbn.
    case_bool_decide as H2; [|done]. intros [= <-]. destruct Hfull as [_ Hroom]; [done|unfold size in H2; lia|].
    etrans; [exact Hroom|]. apply Nat.mul_le_mono_l. unfold size. lia.
Qed.

(** What planning promises of the plans of a batch. *)
Record placed (share_count : nat) (ranked : list url) (preferred : nat) (single_share : bool) (designated : option N)
  (plans : list ShareSubmissionPlan) (pool : list url := planning_pool share_count ranked preferred single_share) : Prop := {
  placed_count : length plans = share_count;
  placed_plan : forall i p, plans !! i = Some p ->
    plan_immediate p = bool_decide (designated = Some (N.of_nat i))
    /\ (plan_immediate p = true -> plan_submit_at p = 0%N)
    /\ plan_target_count p = share_submission_target_count (length ranked)
    /\ length (target_servers p) = plan_target_count p /\ NoDup (target_servers p)
    /\ forall s, s ∈ target_servers p -> s ∈ pool;
  placed_balanced : forall s s', s ∈ pool -> s' ∈ pool -> placements plans s <= S (placements plans s');
  placed_quota : complete_batch share_count single_share = true -> 2 <= length ranked -> forall s, s ∈ pool ->
    placements plans s <= SHARE_HELPER_MAX_INITIAL_SHARES_PER_SERVER
}.

Lemma planner_places share_count ranked preferred now vote_end buffer single_share designated submit_at_random server_random :
  request_ok share_count ranked preferred now vote_end buffer single_share designated submit_at_random server_random ->
  exists plans,
    plan_share_submissions_with_preferred_servers share_count ranked preferred now vote_end buffer single_share designated
      submit_at_random server_random = Ok plans
    /\ placed share_count ranked preferred single_share designated plans.
Proof.
  intros Hreq. set (pool := planning_pool share_count ranked preferred single_share).
  destruct (decide (share_count = 0)) as [->|Hcount].
  { exists []. destruct Hreq. unfold plan_share_submissions_with_preferred_servers.
    assert (single_share = false) as -> by (destruct single_share; [by specialize (request_single0 eq_refl)|done]).
    destruct designated as [i|]; [specialize (request_designated0 i eq_refl); lia|].
    split; [done|]. constructor; [done|done|cbn; lia|done]. }
  destruct (planner_runs _ _ _ _ _ _ _ _ _ _ Hreq Hcount) as (b & -> & Hok & Hpool & Ht & Hdes & _ & _ & _ & _ & Hquota).
  destruct (plan_shares_fit b share_count ∅ 0 share_count Hok eq_refl) as (plans & u & Hplans & Hlen & Hfits & Hbal & Hused);
    [apply balanced_empty|].
  fold pool in Hpool. rewrite Hpool in Hbal. exists plans. split; [done|].
  assert (forall s, placements plans s = used u s) as Hplaced by (intros s; by rewrite Hused).
  constructor; fold pool; [done| | |].
  - intros i p Hp. destruct (Hfits i p Hp) as [Him Hat Htc Hl Hd Hin]. cbn in Him. rewrite Hdes in Him.
    rewrite Htc, Hl, Ht. split; [done|]. split; [by destruct (plan_immediate p)|]. split; [done|]. split; [done|].
    split; [done|]. rewrite Hpool in Hin. done.
  - intros s s' Hs Hs'. rewrite !Hplaced. by eapply balanced_close.
  - intros Hc Hn s Hs. rewrite Hplaced. eapply balanced_within; [exact Hbal| |exact Hs].
    pose proof (ok_quota _ _ Hok _ (Hquota Hc Hn)) as Hroom. by rewrite Hpool in Hroom.
Qed.

(** C6. Planning a batch that meets the documented preconditions always succeeds,
    whatever the entropy: one plan per share, each for as many distinct helpers as the
    policy asks, drawn from the preferred pool widened to its minimum; exactly the
    designated share is immediate.  Any two pool helpers receive numbers of shares that
    differ by at most one, and in a complete commitment over two or more helpers no
    helper receives more than twelve of the sixteen shares. *)
Theorem share_placement_balanced (share_count : nat) (ranked : list url) (preferred : nat) (now vote_end : N)
  (buffer : option N) (single_share : bool) (designated : option N) (submit_at_random server_random : bytes) :
  request_ok share_count ranked preferred now vote_end buffer single_share designated submit_at_random server_random ->
  let pool := planning_pool share_count ranked preferred single_share in
  exists plans,
    plan_share_submissions_with_preferred_servers share_count ranked preferred now vote_end buffer single_share designated
      submit_at_random server_random = Ok plans
    /\ length plans = share_count
    /\ (forall i p, plans !! i = Some p ->
          plan_immediate p = bool_decide (designated = Some (N.of_nat i))
          /\ (plan_immediate p = true -> plan_submit_at p = 0%N)
          /\ plan_target_count p = share_submission_target_count (length ranked)
          /\ length (target_servers p) = plan_target_count p /\ NoDup (target_servers p)
          /\ forall s, s ∈ target_servers p -> s ∈ pool)
    /\ (forall s s', s ∈ pool -> s' ∈ pool -> placements plans s <= S (placements plans s'))
    /\ (complete_batch share_count single_share = true -> 2 <= length ranked -> forall s, s ∈ pool ->
          placements plans s <= SHARE_HELPER_MAX_INITIAL_SHARES_PER_SERVER).
Proof.
  intros Hreq pool. destruct (planner_places _ _ _ _ _ _ _ _ _ _ Hreq) as (plans & Hp & [H1 H2 H3 H4]).
  exists plans. by split.
Qed.

(** C36. The helper shuffle is exact: with the entropy it asks for it returns an order
    of the helpers, and every order of them is reached by some entropy. *)
Theorem shuffle_reaches_every_order (servers order : list url) :
  NoDup servers -> (N.of_nat (length servers) <= u32_max)%N ->
  (exists random, N.of_nat (length random) = share_server_order_random_bytes_required (length servers)
                  /\ shuffled_share_server_order servers random = Ok order)
  <-> order ≡ₚ servers.
Proof.
  intros Hnd Hbound. split.
  - intros (random & Hlen & H). rewrite shuffled_ok in H by (done || lia). injection H as <-. apply shuffle_Permutation.
  - intros Hperm. unfold share_server_order_random_bytes_required, saturating_mul64.
    rewrite N.min_l by (unfold u32_max, u64_max in *; lia). destruct (decide (servers = [])) as [->|Hne].
    { apply Permutation_nil_r in Hperm as ->. exists []. by vm_compute. }
    assert (length servers <> 0) as Hz by (by destruct servers).
    destruct (shuffle_reaches (length servers - 1) servers order) as (random & Hlen & Hr); [done|lia|done| |].
    { intros i Hi. rewrite !lookup_ge_None_2; [done| |lia]. rewrite Hperm. lia. }
    exists random. split; [lia|]. rewrite shuffled_ok; [|done|].
    + by rewrite <- (app_nil_r random), Hr.
    + unfold share_server_order_random_bytes_required, saturating_mul64. lia.
Qed.

(** Resubmission with the entropy it asks for always yields an order of all the
    configured helpers in which every helper that has not received the share comes
    before every helper that has. *)
Theorem resubmission_tries_untried_first (configured sent : list url) (random : bytes) :
  NoDup configured -> (N.of_nat (length configured) <= u32_max)%N ->
  (resubmission_server_order_random_bytes_required configured sent <= N.of_nat (length random))%N ->
  exists order, resubmission_server_order configured sent random = Ok order
    /\ order ≡ₚ configured
    /\ forall i j a b, order !! i = Some a -> order !! j = Some b -> a ∉ sent -> b ∈ sent -> i < j.
Proof.
  intros Hnd Hbound Hlen. destruct (resubmission_ok configured sent random Hnd Hbound Hlen) as (r1 & r2 & ->).
  pose proof (groups_Permutation configured sent) as Hsplit.
  set (u := untried_servers configured sent) in *. set (a := already_sent_servers configured sent) in *.
  eexists. split; [reflexivity|].
  split; [by rewrite !shuffle_Permutation|]. intros i j x y Hi Hj Hx Hy.
  destruct (decide (i < length u)) as [Hiu|Hiu].
  - destruct (decide (j < length u)) as [Hju|Hju]; [|lia]. exfalso.
    rewrite lookup_app_l in Hj by (by rewrite shuffle_Permutation). apply list_elem_of_lookup_2 in Hj.
    rewrite shuffle_Permutation in Hj. by apply list_elem_of_filter in Hj as [? _].
  - exfalso. rewrite lookup_app_r in Hi by (rewrite shuffle_Permutation; lia). apply list_elem_of_lookup_2 in Hi.
    rewrite shuffle_Permutation in Hi. by apply list_elem_of_filter in Hi as [? _].
Qed.

(** ** Witnesses *)

Definition sample_helpers : list url := map chars ["a"; "b"; "c"; "d"; "e"].

Lemma sample_helpers_NoDup : NoDup sample_helpers.
Proof. apply (bool_decide_unpack _). vm_compute. exact I. Qed.

Lemma sample_placement_request :
  request_ok 16 sample_helpers 2 1000 900000 (Some 3600%N) false (Some 3%N) (repeat Byte.x5a 128) (repeat Byte.xc3 512).
Proof.
  constructor; try (vm_compute; discriminate); [apply sample_helpers_NoDup|vm_compute; lia|].
  intros i [= <-]. vm_compute. lia.
Qed.

Lemma share_placement_balanced_witness :
  let pool := planning_pool 16 sample_helpers 2 false in
  exists plans,
    plan_share_submissions_with_preferred_servers 16 sample_helpers 2 1000 900000 (Some 3600%N) false (Some 3%N)
      (repeat Byte.x5a 128) (repeat Byte.xc3 512) = Ok plans
    /\ length plans = 16
    /\ (forall i p, plans !! i = Some p ->
          plan_immediate p = bool_decide (Some 3%N = Some (N.of_nat i))
          /\ (plan_immediate p = true -> plan_submit_at p = 0%N)
          /\ plan_target_count p = share_submission_target_count (length sample_helpers)
          /\ length (target_servers p) = plan_target_count p /\ NoDup (target_servers p)
          /\ forall s, s ∈ target_servers p -> s ∈ pool)
    /\ (forall s s', s ∈ pool -> s' ∈ pool -> placements plans s <= S (placements plans s'))
    /\ (complete_batch 16 false = true -> 2 <= length sample_helpers -> forall s, s ∈ pool ->
          placements plans s <= SHARE_HELPER_MAX_INITIAL_SHARES_PER_SERVER).
Proof. exact (share_placement_balanced _ _ _ _ _ _ _ _ _ _ sample_placement_request). Defined.

Lemma shuffle_reaches_every_order_witness :
  (exists random, N.of_nat (length random) = share_server_order_random_bytes_required (length sample_helpers)
                  /\ shuffled_share_server_order sample_helpers random = Ok (reverse sample_helpers))
  <-> reverse sample_helpers ≡ₚ sample_helpers.
Proof.
  apply (shuffle_reaches_every_order sample_helpers (reverse sample_helpers) sample_helpers_NoDup). vm_compute. discriminate.
Defined.

Lemma resubmission_tries_untried_first_witness :
  exists order, resubmission_server_order sample_helpers (map chars ["b"; "d"]) (repeat Byte.x11 24) = Ok order
    /\ order ≡ₚ sample_helpers
    /\ forall i j a b, order !! i = Some a -> order !! j = Some b -> a ∉ (map chars ["b"; "d"]) -> b ∈ (map chars ["b"; "d"]) -> i < j.
Proof.
  apply (resubmission_tries_untried_first sample_helpers (map chars ["b"; "d"]) (repeat Byte.x11 24) sample_helpers_NoDup);
    vm_compute; discriminate.
Defined.
