(* ===== verification/LifecyclePlanning.v ===== *)
(** * Planning projections of the submission table

    Models [chain_submission/planning.rs]: the transaction hash the lifecycle reports
    for a planning target, by a query for one target ([lifecycle_transaction_hash])
    and from a snapshot of the whole round ([lifecycle_transaction_hashes] and its
    [hash] method).  A failing statement reports the environment's error and is left
    out; what remains is total.  The legacy hash columns are an interface. *)

From S2P Require Import Prelude Types Diagnostics SubmissionState Identity Coordination Generation.
From S2P Require Import Confirmation StoreRow StoreRowFacts Store StoreFacts StoreInvariant.

(** ** Targets *)

Inductive PlanningTarget : Type :=
| PlanDelegation
| PlanVote (proposal_id : N)
| PlanVoteBatch (ordered_batch_digest : bytes32).

Inductive LifecycleHashKey : Type :=
| KeyDelegation (bundle_index : N)
| KeyVote (bundle_index proposal_id : N)
| KeyVoteBatch (bundle_index : N) (ordered_batch_digest : bytes32).

#[export] Instance LifecycleHashKey_eq_dec : EqDecision LifecycleHashKey.
Proof. solve_decision. Defined.
#[export] Instance LifecycleHashKey_countable : Countable LifecycleHashKey.
Proof.
  refine (inj_countable
    (fun k => match k with
              | KeyDelegation b => inl b
              | KeyVote b p => inr (inl (b, p))
              | KeyVoteBatch b d => inr (inr (b, bytes32_bytes d))
              end)
    (fun c => match c with
              | inl b => Some (KeyDelegation b)
              | inr (inl (b, p)) => Some (KeyVote b p)
              | inr (inr (b, l)) => d ← try_into_bytes32 l; Some (KeyVoteBatch b d)
              end) _).
  intros [b|b p|b d]; cbn; [done|done|]. by rewrite (proj2 (try_into_bytes32_Some d d) eq_refl).
Defined.

(** [BTreeMap<LifecycleHashKey, BTreeSet<Vec<u8>>>]. *)
Abbreviation LifecycleTransactionHashes := (gmap LifecycleHashKey (gset bytes)).

Section planning.
Context `{HX : HexCrate}.

(** ** One target *)

(** [COALESCE(confirmed_transaction_hash, candidate_transaction_hash)]. *)
Definition row_hash (row : Row) : option bytes :=
  match row_confirmed_hash row with Some h => Some h | None => row_candidate row end.

(** The rows of one wallet and round. *)
Definition round_rows (t : SubmissionTable) (wallet round_id : string) : list Row :=
  filter (fun row => row_round_id row = round_id /\ row_wallet_id row = wallet) (map snd (map_to_list t)).

Definition kind_is (row : Row) (kinds : list string) : bool := existsb (String.eqb (row_kind row)) kinds.

(** The target's own part of the WHERE clause. *)
Definition matches_target (target : PlanningTarget) (row : Row) : bool :=
  match target with
  | PlanDelegation => kind_is row ["delegation"; "delegate_and_cast_vote_batch"]
  | PlanVote proposal_id => kind_is row ["vote"] && bool_decide (row_proposal_id row = Some (Z.of_N proposal_id))
  | PlanVoteBatch digest =>
      kind_is row ["vote_batch"; "delegate_and_cast_vote_batch"]
      && bool_decide (row_ordered_batch_digest row = Some (bytes32_bytes digest))
  end.

(** Distinct hashes, at most two of them. *)
Definition target_hashes (t : SubmissionTable) (wallet round_id : string) (b : N) (target : PlanningTarget) : list bytes :=
  take 2 (remove_dups (omap row_hash
    (filter (fun row => row_bundle_index row = Z.of_N b /\ matches_target target row = true) (round_rows t wallet round_id)))).

Definition lifecycle_transaction_hash (t : SubmissionTable) (wallet round_id : string) (b : N) (target : PlanningTarget) :
  option string :=
  match target_hashes t wallet round_id b target with
  | [hash] => Some (hex_encode hash)
  | _ => None
  end.

(** ** A round at once *)

(** An [i64] [as u32]. *)
Definition as_u32 (z : Z) : N := Z.to_N (z mod 4294967296).

Definition row_key (row : Row) : result VotingError LifecycleHashKey :=
  let b := as_u32 (row_bundle_index row) in
  if String.eqb (row_kind row) "delegation" then Ok (KeyDelegation b)
  else match String.eqb (row_kind row) "vote", row_proposal_id row with
       | true, Some proposal_id => Ok (KeyVote b (as_u32 proposal_id))
       | _, _ =>
           match kind_is row ["vote_batch"; "delegate_and_cast_vote_batch"], row_ordered_batch_digest row with
           | true, Some digest =>
               digest ← ok_or (try_into_bytes32 digest) (VeInternal (chars "stored ordered batch digest is not 32 bytes"));
               Ok (KeyVoteBatch b digest)
           | _, _ =>
               Err (VeInternal (chars "chain submission row has unexpected shape for kind " ++ chars (row_kind row)))
           end
       end.

(** [hashes.entry(key).or_default().insert(hash)]. *)
Definition add_hash (k : LifecycleHashKey) (hash : bytes) (hashes : LifecycleTransactionHashes) :
  LifecycleTransactionHashes :=
  <[k := {[hash]} ∪ default ∅ (hashes !! k)]> hashes.

Fixpoint collect_hashes (hashes : LifecycleTransactionHashes) (rows : list Row) :
  result VotingError LifecycleTransactionHashes :=
  match rows with
  | [] => Ok hashes
  | row :: rest =>
      match row_hash row with
      | None => collect_hashes hashes rest
      | Some hash =>
          key ← row_key row;
          let hashes := if String.eqb (row_kind row) "delegate_and_cast_vote_batch"
                        then add_hash (KeyDelegation (as_u32 (row_bundle_index row))) hash hashes else hashes in
          collect_hashes (add_hash key hash hashes) rest
      end
  end.

Definition lifecycle_transaction_hashes (t : SubmissionTable) (wallet round_id : string) :
  result VotingError LifecycleTransactionHashes :=
  collect_hashes ∅ (round_rows t wallet round_id).

Definition planning_key (b : N) (target : PlanningTarget) : LifecycleHashKey :=
  match target with
  | PlanDelegation => KeyDelegation b
  | PlanVote proposal_id => KeyVote b proposal_id
  | PlanVoteBatch digest => KeyVoteBatch b digest
  end.

(** [LifecycleTransactionHashes::hash]. *)
Definition snapshot_hash (hashes : LifecycleTransactionHashes) (b : N) (target : PlanningTarget) : option string :=
  found ← hashes !! planning_key b target;
  match elements found with
  | [hash] => Some (hex_encode hash)
  | _ => None
  end.

(** ** With the legacy columns *)

(** [VotingDb::get_delegation_tx_hash] and [get_vote_tx_hash]. *)
Class ProjectionColumns {GT : GenerationTables} : Type := {
  get_delegation_tx_hash : Tables -> string -> string -> N -> result VotingError (option string);
  get_vote_tx_hash : Tables -> string -> string -> N -> N -> result VotingError (option string)
}.
Context `{PC : ProjectionColumns}.

Definition delegation_transaction_hash (db : Database) (wallet round_id : string) (b : N) : result VotingError (option string) :=
  match lifecycle_transaction_hash (submissions db) wallet round_id b PlanDelegation with
  | Some hash => Ok (Some hash)
  | None => get_delegation_tx_hash (tables (domain db)) wallet round_id b
  end.

Definition vote_transaction_hash (db : Database) (wallet round_id : string) (b proposal_id : N) :
  result VotingError (option string) :=
  match lifecycle_transaction_hash (submissions db) wallet round_id b (PlanVote proposal_id) with
  | Some hash => Ok (Some hash)
  | None => get_vote_tx_hash (tables (domain db)) wallet round_id b proposal_id
  end.

Definition vote_batch_transaction_hash (db : Database) (wallet round_id : string) (b : N) (digest : bytes32)
  (anchor_proposal_id : N) : result VotingError (option string) :=
  match lifecycle_transaction_hash (submissions db) wallet round_id b (PlanVoteBatch digest) with
  | Some hash => Ok (Some hash)
  | None => vote_transaction_hash db wallet round_id b anchor_proposal_id
  end.
End planning.

(** ** Distinct hashes *)

Lemma take_two_singleton {A} (l : list A) x : NoDup l -> take 2 l = [x] <-> forall y, y ∈ l <-> y = x.
Proof.
  intros Hnd. split.
  - destruct l as [|a [|b l]]; [done| |done]. intros [= ->] y. by rewrite list_elem_of_singleton.
  - intros H. destruct l as [|a l].
    { pose proof (proj2 (H x) eq_refl) as Hx. by apply elem_of_nil in Hx. }
    assert (a = x) as -> by (apply H; by left). apply NoDup_cons in Hnd as [Hx _].
    destruct l as [|b l]; [done|]. destruct Hx. assert (b = x) as -> by (apply H; right; by left). by left.
Qed.

Lemma elements_singleton_iff (s : gset bytes) x : elements s = [x] <-> forall y, y ∈ s <-> y = x.
Proof.
  split.
  - intros H y. by rewrite <- elem_of_elements, H, list_elem_of_singleton.
  - intros H. assert (s = {[x]}) as -> by (apply set_eq; intros y; rewrite elem_of_singleton; apply H).
    apply elements_singleton.
Qed.

Section facts.
Context `{ST : StoreTables, B64 : Base64Crate, HX : HexCrate, SH : Sha256Crate, RQ : RusqliteCrate}.

(** A row the single-target query selects, with its hash. *)
Definition selects (rows : list Row) (b : N) (target : PlanningTarget) (h : bytes) : Prop :=
  exists row, row ∈ rows /\ row_bundle_index row = Z.of_N b /\ matches_target target row = true /\ row_hash row = Some h.

Lemma lifecycle_hash_iff t wallet round_id b target s :
  lifecycle_transaction_hash t wallet round_id b target = Some s <->
  exists h, s = hex_encode h /\ forall y, selects (round_rows t wallet round_id) b target y <-> y = h.
Proof.
  unfold lifecycle_transaction_hash.
  assert (forall h, target_hashes t wallet round_id b target = [h] <->
            forall y, selects (round_rows t wallet round_id) b target y <-> y = h) as Hiff.
  { intros h. unfold target_hashes. rewrite take_two_singleton by apply NoDup_remove_dups.
    assert (forall y, y ∈ remove_dups (omap row_hash (filter (fun row => row_bundle_index row = Z.of_N b
      /\ matches_target target row = true) (round_rows t wallet round_id))) <-> selects (round_rows t wallet round_id) b target y) as E.
    { intros y. rewrite elem_of_remove_dups, list_elem_of_omap. unfold selects. split.
      - intros (row & [[? ?] ?]%list_elem_of_filter & ?). by exists row.
      - intros (row & ? & ? & ? & ?). exists row. by rewrite list_elem_of_filter. }
    by setoid_rewrite E. }
  split.
  - intros H. destruct (target_hashes t wallet round_id b target) as [|h [|]] eqn:E; try done. injection H as <-.
    exists h. split; [done|]. by apply Hiff.
  - intros (h & -> & Hh). by rewrite (proj2 (Hiff h) Hh).
Qed.

(** ** The snapshot *)

(** The keys under which a row files its hash. *)
Definition contributes (k : LifecycleHashKey) (row : Row) : Prop :=
  row_key row = Ok k
  \/ row_kind row = "delegate_and_cast_vote_batch" /\ k = KeyDelegation (as_u32 (row_bundle_index row)).

Definition filed_hashes (hashes : LifecycleTransactionHashes) (k : LifecycleHashKey) : gset bytes := default ∅ (hashes !! k).

Lemma filed_add k k' h h' hashes :
  h' ∈ filed_hashes (add_hash k h hashes) k' <-> h' ∈ filed_hashes hashes k' \/ (k' = k /\ h' = h).
Proof.
  unfold filed_hashes, add_hash. destruct (decide (k' = k)) as [->|].
  - rewrite lookup_insert_eq. cbn. set_solver.
  - rewrite lookup_insert_ne by done. set_solver.
Qed.

Lemma collect_hashes_filed rows hashes :
  Forall (fun row => is_ok (row_key row) = true) rows ->
  exists hashes', collect_hashes hashes rows = Ok hashes'
    /\ forall k h, h ∈ filed_hashes hashes' k <->
         h ∈ filed_hashes hashes k \/ exists row, row ∈ rows /\ contributes k row /\ row_hash row = Some h.
Proof.
  intros Hall. revert hashes. induction Hall as [|row rows Hrow _ IH]; intros hashes; cbn [collect_hashes].
  { exists hashes. split; [done|]. intros k h. setoid_rewrite elem_of_nil. naive_solver. }
  setoid_rewrite elem_of_cons. destruct (row_hash row) as [hash|] eqn:Hh.
  2: { destruct (IH hashes) as (hashes' & Hc & Hf). exists hashes'. split; [done|]. intros k h. rewrite Hf.
       split; [naive_solver|]. intros [?|(r & [->|?] & ? & ?)]; [naive_solver|congruence|naive_solver]. }
  destruct (row_key row) as [key|] eqn:Hkey; [|done]. cbn [mbind result_bind].
  set (hashes1 := if String.eqb _ _ then _ else _).
  destruct (IH (add_hash key hash hashes1)) as (hashes' & Hc & Hf). exists hashes'. split; [done|]. intros k h.
  assert (h ∈ filed_hashes hashes1 k <-> h ∈ filed_hashes hashes k
    \/ (row_kind row = "delegate_and_cast_vote_batch" /\ k = KeyDelegation (as_u32 (row_bundle_index row)) /\ h = hash)) as H1.
  { unfold hashes1. destruct (String.eqb_spec (row_kind row) "delegate_and_cast_vote_batch"); [rewrite filed_add|]; naive_solver. }
  rewrite Hf, filed_add, H1. unfold contributes. split.
  - intros [[[?|(? & ? & ->)]|[-> ->]]|(r & ? & ?)]; [by left|right; exists row; auto..|right; exists r; auto].
  - intros [?|(r & [->|?] & Hk & Hr)]; [auto| |right; exists r; auto]. rewrite Hkey in Hk. rewrite Hh in Hr.
    injection Hr as <-. destruct Hk as [[= <-]|[? ?]]; [left; by right|left; left; by right].
Qed.

Lemma as_u32_of_N n : (n <= u32_max)%N -> as_u32 (Z.of_N n) = n.
Proof. intros H. unfold as_u32, u32_max in *. rewrite Z.mod_small by lia. apply N2Z.id. Qed.

(** No key of the row is the target's, and its columns do not match. *)
Ltac unmatched := split; [intros [[=]|[? [=]]]; done | by intros [? ?]].

(** A typed row files its hash exactly under the targets its columns match. *)
Lemma contributes_iff i row b target :
  row_identity i row -> identity_valid i ->
  is_ok (row_key row) = true
  /\ (contributes (planning_key b target) row <-> row_bundle_index row = Z.of_N b /\ matches_target target row = true).
Proof.
  intros (_ & _ & _ & Hb & Hcols) [(_ & Hbu & Htr) Hp]. unfold contributes, row_key, matches_target, kind_is, planning_key.
  rewrite Hb, as_u32_of_N by done.
  destruct (Identity.target i) as [|p|d|d]; cbn in Hcols; injection Hcols as -> -> ->; cbn [existsb String.eqb Ascii.eqb Bool.eqb].
  - cbn. split; [done|]. destruct target; cbn; [|unmatched..].
    split; [intros [[= ->]|[? ?]]; done|]. intros [? _]. left. do 2 f_equal. lia.
  - cbn. assert (p <= u32_max)%N by (unfold MAX_PROPOSAL_ID, u32_max in *; lia). rewrite as_u32_of_N by done.
    split; [done|]. destruct target as [|q|d]; cbn; try unmatched.
    rewrite bool_decide_eq_true. split; [intros [[= -> ->]|[? ?]]; done|]. intros [? [= ?]]. left. repeat f_equal; lia.
  - cbn. rewrite (proj2 (try_into_bytes32_Some d d) eq_refl). cbn. split; [done|]. destruct target as [|q|d']; cbn; try unmatched.
    rewrite bool_decide_eq_true. split; [intros [[= -> ->]|[? ?]]; done|]. intros [? [= ?%bytes32_eq]]. left. repeat f_equal; [lia|done].
  - cbn. rewrite (proj2 (try_into_bytes32_Some d d) eq_refl). cbn. split; [done|]. destruct target as [|q|d']; cbn.
    + split; [intros [?|[_ [= ->]]]; done|]. intros [? _]. right. split; [done|]. f_equal. lia.
    + unmatched.
    + rewrite bool_decide_eq_true. split; [intros [[= -> ->]|[_ ?]]; done|]. intros [? [= ?%bytes32_eq]]. left. repeat f_equal; [lia|done].
Qed.

(** ** Records *)

(** The hash a record knows: of its confirmation, or of its transaction in flight. *)
Definition record_hash (r : StoredChainSubmission) : option CandidateTransactionHash :=
  match stored_state r with
  | Tracking h => Some h
  | Recovering h _ => h
  | Confirmed v => confirmation_transaction_hash (confirmation_payload v)
  | Submitting | SubmittedWithoutHash _ | Rejected _ => None
  end.

Lemma represents_hash i row r : represents i row r -> row_hash row = bytes32_bytes <$> record_hash r.
Proof.
  intros Hrep. unfold row_hash. rewrite (rep_candidate _ _ _ Hrep), (rep_confirmed _ _ _ Hrep).
  unfold candidate_column, confirmed_column, mutable_columns, record_hash.
  destruct (stored_state r) as [| | | |v|]; cbn; try done. by destruct (confirmation_transaction_hash _).
Qed.

(** The submissions a planning target asks about. *)
Definition plans_for (target : PlanningTarget) (t : ChainSubmissionTarget) : Prop :=
  match target, t with
  | PlanDelegation, (TargetDelegation | TargetDelegateAndVoteBatch _) => True
  | PlanVote p, TargetVote q => p = q
  | PlanVoteBatch d, (TargetVoteBatch e | TargetDelegateAndVoteBatch e) => d = e
  | _, _ => False
  end.

Lemma matches_target_iff i row target :
  row_identity i row -> matches_target target row = true <-> plans_for target (Identity.target i).
Proof.
  intros (_ & _ & _ & _ & Hcols). unfold matches_target, kind_is, plans_for.
  destruct (Identity.target i) as [|p|d|d]; cbn in Hcols; injection Hcols as -> -> ->; destruct target as [|q|d']; cbn; try done.
  - rewrite bool_decide_eq_true. split; [intros [= ?]; lia|by intros ->].
  - rewrite bool_decide_eq_true. split; [intros [= ?%bytes32_eq]; done|by intros ->].
  - rewrite bool_decide_eq_true. split; [intros [= ?%bytes32_eq]; done|by intros ->].
Qed.

(** A submission on record for the target knows the hash. *)
Definition knows_hash (db : Database) (wallet : string) (round : bytes32) (b : N) (target : PlanningTarget)
  (h : CandidateTransactionHash) : Prop :=
  exists i r, identity_valid i /\ load_submission db i = Ok (Some r)
    /\ wallet_id i = wallet /\ vote_round_id i = round /\ bundle_index i = b /\ plans_for target (Identity.target i)
    /\ record_hash r = Some h.

Lemma elem_of_round_rows t wallet round_id row :
  row ∈ round_rows t wallet round_id <->
  (row_round_id row = round_id /\ row_wallet_id row = wallet) /\ exists k, t !! k = Some row.
Proof.
  unfold round_rows. rewrite list_elem_of_filter. f_equiv. rewrite list_elem_of_fmap. split.
  - intros ([k row'] & -> & Hin). exists k. by apply elem_of_map_to_list.
  - intros [k Hk]. exists (k, row). split; [done|]. by apply elem_of_map_to_list.
Qed.

Lemma selects_iff db wallet (round : bytes32) b target y :
  table_ok (submissions db) ->
  selects (round_rows (submissions db) wallet (hex_encode (bytes32_bytes round))) b target y <->
  exists h, y = bytes32_bytes h /\ knows_hash db wallet round b target h.
Proof.
  intros Hok. unfold selects, knows_hash. setoid_rewrite elem_of_round_rows. split.
  - intros (row & ((Hr & Hw) & k & Hk) & Hb & Hm & Hh).
    destruct (table_typed _ Hok _ _ Hk) as (i & r & -> & Hi & Hrep). pose proof (rep_identity _ _ _ Hrep) as Hri.
    rewrite (represents_hash _ _ _ Hrep) in Hh. destruct (record_hash r) as [h|] eqn:Hrh; [|done]. injection Hh as <-.
    exists h. split; [done|]. exists i, r. rewrite <- (matches_target_iff _ _ _ Hri).
    destruct Hri as (Er & Ew & _ & Eb & _). split; [done|]. split; [by eapply load_submission_total|].
    split; [congruence|]. split; [apply bytes32_eq, hex_encode_injective; unfold round_hex in Er; congruence|].
    split; [lia|]. done.
  - intros (h & -> & i & r & Hi & Hload & <- & <- & <- & Hp & Hh).
    destruct (load_submission_Ok _ _ _ Hok Hi Hload) as (row & Hrow & Hrep). pose proof (rep_identity _ _ _ Hrep) as Hri.
    exists row. rewrite (matches_target_iff _ _ _ Hri), (represents_hash _ _ _ Hrep), Hh.
    destruct Hri as (Er & Ew & _ & Eb & _). split; [|done]. split; [done|]. by exists (submission_identity_key i).
Qed.

Lemma snapshot_hash_iff hashes b target s :
  snapshot_hash hashes b target = Some s <->
  exists h, s = hex_encode h /\ forall y, y ∈ filed_hashes hashes (planning_key b target) <-> y = h.
Proof.
  unfold snapshot_hash, filed_hashes. destruct (hashes !! planning_key b target) as [found|]; cbn.
  2: { split; [done|]. intros (h & _ & H). exfalso. by apply (not_elem_of_empty (C := gset bytes) h), H. }
  split.
  - intros H. destruct (elements found) as [|h [|]] eqn:E; try done. injection H as <-. exists h. split; [done|].
    by apply elements_singleton_iff.
  - intros (h & -> & H). by rewrite (proj2 (elements_singleton_iff found h) H).
Qed.

(** ** Properties *)

(** C14. In every database the store's operations lead to, the planners' answers are
    the lifecycle's: a target's reported hash is the one hash known to the submissions
    on record for it, in flight or confirmed, on whatever network, and nothing is
    reported when they know none or several.  The round snapshot is always readable
    and gives the same answer for every target as the query for that target alone. *)
Theorem planning_hashes_refine_records dom db wallet (round : bytes32) :
  rtc store_step (empty_database dom) db ->
  (forall b target s,
     lifecycle_transaction_hash (submissions db) wallet (hex_encode (bytes32_bytes round)) b target = Some s <->
     exists h, s = hex_encode (bytes32_bytes h) /\ knows_hash db wallet round b target h
       /\ forall h', knows_hash db wallet round b target h' -> h' = h)
  /\ exists hashes, lifecycle_transaction_hashes (submissions db) wallet (hex_encode (bytes32_bytes round)) = Ok hashes
     /\ forall b target, snapshot_hash hashes b target
          = lifecycle_transaction_hash (submissions db) wallet (hex_encode (bytes32_bytes round)) b target.
Proof.
  intros Hhist. assert (table_ok (submissions db)) as Hok.
  { eapply store_history_ok; [|exact Hhist]. apply table_ok_empty. }
  split.
  - intros b target s. rewrite lifecycle_hash_iff. setoid_rewrite (selects_iff db wallet round b target); [|done]. split.
    + intros (y & -> & H). destruct (proj2 (H y) eq_refl) as (h & -> & Hh). exists h. split; [done|]. split; [done|].
      intros h' Hh'. apply bytes32_eq, H. eauto.
    + intros (h & -> & Hh & Huniq). exists (bytes32_bytes h). split; [done|]. intros y. split; [|intros ->; eauto].
      intros (h' & -> & Hh'). by rewrite (Huniq h' Hh').
  - assert (forall row, row ∈ round_rows (submissions db) wallet (hex_encode (bytes32_bytes round)) ->
      exists i, row_identity i row /\ identity_valid i) as Htyped.
    { intros row (_ & k & Hk)%elem_of_round_rows. destruct (table_typed _ Hok _ _ Hk) as (i & r & _ & Hi & Hrep).
      exists i. split; [apply Hrep|done]. }
    destruct (collect_hashes_filed (round_rows (submissions db) wallet (hex_encode (bytes32_bytes round))) ∅)
      as (hashes & Hc & Hf).
    { apply Forall_forall. intros row Hrow. destruct (Htyped row Hrow) as (i & Hri & Hi).
      by destruct (contributes_iff i row 0 PlanDelegation Hri Hi). }
    exists hashes. split; [done|]. intros b target. apply option_eq. intros s. rewrite snapshot_hash_iff, lifecycle_hash_iff.
    assert (forall y, y ∈ filed_hashes hashes (planning_key b target) <->
      selects (round_rows (submissions db) wallet (hex_encode (bytes32_bytes round))) b target y) as E; [|by setoid_rewrite E].
    intros y. rewrite Hf. unfold filed_hashes at 1. rewrite lookup_empty. cbn. unfold selects. split.
    + intros [[]%not_elem_of_empty|(row & Hrow & Hk & Hh)]. destruct (Htyped row Hrow) as (i & Hri & Hi).
      apply (proj2 (contributes_iff i row b target Hri Hi)) in Hk as [? ?]. by exists row.
    + intros (row & Hrow & Hb & Hm & Hh). right. exists row. destruct (Htyped row Hrow) as (i & Hri & Hi).
      by rewrite (proj2 (contributes_iff i row b target Hri Hi)).
Qed.
End facts.

(** ** Witnesses *)

#[local] Existing Instances sample_hex sample_sha256 sample_tables sample_base64 sample_confirmation_tables sample_store_tables sample_rusqlite.

(** The sample batch, in flight under a candidate hash. *)
Definition sample_tracked : Database :=
  (classify_post undisturbed sample_generation (ObsUsableCandidateHash sample_hash) 200 sample_admitted).1.

Lemma sample_tracked_history : rtc store_step sample_empty sample_tracked.
Proof.
  eapply rtc_r; [apply sample_admitted_history|].
  apply step_operation, step_classify; [rewrite sample_generation_identity; apply sample_identity_valid|exact I].
Qed.

Lemma planning_hashes_refine_records_witness :
  lifecycle_transaction_hash (submissions sample_tracked) (wallet_id sample_batch_identity)
    (hex_encode (bytes32_bytes (vote_round_id sample_batch_identity))) (bundle_index sample_batch_identity)
    (PlanVoteBatch sample_batch_digest) = Some (hex_encode (bytes32_bytes sample_hash))
  /\ exists hashes, lifecycle_transaction_hashes (submissions sample_tracked) (wallet_id sample_batch_identity)
       (hex_encode (bytes32_bytes (vote_round_id sample_batch_identity))) = Ok hashes
     /\ forall b target, snapshot_hash hashes b target
          = lifecycle_transaction_hash (submissions sample_tracked) (wallet_id sample_batch_identity)
              (hex_encode (bytes32_bytes (vote_round_id sample_batch_identity))) b target.
Proof.
  split; [vm_compute; reflexivity|].
  apply (planning_hashes_refine_records {| tables := sample_store; ledger := ∅ |} sample_tracked). apply sample_tracked_history.
Defined.
