(* ===== verification/Ballot.v ===== *)
(** * Ballot intents

    Models the ballot vocabulary of [session.rs] and the validation it calls in
    [types.rs]: a voter's decision on a proposal, the limits on proposals and options,
    and the classification of recorded intents against an authenticated roster. *)

From S2P Require Import Prelude Sorting Types Identity.

Inductive Decision : Type := Choice (option_index : N) | Skipped.

#[export] Instance Decision_eq_dec : EqDecision Decision.
Proof. solve_decision. Defined.

Definition validate_proposal_id (proposal_id : N) : result VotingError unit :=
  fail_if (negb (bool_decide (MIN_PROPOSAL_ID <= proposal_id <= MAX_PROPOSAL_ID)%N))
    (VeInvalidInput (chars "proposal_id must be " ++ decimal MIN_PROPOSAL_ID ++ chars "..=" ++ decimal MAX_PROPOSAL_ID
       ++ chars ", got " ++ decimal proposal_id)).

Abbreviation MIN_VOTE_OPTIONS := 2%N (only parsing).
Abbreviation MAX_VOTE_OPTIONS := 8%N (only parsing).

Definition validate_vote_options (num_options : N) : result VotingError unit :=
  fail_if (negb (bool_decide (MIN_VOTE_OPTIONS <= num_options <= MAX_VOTE_OPTIONS)%N))
    (VeInvalidInput (chars "num_options must be " ++ decimal MIN_VOTE_OPTIONS ++ chars "..=" ++ decimal MAX_VOTE_OPTIONS
       ++ chars ", got " ++ decimal num_options)).

Definition validate_vote_decision (decision num_options : N) : result VotingError unit :=
  _ ← validate_vote_options num_options;
  fail_if (bool_decide (num_options <= decision)%N)
    (VeInvalidInput (chars "vote_decision must be in [0, " ++ decimal num_options ++ chars "), got " ++ decimal decision)).

(** ** Classification *)

Record BallotIntentClassification : Type := {
  roster : list N;
  choice_proposals : list N;
  open_proposals : list N;
  unrostered_intents : list N
}.

Fixpoint check_roster (seen proposal_ids : list N) : result VotingError unit :=
  match proposal_ids with
  | [] => Ok tt
  | p :: rest =>
      _ ← validate_proposal_id p;
      _ ← fail_if (bool_decide (p ∈ seen)) (VeInvalidInput (chars "proposal roster contains duplicate id " ++ decimal p));
      check_roster (p :: seen) rest
  end.

Definition is_choice (d : option Decision) : bool := match d with Some (Choice _) => true | _ => false end.

(** The roster in ascending order, as the code's ordered set iterates. *)
Definition classify_ballot_intents (proposal_ids : list N) (intents : gmap N Decision) :
  result VotingError BallotIntentClassification :=
  _ ← check_roster [] proposal_ids;
  let roster := sort_by N.leb proposal_ids in
  Ok {| roster := roster;
        choice_proposals := filter (fun p => is_choice (intents !! p) = true) roster;
        open_proposals := filter (fun p => intents !! p = None) roster;
        unrostered_intents := sort_by N.leb (filter (fun p => p ∉ roster) (elements (dom intents : gset N))) |}.
