(* ===== verification/Phases.v ===== *)
(** * Phases of a round's artifacts

    Models the phase vocabulary of [phases.rs] and [round_planning/lifecycle.rs]: the
    phase of a delegation, a vote and a helper share, how the stored columns and the
    authoritative submission state determine it, the merged view for wallets, and the
    position of a vote in the chain lifecycle, on which every planning decision rests.
    Constructors carry the name of their enum. *)

From S2P Require Import Prelude Types Diagnostics Ballot.

(** ** Phases *)

Inductive DelegationPhase : Type :=
| DelegationPrepared
| DelegationPcztBuilt
| DelegationProved
| DelegationSubmitted
| DelegationSubmissionManaged
| DelegationSubmittedWithoutHash
| DelegationSubmissionRejected
| DelegationConfirmed.

Inductive VotePhase : Type :=
| VotePrepared
| VoteCommitted
| VoteSubmitted
| VoteSubmissionManaged
| VoteSubmittedWithoutHash
| VoteSubmissionRejected
| VoteConfirmed.

Inductive SharePhase : Type := ShareSubmitted | ShareConfirmed.

Inductive WorkflowPhase : Type :=
| WorkflowPrepared
| WorkflowSigned
| WorkflowSubmittedDelegation
| WorkflowSubmittedVote
| WorkflowSubmittedShare
| WorkflowSubmissionManaged
| WorkflowSubmissionRejected
| WorkflowConfirmed.

#[export] Instance DelegationPhase_eq_dec : EqDecision DelegationPhase.
Proof. solve_decision. Defined.
#[export] Instance VotePhase_eq_dec : EqDecision VotePhase.
Proof. solve_decision. Defined.
#[export] Instance SharePhase_eq_dec : EqDecision SharePhase.
Proof. solve_decision. Defined.

Definition vote_phase_name (phase : VotePhase) : string :=
  match phase with
  | VotePrepared => "prepared"
  | VoteCommitted => "committed"
  | VoteSubmitted => "submitted"
  | VoteSubmissionManaged => "submission_managed"
  | VoteSubmittedWithoutHash => "submitted_without_hash"
  | VoteSubmissionRejected => "submission_rejected"
  | VoteConfirmed => "confirmed"
  end.

Definition has_persisted_proof (phase : DelegationPhase) : bool :=
  match phase with
  | DelegationProved | DelegationSubmitted | DelegationSubmissionManaged
  | DelegationSubmittedWithoutHash | DelegationSubmissionRejected | DelegationConfirmed => true
  | DelegationPrepared | DelegationPcztBuilt => false
  end.

Definition for_delegation (phase : DelegationPhase) : WorkflowPhase :=
  match phase with
  | DelegationPrepared => WorkflowPrepared
  | DelegationPcztBuilt | DelegationProved => WorkflowSigned
  | DelegationSubmitted => WorkflowSubmittedDelegation
  | DelegationSubmissionManaged => WorkflowSubmissionManaged
  | DelegationSubmittedWithoutHash => WorkflowSubmittedDelegation
  | DelegationSubmissionRejected => WorkflowSubmissionRejected
  | DelegationConfirmed => WorkflowConfirmed
  end.

Definition for_vote (phase : VotePhase) : WorkflowPhase :=
  match phase with
  | VotePrepared => WorkflowPrepared
  | VoteCommitted => WorkflowSigned
  | VoteSubmitted => WorkflowSubmittedVote
  | VoteSubmissionManaged => WorkflowSubmissionManaged
  | VoteSubmittedWithoutHash => WorkflowSubmittedVote
  | VoteSubmissionRejected => WorkflowSubmissionRejected
  | VoteConfirmed => WorkflowConfirmed
  end.

Definition for_share (phase : SharePhase) : WorkflowPhase :=
  match phase with ShareSubmitted => WorkflowSubmittedShare | ShareConfirmed => WorkflowConfirmed end.

(** ** Phases from stored columns *)

(** [phase_from_columns]; the state column of the submission row wins. *)
Definition phase_from_columns (has_pczt has_proof has_tx_hash has_van_position : bool)
  (authoritative_state : option string) : DelegationPhase :=
  let from_columns :=
    if has_van_position then DelegationConfirmed
    else if has_tx_hash then DelegationSubmitted
    else if has_proof then DelegationProved
    else if has_pczt then DelegationPcztBuilt
    else DelegationPrepared in
  match authoritative_state with
  | Some state =>
      if String.eqb state "submitting" || String.eqb state "tracking" || String.eqb state "recovering"
      then DelegationSubmissionManaged
      else if String.eqb state "submitted_without_hash" then DelegationSubmittedWithoutHash
      else if String.eqb state "rejected" then DelegationSubmissionRejected
      else if String.eqb state "confirmed" then DelegationConfirmed
      else from_columns
  | None => from_columns
  end.

Definition vote_phase_from_columns (has_tx_hash has_vc_position has_recovery_bundle : bool) : VotePhase :=
  if has_tx_hash && has_vc_position && has_recovery_bundle then VoteConfirmed
  else if has_tx_hash then VoteSubmitted
  else if has_recovery_bundle then VoteCommitted
  else VotePrepared.

Definition authoritative_submission_phase (state : option string) : option VotePhase :=
  match state with
  | Some state =>
      if String.eqb state "submitting" || String.eqb state "tracking" || String.eqb state "recovering"
      then Some VoteSubmissionManaged
      else if String.eqb state "submitted_without_hash" then Some VoteSubmittedWithoutHash
      else if String.eqb state "rejected" then Some VoteSubmissionRejected
      else if String.eqb state "confirmed" then Some VoteConfirmed
      else None
  | None => None
  end.

(** ** Positions in the chain lifecycle *)

Inductive LifecyclePosition : Type := Uncast | Undispatched | OnWire | Terminal | AtConfirmed.

#[export] Instance LifecyclePosition_eq_dec : EqDecision LifecyclePosition.
Proof. solve_decision. Defined.

(** [LifecyclePosition::of]. *)
Definition position_of (phase : option VotePhase) : LifecyclePosition :=
  match phase with
  | None | Some VotePrepared => Uncast
  | Some VoteCommitted => Undispatched
  | Some (VoteSubmitted | VoteSubmissionManaged) => OnWire
  | Some (VoteSubmittedWithoutHash | VoteSubmissionRejected) => Terminal
  | Some VoteConfirmed => AtConfirmed
  end.

Definition is_lifecycle_owned (position : LifecyclePosition) : bool :=
  match position with
  | Uncast | Undispatched => false
  | OnWire | Terminal | AtConfirmed => true
  end.

Definition vote_phase_is_lifecycle_owned (phase : VotePhase) : bool := is_lifecycle_owned (position_of (Some phase)).

Definition vote_phase_holds_bundle (phase : VotePhase) : bool :=
  match phase with
  | VoteCommitted | VoteSubmitted | VoteSubmissionManaged | VoteSubmittedWithoutHash => true
  | VotePrepared | VoteSubmissionRejected | VoteConfirmed => false
  end.

Definition delegation_phase_holds_bundle (phase : DelegationPhase) : bool :=
  match phase with
  | DelegationSubmissionManaged | DelegationSubmittedWithoutHash | DelegationSubmissionRejected => true
  | DelegationPrepared | DelegationPcztBuilt | DelegationProved | DelegationSubmitted | DelegationConfirmed => false
  end.

Abbreviation MAX_CONSECUTIVE_COMBINED_REJECTIONS := 2%N (only parsing).

Definition combined_rejections_block_bundle (streak : N) : bool :=
  bool_decide (MAX_CONSECUTIVE_COMBINED_REJECTIONS <= streak)%N.

Definition is_terminal_delegation_phase (phase : DelegationPhase) : bool :=
  match phase with
  | DelegationSubmittedWithoutHash | DelegationSubmissionRejected => true
  | DelegationPrepared | DelegationPcztBuilt | DelegationProved | DelegationSubmitted
  | DelegationSubmissionManaged | DelegationConfirmed => false
  end.

(** ** Relations to the roster and the ballot *)

Inductive RosterRelation : Type := Rostered | LeftRoster.

#[export] Instance RosterRelation_eq_dec : EqDecision RosterRelation.
Proof. solve_decision. Defined.

Definition roster_relation (proposal_ids roster : list N) : RosterRelation :=
  if forallb (fun p => bool_decide (p ∈ roster)) proposal_ids then Rostered else LeftRoster.

Inductive BallotRelation : Type := Agrees | Unrecorded | Conflicts.

#[export] Instance BallotRelation_eq_dec : EqDecision BallotRelation.
Proof. solve_decision. Defined.

Definition ballot_relation (intents : gmap N Decision) (proposal_id stored_choice : N) : BallotRelation :=
  match intents !! proposal_id with
  | None => Unrecorded
  | Some (Choice choice) => if bool_decide (choice = stored_choice) then Agrees else Conflicts
  | Some Skipped => Conflicts
  end.
