(* ===== verification/ShareDelivery.v ===== *)
(** * Durable delivery plans of helper shares

    Models [share_tracking/delivery_plan.rs] and [share_tracking/immediate_designation.rs],
    with the readiness snapshot of
    [helper/client.rs] and the triggers and cascades of the two tables in
    [storage/migrations/001_init.sql].  The state is the slice of the database that
    belongs to one round and wallet.  A preparation is one transaction: an error leaves
    the state as it was.  Failing SQL statements are left out.  The [url] crate
    and JSON are interfaces. *)

From S2P Require Import Prelude Sorting Types Identity Confirmation Protocol ShareTiming SharePlacement Phases Ballot.

(** ** Interfaces *)

(** Texts in the errors of the [url] crate, and Rust's [{:?}] of a string. *)
Class UrlTexts : Type := {
  parse_error_text : text -> text;
  host_error_text : text -> text;
  debug_text : text -> text
}.

(** [serde_json] on the two stored columns: decoding inverts encoding.  An error is
    its text. *)
Class PlanJson : Type := {
  urls_to_json : list url -> text;
  urls_from_json : text -> result text (list url);
  urls_round_trip : forall l, urls_from_json (urls_to_json l) = Ok l;
  plans_to_json : list ShareSubmissionPlan -> text;
  plans_from_json : text -> result text (list ShareSubmissionPlan);
  plans_round_trip : forall l, plans_from_json (plans_to_json l) = Ok l;
  (** SQLite's [json_set(json, '$.vc_tree_position', position)]. *)
  json_set_position : text -> Z -> text
}.

(** ** Data *)

Inductive SharePlacementGuarantee : Type := Strict | LegacyBestEffort.

Record ShareDeliveryPlan : Type := {
  configured_server_urls : list url;
  share_plans : list ShareSubmissionPlan;
  placement_guarantee : SharePlacementGuarantee
}.

Record HelperFleetPreflight : Type := {
  fleet_configured : list url;
  fleet_ranked : list url;
  fleet_ready_count : nat
}.

(** A row of [votes] and of [helper_share_plans]. *)
Record VoteRow : Type := {
  vote_choice : N;
  vote_vc_position : option Z;
  vote_commitment_json : option text
}.

Record PlanRow : Type := {
  plan_generation : text;
  plan_fleet_json : text;
  plan_plans_json : text;
  plan_format_version : N;
  plan_guarantee : string
}.

(** Rows are keyed by bundle index and proposal. *)
Record RoundShares : Type := {
  round_votes : gmap (N * N) VoteRow;
  round_plans : gmap (N * N) PlanRow;
  round_immediate : option ImmediateShareKey
}.

(** What planning reads of the other tables: the recorded intents, the phase of each
    vote, the bundles, and the votes with delivery rows of older versions. *)
Record PlanningInputs : Type := {
  ballot_intents : gmap N Decision;
  vote_statuses : list (N * N * VotePhase);
  phases_for_proposal : N -> list VotePhase;
  bundle_indexes : list N;
  legacy_rows : gset (N * N)
}.

Record PlanningParams : Type := {
  params_fleet : HelperFleetPreflight;
  params_now : N;
  params_vote_end : N;
  params_buffer : option N;
  params_proposal_ids : list N
}.

#[export] Instance ImmediateShareKey_eq_dec : EqDecision ImmediateShareKey.
Proof. solve_decision. Defined.

Abbreviation PLAN_FORMAT_VERSION := 1%N (only parsing).

Definition guarantee_name (g : SharePlacementGuarantee) : string :=
  match g with Strict => "strict" | LegacyBestEffort => "legacy_best_effort" end.

(** [format!("{:?}")] of a list of integers. *)
Fixpoint debug_items (l : list N) : text :=
  match l with [] => [] | [n] => decimal n | n :: rest => decimal n ++ chars ", " ++ debug_items rest end.
Definition debug_list (l : list N) : text := chars "[" ++ debug_items l ++ chars "]".

Section delivery.
Context `{UC : UrlCrate, UT : UrlTexts, PJ : PlanJson}.

(** ** Helper lists *)

(** The refusals that need the parsed URL only. *)
Definition check_helper_url (parsed : Url) (trimmed : text) : result VotingError unit :=
  _ ← fail_if (negb (String.eqb (url_scheme parsed) "http" || String.eqb (url_scheme parsed) "https"))
        (VeInvalidInput (chars "helper server url must be http or https, got " ++ trimmed));
  _ ← fail_if (negb (bool_decide (url_username parsed = [])) || bool_decide (is_Some (url_password parsed)))
        (VeInvalidInput (chars "helper server url must not contain credentials"));
  fail_if (bool_decide (is_Some (url_query parsed)) || bool_decide (is_Some (url_fragment parsed)))
    (VeInvalidInput (chars "helper server url must not contain a query or fragment")).

(** A domain without its trailing dot, and no default port. *)
Definition normalize_helper_host (parsed : Url) (trimmed : text) : result VotingError Url :=
  parsed ← match domain ← url_domain parsed; strip_suffix 46 domain with
           | Some domain => ok_or (url_set_host parsed domain)
               (VeInvalidInput (chars "invalid helper server host in " ++ trimmed ++ chars ": " ++ host_error_text domain))
           | None => Ok parsed
           end;
  if bool_decide (url_port parsed = default_port (url_scheme parsed))
  then ok_or (url_clear_port parsed) (VeInvalidInput (chars "invalid helper server port in " ++ trimmed))
  else Ok parsed.

Definition canonicalize_helper_base_url (value : url) : result VotingError url :=
  let trimmed := trim value in
  parsed ← ok_or (url_parse trimmed)
             (VeInvalidInput (chars "invalid helper server url " ++ debug_text trimmed ++ chars ": " ++ parse_error_text trimmed));
  _ ← check_helper_url parsed trimmed;
  parsed ← normalize_helper_host parsed trimmed;
  path ← ok_or (normalize_percent_escapes (url_path parsed))
           (VeInvalidInput (chars "invalid percent escape in helper server path " ++ debug_text trimmed));
  Ok (trim_end_matches 47 (url_as_str (url_set_path parsed path))).

Fixpoint canonical_urls (canonical : list url) (urls : list url) : result VotingError (list url) :=
  match urls with
  | [] => Ok canonical
  | u :: rest =>
      u ← canonicalize_helper_base_url u;
      canonical_urls (if bool_decide (u ∈ canonical) then canonical else canonical ++ [u]) rest
  end.

Definition canonical_helper_url_list (urls : list url) : result VotingError (list url) := canonical_urls [] urls.

Definition from_readiness (configured_urls ready_urls : list url) : result VotingError HelperFleetPreflight :=
  _ ← fail_if (bool_decide (configured_urls = [])) (VeInvalidInput (chars "configured helper fleet must not be empty"));
  configured ← canonical_helper_url_list configured_urls;
  _ ← fail_if (negb (bool_decide (length configured = length configured_urls)))
        (VeInvalidInput (chars "configured helper fleet contains duplicate canonical identities"));
  ready ← canonical_helper_url_list ready_urls;
  _ ← fail_if (negb (bool_decide (length ready = length ready_urls)))
        (VeInvalidInput (chars "ready helper fleet contains duplicate canonical identities"));
  _ ← match List.find (fun u => negb (bool_decide (u ∈ configured))) ready with
      | Some u => Err (VeInvalidInput (chars "ready helper is not in configured fleet: " ++ u))
      | None => Ok tt
      end;
  Ok {| fleet_configured := configured; fleet_ranked := ready ++ filter (fun u => u ∉ ready) configured;
        fleet_ready_count := length ready |}.

Definition validate_current_helper_fleet (urls : list url) : result VotingError unit :=
  configured ← canonical_helper_url_list urls;
  fail_if (bool_decide (configured = []) || negb (bool_decide (length configured = length urls)))
    (VeInvalidInput (chars "configured helper fleet must be nonempty and canonically distinct")).

(** ** Validation *)

(** The loop over the share plans; [assignments] counts the shares of a helper. *)
Fixpoint validate_share_plans (fleet : list url) (expected_target index : nat) (assignments : usage)
  (plans : list ShareSubmissionPlan) : result VotingError usage :=
  match plans with
  | [] => Ok assignments
  | plan :: rest =>
      targets ← canonical_helper_url_list (target_servers plan);
      _ ← fail_if (negb (bool_decide (length targets = length (target_servers plan)))
                   || negb (bool_decide (length targets = plan_target_count plan))
                   || negb (bool_decide (plan_target_count plan = expected_target)))
            (VeInvalidInput (chars "helper-share plan " ++ decimal_nat index ++ chars " has an invalid target set"));
      _ ← match List.find (fun u => negb (bool_decide (u ∈ fleet))) targets with
          | Some u => Err (VeInvalidInput (chars "helper-share plan " ++ decimal_nat index
                        ++ chars " targets helper outside its persisted planning fleet: " ++ u))
          | None => Ok tt
          end;
      validate_share_plans fleet expected_target (S index) (foldl use_server assignments targets) rest
  end.

(** Order of strings, by code point as by UTF-8 byte. *)
Fixpoint text_leb (a b : text) : bool :=
  match a, b with
  | [], _ => true
  | _ :: _, [] => false
  | x :: a, y :: b => (x <? y)%N || ((x =? y)%N && text_leb a b)
  end.

(** The first helper over the maximum, with its count. *)
Definition over_quota (assignments : usage) : option (url * nat) :=
  List.find (fun a => bool_decide (SHARE_HELPER_MAX_INITIAL_SHARES_PER_SERVER < a.2))
    (sort_by (fun a b => text_leb a.1 b.1) (map_to_list assignments)).

Definition validate_share_delivery_plan (plan : ShareDeliveryPlan) (share_count : nat) : result VotingError (list url) :=
  _ ← fail_if (negb (bool_decide (length (share_plans plan) = share_count)))
        (VeInvalidInput (chars "persisted helper-share plan count " ++ decimal_nat (length (share_plans plan))
           ++ chars " does not match committed share count " ++ decimal_nat share_count));
  planned_fleet ← canonical_helper_url_list (configured_server_urls plan);
  _ ← fail_if (bool_decide (planned_fleet = [])
               || negb (bool_decide (length planned_fleet = length (configured_server_urls plan))))
        (VeInvalidInput (chars "persisted helper-share planning fleet must be nonempty and canonically distinct"));
  assignments ← validate_share_plans planned_fleet (share_submission_target_count (length planned_fleet)) 0 ∅ (share_plans plan);
  _ ← (if bool_decide (share_count = VOTE_COMMITMENT_SHARE_COUNT) && bool_decide (2 <= length planned_fleet) then
         match over_quota assignments with
         | Some (u, count) =>
             Err (VeInvalidInput (chars "persisted helper-share plan assigns " ++ decimal_nat count ++ chars " shares to " ++ u
               ++ chars ", exceeding the initial maximum of " ++ decimal_nat SHARE_HELPER_MAX_INITIAL_SHARES_PER_SERVER))
         | None => Ok tt
         end
       else Ok tt);
  Ok planned_fleet.

(** Positions of the plans marked immediate. *)
Definition marked_positions (plans : list ShareSubmissionPlan) : list N :=
  omap (fun x => if plan_immediate x.2 then Some (N.of_nat x.1) else None) (imap pair plans).

Definition validate_immediate_plan (plan : ShareDeliveryPlan) (position : option N) : result VotingError unit :=
  _ ← match List.find (fun x => plan_immediate x.2 && negb (bool_decide (plan_submit_at x.2 = 0%N)))
              (imap pair (share_plans plan)) with
      | Some (index, _) => Err (VeInvalidInput (chars "persisted helper-share plan " ++ decimal_nat index
                             ++ chars " marks an immediate share with nonzero submit_at"))
      | None => Ok tt
      end;
  fail_if (negb (bool_decide (marked_positions (share_plans plan) = option_list position)))
    (VeInvalidInput (chars "persisted helper-share immediate designation does not match this request")).

(** ** Rows *)

Definition load_plan_with_conn (s : RoundShares) (k : N * N) (expected : text) :
  result VotingError (option ShareDeliveryPlan) :=
  match round_plans s !! k with
  | None => Ok None
  | Some row =>
      _ ← fail_if (negb (bool_decide (plan_generation row = expected)))
            (VeInvalidInput (chars "persisted helper-share plan belongs to a different committed vote generation"));
      _ ← fail_if (negb (bool_decide (plan_format_version row = PLAN_FORMAT_VERSION)))
            (VeInternal (chars "unsupported helper-share plan format version " ++ decimal (plan_format_version row)));
      configured ← map_err (fun e => VeInternal (chars "decode persisted helper-share planning fleet failed: " ++ e))
                     (urls_from_json (plan_fleet_json row));
      plans ← map_err (fun e => VeInternal (chars "decode persisted helper-share plan failed: " ++ e))
                (plans_from_json (plan_plans_json row));
      guarantee ← (if String.eqb (plan_guarantee row) "strict" then Ok Strict
                   else if String.eqb (plan_guarantee row) "legacy_best_effort" then Ok LegacyBestEffort
                   else Err (VeInternal (chars "unknown helper-share placement guarantee " ++ chars (plan_guarantee row))));
      Ok (Some {| configured_server_urls := configured; share_plans := plans; placement_guarantee := guarantee |})
  end.

(** INSERT OR IGNORE. *)
Definition insert_plan (s : RoundShares) (k : N * N) (generation : text) (plan : ShareDeliveryPlan) : RoundShares :=
  match round_plans s !! k with
  | Some _ => s
  | None =>
      {| round_votes := round_votes s;
         round_plans := <[k := {| plan_generation := generation;
                                  plan_fleet_json := urls_to_json (configured_server_urls plan);
                                  plan_plans_json := plans_to_json (share_plans plan);
                                  plan_format_version := PLAN_FORMAT_VERSION;
                                  plan_guarantee := guarantee_name (placement_guarantee plan) |}]> (round_plans s);
         round_immediate := round_immediate s |}
  end.

(** INSERT OR IGNORE, then the row read back: the first designation stays. *)
Definition designate_round_immediate_share (s : RoundShares) (proposed : ImmediateShareKey) : RoundShares * ImmediateShareKey :=
  match round_immediate s with
  | Some key => (s, key)
  | None => ({| round_votes := round_votes s; round_plans := round_plans s; round_immediate := Some proposed |}, proposed)
  end.

(** ** The immediate share *)

(** Recorded intents, and the stored choice of every owned vote without one. *)
Definition durable_decisions (i : PlanningInputs) (s : RoundShares) : gmap N Decision :=
  foldl (fun decisions status =>
           let '(b, p, phase) := status in
           if bool_decide (is_Some (decisions !! p)) || negb (vote_phase_is_lifecycle_owned phase) then decisions
           else match round_votes s !! (b, p) with
                | Some v => <[p := Choice (vote_choice v)]> decisions
                | None => decisions
                end)
    (ballot_intents i) (vote_statuses i).

Definition intent_is_lifecycle_owned (i : PlanningInputs) (p : N) : bool := existsb vote_phase_is_lifecycle_owned (phases_for_proposal i p).

Definition immediate_key_for_choices (i : PlanningInputs) (choices : list N) : option ImmediateShareKey :=
  let highest := match bundle_indexes i with [] => None | b :: rest => Some (foldl N.max b rest) end in
  round_immediate_share_key highest choices.

Definition owns_commitment (k : N * N) (key : ImmediateShareKey) : bool :=
  bool_decide (immediate_bundle_index key = k.1) && bool_decide (immediate_proposal_id key = k.2).

(** [payloads] are the share indexes of the committed payloads, in order. *)
Definition immediate_position_for_commitment (key : option ImmediateShareKey) (k : N * N) (payloads : list N) :
  result VotingError (option N) :=
  match key with
  | Some key =>
      if owns_commitment k key then
        match list_find (fun index => index = immediate_share_index key) payloads with
        | None => Err (VeInvalidInput (chars "derived immediate share index " ++ decimal (immediate_share_index key)
                     ++ chars " is not present in the committed vote"))
        | Some (position, _) =>
            _ ← fail_if (bool_decide (u32_max < N.of_nat position)%N)
                  (VeInvalidInput (chars "immediate share position exceeds u32"));
            Ok (Some (N.of_nat position))
        end
      else Ok None
  | None => Ok None
  end.

Definition derive_immediate_share (i : PlanningInputs) (s : RoundShares) (k : N * N) (proposal_ids : list N)
  (payloads : list N) : result VotingError (RoundShares * option ImmediateShareKey * option N) :=
  _ ← fail_if (bool_decide (proposal_ids = []))
        (VeInvalidInput (chars "helper-share planning requires the round's complete proposal roster"));
  let intents := durable_decisions i s in
  classification ← classify_ballot_intents proposal_ids intents;
  _ ← fail_if (negb (bool_decide (open_proposals classification = [])))
        (VeInvalidInput (chars "helper-share planning requires terminal decisions for proposals "
           ++ debug_list (open_proposals classification)));
  let durable_roster :=
    filter (fun p => p ∈ roster classification \/ intent_is_lifecycle_owned i p = false) (dom intents : gset N) in
  _ ← fail_if (negb (bool_decide ((list_to_set (roster classification) : gset N) = durable_roster)))
        (VeInvalidInput (chars "proposal roster does not exactly match the round's durable ballot intents"));
  _ ← fail_if (negb (is_choice (intents !! k.2)))
        (VeInvalidInput (chars "committed proposal " ++ decimal k.2 ++ chars " is not a chosen member of the round roster"));
  let key := match round_immediate s with
             | Some key => Some key
             | None => immediate_key_for_choices i (choice_proposals classification)
             end in
  let s := match round_immediate s, key with
           | None, Some key => if owns_commitment k key then fst (designate_round_immediate_share s key) else s
           | _, _ => s
           end in
  position ← immediate_position_for_commitment key k payloads;
  Ok (s, key, position).

(** The marks of every stored plan of the round, by vote and position. *)
Definition row_marks (k : N * N) (row : PlanRow) : result VotingError (list ImmediateShareKey) :=
  plans ← map_err (fun e => VeInvalidInput (chars "persisted helper-share plan is invalid JSON: " ++ e))
            (plans_from_json (plan_plans_json row));
  Ok (map (fun position => {| immediate_bundle_index := k.1; immediate_proposal_id := k.2; immediate_share_index := position |})
        (marked_positions plans)).

Definition validate_round_immediate_plans (s : RoundShares) (expected : option ImmediateShareKey) : result VotingError unit :=
  marks ← collect_results (fun kr => row_marks kr.1 kr.2) (map_to_list (round_plans s));
  let marked := concat marks in
  let expected_plan_present :=
    match expected with
    | Some key => bool_decide (is_Some (round_plans s !! (immediate_bundle_index key, immediate_proposal_id key)))
    | None => false
    end in
  _ ← fail_if (bool_decide (1 < length marked))
        (VeInvalidInput (chars "persisted helper-share plans designate more than one round-immediate share"));
  let actual := head marked in
  fail_if (match actual with Some a => negb (bool_decide (Some a = expected)) | None => false end
           || (expected_plan_present && negb (bool_decide (actual = expected))))
    (VeInvalidInput (chars "persisted round-immediate helper share does not match durable ballot intent")).

(** ** Preparing and loading *)

Definition missing_material : VotingError :=
  VeInvalidInput (chars "committed vote is missing durable helper recovery material").

Definition committed_json (s : RoundShares) (k : N * N) : result VotingError text :=
  ok_or (v ← round_votes s !! k; vote_commitment_json v) missing_material.

(** [os_random_bytes], by what it is asked for. *)
Record Entropy : Type := { submit_at_bytes : N -> bytes; server_bytes : N -> bytes }.

(** A fresh plan; a batch of one share is a single-share batch. *)
Definition plan_delivery (i : PlanningInputs) (k : N * N) (share_count : nat) (params : PlanningParams)
  (position : option N) (e : Entropy) : result VotingError ShareDeliveryPlan :=
  let fleet := params_fleet params in
  let single_share := bool_decide (share_count = 1) in
  let required := share_submission_random_bytes_required share_count (length (fleet_ranked fleet)) (params_now params)
                    (params_vote_end params) (params_buffer params) single_share in
  planned ← plan_share_submissions_with_preferred_servers share_count (fleet_ranked fleet) (fleet_ready_count fleet)
    (params_now params) (params_vote_end params) (params_buffer params) single_share position
    (submit_at_bytes e (submit_at_random_bytes required)) (server_bytes e (server_random_bytes required));
  Ok {| configured_server_urls := fleet_configured fleet; share_plans := planned;
        placement_guarantee := if bool_decide (k ∈ legacy_rows i) then LegacyBestEffort else Strict |}.

(** The transaction of [prepare_share_delivery_plan]. *)
Definition prepare_share_delivery_plan (i : PlanningInputs) (k : N * N) (expected : text) (payloads : list N)
  (params : PlanningParams) (e : Entropy) (s : RoundShares) : result VotingError (RoundShares * ShareDeliveryPlan) :=
  json ← committed_json s k;
  _ ← fail_if (negb (bool_decide (json = expected)))
        (VeInvalidInput (chars "committed vote changed before helper-share planning; recover the current committed vote"));
  derived ← derive_immediate_share i s k (params_proposal_ids params) payloads;
  let '(s, key, position) := derived in
  _ ← validate_round_immediate_plans s key;
  existing ← load_plan_with_conn s k json;
  match existing with
  | Some plan =>
      _ ← validate_share_delivery_plan plan (length payloads);
      _ ← validate_immediate_plan plan position;
      Ok (s, plan)
  | None =>
      plan ← plan_delivery i k (length payloads) params position e;
      _ ← validate_share_delivery_plan plan (length payloads);
      let s := insert_plan s k json plan in
      persisted ← load_plan_with_conn s k json;
      persisted ← ok_or persisted (VeInternal (chars "newly persisted helper-share plan was not found"));
      _ ← validate_share_delivery_plan persisted (length payloads);
      _ ← validate_immediate_plan persisted position;
      _ ← validate_round_immediate_plans s key;
      Ok (s, persisted)
  end.

Definition load_share_delivery_plan (i : PlanningInputs) (k : N * N) (handle_json : text) (current_fleet : list url)
  (payloads : list N) (s : RoundShares) : result VotingError (ShareDeliveryPlan * text) :=
  json ← committed_json s k;
  _ ← fail_if (negb (bool_decide (handle_json = json)))
        (VeInvalidInput (chars "committed vote changed before helper-share submission; recover the current committed vote"));
  found ← load_plan_with_conn s k json;
  plan ← ok_or found (VeInvalidInput (chars "helper-share delivery must be prepared before submission"));
  _ ← validate_current_helper_fleet current_fleet;
  _ ← validate_share_delivery_plan plan (length payloads);
  let intents := durable_decisions i s in
  _ ← fail_if (negb (is_choice (intents !! k.2)))
        (VeInvalidInput (chars "committed proposal " ++ decimal k.2 ++ chars " is no longer a chosen member of the round"));
  let key := match round_immediate s with
             | Some key => Some key
             | None => immediate_key_for_choices i
                         (filter (fun p => is_choice (intents !! p) = true) (elements (dom intents : gset N)))
             end in
  _ ← validate_round_immediate_plans s key;
  position ← immediate_position_for_commitment key k payloads;
  _ ← validate_immediate_plan plan position;
  Ok (plan, json).

(** ** What a vote's row drags along *)

(** The one non-generational update: it fills the tree position, in the column and in
    the otherwise identical JSON.  Unknown when a NULL decides it. *)
Definition fills_position (old new : VoteRow) : option bool :=
  match vote_vc_position old, vote_vc_position new with
  | None, Some position =>
      match vote_commitment_json old, vote_commitment_json new with
      | Some a, Some b => Some (bool_decide (json_set_position a position = b))
      | _, _ => None
      end
  | _, _ => Some false
  end.

(** The two UPDATE triggers on a change of [commitment_bundle_json].  The first advances
    or deletes the vote's plan, the second deletes the designation it owns. *)
Definition clear_helper_share_plan (k : N * N) (old new : VoteRow) (plans : gmap (N * N) PlanRow) : gmap (N * N) PlanRow :=
  let advanced :=
    match plans !! k, vote_commitment_json new with
    | Some row, Some json =>
        if bool_decide (Some (plan_generation row) = vote_commitment_json old) && bool_decide (fills_position old new = Some true)
        then <[k := {| plan_generation := json; plan_fleet_json := plan_fleet_json row; plan_plans_json := plan_plans_json row;
                       plan_format_version := plan_format_version row; plan_guarantee := plan_guarantee row |}]> plans
        else plans
    | _, _ => plans
    end in
  match advanced !! k with
  | Some row => if bool_decide (Some (plan_generation row) = vote_commitment_json new) then advanced else delete k advanced
  | None => advanced
  end.

Definition clear_round_immediate_share (k : N * N) (old new : VoteRow) (immediate : option ImmediateShareKey) :
  option ImmediateShareKey :=
  match immediate with
  | Some key => if owns_commitment k key && bool_decide (fills_position old new = Some false) then None else Some key
  | None => None
  end.

Definition update_vote (k : N * N) (old new : VoteRow) (s : RoundShares) : RoundShares :=
  let votes := <[k := new]> (round_votes s) in
  if bool_decide (vote_commitment_json old = vote_commitment_json new)
  then {| round_votes := votes; round_plans := round_plans s; round_immediate := round_immediate s |}
  else {| round_votes := votes; round_plans := clear_helper_share_plan k old new (round_plans s);
          round_immediate := clear_round_immediate_share k old new (round_immediate s) |}.

(** INSERT of a vote, UPDATE of a vote, and DELETE with its cascades. *)
Definition write_vote (k : N * N) (new : VoteRow) (s : RoundShares) : RoundShares :=
  match round_votes s !! k with
  | Some old => update_vote k old new s
  | None => {| round_votes := <[k := new]> (round_votes s); round_plans := round_plans s; round_immediate := round_immediate s |}
  end.

Definition delete_vote (k : N * N) (s : RoundShares) : RoundShares :=
  {| round_votes := delete k (round_votes s); round_plans := delete k (round_plans s);
     round_immediate := match round_immediate s with
                        | Some key => if owns_commitment k key then None else Some key
                        | None => None
                        end |}.

(** A round's history: preparations that commit, and changes of its votes. *)
Inductive share_step : RoundShares -> RoundShares -> Prop :=
  | step_prepare i k expected payloads params e s s' plan :
      prepare_share_delivery_plan i k expected payloads params e s = Ok (s', plan) -> share_step s s'
  | step_write_vote k v s : share_step s (write_vote k v s)
  | step_delete_vote k s : share_step s (delete_vote k s).

Definition new_round : RoundShares := {| round_votes := ∅; round_plans := ∅; round_immediate := None |}.
End delivery.

(** ** Canonical fleets *)

Section facts.
Context `{UC : UrlCrate, UT : UrlTexts, PJ : PlanJson}.

(** A URL that is its own canonical form. *)
Definition stable (u : url) : Prop := canonicalize_helper_base_url u = Ok u.

Lemma canonical_urls_NoDup acc urls l : NoDup acc -> canonical_urls acc urls = Ok l -> NoDup l.
Proof.
  revert acc. induction urls as [|u urls IH]; intros acc Hnd H; cbn [canonical_urls] in H; [by injection H as <-|].
  inv_ok. apply IH in H; [done|]. case_bool_decide; [done|].
  apply NoDup_app. split; [done|]. split; [|apply NoDup_singleton]. intros x Hx ->%list_elem_of_singleton. done.
Qed.

Lemma canonical_urls_stable acc urls :
  NoDup (acc ++ urls) -> Forall stable urls -> canonical_urls acc urls = Ok (acc ++ urls).
Proof.
  revert acc. induction urls as [|u urls IH]; intros acc Hnd Hst; cbn; [by rewrite app_nil_r|].
  apply Forall_cons in Hst as [Hu Hst]. rewrite Hu. cbn. rewrite bool_decide_false.
  - rewrite IH; [by rewrite <- app_assoc|by rewrite <- app_assoc|done].
  - intros Hin. apply NoDup_app in Hnd as (_ & Hdis & _). apply (Hdis u Hin). by left.
Qed.

Lemma canonical_list_stable urls :
  NoDup urls -> Forall stable urls -> canonical_helper_url_list urls = Ok urls.
Proof. intros. by apply (canonical_urls_stable []). Qed.

Lemma from_readiness_spec configured ready f :
  from_readiness configured ready = Ok f ->
  NoDup (fleet_configured f) /\ fleet_configured f <> []
  /\ fleet_ranked f ≡ₚ fleet_configured f /\ fleet_ready_count f <= length (fleet_ranked f).
Proof.
  unfold from_readiness. intros H. inv_ok. unfold canonical_helper_url_list in *.
  pose proof (canonical_urls_NoDup _ _ _ NoDup_nil_2 Ha0) as Hnd. pose proof (canonical_urls_NoDup _ _ _ NoDup_nil_2 Ha2) as Hnd'.
  cbn. split; [done|]. split; [by destruct a0, configured|]. rewrite length_app. split; [|lia].
  destruct (find _ a2) as [u|] eqn:Hfind; [done|].
  assert (forall u, u ∈ a2 -> u ∈ a0) as Hsub.
  { intros u Hu. apply list_elem_of_In in Hu. pose proof (List.find_none _ _ Hfind u Hu) as Hn. by inv_ok. }
  apply NoDup_Permutation; [|done|].
  - apply NoDup_app. split; [done|]. split; [|by apply NoDup_filter].
    intros u Hu [? _]%list_elem_of_filter. done.
  - intros u. rewrite elem_of_app, list_elem_of_filter. split; [intros [?|[_ ?]]; auto|]. intros Hu.
    destruct (decide (u ∈ a2)); auto.
Qed.

(** ** Fresh plans pass validation *)

Lemma used_lookup u s n : u !! s = Some n -> used u s = n.
Proof. unfold used. by intros ->. Qed.

Lemma placements_cons p plans s :
  placements (p :: plans) s = (if decide (s ∈ target_servers p) then 1 else 0) + placements plans s.
Proof. unfold placements. rewrite filter_cons. by destruct (decide _). Qed.

Lemma validate_share_plans_ok fleet t index u plans :
  Forall stable fleet ->
  Forall (fun p => plan_target_count p = t /\ length (target_servers p) = t /\ NoDup (target_servers p)
                   /\ forall s, s ∈ target_servers p -> s ∈ fleet) plans ->
  exists u', validate_share_plans fleet t index u plans = Ok u' /\ forall s, used u' s = used u s + placements plans s.
Proof.
  intros Hfleet Hall. revert index u. induction Hall as [|p plans (Ht & Hl & Hnd & Hin) _ IH]; intros index u; cbn [validate_share_plans].
  { exists u. split; [done|]. intros s. unfold placements. cbn. lia. }
  rewrite canonical_list_stable; [|done|apply Forall_forall; intros s Hs; rewrite Forall_forall in Hfleet; auto].
  cbn [mbind result_bind]. rewrite Ht, Hl, !bool_decide_true by done. cbn [negb orb fail_if mbind result_bind].
  destruct (find _ _) as [x|] eqn:Hfind.
  { apply List.find_some in Hfind as [Hx%list_elem_of_In Hn]. apply Hin in Hx. by inv_ok. }
  cbn [mbind result_bind]. destruct (IH (S index) (foldl use_server u (target_servers p))) as (u' & Hu' & Hused).
  exists u'. split; [done|]. intros s. rewrite Hused, used_foldl, placements_cons by done. lia.
Qed.

Lemma marked_positions_from off designated (plans : list ShareSubmissionPlan) :
  (forall i p, plans !! i = Some p -> plan_immediate p = bool_decide (designated = Some (N.of_nat (off + i)))) ->
  omap (fun x : nat * ShareSubmissionPlan => if plan_immediate x.2 then Some (N.of_nat x.1) else None)
    (imap (fun i => pair (off + i)) plans)
  = match designated with
    | Some d => if bool_decide (off <= N.to_nat d < off + length plans) then [d] else []
    | None => []
    end.
Proof.
  revert off. induction plans as [|p plans IH]; intros off H.
  { cbn. destruct designated; [|done]. rewrite bool_decide_false by lia. done. }
  rewrite imap_cons. cbn [omap list_omap snd fst]. rewrite (H 0 p eq_refl), Nat.add_0_r.
  assert (imap ((fun i => pair (off + i)) ∘ S) plans = imap (fun i => pair (S off + i)) plans) as E.
  { apply imap_ext. intros i x _. cbn. f_equal. lia. }
  rewrite E. rewrite (IH (S off)).
  2: { intros i x Hx. rewrite (H (S i) x Hx). by replace (off + S i) with (S off + i) by lia. }
  cbn [length]. destruct designated as [d|]; [|by rewrite bool_decide_false]. case_bool_decide as Hd.
  - injection Hd as ->. rewrite Nat2N.id, bool_decide_false, bool_decide_true by lia. done.
  - assert (N.to_nat d <> off) by (intros <-; by rewrite N2Nat.id in Hd).
    destruct (decide (S off <= N.to_nat d < S off + length plans)).
    + by rewrite !bool_decide_true by lia.
    + by rewrite !bool_decide_false by lia.
Qed.

Lemma marked_positions_designated designated plans :
  (forall i p, plans !! i = Some p -> plan_immediate p = bool_decide (designated = Some (N.of_nat i))) ->
  (forall d, designated = Some d -> N.to_nat d < length plans) ->
  marked_positions plans = option_list designated.
Proof.
  intros H Hd. unfold marked_positions. etrans; [exact (marked_positions_from 0 designated plans H)|].
  destruct designated as [d|]; [|done]. rewrite bool_decide_true; [done|]. specialize (Hd d eq_refl). lia.
Qed.

(** A preparation that can plan: a fleet from its readiness whose helpers are fixed points of
    canonicalization, a batch position for the immediate share, sizes that fit memory, and
    entropy as long as asked for.  A canonical form need not be a fixed point: one trailing dot
    of a host is removed each time. *)
Record delivery_request (share_count : nat) (params : PlanningParams) (position : option N) (e : Entropy) : Prop := {
  request_fleet : exists configured ready, from_readiness configured ready = Ok (params_fleet params);
  request_stable : Forall stable (fleet_configured (params_fleet params));
  request_position : forall d, position = Some d -> N.to_nat d < share_count;
  request_shares : (N.of_nat share_count <= u32_max)%N;
  request_fits : (N.of_nat (length (fleet_ranked (params_fleet params))) * 8 * N.of_nat share_count <= u64_max)%N;
  request_submit_entropy : forall n, N.of_nat (length (submit_at_bytes e n)) = n;
  request_server_entropy : forall n, N.of_nat (length (server_bytes e n)) = n
}.

Lemma plan_delivery_placed i k share_count params position e :
  delivery_request share_count params position e ->
  exists plans, plan_delivery i k share_count params position e
    = Ok {| configured_server_urls := fleet_configured (params_fleet params); share_plans := plans;
            placement_guarantee := if bool_decide (k ∈ legacy_rows i) then LegacyBestEffort else Strict |}
    /\ placed share_count (fleet_ranked (params_fleet params)) (fleet_ready_count (params_fleet params))
         (bool_decide (share_count = 1)) position plans.
Proof.
  intros [(c & r & Hf) _ Hpos H32 Hfit He1 He2]. destruct (from_readiness_spec _ _ _ Hf) as (Hnd & Hne & Hperm & Hready).
  unfold plan_delivery. set (single := bool_decide (share_count = 1)).
  edestruct (planner_places share_count (fleet_ranked (params_fleet params)) (fleet_ready_count (params_fleet params))
    (params_now params) (params_vote_end params) (params_buffer params) single position) as (plans & Hp & Hplaced).
  2: { rewrite Hp. exists plans. split; [done|exact Hplaced]. }
  constructor; try done; [by rewrite Hperm| | |by rewrite He1|by rewrite He2].
  - intros Hnil. rewrite Hnil in Hperm. by apply Permutation_nil_l in Hperm.
  - intros H. by apply bool_decide_eq_true in H.
Qed.

Lemma pool_in_fleet share_count ranked preferred single s :
  s ∈ planning_pool share_count ranked preferred single -> s ∈ ranked.
Proof. apply elem_of_take_1. Qed.

Lemma placed_validates fleet share_count ranked preferred single position plans g :
  NoDup fleet -> Forall stable fleet -> fleet <> [] -> ranked ≡ₚ fleet -> single = bool_decide (share_count = 1) ->
  placed share_count ranked preferred single position plans ->
  validate_share_delivery_plan {| configured_server_urls := fleet; share_plans := plans; placement_guarantee := g |} share_count
  = Ok fleet.
Proof.
  intros Hnd Hst Hne Hperm Hsingle [Hc Hplans _ Hquota]. unfold validate_share_delivery_plan. cbn [share_plans configured_server_urls].
  rewrite Hc, (bool_decide_true (share_count = share_count)) by done. cbn [negb fail_if mbind result_bind].
  rewrite canonical_list_stable by done. cbn [mbind result_bind].
  rewrite (bool_decide_false (fleet = [])), (bool_decide_true (length fleet = length fleet)) by done. cbn [negb orb fail_if mbind result_bind].
  assert (length ranked = length fleet) as Hlen by (by rewrite Hperm).
  destruct (validate_share_plans_ok fleet (share_submission_target_count (length fleet)) 0 ∅ plans Hst) as (u & Hu & Hused).
  { apply Forall_lookup. intros i p Hp. destruct (Hplans i p Hp) as (_ & _ & Ht & Hl & Hd & Hin).
    rewrite Hl, Ht, Hlen. split; [done|]. split; [done|]. split; [done|].
    intros s Hs. rewrite <- Hperm. by eapply pool_in_fleet, Hin. }
  rewrite Hu. cbn [mbind result_bind]. destruct (bool_decide (share_count = VOTE_COMMITMENT_SHARE_COUNT)) eqn:H16; [|reflexivity].
  destruct (bool_decide (2 <= length fleet)) eqn:H2; [|reflexivity]. apply bool_decide_eq_true in H16, H2. cbn [andb].
  destruct (over_quota u) as [[x count]|] eqn:Hover; [|done]. exfalso. unfold over_quota in Hover.
  apply List.find_some in Hover as [Hx%list_elem_of_In Hbig].
  rewrite elem_of_sort_by, elem_of_map_to_list in Hx. apply used_lookup in Hx.
  apply bool_decide_eq_true in Hbig. cbn [snd] in Hbig. rewrite Hused in Hx. change (used ∅ x) with 0 in Hx. rewrite Nat.add_0_l in Hx.
  assert (complete_batch share_count single = true) as Hcomplete by (by rewrite Hsingle, H16).
  destruct (decide (x ∈ planning_pool share_count ranked preferred single)) as [Hin|Hout].
  - specialize (Hquota Hcomplete ltac:(lia) x Hin). lia.
  - assert (placements plans x = 0) as Hz; [|lia]. unfold placements. rewrite length_zero_iff_nil.
    apply filter_none_in. intros p [i Hp]%list_elem_of_lookup_1 Hx'.
    destruct (Hplans i p Hp) as (_ & _ & _ & _ & _ & Hin). by apply Hout, Hin.
Qed.

(** ** The round's invariant *)

(** The shares a stored plan marks immediate. *)
Definition marks (s : RoundShares) (m : ImmediateShareKey) : Prop :=
  exists k row ms, round_plans s !! k = Some row /\ row_marks k row = Ok ms /\ m ∈ ms.

Record round_ok (s : RoundShares) : Prop := {
  round_generations : forall k row, round_plans s !! k = Some row ->
    exists v, round_votes s !! k = Some v /\ vote_commitment_json v = Some (plan_generation row);
  round_marks : forall m, marks s m -> round_immediate s = Some m;
  round_designated : forall d, round_immediate s = Some d -> is_Some (round_votes s !! (immediate_bundle_index d, immediate_proposal_id d))
}.

Lemma round_ok_new : round_ok new_round.
Proof.
  split; [intros k row H; cbn in H; by rewrite lookup_empty in H| |done].
  intros m (k & row & ms & H & _). cbn in H. by rewrite lookup_empty in H.
Qed.

(** Every stored mark is the expected share. *)
Lemma validated_marks s expected m : validate_round_immediate_plans s expected = Ok tt -> marks s m -> expected = Some m.
Proof.
  intros H (k & row & ms & Hrow & Hms & Hm). unfold validate_round_immediate_plans in H. inv_ok.
  apply collect_results_Ok in Ha. apply elem_of_map_to_list in Hrow.
  apply list_elem_of_lookup_1 in Hrow as [i Hi]. destruct (Forall2_lookup_l _ _ _ _ _ Ha Hi) as (ms' & Hl & Hms').
  cbn in Hms'. rewrite Hms in Hms'. injection Hms' as <-.
  assert (m ∈ concat a) as Hin by (apply list_elem_of_In, in_concat; exists ms; split; apply list_elem_of_In; [by eapply list_elem_of_lookup_2|done]).
  destruct (concat a) as [|x [|y l]]; cbn in *; [by apply elem_of_nil in Hin| |inv_ok; lia].
  apply list_elem_of_singleton in Hin as ->. by inv_ok.
Qed.

Lemma derive_immediate_share_Ok i s k ids payloads s' key position :
  derive_immediate_share i s k ids payloads = Ok (s', key, position) ->
  round_votes s' = round_votes s /\ round_plans s' = round_plans s
  /\ (round_immediate s' = round_immediate s
      \/ (round_immediate s = None /\ exists d, key = Some d /\ owns_commitment k d = true /\ round_immediate s' = Some d))
  /\ (forall d, round_immediate s = Some d -> key = Some d)
  /\ (forall d, position = Some d -> round_immediate s' = key)
  /\ (forall d, round_immediate s' = Some d -> key = Some d).
Proof.
  unfold derive_immediate_share. intros H. inv_ok.
  destruct (round_immediate s) as [d|] eqn:Hd; [naive_solver|].
  destruct (immediate_key_for_choices _ _) as [d|]; cbn in Ha4; [|naive_solver].
  destruct (owns_commitment k d) eqn:Ho; [|naive_solver]. unfold designate_round_immediate_share. rewrite Hd. cbn.
  split; [done|]. split; [done|]. split; [right; split; [done|]; by exists d|]. naive_solver.
Qed.

Lemma immediate_position_owned key k payloads position :
  immediate_position_for_commitment key k payloads = Ok (Some position) -> exists d, key = Some d /\ owns_commitment k d = true.
Proof.
  unfold immediate_position_for_commitment. destruct key as [d|]; [|done].
  destruct (owns_commitment k d) eqn:Ho; [|done]. by exists d.
Qed.

Lemma load_inserted s k json plan :
  round_plans s !! k = None -> load_plan_with_conn (insert_plan s k json plan) k json = Ok (Some plan).
Proof.
  intros Hk. unfold load_plan_with_conn, insert_plan. rewrite Hk. cbn [round_plans]. rewrite lookup_insert_eq.
  cbn [plan_generation plan_format_version plan_fleet_json plan_plans_json plan_guarantee].
  rewrite (bool_decide_true (json = json)), urls_round_trip, plans_round_trip by done. destruct plan as [? ? []]; reflexivity.
Qed.

(** What a committed preparation did: at most designate, and store its plan. *)
Lemma prepare_Ok i k expected payloads params e s s' plan :
  prepare_share_delivery_plan i k expected payloads params e s = Ok (s', plan) ->
  exists s1 key position,
    derive_immediate_share i s k (params_proposal_ids params) payloads = Ok (s1, key, position)
    /\ committed_json s k = Ok expected
    /\ validate_immediate_plan plan position = Ok tt
    /\ validate_round_immediate_plans s' key = Ok tt
    /\ load_plan_with_conn s' k expected = Ok (Some plan)
    /\ (s' = s1 \/ round_plans s1 !! k = None /\ s' = insert_plan s1 k expected plan).
Proof.
  unfold prepare_share_delivery_plan. intros H. inv_ok.
  destruct a1 as [[s1 key] position]. inv_ok. destruct a1 as [found|].
  - inv_ok. exists s', key, position. repeat match goal with u : () |- _ => destruct u end. auto 10.
  - assert (round_plans s1 !! k = None) as Hnone.
    { unfold load_plan_with_conn in Ha2. destruct (round_plans s1 !! k); [|done]. by inv_ok. }
    inv_ok. match goal with Hl : load_plan_with_conn (insert_plan _ _ _ _) _ _ = _ |- _ => rewrite load_inserted in Hl by done end. inv_ok. exists s1, key, position.
    repeat match goal with u : () |- _ => destruct u end. rewrite load_inserted by done. auto 10.
Qed.

Lemma committed_json_Ok s k json :
  committed_json s k = Ok json <-> exists v, round_votes s !! k = Some v /\ vote_commitment_json v = Some json.
Proof.
  unfold committed_json. rewrite ok_or_Ok. destruct (round_votes s !! k) as [v|]; cbn; [naive_solver|].
  split; [done|]. by intros (v & ? & _).
Qed.

Lemma owns_commitment_key k d : owns_commitment k d = true <-> k = (immediate_bundle_index d, immediate_proposal_id d).
Proof.
  unfold owns_commitment. rewrite andb_true_iff, !bool_decide_eq_true. destruct k as [b p]; cbn. naive_solver.
Qed.

(** A mark carries the key of the plan it is in. *)
Lemma row_marks_key k row ms m : row_marks k row = Ok ms -> m ∈ ms -> owns_commitment k m = true.
Proof.
  unfold row_marks. intros H Hm. inv_ok. apply list_elem_of_fmap in Hm as (n & -> & _). by apply owns_commitment_key; destruct k.
Qed.

Lemma validated_positions plan position :
  validate_immediate_plan plan position = Ok tt -> marked_positions (share_plans plan) = option_list position.
Proof. unfold validate_immediate_plan. intros H. by inv_ok. Qed.

Lemma prepare_round_ok i k expected payloads params e s s' plan :
  round_ok s -> prepare_share_delivery_plan i k expected payloads params e s = Ok (s', plan) -> round_ok s'.
Proof.
  intros [Hgen Hmarks Hdes] H.
  destruct (prepare_Ok _ _ _ _ _ _ _ _ _ H) as (s1 & key & position & Hd & Hjson & Himm & Hround & _ & Hs').
  destruct (derive_immediate_share_Ok _ _ _ _ _ _ _ _ Hd) as (Hv & Hp & Hi & Hkeep & Hpos & Hkey).
  apply committed_json_Ok in Hjson as (v & Hk & Hj).
  assert (round_votes s' = round_votes s /\ round_immediate s' = round_immediate s1) as [Hv' Hi'].
  { destruct Hs' as [->|[Hn ->]]; [done|]. unfold insert_plan. rewrite Hn. done. }
  assert (forall k' row, round_plans s' !! k' = Some row -> round_plans s !! k' = Some row
            \/ k' = k /\ plan_generation row = expected /\ plan_plans_json row = plans_to_json (share_plans plan)) as Hrows.
  { intros k' row Hrow. destruct Hs' as [->|[Hn ->]]; [left; by rewrite <- Hp|]. unfold insert_plan in Hrow. rewrite Hn in Hrow.
    cbn in Hrow. destruct (decide (k' = k)) as [->|]; [|left; by rewrite lookup_insert_ne, Hp in Hrow].
    rewrite lookup_insert_eq in Hrow. injection Hrow as <-. by right. }
  split; rewrite ?Hv', ?Hi'.
  - intros k' row [Hrow|(-> & <- & _)]%Hrows; [by apply Hgen|eauto].
  - intros m Hm. pose proof (validated_marks _ _ _ Hround Hm) as ->.
    destruct (round_immediate s) as [d|] eqn:Hd0.
    { specialize (Hkeep d eq_refl). injection Hkeep as ->. by destruct Hi as [->|[? _]]. }
    destruct Hm as (k' & row & ms & Hrow & Hms & Hin). destruct (Hrows _ _ Hrow) as [Hold|(-> & _ & Hplans)].
    { assert (None = Some m) as Hno by (apply Hmarks; by exists k', row, ms). done. }
    unfold row_marks in Hms. rewrite Hplans, plans_round_trip in Hms. injection Hms as <-.
    rewrite (validated_positions _ _ Himm) in Hin.
    destruct position as [n|]; [by eapply Hpos|]. cbn in Hin. by apply elem_of_nil in Hin.
  - intros d Hd1. destruct Hi as [Hi|(_ & d' & _ & Ho & Hi)]; rewrite Hi in Hd1; [by apply Hdes|].
    injection Hd1 as ->. apply owns_commitment_key in Ho as <-. by rewrite Hk.
Qed.

(** The triggers keep a plan only as a plan of the vote's new generation. *)
Lemma update_vote_plans k old new s k' row' :
  round_ok s -> round_votes s !! k = Some old -> round_plans (update_vote k old new s) !! k' = Some row' ->
  exists row, round_plans s !! k' = Some row /\ plan_plans_json row' = plan_plans_json row
    /\ (k' <> k -> row' = row) /\ (k' = k -> vote_commitment_json new = Some (plan_generation row')).
Proof.
  intros Hok Hold. unfold update_vote, clear_helper_share_plan, clear_round_immediate_share. case_bool_decide as Hsame; cbn [round_plans].
  { intros Hrow. exists row'. split; [done|]. split; [done|]. split; [done|]. intros ->.
    destruct (round_generations _ Hok _ _ Hrow) as (v & Hv & Hj). congruence. }
  set (advanced := match round_plans s !! k with Some _ => _ | None => _ end).
  assert (forall x y, advanced !! x = Some y -> exists row, round_plans s !! x = Some row
            /\ plan_plans_json y = plan_plans_json row /\ (x <> k -> y = row)) as Hadv.
  { intros x y. unfold advanced. destruct (round_plans s !! k) as [row|] eqn:Hrow; [|eauto].
    destruct (vote_commitment_json new) as [json|]; [|eauto].
    destruct (_ && _); [|eauto]. destruct (decide (x = k)) as [->|].
    - rewrite lookup_insert_eq. intros [= <-]. by exists row.
    - rewrite lookup_insert_ne by done. eauto. }
  intros Hrow. destruct (decide (k' = k)) as [->|Hne].
  - destruct (advanced !! k) as [y|] eqn:Hy; [|congruence]. case_bool_decide as Hg; [|by rewrite lookup_delete_eq in Hrow].
    rewrite Hy in Hrow. injection Hrow as ->. destruct (Hadv _ _ Hy) as (row & ? & ? & _). by exists row.
  - assert (advanced !! k' = Some row') as Hy.
    { destruct (advanced !! k); [|done]. case_bool_decide; [done|]. by rewrite lookup_delete_ne in Hrow. }
    destruct (Hadv _ _ Hy) as (row & ? & ? & ?). by exists row.
Qed.

(** A designation is only voided with its own vote's generation and plan. *)
Lemma update_vote_immediate k old new s d :
  round_ok s -> round_votes s !! k = Some old -> round_immediate s = Some d ->
  round_immediate (update_vote k old new s) = Some d
  \/ owns_commitment k d = true /\ vote_commitment_json old <> vote_commitment_json new
     /\ round_immediate (update_vote k old new s) = None /\ round_plans (update_vote k old new s) !! k = None.
Proof.
  intros Hok Hold Hd. unfold update_vote, clear_helper_share_plan, clear_round_immediate_share. case_bool_decide as Hsame; [by left|]. cbn [round_immediate round_plans]. rewrite Hd.
  destruct (owns_commitment k d) eqn:Ho; [|by left]. case_bool_decide as Hf; [|by left]. right.
  split; [done|]. split; [done|]. split; [done|]. rewrite Hf. rewrite (bool_decide_false (Some false = Some true)) by done.
  destruct (round_plans s !! k) as [row|] eqn:Hrow; [|by rewrite Hrow].
  destruct (round_generations _ Hok _ _ Hrow) as (v & Hv & Hj). assert (v = old) as -> by congruence.
  destruct (vote_commitment_json new) as [json|] eqn:Hnew; rewrite ?andb_false_r, Hrow, bool_decide_false by congruence;
    apply lookup_delete_eq.
Qed.

Lemma update_vote_round_ok k old new s : round_ok s -> round_votes s !! k = Some old -> round_ok (update_vote k old new s).
Proof.
  intros Hok Hold.
  assert (round_votes (update_vote k old new s) = <[k := new]> (round_votes s)) as Hvotes
    by (unfold update_vote; by case_bool_decide).
  split; rewrite ?Hvotes.
  - intros k' row' Hrow. destruct (update_vote_plans _ _ _ _ _ _ Hok Hold Hrow) as (row & Hr & _ & Hne & Heq).
    destruct (decide (k' = k)) as [->|Hk]; [exists new; by rewrite lookup_insert_eq, Heq|].
    rewrite (Hne Hk), lookup_insert_ne by done. by apply (round_generations _ Hok).
  - intros m (k' & row' & ms & Hrow & Hms & Hin).
    destruct (update_vote_plans _ _ _ _ _ _ Hok Hold Hrow) as (row & Hr & Hjson & _ & _).
    assert (round_immediate s = Some m) as Hm.
    { apply (round_marks _ Hok). exists k', row, ms. split; [done|]. split; [|done]. unfold row_marks in *. by rewrite <- Hjson. }
    destruct (update_vote_immediate k old new s m Hok Hold Hm) as [|(Ho & _ & _ & Hgone)]; [done|].
    pose proof (row_marks_key _ _ _ _ Hms Hin) as Ho'. apply owns_commitment_key in Ho, Ho'. congruence.
  - intros d Hd. assert (round_immediate s = Some d) as Hd'.
    { unfold update_vote, clear_round_immediate_share in Hd. case_bool_decide; [done|]. cbn in Hd. destruct (round_immediate s) as [d'|]; [|done].
      by destruct (_ && _). }
    apply (round_designated _ Hok) in Hd'. destruct (decide (k = (immediate_bundle_index d, immediate_proposal_id d))) as [->|];
      [by rewrite lookup_insert_eq|by rewrite lookup_insert_ne].
Qed.

Lemma share_step_ok s s' : round_ok s -> share_step s s' -> round_ok s'.
Proof.
  intros Hok Hstep. destruct Hstep as [i k expected payloads params e s0 s1 plan H|k v s0|k s0];
    [by eapply prepare_round_ok| |].
  - unfold write_vote. destruct (round_votes s0 !! k) as [old|] eqn:Hold; [by apply update_vote_round_ok|].
    destruct Hok as [Hgen Hmarks Hdes]. split; cbn.
    + intros k' row Hrow. destruct (Hgen _ _ Hrow) as (v' & Hv' & Hj). exists v'.
      rewrite lookup_insert_ne by congruence. done.
    + done.
    + intros d Hd. destruct (Hdes d Hd) as [v' Hv']. rewrite lookup_insert_ne by congruence. by rewrite Hv'.
  - destruct Hok as [Hgen Hmarks Hdes]. split; cbn.
    + intros k' row [Hne Hrow]%lookup_delete_Some. destruct (Hgen _ _ Hrow) as (v' & Hv' & Hj). exists v'.
      by rewrite lookup_delete_ne.
    + intros m (k' & row & ms & Hrow & Hms & Hin). cbn in Hrow. apply lookup_delete_Some in Hrow as [Hne Hrow].
      rewrite (Hmarks m) by (by exists k', row, ms). pose proof (row_marks_key _ _ _ _ Hms Hin) as Ho.
      destruct (owns_commitment k m) eqn:Ho'; [|done]. apply owns_commitment_key in Ho, Ho'. congruence.
    + intros d Hd. destruct (round_immediate s0) as [d'|] eqn:Hd'; [|done].
      destruct (owns_commitment k d') eqn:Ho; [done|]. injection Hd as ->. destruct (Hdes d eq_refl) as [v Hv].
      rewrite lookup_delete_ne; [by rewrite Hv|]. intros ->. by rewrite (proj2 (owns_commitment_key _ d) eq_refl) in Ho.
Qed.

Lemma history_ok s : rtc share_step new_round s -> round_ok s.
Proof. apply (rtc_ind_r (fun s => round_ok s)); [apply round_ok_new|]. intros s1 s2 _ Hstep Hok. by eapply share_step_ok. Qed.

(** Only the vote behind it takes a plan or a designation away. *)
Lemma share_step_keeps s s' : round_ok s -> share_step s s' ->
  (forall d, round_immediate s = Some d -> round_immediate s' = Some d
     \/ round_votes s' !! (immediate_bundle_index d, immediate_proposal_id d)
        <> round_votes s !! (immediate_bundle_index d, immediate_proposal_id d))
  /\ (forall k row, round_plans s !! k = Some row -> round_plans s' !! k = Some row
     \/ round_votes s' !! k <> round_votes s !! k).
Proof.
  intros Hok Hstep. destruct Hstep as [i k expected payloads params e s0 s1 plan H|k v s0|k s0].
  - destruct (prepare_Ok _ _ _ _ _ _ _ _ _ H) as (s2 & key & position & Hd & _ & _ & _ & _ & Hs').
    destruct (derive_immediate_share_Ok _ _ _ _ _ _ _ _ Hd) as (Hv & Hp & Hi & Hkeep & Hpos & Hkey).
    assert (forall d, round_immediate s0 = Some d -> round_immediate s2 = Some d) as Him.
    { intros d Hd0. destruct Hi as [->|[? _]]; [done|congruence]. }
    destruct Hs' as [->|[Hn ->]]; [rewrite Hp; by auto|]. unfold insert_plan. rewrite Hn. cbn [round_immediate round_plans].
    split; [by auto|]. intros k' row Hrow. left. rewrite Hp in *. by rewrite lookup_insert_ne by congruence.
  - unfold write_vote. destruct (round_votes s0 !! k) as [old|] eqn:Hold; [|by auto]. split.
    + intros d Hd. destruct (update_vote_immediate k old v s0 d Hok Hold Hd) as [|(Ho & Hne & _)]; [by left|right].
      apply owns_commitment_key in Ho as <-. rewrite Hold. unfold update_vote, clear_helper_share_plan, clear_round_immediate_share. rewrite bool_decide_false by done. cbn.
      rewrite lookup_insert_eq. congruence.
    + intros k' row Hrow. unfold update_vote, clear_helper_share_plan, clear_round_immediate_share. case_bool_decide as Hsame; [by left|]. cbn [round_votes].
      destruct (decide (k' = k)) as [->|Hne]; [right; rewrite lookup_insert_eq; congruence|left].
      cbn [round_plans]. set (advanced := match round_plans s0 !! k with Some _ => _ | None => _ end).
      assert (advanced !! k' = Some row) as Hadv.
      { unfold advanced. destruct (round_plans s0 !! k), (vote_commitment_json v); try done.
        destruct (_ && _); [|done]. by rewrite lookup_insert_ne. }
      destruct (advanced !! k); [|done]. case_bool_decide; [done|]. by rewrite lookup_delete_ne.
  - cbn. split.
    + intros d Hd. rewrite Hd. destruct (owns_commitment k d) eqn:Ho; [right|by left].
      apply owns_commitment_key in Ho as ->. destruct (round_designated _ Hok d Hd) as [v ->]. by rewrite lookup_delete_eq.
    + intros k' row Hrow. destruct (decide (k' = k)) as [->|Hne]; [right|left; by rewrite lookup_delete_ne].
      destruct (round_generations _ Hok _ _ Hrow) as (v & -> & _). by rewrite lookup_delete_eq.
Qed.

Lemma prepare_again i i' k json payloads payloads' params params' e e' s s1 s2 p1 p2 :
  prepare_share_delivery_plan i k json payloads params e s = Ok (s1, p1) ->
  prepare_share_delivery_plan i' k json payloads' params' e' s1 = Ok (s2, p2) -> p2 = p1.
Proof.
  intros H1 H2. destruct (prepare_Ok _ _ _ _ _ _ _ _ _ H1) as (? & ? & ? & _ & _ & _ & _ & Hl1 & _).
  destruct (prepare_Ok _ _ _ _ _ _ _ _ _ H2) as (s3 & ? & ? & Hd & _ & _ & _ & Hl2 & Hs).
  destruct (derive_immediate_share_Ok _ _ _ _ _ _ _ _ Hd) as (_ & Hp & _).
  destruct Hs as [->|[Hn _]]; unfold load_plan_with_conn in Hl1, Hl2; rewrite Hp in *; [congruence|].
  by rewrite Hn in Hl1.
Qed.

(** Filling the tree position while clearing the JSON clears the vote's plan and
    keeps its designation: the second trigger's condition is unknown there. *)
Lemma cleared_generation_keeps_designation k json choice position d row s :
  round_plans s !! k = Some row -> plan_generation row = json -> round_immediate s = Some d -> owns_commitment k d = true ->
  let old := {| vote_choice := choice; vote_vc_position := None; vote_commitment_json := Some json |} in
  let new := {| vote_choice := choice; vote_vc_position := Some position; vote_commitment_json := None |} in
  round_plans (update_vote k old new s) !! k = None /\ round_immediate (update_vote k old new s) = Some d.
Proof.
  intros Hrow Hg Hd Ho. unfold update_vote, clear_helper_share_plan, clear_round_immediate_share. cbn [vote_commitment_json]. rewrite bool_decide_false by done.
  cbn [round_plans round_immediate]. rewrite Hrow, Hd, Ho, Hrow. rewrite bool_decide_false by done. split; [apply lookup_delete_eq|done].
Qed.

(** ** Properties *)

(** C18. Whatever preparations, vote changes and vote deletions a round has seen, all its
    stored plans together mark at most one share immediate, and it is the round's durable
    designation.  Each stored plan belongs to the generation its vote commits to now.  A
    designation or a stored plan leaves only in a step that changes the row of its own vote.
    A preparation stores exactly the plan it returns, and preparing the same generation
    again returns that plan, whatever the fleet, the clock and the entropy are by then. *)
Theorem round_immediate_share_single s : rtc share_step new_round s ->
  (forall m m', marks s m -> marks s m' -> m = m' /\ round_immediate s = Some m)
  /\ (forall k row, round_plans s !! k = Some row -> committed_json s k = Ok (plan_generation row))
  /\ (forall s' d, share_step s s' -> round_immediate s = Some d -> round_immediate s' = Some d
        \/ round_votes s' !! (immediate_bundle_index d, immediate_proposal_id d)
           <> round_votes s !! (immediate_bundle_index d, immediate_proposal_id d))
  /\ (forall s' k row, share_step s s' -> round_plans s !! k = Some row ->
        round_plans s' !! k = Some row \/ round_votes s' !! k <> round_votes s !! k)
  /\ (forall i k json payloads params e s1 p1, prepare_share_delivery_plan i k json payloads params e s = Ok (s1, p1) ->
        load_plan_with_conn s1 k json = Ok (Some p1)
        /\ forall i' payloads' params' e' s2 p2,
             prepare_share_delivery_plan i' k json payloads' params' e' s1 = Ok (s2, p2) -> p2 = p1).
Proof.
  intros Hok%history_ok. split.
  { intros m m' Hm%(round_marks _ Hok) Hm'%(round_marks _ Hok). split; congruence. }
  split.
  { intros k row Hrow. unfold committed_json. destruct (round_generations _ Hok _ _ Hrow) as (v & -> & Hv). cbn. by rewrite Hv. }
  split; [intros s' d Hs; by apply (share_step_keeps _ _ Hok Hs)|].
  split; [intros s' k row Hs; by apply (share_step_keeps _ _ Hok Hs)|].
  intros i k json payloads params e s1 p1 Hp. split; [|by intros; eapply prepare_again].
  by destruct (prepare_Ok _ _ _ _ _ _ _ _ _ Hp) as (? & ? & ? & _ & _ & _ & _ & ? & _).
Qed.

(** C29. From a readiness snapshot the code accepts whose helpers are fixed points of
    canonicalization, with a designated position inside the batch, sizes within the integer
    widths and entropy of the requested length, planning succeeds, and the fresh plan passes
    both checks that guard it: every share's targets are distinct helpers of the snapshot in
    the expected number, no helper exceeds the initial maximum of a complete batch, and the
    designated share, due at once, is the only one marked immediate. *)
Theorem planned_delivery_validates i k share_count params position e :
  delivery_request share_count params position e ->
  exists plan, plan_delivery i k share_count params position e = Ok plan
    /\ validate_share_delivery_plan plan share_count = Ok (fleet_configured (params_fleet params))
    /\ validate_immediate_plan plan position = Ok tt.
Proof.
  intros Hreq. destruct (plan_delivery_placed i k _ _ _ _ Hreq) as (plans & Hplan & Hplaced).
  destruct (request_fleet _ _ _ _ Hreq) as (c & r & Hf). destruct (from_readiness_spec _ _ _ Hf) as (Hnd & Hne & Hperm & _).
  pose proof (request_stable _ _ _ _ Hreq) as Hst.
  eexists. split; [exact Hplan|]. split; [by eapply placed_validates|].
  destruct Hplaced as [Hc Hplans _ _]. unfold validate_immediate_plan. cbn [share_plans].
  destruct (List.find _ _) as [[x p]|] eqn:Hfind.
  { apply List.find_some in Hfind as [Hin%list_elem_of_In Hbad]. apply elem_of_lookup_imap in Hin as (y & q & Heq & Hq).
    injection Heq as -> ->. destruct (Hplans y q Hq) as (_ & Hsub & _).
    apply andb_true_iff in Hbad as [Hm Hz]. cbn in Hm, Hz. by rewrite (bool_decide_true (plan_submit_at q = 0%N)) in Hz by auto. }
  cbn [mbind result_bind]. rewrite (marked_positions_designated position), bool_decide_true; [done|done| |].
  - intros j p Hp. by destruct (Hplans j p Hp) as (? & _).
  - intros d Hd. rewrite Hc. by apply (request_position _ _ _ _ Hreq).
Qed.
End facts.

(** ** A round of one vote *)

#[export] Instance ShareSubmissionPlan_eq_dec : EqDecision ShareSubmissionPlan.
Proof. solve_decision. Defined.

#[export] Instance ShareSubmissionPlan_countable : Countable ShareSubmissionPlan.
Proof.
  apply (inj_countable' (fun p => (plan_immediate p, plan_submit_at p, plan_target_count p, target_servers p))
    (fun t => let '(i, s, c, u) := t in Build_ShareSubmissionPlan i s c u)). by intros [].
Defined.

Definition coded {A} `{Countable A} (x : A) : text := [Npos (encode x)].
Definition uncoded {A} `{Countable A} (t : text) : result text A :=
  match t with [Npos p] => ok_or (decode p) (chars "invalid") | _ => Err (chars "invalid") end.

Lemma uncoded_coded {A} `{Countable A} (x : A) : uncoded (coded x) = Ok x.
Proof. unfold uncoded, coded. by rewrite decode_encode. Qed.

(** URLs that are their own text, and JSON as a numbering. *)
Definition plain_urls : UrlCrate :=
  {| Url := text; url_parse := fun t => Some t; url_scheme := fun _ => "https"; url_username := fun _ => []; url_password := fun _ => None;
     url_query := fun _ => None; url_fragment := fun _ => None; url_domain := fun _ => None; url_set_host := fun u _ => Some u;
     url_port := fun _ => None; url_clear_port := fun u => Some u; url_path := fun _ => []; url_set_path := fun u _ => u;
     url_as_str := fun u => u |}.

Definition plain_texts : UrlTexts :=
  {| parse_error_text := fun t => t; host_error_text := fun t => t; debug_text := fun t => t |}.

Definition numbered_json : PlanJson :=
  {| urls_to_json := coded; urls_from_json := uncoded; urls_round_trip := uncoded_coded;
     plans_to_json := coded; plans_from_json := uncoded; plans_round_trip := uncoded_coded;
     json_set_position := fun json position => json ++ [Z.to_N position] |}.

#[local] Existing Instances plain_urls plain_texts numbered_json.

Definition delivery_inputs : PlanningInputs :=
  {| ballot_intents := {[ 1%N := Choice 0; 2%N := Skipped ]}; vote_statuses := []; phases_for_proposal := fun _ => [];
     bundle_indexes := [0%N]; legacy_rows := ∅ |}.

Definition delivery_params : PlanningParams :=
  {| params_fleet := {| fleet_configured := map chars ["a"; "b"; "c"]; fleet_ranked := map chars ["c"; "a"; "b"]; fleet_ready_count := 1 |};
     params_now := 1000; params_vote_end := 900000; params_buffer := Some 3600%N; params_proposal_ids := [2%N; 1%N] |}.

Definition delivery_entropy : Entropy :=
  {| submit_at_bytes := fun n => repeat Byte.x5a (N.to_nat n); server_bytes := fun n => repeat Byte.xc3 (N.to_nat n) |}.

Definition committed_vote : VoteRow :=
  {| vote_choice := 0; vote_vc_position := None; vote_commitment_json := Some (chars "{}") |}.

(** The round after its vote was committed and its delivery prepared. *)
Definition voted_round : RoundShares := write_vote (0%N, 1%N) committed_vote new_round.
Definition prepared_round : result VotingError (RoundShares * ShareDeliveryPlan) :=
  prepare_share_delivery_plan delivery_inputs (0%N, 1%N) (chars "{}") [0%N; 1%N; 2%N] delivery_params delivery_entropy voted_round.

Definition round_after {A} (r : result VotingError (RoundShares * A)) : RoundShares :=
  match r with Ok (s, _) => s | Err _ => new_round end.

Lemma prepared_round_history : rtc share_step new_round (round_after prepared_round).
Proof.
  apply (rtc_r _ voted_round); [eapply rtc_r; [apply rtc_refl|apply step_write_vote]|].
  destruct prepared_round as [[s plan]|] eqn:H; [by eapply step_prepare|]. vm_compute in H. discriminate.
Qed.

Lemma round_immediate_share_single_witness :
  let s := round_after prepared_round in
  let key := {| immediate_bundle_index := 0; immediate_proposal_id := 1; immediate_share_index := 0 |} in
  marks s key
  /\ (forall m m', marks s m -> marks s m' -> m = m' /\ round_immediate s = Some m).
Proof.
  split; [|exact (proj1 (round_immediate_share_single _ prepared_round_history))].
  destruct (round_plans (round_after prepared_round) !! (0%N, 1%N)) as [row|] eqn:Hrow; [|by vm_compute in Hrow].
  exists (0%N, 1%N), row, [{| immediate_bundle_index := 0; immediate_proposal_id := 1; immediate_share_index := 0 |}].
  split; [done|]. split; [|by apply list_elem_of_singleton]. vm_compute in Hrow. injection Hrow as <-. by vm_compute.
Defined.

Lemma delivery_request_sample : delivery_request 3 delivery_params (Some 0%N) delivery_entropy.
Proof.
  constructor.
  - exists (map chars ["a"; "b"; "c"]), (map chars ["c"]). reflexivity.
  - repeat constructor.
  - intros d [= <-]. cbn. lia.
  - by vm_compute.
  - by vm_compute.
  - intros n. cbn. rewrite repeat_length. lia.
  - intros n. cbn. rewrite repeat_length. lia.
Qed.

Lemma planned_delivery_validates_witness :
  exists plan, plan_delivery delivery_inputs (0%N, 1%N) 3 delivery_params (Some 0%N) delivery_entropy = Ok plan
    /\ validate_share_delivery_plan plan 3 = Ok (map chars ["a"; "b"; "c"])
    /\ validate_immediate_plan plan (Some 0%N) = Ok tt.
Proof. exact (planned_delivery_validates delivery_inputs (0%N, 1%N) 3 _ _ _ delivery_request_sample). Defined.
