(* ===== verification/RoundSnapshot.v ===== *)
(** * The durable state of one round

    Models [round_planning/snapshot.rs] and [round_planning/vote_units.rs]: the plain data
    the planner reads about one wallet's round, the transaction hashes and tree positions it
    reports, and the grouping of votes into the units the chain dispatches.  [RoundLoading]
    reads it from the tables. *)

From S2P Require Import Prelude Sorting Types Diagnostics Identity Generation LifecyclePlanning ShareTiming SharePlacement.
From S2P Require Import Ballot Phases.

(** ** Data *)

Record DelegationSubmissionStatus : Type := {
  status_bundle_index : N;
  status_phase : DelegationPhase;
  status_diagnostic : option ChainSubmissionDiagnostic
}.

Record BundleSnapshot : Type := {
  capability_imported : bool;
  bundle_delegation_tx_hash : option string
}.

Record VoteSnapshot : Type := {
  vote_choice : N;
  vote_phase : VotePhase;
  vote_tx_hash_column : option string;
  vote_vc_tree_position : option Z;
  vote_recovery : option VoteRecoveryBundle
}.

(** Ordered maps are finite maps, iterated in the order of their keys. *)
Record RoundSnapshot : Type := {
  snapshot_round_id : string;
  delegations : list DelegationSubmissionStatus;
  bundles : gmap N BundleSnapshot;
  votes : gmap (N * N) VoteSnapshot;
  shares : list ShareDelegationRecord;
  share_phases : list (N * N * N * SharePhase);
  intents : gmap N Decision;
  lifecycle_hashes : LifecycleTransactionHashes;
  persisted_immediate_share : option ImmediateShareKey;
  rejection_blocked_bundles : gmap N ChainSubmissionDiagnostic
}.

(** Order of [(u32, u32)] keys. *)
Definition key_leb (a b : N * N) : bool := (a.1 <? b.1)%N || ((a.1 =? b.1)%N && (a.2 <=? b.2)%N).

Definition votes_in_order (s : RoundSnapshot) : list ((N * N) * VoteSnapshot) :=
  sort_by (fun x y => key_leb x.1 y.1) (map_to_list (votes s)).

(** [delegations] collected into an ordered map: a later entry replaces an earlier one. *)
Definition delegation_phases (s : RoundSnapshot) : gmap N DelegationPhase :=
  list_to_map (reverse (map (fun d => (status_bundle_index d, status_phase d)) (delegations s))).

Definition sorted_keys {A} (m : gmap N A) : list N := sort_by N.leb (map fst (map_to_list m)).

(** ** Errors and panics *)

(** A planning call fails with an error of the code or panics. *)
Inductive PlanError : Type := Failed (e : VotingError) | Panicked.

Definition failed {A} (r : result VotingError A) : result PlanError A := map_err Failed r.

(** ["round={round_id}, bundle={b}"] and its extension by a proposal. *)
Definition bundle_place (round_id : string) (b : N) : text :=
  chars "round=" ++ chars round_id ++ chars ", bundle=" ++ decimal b.
Definition vote_place (round_id : string) (b p : N) : text :=
  bundle_place round_id b ++ chars ", proposal=" ++ decimal p.

Section snapshot.
Context `{GT : GenerationTables, HX : HexCrate, SH : Sha256Crate}.

(** ** Reported hashes and positions *)

Definition delegation_tx_hash (s : RoundSnapshot) (b : N) : option string :=
  match snapshot_hash (lifecycle_hashes s) b PlanDelegation with
  | Some hash => Some hash
  | None => bundle ← bundles s !! b; bundle_delegation_tx_hash bundle
  end.

Definition vote_tx_hash (s : RoundSnapshot) (b p : N) : option string :=
  match snapshot_hash (lifecycle_hashes s) b (PlanVote p) with
  | Some hash => Some hash
  | None => vote ← votes s !! (b, p); vote_tx_hash_column vote
  end.

Definition vote_batch_tx_hash (s : RoundSnapshot) (b : N) (digest : bytes32) (anchor : N) : option string :=
  match snapshot_hash (lifecycle_hashes s) b (PlanVoteBatch digest) with
  | Some hash => Some hash
  | None => vote_tx_hash s b anchor
  end.

Definition confirmed_tree_position (s : RoundSnapshot) (b p : N) : result VotingError (option N) :=
  match votes s !! (b, p) with
  | None => Err (VeInternal (chars "failed to get commitment bundle: vote not found for "
                   ++ vote_place (snapshot_round_id s) b p))
  | Some vote =>
      match vote_recovery vote, vote_vc_tree_position vote with
      | Some _, Some position =>
          position' ← ok_or (u64_try_from position)
            (VeInternal (chars "stored vc_tree_position must be non-negative, got " ++ decimal_Z position));
          Ok (Some position')
      | Some _, None =>
          Err (VeInternal (chars "commitment bundle is stored without vc_tree_position; refusing to assume position 0"))
      | None, _ => Ok None
      end
  end.

(** In proposal order. *)
Definition bundle_recoveries (s : RoundSnapshot) (b : N) : list VoteRecoveryBundle :=
  omap (fun entry => if bool_decide (entry.1.1 = b) then vote_recovery entry.2 else None) (votes_in_order s).

(** ** Vote units *)

Inductive VoteUnitId : Type :=
| UnitSingleton (bundle_index proposal_id : N)
| UnitBatch (bundle_index : N) (ordered_batch_digest : bytes32).

#[export] Instance VoteUnitId_eq_dec : EqDecision VoteUnitId.
Proof. solve_decision. Defined.

Record VoteMember : Type := {
  member_proposal_id : N;
  member_recovery : option VoteRecoveryBundle
}.

Record VoteUnit : Type := {
  unit_id : VoteUnitId;
  unit_bundle_index : N;
  unit_members : list VoteMember;
  unit_phase : VotePhase
}.

(** The anchor of a unit is its first member; an empty unit would panic. *)
Definition anchor_proposal_id (u : VoteUnit) : option N := member_proposal_id <$> head (unit_members u).

Definition proposal_ids (u : VoteUnit) : list N := map member_proposal_id (unit_members u).

Definition unit_contains (u : VoteUnit) (p : N) : bool := bool_decide (p ∈ proposal_ids u).

Definition unit_batch_digest (u : VoteUnit) : option bytes32 :=
  match unit_id u with UnitSingleton _ _ => None | UnitBatch _ digest => Some digest end.

Definition singleton_unit (b p : N) (vote : VoteSnapshot) : VoteUnit :=
  {| unit_id := UnitSingleton b p; unit_bundle_index := b;
     unit_members := [{| member_proposal_id := p; member_recovery := vote_recovery vote |}];
     unit_phase := vote_phase vote |}.

(** The batch a vote is grouped by, while the chain may still act on it. *)
Definition active_batch (vote : VoteSnapshot) : option VoteBatchRecovery :=
  match vote_phase vote with
  | VoteCommitted | VoteSubmitted | VoteSubmissionManaged => recovery ← vote_recovery vote; rec_batch recovery
  | VotePrepared | VoteSubmittedWithoutHash | VoteSubmissionRejected | VoteConfirmed => None
  end.

(** One member: its row is present, in the unit's phase and agreed by the ballot, and the
    hashes submitted members report are one. *)
Definition group_member (s : RoundSnapshot) (intents : gmap N Decision) (b : N) (phase : VotePhase)
  (shared_tx_hash : option string) (recovery : VoteRecoveryBundle) : result VotingError (option string * VoteMember) :=
  let round_id := snapshot_round_id s in
  let p := rec_proposal_id recovery in
  member ← ok_or (votes s !! (b, p))
             (VeInvalidInput (chars "persisted atomic vote batch is missing proposal " ++ decimal p ++ chars " for "
                ++ bundle_place round_id b));
  _ ← fail_if (negb (bool_decide (vote_phase member = phase)))
        (VeInvalidInput (chars "persisted atomic vote batch has mixed phases for " ++ bundle_place round_id b
           ++ chars ": proposal " ++ decimal p ++ chars " is " ++ chars (vote_phase_name (vote_phase member))
           ++ chars ", expected " ++ chars (vote_phase_name phase)));
  _ ← fail_if (negb (bool_decide (vote_choice member = rec_vote_decision recovery))
               || match intents !! p with
                  | Some intent => negb (bool_decide (intent = Choice (rec_vote_decision recovery)))
                  | None => false
                  end)
        (VeInvalidInput (chars "persisted atomic vote batch conflicts with ballot intent for " ++ vote_place round_id b p));
  shared ← match bool_decide (phase = VoteSubmitted), vote_tx_hash s b p with
           | true, Some tx_hash =>
               _ ← fail_if (match shared_tx_hash with Some expected => negb (String.eqb expected tx_hash) | None => false end)
                     (VeInvalidInput (chars "submitted atomic vote batch has conflicting transaction hashes for "
                        ++ bundle_place round_id b));
               Ok (Some tx_hash)
           | _, _ => Ok shared_tx_hash
           end;
  Ok (shared, {| member_proposal_id := p; member_recovery := vote_recovery member |}).

Fixpoint group_members (s : RoundSnapshot) (intents : gmap N Decision) (b : N) (phase : VotePhase)
  (shared_tx_hash : option string) (recoveries : list VoteRecoveryBundle) : result VotingError (list VoteMember) :=
  match recoveries with
  | [] => Ok []
  | recovery :: rest =>
      grouped ← group_member s intents b phase shared_tx_hash recovery;
      members ← group_members s intents b phase grouped.1 rest;
      Ok (grouped.2 :: members)
  end.

(** A vote is claimed by one batch. *)
Definition claim_member (round_id : string) (b : N) (grouped : gset (N * N)) (m : VoteMember) :
  result VotingError (gset (N * N)) :=
  _ ← fail_if (bool_decide ((b, member_proposal_id m) ∈ grouped))
        (VeInvalidInput (chars "vote belongs to more than one atomic batch for "
           ++ vote_place round_id b (member_proposal_id m)));
  Ok ({[(b, member_proposal_id m)]} ∪ grouped).

(** One vote: already grouped, a unit of its own, or the first seen of its batch. *)
Definition group_vote (s : RoundSnapshot) (intents : gmap N Decision) (acc : list VoteUnit * gset (N * N))
  (entry : (N * N) * VoteSnapshot) : result VotingError (list VoteUnit * gset (N * N)) :=
  let '(units, grouped) := acc in
  let '((b, p), vote) := entry in
  if bool_decide ((b, p) ∈ grouped) then Ok acc
  else match active_batch vote with
       | None => Ok (units ++ [singleton_unit b p vote], grouped)
       | Some batch =>
           recoveries ← assemble_vote_batch_recoveries (snapshot_round_id s) b (batch_recovery_digest batch)
                          (bundle_recoveries s b);
           _ ← fail_if (bool_decide (recoveries = []))
                 (VeInvalidInput (chars "persisted atomic vote batch is empty for " ++ bundle_place (snapshot_round_id s) b));
           members ← group_members s intents b (vote_phase vote) None recoveries;
           grouped ← fold_results (claim_member (snapshot_round_id s) b) grouped members;
           Ok (units ++ [{| unit_id := UnitBatch b (batch_recovery_digest batch); unit_bundle_index := b;
                            unit_members := members; unit_phase := vote_phase vote |}], grouped)
       end.

Definition group_vote_units (s : RoundSnapshot) (intents : gmap N Decision) : result VotingError (list VoteUnit) :=
  grouping ← fold_results (group_vote s intents) ([], ∅) (votes_in_order s);
  Ok grouping.1.
End snapshot.
