(* ===== verification/RoundUnits.v ===== *)
(** * Vote units partition the votes

    Facts about [RoundSnapshot]: iteration order, and that grouping puts every vote of the
    round in exactly one unit, whose members are in the unit's phase and agreed by the
    ballot.  A batch is grouped whole. *)

From S2P Require Import Prelude Sorting Types Diagnostics Identity Generation LifecyclePlanning ShareTiming SharePlacement.
From S2P Require Import Ballot Phases RoundSnapshot.

(** ** Iteration *)

Lemma elem_of_votes_in_order s k v : (k, v) ∈ votes_in_order s <-> votes s !! k = Some v.
Proof. unfold votes_in_order. by rewrite elem_of_sort_by, elem_of_map_to_list. Qed.

Lemma NoDup_votes_in_order s : NoDup (map fst (votes_in_order s)).
Proof. unfold votes_in_order. rewrite sort_by_Permutation. apply NoDup_fst_map_to_list. Qed.

Lemma elem_of_sorted_keys {A} (m : gmap N A) b : b ∈ sorted_keys m <-> is_Some (m !! b).
Proof.
  unfold sorted_keys. rewrite elem_of_sort_by, list_elem_of_fmap. split.
  - intros ([b' a] & -> & H%elem_of_map_to_list). by exists a.
  - intros [a H]. exists (b, a). split; [done|by apply elem_of_map_to_list].
Qed.

Lemma NoDup_sorted_keys {A} (m : gmap N A) : NoDup (sorted_keys m).
Proof. unfold sorted_keys. rewrite sort_by_Permutation. apply NoDup_fst_map_to_list. Qed.

Section units.
Context `{GT : GenerationTables, HX : HexCrate, SH : Sha256Crate}.
Variable s : RoundSnapshot.

(** A stored recovery bundle names the row it is stored in. *)
Definition recoveries_own_rows : Prop :=
  forall k v r, votes s !! k = Some v -> vote_recovery v = Some r -> rec_proposal_id r = k.2.

Lemma elem_of_bundle_recoveries b r :
  r ∈ bundle_recoveries s b <-> exists p v, votes s !! (b, p) = Some v /\ vote_recovery v = Some r.
Proof.
  unfold bundle_recoveries. rewrite list_elem_of_omap. split.
  - intros ([[b' p] v] & Hin & H). cbn in H. case_bool_decide; [subst|done]. exists p, v. by rewrite elem_of_votes_in_order in Hin.
  - intros (p & v & Hv & Hr). exists ((b, p), v). rewrite elem_of_votes_in_order. split; [done|]. cbn. by rewrite bool_decide_true.
Qed.

(** The unit a vote belongs to, by its row alone. *)
Definition unit_name (b p : N) (v : VoteSnapshot) : VoteUnitId :=
  match active_batch v with
  | None => UnitSingleton b p
  | Some batch => UnitBatch b (batch_recovery_digest batch)
  end.

(** A member of a unit: its row, in the unit's phase, under the unit's name, with its own
    recovery and, in a batch, no contradicting ballot intent. *)
Record member_ok (ballot : gmap N Decision) (u : VoteUnit) (m : VoteMember) (v : VoteSnapshot) : Prop := {
  member_row : votes s !! (unit_bundle_index u, member_proposal_id m) = Some v;
  member_phase : vote_phase v = unit_phase u;
  member_name : unit_name (unit_bundle_index u) (member_proposal_id m) v = unit_id u;
  member_material : member_recovery m = vote_recovery v;
  member_agrees : is_Some (active_batch v) -> ballot_relation ballot (member_proposal_id m) (vote_choice v) <> Conflicts
}.

Record unit_ok (ballot : gmap N Decision) (u : VoteUnit) : Prop := {
  unit_nonempty : unit_members u <> [];
  unit_distinct : NoDup (proposal_ids u);
  unit_rows : forall m, m ∈ unit_members u -> exists v, member_ok ballot u m v;
  unit_complete : forall b p v, votes s !! (b, p) = Some v -> unit_name b p v = unit_id u ->
    unit_bundle_index u = b /\ p ∈ proposal_ids u
}.

Lemma singleton_unit_ok ballot b p v :
  votes s !! (b, p) = Some v -> active_batch v = None -> unit_ok ballot (singleton_unit b p v).
Proof.
  intros Hv Hb. split; cbn.
  - done.
  - apply NoDup_singleton.
  - intros m ->%list_elem_of_singleton. exists v. split; cbn; [done|done|by unfold unit_name; rewrite Hb|done|].
    rewrite Hb. by intros [? ?].
  - intros b' p' v' Hv'. unfold unit_name. destruct (active_batch v'); [done|]. intros [= -> ->]. split; [done|by left].
Qed.

(** ** Members of a batch *)

Lemma group_member_Ok ballot b phase shared r shared' m :
  group_member s ballot b phase shared r = Ok (shared', m) ->
  exists v, votes s !! (b, rec_proposal_id r) = Some v /\ vote_phase v = phase
    /\ m = {| member_proposal_id := rec_proposal_id r; member_recovery := vote_recovery v |}
    /\ ballot_relation ballot (rec_proposal_id r) (vote_choice v) <> Conflicts.
Proof.
  unfold group_member. intros H. inv_ok. exists a. split; [done|]. split; [done|]. split; [congruence|].
  unfold ballot_relation. destruct (ballot !! _) as [[c|]|]; [|by inv_ok|done]. inv_ok.
  match goal with Hc : Choice _ = Choice _ |- _ => injection Hc as -> end. by rewrite bool_decide_true.
Qed.

Lemma group_members_Ok ballot b phase shared rs ms :
  group_members s ballot b phase shared rs = Ok ms ->
  Forall2 (fun r m => exists v, votes s !! (b, rec_proposal_id r) = Some v /\ vote_phase v = phase
    /\ m = {| member_proposal_id := rec_proposal_id r; member_recovery := vote_recovery v |}
    /\ ballot_relation ballot (rec_proposal_id r) (vote_choice v) <> Conflicts) rs ms.
Proof.
  revert shared ms. induction rs as [|r rs IH]; intros shared ms H; cbn [group_members] in H; inv_ok; [constructor|].
  destruct a as [shared' m]. constructor; [by eapply group_member_Ok|by eapply IH].
Qed.

Lemma claim_members_Ok round_id b grouped ms grouped' :
  fold_results (claim_member round_id b) grouped ms = Ok grouped' ->
  NoDup (map member_proposal_id ms)
  /\ forall k, k ∈ grouped' <-> k ∈ grouped \/ k.1 = b /\ k.2 ∈ map member_proposal_id ms.
Proof.
  intros H. cut (NoDup (map member_proposal_id ms)
    /\ (forall p, p ∈ map member_proposal_id ms -> (b, p) ∉ grouped)
    /\ forall k, k ∈ grouped' <-> k ∈ grouped \/ k.1 = b /\ k.2 ∈ map member_proposal_id ms); [naive_solver|].
  revert grouped H. induction ms as [|m ms IH]; intros grouped H; cbn [fold_results] in H.
  { injection H as <-. split; [constructor|]. split; [intros p Hp; by apply elem_of_nil in Hp|].
    intros k. cbn. rewrite elem_of_nil. naive_solver. }
  apply result_bind_Ok in H as (g & Hg & H). unfold claim_member in Hg. inv_ok. destruct (IH _ H) as (Hnd & Hfresh & Hin). cbn [map]. split; [|split].
  - constructor; [|done]. intros Hp. apply (Hfresh _ Hp). apply elem_of_union_l. by apply elem_of_singleton.
  - intros p [->|Hp]%elem_of_cons; [done|]. intros Hg. apply (Hfresh p Hp). by apply elem_of_union_r.
  - intros [b' p']. rewrite Hin, elem_of_union, elem_of_singleton, elem_of_cons. cbn. split.
    + intros [[[= -> ->]|?]|[? ?]]; auto.
    + intros [?|[-> [->|?]]]; auto.
Qed.

Lemma active_batch_Some v batch : active_batch v = Some batch ->
  (exists r, vote_recovery v = Some r /\ rec_batch r = Some batch)
  /\ forall w, vote_phase w = vote_phase v -> active_batch w = (r ← vote_recovery w; rec_batch r).
Proof.
  unfold active_batch. destruct (vote_phase v); try done; intros H;
    (split; [destruct (vote_recovery v) as [r|]; [by exists r|done]|intros w ->; done]).
Qed.

(** The members of an assembled batch are the votes of its digest. *)
Lemma batch_unit_ok ballot b p v batch rs ms :
  recoveries_own_rows -> votes s !! (b, p) = Some v -> active_batch v = Some batch ->
  assembled_batch (snapshot_round_id s) (batch_recovery_digest batch) (bundle_recoveries s b) rs ->
  group_members s ballot b (vote_phase v) None rs = Ok ms -> NoDup (map member_proposal_id ms) ->
  unit_ok ballot {| unit_id := UnitBatch b (batch_recovery_digest batch); unit_bundle_index := b;
                    unit_members := ms; unit_phase := vote_phase v |}.
Proof.
  intros Hown Hv Hactive [Hne Hperm Hplace _] Hms Hnd. apply group_members_Ok in Hms.
  destruct (active_batch_Some v batch Hactive) as [_ Hsame]. split; cbn; [|done| |].
  - intros ->. by inversion Hms; subst.
  - intros m [i Hi]%list_elem_of_lookup_1. destruct (Forall2_lookup_r _ _ _ _ _ Hms Hi) as (r & Hr & w & Hw & Hph & -> & Hrel).
    destruct (Hplace i r Hr) as (batch' & Hb' & Hd & _).
    apply list_elem_of_lookup_2 in Hr. rewrite Hperm in Hr.
    apply list_elem_of_In, filter_In in Hr as [Hr _]. apply list_elem_of_In, elem_of_bundle_recoveries in Hr as (q & w' & Hw' & Hr').
    pose proof (Hown _ _ _ Hw' Hr') as Hq. cbn in Hq. subst q. assert (w' = w) as -> by congruence.
    exists w. split; cbn; [done|done| |done|done]. unfold unit_name. rewrite (Hsame w Hph), Hr'. cbn. by rewrite Hb', Hd.
  - intros b' q w Hw. unfold unit_name. destruct (active_batch w) as [batch'|] eqn:Hb'; [|done]. intros [= -> Hd].
    split; [done|]. destruct (active_batch_Some w batch' Hb') as [(r & Hr & Hrb) _].
    assert (r ∈ rs) as Hin.
    { rewrite Hperm. apply list_elem_of_In, filter_In. split; [apply list_elem_of_In, elem_of_bundle_recoveries; eauto|].
      unfold in_batch. rewrite Hrb. cbn. by apply bool_decide_eq_true. }
    apply list_elem_of_lookup_1 in Hin as [i Hi]. destruct (Forall2_lookup_l _ _ _ _ _ Hms Hi) as (m & Hm & w' & _ & _ & -> & _).
    apply list_elem_of_fmap. eexists. split; [|by eapply list_elem_of_lookup_2]. cbn. by rewrite (Hown _ _ _ Hw Hr).
Qed.

(** ** The grouping *)

(** After some votes: sound units with distinct names, one for each vote passed, and the
    votes of every batch among them recorded. *)
Record grouping_ok (ballot : gmap N Decision) (passed : list ((N * N) * VoteSnapshot)) (units : list VoteUnit) (grouped : gset (N * N)) : Prop := {
  grouping_units : forall u, u ∈ units -> unit_ok ballot u;
  grouping_names : NoDup (map unit_id units);
  grouping_passed : forall k v, (k, v) ∈ passed -> unit_name k.1 k.2 v ∈ map unit_id units;
  grouping_singletons : forall b p, UnitSingleton b p ∈ map unit_id units -> (b, p) ∈ map fst passed;
  grouping_batches : forall k, k ∈ grouped <-> exists v, votes s !! k = Some v /\ is_Some (active_batch v)
                       /\ unit_name k.1 k.2 v ∈ map unit_id units
}.

Lemma grouping_push ballot passed k v units grouped grouped' u :
  grouping_ok ballot passed units grouped -> unit_ok ballot u -> unit_name k.1 k.2 v = unit_id u ->
  unit_id u ∉ map unit_id units -> (forall b p, unit_id u = UnitSingleton b p -> k = (b, p)) ->
  (forall k', k' ∈ grouped' <-> exists w, votes s !! k' = Some w /\ is_Some (active_batch w)
     /\ (unit_name k'.1 k'.2 w ∈ map unit_id units \/ unit_name k'.1 k'.2 w = unit_id u)) ->
  grouping_ok ballot (passed ++ [(k, v)]) (units ++ [u]) grouped'.
Proof.
  intros [Hunits Hnames Hpassed Hsing _] Hu Hname Hnew Hkey Hbatch. split.
  - intros u' [?| ->%list_elem_of_singleton]%elem_of_app; auto.
  - rewrite map_app. apply NoDup_app. split; [done|]. split; [|apply NoDup_singleton].
    intros id Hid ->%list_elem_of_singleton. done.
  - intros k' v' Hk'. rewrite map_app. apply elem_of_app.
    apply elem_of_app in Hk' as [Hk'|[= -> ->]%list_elem_of_singleton]; [left; by apply Hpassed|right].
    rewrite Hname. by left.
  - intros b p Hid. rewrite map_app in Hid |- *. apply elem_of_app.
    apply elem_of_app in Hid as [Hid|Hid%list_elem_of_singleton]; [left; by apply Hsing|right].
    cbn. rewrite (Hkey b p) by done. by left.
  - intros k'. rewrite Hbatch, map_app. setoid_rewrite elem_of_app. setoid_rewrite list_elem_of_singleton. done.
Qed.

Lemma group_vote_ok ballot passed k v units grouped units' grouped' :
  recoveries_own_rows -> votes s !! k = Some v -> k ∉ map fst passed -> grouping_ok ballot passed units grouped ->
  group_vote s ballot (units, grouped) (k, v) = Ok (units', grouped') ->
  grouping_ok ballot (passed ++ [(k, v)]) units' grouped'.
Proof.
  intros Hown Hv Hfresh Hok H. pose proof Hok as [Hunits Hnames Hpassed Hsing Hbatch]. destruct k as [b p]. cbn in H.
  destruct (bool_decide ((b, p) ∈ grouped)) eqn:Hg; [|destruct (active_batch v) as [batch|] eqn:Hactive].
  - injection H as <- <-. apply bool_decide_eq_true in Hg. split; [done|done| |intros; rewrite map_app; apply elem_of_app; auto|done].
    intros k' v' [Hin|[= -> ->]%list_elem_of_singleton]%elem_of_app; [by apply Hpassed|].
    apply Hbatch in Hg as (v'' & Hv'' & _ & ?). by assert (v'' = v) as -> by congruence.
  - inv_ok. apply assemble_vote_batch_Ok in Ha as Hassembled. apply claim_members_Ok in Ha2 as [Hnd Hin].
    match type of Ha1 with _ = Ok ?ms => set (u := {| unit_id := UnitBatch b (batch_recovery_digest batch); unit_bundle_index := b;
      unit_members := ms; unit_phase := vote_phase v |}) in * end.
    assert (unit_ok ballot u) as Hu by by eapply batch_unit_ok.
    assert (unit_name b p v = unit_id u) as Hname by (unfold unit_name; by rewrite Hactive).
    eapply grouping_push; [done|done|done| |done|].
    + intros Hold. apply Hg, Hbatch. exists v. split; [done|]. split; [by rewrite Hactive|]. cbn [fst snd]. by rewrite Hname.
    + intros [b' p']. rewrite Hin, Hbatch. cbn [fst snd]. split.
      * intros [(w & ? & ? & ?)|[-> Hp']]; [exists w; by auto|].
        apply list_elem_of_fmap in Hp' as (m & -> & Hm). destruct (unit_rows _ _ Hu m Hm) as (w & [Hrow _ Hn _ _]).
        change (unit_name b (member_proposal_id m) w = unit_id u) in Hn. exists w. split; [done|]. split; [|by right].
        unfold unit_name in Hn. destruct (active_batch w); [done|]. discriminate Hn.
      * intros (w & Hw & Hact & [?|Hid]); [left; by exists w|right].
        by destruct (unit_complete _ _ Hu _ _ _ Hw Hid) as [<- ?].
  - injection H as <- <-. assert (unit_name b p v = UnitSingleton b p) as Hname by (unfold unit_name; by rewrite Hactive).
    eapply grouping_push; [done|by apply singleton_unit_ok|done|intros Hid; by apply Hfresh, Hsing|by intros b' p' [= -> ->]|].
    intros k'. rewrite Hbatch. split; [intros (w & ? & ? & ?); exists w; by auto|].
    intros (w & Hw & Hact & [?|Hid]); [by exists w|]. unfold unit_name in Hid. destruct Hact as [? Hact]. by rewrite Hact in Hid.
Qed.

(** What planning may rely on. *)
Record units_ok (ballot : gmap N Decision) (units : list VoteUnit) : Prop := {
  units_sound : forall u, u ∈ units -> unit_ok ballot u;
  units_names : NoDup (map unit_id units);
  units_cover : forall b p v, votes s !! (b, p) = Some v -> exists u, u ∈ units /\ unit_bundle_index u = b /\ p ∈ proposal_ids u
}.

Lemma unit_by_id ballot units u u' : units_ok ballot units -> u ∈ units -> u' ∈ units -> unit_id u = unit_id u' -> u = u'.
Proof.
  intros Hok [i Hi]%list_elem_of_lookup_1 [j Hj]%list_elem_of_lookup_1 Hid. assert (i = j) as ->; [|congruence].
  apply (NoDup_lookup _ _ _ (unit_id u) (units_names _ _ Hok)); apply list_lookup_fmap_Some; [by exists u|by exists u'].
Qed.

Lemma group_vote_units_ok ballot units : recoveries_own_rows -> group_vote_units s ballot = Ok units -> units_ok ballot units.
Proof.
  intros Hown H. unfold group_vote_units in H. inv_ok. destruct a as [us grouped]. cbn.
  assert (grouping_ok ballot (votes_in_order s) us grouped) as [Hunits Hnames Hpassed _ _].
  { apply (fold_results_invariant _ (fun pre st => grouping_ok ballot pre st.1 st.2) _ _ _) in Ha; [done| |].
    - split; cbn; [intros u Hu; by apply elem_of_nil in Hu|constructor|intros k v Hk; by apply elem_of_nil in Hk|
        intros b p Hb; by apply elem_of_nil in Hb|].
      intros k. split; [intros Hk; by apply not_elem_of_empty in Hk|]. intros (v & _ & _ & Hn). by apply elem_of_nil in Hn.
    - intros pre [k v] [us1 g1] [us2 g2] [rest Hrest] Hok Hstep. cbn in *.
      eapply group_vote_ok; [done| | |done|done].
      + apply elem_of_votes_in_order. rewrite Hrest. apply elem_of_app. left. apply elem_of_app. right. by left.
      + pose proof (NoDup_votes_in_order s) as Hnd. rewrite Hrest, !map_app in Hnd.
        apply NoDup_app in Hnd as [Hnd _]. apply NoDup_app in Hnd as (_ & Hdis & _). intros Hin. apply (Hdis _ Hin). by left. }
  split; [done|done|]. intros b p v Hv. pose proof (proj2 (elem_of_votes_in_order s _ _) Hv) as Hin.
  apply Hpassed in Hin. cbn in Hin. apply list_elem_of_fmap in Hin as (u & Hn & Hu).
  exists u. destruct (unit_complete _ _ (Hunits u Hu) _ _ _ Hv Hn). done.
Qed.
End units.
