(* ===== verification/RoundPlanning.v ===== *)
(** * Classification of a round's obligations

    Models [round_planning/classify.rs] and [classify_round] of [round_planning/mod.rs]: from
    a snapshot of the round, its vote units and the ballot to the work the round still owes.
    The closures of [classify] are definitions over one [Pass], the variables its loops
    update.  With it the recovery of helper payloads ([share.rs], [vote.rs], [types.rs]) that
    decides which shares a confirmed vote owes. *)

From S2P Require Import Prelude Sorting Types Diagnostics Identity Generation LifecyclePlanning ShareTiming SharePlacement.
From S2P Require Import Ballot Phases RoundSnapshot.

(** ** Helper payloads of a recovery bundle *)

(** Whether 32 bytes encode a Pallas base field element, and the error texts of [hex]. *)
Class RoundIdCrates : Type := {
  pallas_canonical : bytes32 -> bool;
  hex_error_text : text -> text
}.

Record WireEncryptedShare : Type := { wire_c1 : bytes; wire_c2 : bytes; wire_share_index : N }.

Record SharePayload : Type := {
  payload_vote_round_id : string;
  payload_shares_hash : bytes;
  payload_proposal_id : N;
  payload_vote_decision : N;
  enc_share : WireEncryptedShare;
  payload_tree_position : N;
  all_enc_shares : list WireEncryptedShare;
  payload_share_comms : list bytes;
  primary_blind : bytes
}.

Section payloads.
Context `{HX : HexCrate, RC : RoundIdCrates}.

Definition validate_vote_round_id_bytes (bytes : bytes) : result VotingError unit :=
  id ← ok_or (try_into_bytes32 bytes)
         (VeInvalidInput (chars "vote_round_id must be 32 bytes, got " ++ decimal_nat (length bytes)));
  fail_if (negb (pallas_canonical id)) (VeInvalidInput (chars "vote_round_id is not a canonical Pallas field element")).

Definition validate_vote_round_id_hex (id : string) : result VotingError unit :=
  _ ← fail_if (negb (bool_decide (String.length id = 64)))
        (VeInvalidInput (chars "vote_round_id must be 64 lowercase hex characters, got " ++ decimal_nat (String.length id)));
  _ ← fail_if (negb (forallb (fun c => bool_decide (48 <= c <= 57)%N || bool_decide (97 <= c <= 102)%N) (chars id)))
        (VeInvalidInput (chars "vote_round_id must be lowercase hex"));
  bytes ← ok_or (hex_decode (chars id))
            (VeInvalidInput (chars "vote_round_id is not valid hex: " ++ hex_error_text (chars id)));
  validate_vote_round_id_bytes bytes.

Definition validate_recovery_bundle_vote_fields (r : VoteRecoveryBundle) : result VotingError unit :=
  _ ← validate_vote_round_id_hex (rec_vote_round_id r);
  _ ← validate_proposal_id (rec_proposal_id r);
  validate_vote_decision (rec_vote_decision r) (rec_num_options r).

Definition wire_share (s : EncryptedShare) : WireEncryptedShare :=
  {| wire_c1 := share_c1 s; wire_c2 := share_c2 s; wire_share_index := Generation.share_index s |}.

Definition recover_payloads (r : VoteRecoveryBundle) : result VotingError (list SharePayload) :=
  _ ← validate_recovery_bundle_vote_fields r;
  let all := map wire_share (rec_encrypted_shares r) in
  collect_results
    (fun indexed : nat * WireEncryptedShare =>
       blind ← ok_or (rec_share_blinds r !! indexed.1)
                 (VeInvalidInput (chars "missing primary blind for encrypted share index " ++ decimal_nat indexed.1));
       Ok {| payload_vote_round_id := rec_vote_round_id r; payload_shares_hash := bytes32_bytes (rec_shares_hash r);
             payload_proposal_id := rec_proposal_id r; payload_vote_decision := rec_vote_decision r;
             enc_share := indexed.2; payload_tree_position := rec_vc_tree_position r; all_enc_shares := all;
             payload_share_comms := map bytes32_bytes (rec_share_comms r); primary_blind := bytes32_bytes blind |})
    (imap pair (if rec_single_share r then take 1 all else all)).
End payloads.

(** ** Obligations *)

Record CastDraft : Type := { draft_proposal_id : N; draft_choice : N }.

Inductive BlockedReason : Type := OpenBallot (proposals : list N) | UnrosteredIntents (proposals : list N).

Inductive Obligation : Type :=
| Delegate (bundle_index : N)
| AdvanceDelegation (bundle_index : N) (imported : bool) (phase : DelegationPhase) (tx_hash : option string)
| Retire (unit : VoteUnitId) (members : list N)
| Cast (bundle_index : N) (drafts : list CastDraft) (prerequisite : option N) (signs_delegation : bool)
| Blocked (bundle_index : N) (reason : BlockedReason)
| ReconcileChain (unit : VoteUnitId) (bundle_index : N) (ordered_proposal_ids : list N) (undispatched : bool)
    (tx_hash : option string) (prerequisite : option N)
| Deliver (bundle_index proposal_id vc_tree_position : N) (share_indexes : list N) (prerequisite : option N)
| Confirm (bundle_index proposal_id share_index : N) (accepted outcome_unknown : bool) (prerequisite : option N).

(** [Obligation::bundle_index]. *)
Definition obligation_bundle (o : Obligation) : N :=
  match o with
  | Delegate b | AdvanceDelegation b _ _ _ | Cast b _ _ _ | Blocked b _ | ReconcileChain _ b _ _ _ _
  | Deliver b _ _ _ _ | Confirm b _ _ _ _ _ => b
  | Retire (UnitSingleton b _) _ | Retire (UnitBatch b _) _ => b
  end.

Record RoundObligations : Type := {
  obligations : list Obligation;
  plan_choice_proposals : list N;
  plan_open_proposals : list N;
  plan_unrostered_intents : list N;
  stale_vote_keys : gset (N * N);
  needs_bundle_setup : bool;
  withheld_casts : gset N;
  lifecycle_owned_choices : gset N
}.

(** The variables the passes of [classify] update. *)
Record Pass : Type := {
  pass_obligations : list Obligation;
  reconciled_units : list VoteUnitId;
  delivered_votes : gset (N * N);
  needing_delegation : gset N;
  pass_drafts : gmap N (list CastDraft);
  pass_blocked : gset N;
  pass_withheld : gset N
}.

Section classify.
Context `{GT : GenerationTables, HX : HexCrate, SH : Sha256Crate, RC : RoundIdCrates}.
Variable s : RoundSnapshot.

(** ** Sets the passes read *)

Definition proposal_lifecycle_owned (p : N) : bool :=
  existsb (fun entry => bool_decide (entry.1.2 = p) && vote_phase_is_lifecycle_owned (vote_phase entry.2)) (votes_in_order s).

Definition stale_votes : gset (N * N) :=
  list_to_set (map fst (filter (fun entry => ballot_relation (intents s) entry.1.2 (vote_choice entry.2) = Conflicts)
                          (votes_in_order s))).

(** Undispatched, with a member outside the roster. *)
Definition unit_retired (roster : list N) (u : VoteUnit) : bool :=
  bool_decide (position_of (Some (unit_phase u)) = Undispatched) && bool_decide (roster_relation (proposal_ids u) roster = LeftRoster).

Definition retirable_votes (roster : list N) (units : list VoteUnit) : gset (N * N) :=
  list_to_set (concat (map (fun u => if unit_retired roster u then map (pair (unit_bundle_index u)) (proposal_ids u) else []) units)).

Definition held_bundles (stale retirable : gset (N * N)) : gset N :=
  list_to_set (map (fun entry => entry.1.1)
    (List.filter (fun entry => negb (bool_decide (entry.1 ∈ stale)) && negb (bool_decide (entry.1 ∈ retirable))
                               && vote_phase_holds_bundle (vote_phase entry.2)) (votes_in_order s)))
  ∪ list_to_set (List.filter (fun b => match delegation_phases s !! b with
                                       | Some phase => delegation_phase_holds_bundle phase
                                       | None => false
                                       end) (sorted_keys (delegation_phases s)))
  ∪ dom (rejection_blocked_bundles s).

(** [unit_of]; every vote is in one unit, or the lookup panics. *)
Definition unit_of (units : list VoteUnit) (b p : N) : result PlanError VoteUnit :=
  ok_or (List.find (fun u => bool_decide (unit_bundle_index u = b) && unit_contains u p) units) Panicked.

(** The share indexes a confirmed vote expects and has no row for, in ascending order. *)
Definition missing_share_indexes (b p : N) : result VotingError (list N) :=
  let place := chars "confirmed vote for round " ++ chars (snapshot_round_id s) ++ chars " bundle " ++ decimal b
                 ++ chars " proposal " ++ decimal p in
  recovery ← ok_or (vote ← votes s !! (b, p); vote_recovery vote)
               (VeInvalidInput (place ++ chars " is missing recovery material for helper-share submission"));
  payloads ← recover_payloads recovery;
  let expected := remove_dups (map (fun payload => wire_share_index (enc_share payload)) payloads) in
  _ ← fail_if (bool_decide (expected = [])) (VeInvalidInput (place ++ chars " has no recoverable helper shares"));
  Ok (sort_by N.leb (filter (fun index => index ∉ map (fun x => x.1.2)
        (filter (fun x => x.1.1 = (b, p)) (share_phases s))) expected)).

(** ** Steps of the passes *)

Definition add_obligation (p : Pass) (o : Obligation) : Pass :=
  {| pass_obligations := pass_obligations p ++ [o]; reconciled_units := reconciled_units p;
     delivered_votes := delivered_votes p; needing_delegation := needing_delegation p; pass_drafts := pass_drafts p;
     pass_blocked := pass_blocked p; pass_withheld := pass_withheld p |}.

Definition withhold (p : Pass) (proposal : N) : Pass :=
  {| pass_obligations := pass_obligations p; reconciled_units := reconciled_units p;
     delivered_votes := delivered_votes p; needing_delegation := needing_delegation p; pass_drafts := pass_drafts p;
     pass_blocked := pass_blocked p; pass_withheld := {[proposal]} ∪ pass_withheld p |}.

(** The transaction hash reported for a unit. *)
Definition unit_tx_hash (u : VoteUnit) (anchor : N) : option string :=
  match unit_batch_digest u with
  | Some digest => vote_batch_tx_hash s (unit_bundle_index u) digest anchor
  | None => vote_tx_hash s (unit_bundle_index u) anchor
  end.

(** The closure [reconcile]. *)
Definition reconcile_unit (p : Pass) (u : VoteUnit) : result PlanError Pass :=
  _ ← match bool_decide (unit_phase u = VoteSubmitted), List.find (fun m => bool_decide (member_recovery m = None)) (unit_members u) with
      | true, Some m =>
          Err (Failed (VeInvalidInput (chars "round " ++ chars (snapshot_round_id s) ++ chars " bundle " ++ decimal (unit_bundle_index u)
                 ++ chars " proposal " ++ decimal (member_proposal_id m) ++ chars " has a submitted vote without recovery material")))
      | _, _ => Ok tt
      end;
  if bool_decide (unit_id u ∈ reconciled_units p) then Ok p
  else
    anchor ← ok_or (anchor_proposal_id u) Panicked;
    let p := {| pass_obligations := pass_obligations p; reconciled_units := unit_id u :: reconciled_units p;
                delivered_votes := delivered_votes p; needing_delegation := needing_delegation p; pass_drafts := pass_drafts p;
                pass_blocked := pass_blocked p; pass_withheld := pass_withheld p |} in
    Ok (add_obligation p (ReconcileChain (unit_id u) (unit_bundle_index u) (proposal_ids u)
          (bool_decide (position_of (Some (unit_phase u)) = Undispatched)) (unit_tx_hash u anchor) None)).

Definition deliver (p : Pass) (b pid : N) : result PlanError Pass :=
  if bool_decide ((b, pid) ∈ delivered_votes p) then Ok p
  else
    let p := {| pass_obligations := pass_obligations p; reconciled_units := reconciled_units p;
                delivered_votes := {[(b, pid)]} ∪ delivered_votes p; needing_delegation := needing_delegation p;
                pass_drafts := pass_drafts p; pass_blocked := pass_blocked p; pass_withheld := pass_withheld p |} in
    share_indexes ← failed (missing_share_indexes b pid);
    if bool_decide (share_indexes = []) then Ok p
    else
      found ← failed (confirmed_tree_position s b pid);
      position ← failed (ok_or found (VeInternal (chars "submit shares step missing vc_tree_position for "
                           ++ vote_place (snapshot_round_id s) b pid)));
      Ok (add_obligation p (Deliver b pid position share_indexes None)).

(** A cast is due: no vote, or one the ballot or the roster replaces. *)
Definition cast_due (stale retirable : gset (N * N)) (choice : N) (k : N * N) : bool :=
  match votes s !! k with
  | None => true
  | Some vote =>
      bool_decide (k ∈ stale) || negb (bool_decide (vote_choice vote = choice)) || bool_decide (k ∈ retirable)
      || bool_decide (position_of (Some (vote_phase vote)) = Uncast)
  end.

(** A due cast on a free bundle: a draft, or a blocked bundle while the ballot is open. *)
Definition plan_cast (terminal : bool) (held : gset N) (p : Pass) (pid choice b : N) : Pass :=
  if bool_decide (b ∈ held) then withhold p pid
  else
    let p := {| pass_obligations := pass_obligations p; reconciled_units := reconciled_units p;
                delivered_votes := delivered_votes p; needing_delegation := {[b]} ∪ needing_delegation p;
                pass_drafts := if terminal
                               then <[b := default [] (pass_drafts p !! b) ++ [{| draft_proposal_id := pid; draft_choice := choice |}]]>
                                      (pass_drafts p)
                               else pass_drafts p;
                pass_blocked := if terminal then pass_blocked p else {[b]} ∪ pass_blocked p; pass_withheld := pass_withheld p |} in
    if terminal then p else withhold p pid.

Definition every_member_agrees (roster : list N) (b : N) (u : VoteUnit) : bool :=
  forallb (fun p => bool_decide (p ∈ roster)
             && match votes s !! (b, p) with
                | Some vote => bool_decide (ballot_relation (intents s) p (vote_choice vote) = Agrees)
                | None => false
                end) (proposal_ids u).

Section passes.
Variables (roster : list N) (units : list VoteUnit) (stale retirable : gset (N * N)) (held : gset N) (terminal : bool).

(** The body of the loops over chosen proposals and bundles. *)
Definition plan_bundle (pid choice : N) (p : Pass) (b : N) : result PlanError Pass :=
  if cast_due stale retirable choice (b, pid) then Ok (plan_cast terminal held p pid choice b)
  else match votes s !! (b, pid) with
       | None => Err Panicked
       | Some vote =>
           match position_of (Some (vote_phase vote)) with
           | AtConfirmed => deliver p b pid
           | Undispatched =>
               u ← unit_of units b pid;
               if every_member_agrees roster b u then reconcile_unit p u else Ok (withhold p pid)
           | OnWire => u ← unit_of units b pid; reconcile_unit p u
           | Terminal | Uncast => Ok p
           end
       end.

Definition plan_proposal (p : Pass) (pid : N) : result PlanError Pass :=
  match intents s !! pid with
  | Some (Choice choice) => fold_results (plan_bundle pid choice) p (sorted_keys (delegation_phases s))
  | _ => Ok p
  end.

(** The pass over votes without a recorded intent or outside the roster. *)
Definition plan_unchosen (p : Pass) (entry : (N * N) * VoteSnapshot) : result PlanError Pass :=
  let '((b, pid), vote) := entry in
  if bool_decide (is_Some (intents s !! pid)) && bool_decide (pid ∈ roster) then Ok p
  else match position_of (Some (vote_phase vote)) with
       | OnWire => u ← unit_of units b pid; reconcile_unit p u
       | AtConfirmed => deliver p b pid
       | Uncast | Undispatched | Terminal => Ok p
       end.
End passes.

(** ** Casts, delegations and shares *)

Abbreviation ATOMIC_VOTE_BATCHES_ENABLED := true (only parsing).

Definition cast_signs_delegation (b : N) : bool :=
  negb (match bundles s !! b with Some bundle => capability_imported bundle | None => false end)
  && match delegation_phases s !! b with Some phase => negb (bool_decide (phase = DelegationConfirmed)) | None => false end.

Definition cast_obligations (drafts : gmap N (list CastDraft)) : list Obligation :=
  concat (map (fun entry =>
    let '(b, drafts) := (entry : N * list CastDraft) in
    if ATOMIC_VOTE_BATCHES_ENABLED then [Cast b drafts None (cast_signs_delegation b)]
    else map (fun draft => Cast b [draft] None (cast_signs_delegation b)) drafts)
    (sort_by (fun x y => (x.1 <=? y.1)%N) (map_to_list drafts))).

Definition blocked_obligations (open_proposals unrostered : list N) (blocked : gset N) : list Obligation :=
  map (fun b => Blocked b (if bool_decide (open_proposals = []) then UnrosteredIntents unrostered else OpenBallot open_proposals))
    (sort_by N.leb (elements blocked)).

(** A combined recovery owns its delegation. *)
Definition bundle_combined (b : N) : bool :=
  existsb (fun entry => bool_decide (entry.1.1 = b)
             && bool_decide (is_Some (recovery ← vote_recovery entry.2; batch ← rec_batch recovery; batch_delegation_van batch)))
    (votes_in_order s).

(** The delegation obligation of one bundle, if any. *)
Definition delegation_obligation (needing : gset N) (b : N) (phase : DelegationPhase) : result VotingError (option Obligation) :=
  if bundle_combined b then Ok None
  else match phase with
       | DelegationConfirmed | DelegationProved | DelegationSubmittedWithoutHash | DelegationSubmissionRejected => Ok None
       | DelegationSubmitted | DelegationSubmissionManaged =>
           bundle ← ok_or (bundles s !! b)
             (VeInvalidInput (chars "bundle not found for round " ++ chars (snapshot_round_id s) ++ chars " index " ++ decimal b));
           Ok (Some (AdvanceDelegation b (capability_imported bundle) phase (delegation_tx_hash s b)))
       | DelegationPrepared | DelegationPcztBuilt =>
           Ok (if bool_decide (b ∈ needing) then Some (Delegate b) else None)
       end.

Definition delegation_obligations (needing : gset N) : result VotingError (list Obligation) :=
  found ← collect_results
    (fun b => match delegation_phases s !! b with Some phase => delegation_obligation needing b phase | None => Ok None end)
    (sorted_keys (delegation_phases s));
  Ok (omap (fun o : option Obligation => o) (found : list (option Obligation))).

(** The row of a share, and what its helpers are known to hold. *)
Definition confirm_obligation (stale : gset (N * N)) (x : N * N * N * SharePhase) : option Obligation :=
  let '(b, p, index, phase) := x in
  match phase with
  | ShareConfirmed => None
  | ShareSubmitted =>
      if bool_decide ((b, p) ∈ stale) then None
      else
        let row := List.find (fun r => bool_decide (share_bundle_index r = b) && bool_decide (share_proposal_id r = p)
                                       && bool_decide (ShareTiming.share_index r = index)) (shares s) in
        let accepted := match row with
                        | Some r => share_confirmed r || negb (bool_decide (sent_to_urls r = []))
                        | None => true
                        end in
        let outcome_unknown := match row with
                               | Some r => negb (bool_decide (ambiguous_urls r = [])) || negb (bool_decide (attempting_urls r = []))
                               | None => false
                               end in
        Some (Confirm b p index accepted outcome_unknown None)
  end.

Definition set_prerequisite (delegation_bundles : list N) (o : Obligation) : Obligation :=
  let b := obligation_bundle o in
  let blocked_by := if bool_decide (b ∈ delegation_bundles) then Some b else None in
  match o with
  | Cast b drafts _ signs => Cast b drafts blocked_by signs
  | ReconcileChain u b ids undispatched tx_hash _ => ReconcileChain u b ids undispatched tx_hash blocked_by
  | Deliver b p position indexes _ => Deliver b p position indexes blocked_by
  | Confirm b p index accepted unknown _ => Confirm b p index accepted unknown blocked_by
  | Delegate _ | AdvanceDelegation _ _ _ _ | Retire _ _ | Blocked _ _ => o
  end.

(** ** The classifier *)

Definition no_pass (retired : list Obligation) : Pass :=
  {| pass_obligations := retired; reconciled_units := []; delivered_votes := ∅; needing_delegation := ∅; pass_drafts := ∅;
     pass_blocked := ∅; pass_withheld := ∅ |}.

(** The first vote the chain may have seen that the ballot contradicts. *)
Definition conflicting_vote (stale : gset (N * N)) : option (N * N) :=
  fst <$> List.find (fun entry => bool_decide (entry.1 ∈ stale) && vote_phase_is_lifecycle_owned (vote_phase entry.2)) (votes_in_order s).

Definition classify (units : list VoteUnit) (ballot : BallotIntentClassification) : result PlanError RoundObligations :=
  let roster := roster ballot in
  let unrostered := List.filter (fun p => negb (proposal_lifecycle_owned p)) (unrostered_intents ballot) in
  let owned_choices := List.filter (fun p => proposal_lifecycle_owned p && is_choice (intents s !! p)) (unrostered_intents ballot) in
  let terminal := bool_decide (open_proposals ballot = []) && bool_decide (unrostered = []) in
  let stale := stale_votes in
  let retired := map (fun u => Retire (unit_id u) (proposal_ids u)) (List.filter (unit_retired roster) units) in
  let retirable := retirable_votes roster units in
  let held := held_bundles stale retirable in
  _ ← match conflicting_vote stale with
      | Some (b, p) =>
          Err (Failed (VeInvalidInput (chars "round " ++ chars (snapshot_round_id s) ++ chars " bundle " ++ decimal b
                 ++ chars " proposal " ++ decimal p ++ chars " has a submitted vote that conflicts with ballot intent")))
      | None => Ok tt
      end;
  p ← fold_results (plan_proposal roster units stale retirable held terminal) (no_pass retired) (choice_proposals ballot);
  p ← fold_results (plan_unchosen roster units) p (votes_in_order s);
  delegations ← failed (delegation_obligations (needing_delegation p));
  let owed := pass_obligations p ++ cast_obligations (pass_drafts p)
              ++ blocked_obligations (open_proposals ballot) unrostered (pass_blocked p)
              ++ delegations ++ omap (confirm_obligation stale) (share_phases s) in
  Ok {| obligations := map (set_prerequisite (map obligation_bundle delegations)) owed;
        plan_choice_proposals := choice_proposals ballot; plan_open_proposals := open_proposals ballot;
        plan_unrostered_intents := unrostered; stale_vote_keys := stale; needs_bundle_setup := false;
        withheld_casts := pass_withheld p; lifecycle_owned_choices := list_to_set owned_choices |}.

Definition classify_round (proposal_ids : list N) : result PlanError RoundObligations :=
  ballot ← failed (classify_ballot_intents proposal_ids (intents s));
  if negb (bool_decide (choice_proposals ballot = [])) && bool_decide (delegations s = []) then
    Ok {| obligations := []; plan_choice_proposals := choice_proposals ballot; plan_open_proposals := open_proposals ballot;
          plan_unrostered_intents := unrostered_intents ballot; stale_vote_keys := ∅; needs_bundle_setup := true;
          withheld_casts := list_to_set (choice_proposals ballot); lifecycle_owned_choices := ∅ |}
  else
    units ← failed (group_vote_units s (intents s));
    classify units ballot.
End classify.
