(* ===== verification/RoundRules.v ===== *)
(** * The planner follows its rule table

    Correctness of [RoundPlanning].  The passes of the classifier are a sequence of effects,
    one for each chosen proposal and bundle and one for each vote; an invariant over that
    sequence gives the obligations exactly.  The rule table states them without the passes. *)

From S2P Require Import Prelude Sorting Types Diagnostics Identity Generation LifecyclePlanning ShareTiming SharePlacement.
From S2P Require Import Ballot Phases RoundSnapshot RoundUnits RoundPlanning.

Section effects.
Context `{GT : GenerationTables, HX : HexCrate, SH : Sha256Crate, RC : RoundIdCrates}.
Variable s : RoundSnapshot.
Variables (roster : list N) (units : list VoteUnit) (stale retirable : gset (N * N)) (held : gset N) (terminal : bool).

(** ** Effects *)

(** What one iteration of a pass does. *)
Inductive planned_effect : Type :=
| ENone
| EWithhold (pid : N)
| ECast (pid choice b : N)
| EReconcile (u : VoteUnit)
| EDeliver (b pid : N)
| EPanic.

Definition apply_effect (p : Pass) (e : planned_effect) : result PlanError Pass :=
  match e with
  | ENone => Ok p
  | EWithhold pid => Ok (withhold p pid)
  | ECast pid choice b => Ok (plan_cast terminal held p pid choice b)
  | EReconcile u => reconcile_unit s p u
  | EDeliver b pid => deliver s p b pid
  | EPanic => Err Panicked
  end.

Definition on_unit (b pid : N) (f : VoteUnit -> planned_effect) : planned_effect :=
  match unit_of units b pid with Ok u => f u | Err _ => EPanic end.

Definition choice_effect (pid choice b : N) : planned_effect :=
  if cast_due s stale retirable choice (b, pid) then ECast pid choice b
  else match votes s !! (b, pid) with
       | None => EPanic
       | Some vote =>
           match position_of (Some (vote_phase vote)) with
           | AtConfirmed => EDeliver b pid
           | Undispatched => on_unit b pid (fun u => if every_member_agrees s roster b u then EReconcile u else EWithhold pid)
           | OnWire => on_unit b pid EReconcile
           | Terminal | Uncast => ENone
           end
       end.

Definition vote_effect (entry : (N * N) * VoteSnapshot) : planned_effect :=
  let '((b, pid), vote) := entry in
  if bool_decide (is_Some (intents s !! pid)) && bool_decide (pid ∈ roster) then ENone
  else match position_of (Some (vote_phase vote)) with
       | OnWire => on_unit b pid EReconcile
       | AtConfirmed => EDeliver b pid
       | Uncast | Undispatched | Terminal => ENone
       end.

Definition proposal_effects (pid : N) : list planned_effect :=
  match intents s !! pid with
  | Some (Choice choice) => map (choice_effect pid choice) (sorted_keys (delegation_phases s))
  | _ => []
  end.

Lemma unit_of_Err b pid e : unit_of units b pid = Err e -> e = Panicked.
Proof. unfold unit_of. destruct (find _ units); cbn; congruence. Qed.

Lemma apply_on_unit p b pid f :
  apply_effect p (on_unit b pid f) = (u ← unit_of units b pid; apply_effect p (f u)).
Proof.
  unfold on_unit. destruct (unit_of units b pid) as [u|e] eqn:H; [done|]. cbn. by rewrite (unit_of_Err _ _ _ H).
Qed.

Lemma plan_bundle_effect pid choice p b :
  plan_bundle s roster units stale retirable held terminal pid choice p b = apply_effect p (choice_effect pid choice b).
Proof.
  unfold plan_bundle, choice_effect. destruct (cast_due _ _ _ _ _); [done|]. destruct (votes s !! (b, pid)) as [vote|]; [|done].
  destruct (position_of _); try done; rewrite apply_on_unit; destruct (unit_of units b pid) as [u|]; try done.
  cbn. by destruct (every_member_agrees _ _ _ _).
Qed.

Lemma plan_proposals_effects p pids :
  fold_results (plan_proposal s roster units stale retirable held terminal) p pids
  = fold_results apply_effect p (concat (map proposal_effects pids)).
Proof.
  revert p. induction pids as [|pid pids IH]; intros p; [done|]. cbn [fold_results map concat].
  assert (plan_proposal s roster units stale retirable held terminal p pid = fold_results apply_effect p (proposal_effects pid)) as Hone.
  { unfold plan_proposal, proposal_effects. destruct (intents s !! pid) as [[choice|]|]; [|done|done].
    apply fold_results_ext. intros st b _. apply plan_bundle_effect. }
  rewrite fold_results_app, Hone. destruct (fold_results apply_effect p (proposal_effects pid)) as [p'|]; [|done]. apply IH.
Qed.

Lemma plan_unchosen_effects p entries :
  fold_results (plan_unchosen s roster units) p entries = fold_results apply_effect p (map vote_effect entries).
Proof.
  apply fold_results_ext. intros st [[b pid] vote] _. unfold plan_unchosen, vote_effect. destruct (_ && _); [done|].
  destruct (position_of _); try done. by rewrite apply_on_unit.
Qed.

(** ** The passes *)

Definition reconcile_obligation (u : VoteUnit) : Obligation :=
  ReconcileChain (unit_id u) (unit_bundle_index u) (proposal_ids u)
    (bool_decide (position_of (Some (unit_phase u)) = Undispatched))
    (unit_tx_hash s u (default 0%N (anchor_proposal_id u))) None.

(** A confirmed vote owes these shares, at this position. *)
Definition owes (b pid position : N) (indexes : list N) : Prop :=
  missing_share_indexes s b pid = Ok indexes /\ indexes <> [] /\ confirmed_tree_position s b pid = Ok (Some position).

(** What a sequence of effects reconciles, delivers, casts and withholds. *)
Definition reconciles (es : list planned_effect) : list VoteUnit := omap (fun e => match e with EReconcile u => Some u | _ => None end) es.
Definition deliveries (es : list planned_effect) : list (N * N) := omap (fun e => match e with EDeliver b pid => Some (b, pid) | _ => None end) es.
Definition casts (es : list planned_effect) : list (N * CastDraft) :=
  omap (fun e => match e with
                 | ECast pid choice b => Some (b, {| draft_proposal_id := pid; draft_choice := choice |})
                 | _ => None
                 end) es.
Definition withheld (es : list planned_effect) : list N := omap (fun e => match e with EWithhold pid => Some pid | _ => None end) es.

Definition drafts_on (b : N) (cs : list (N * CastDraft)) : list CastDraft := map snd (filter (fun c => c.1 = b) cs).

(** The state of the passes after that. *)
Record passed (retired : list Obligation) (us : list VoteUnit) (ds : list (N * N)) (cs : list (N * CastDraft)) (ws : list N)
  (p : Pass) : Prop := {
  passed_obligations : forall o, o ∈ pass_obligations p <-> o ∈ retired \/ o ∈ map reconcile_obligation us
    \/ (exists b pid position indexes, (b, pid) ∈ ds /\ owes b pid position indexes /\ o = Deliver b pid position indexes None);
  passed_once : NoDup (pass_obligations p);
  passed_reconciled : forall id, id ∈ reconciled_units p <-> id ∈ map unit_id us;
  passed_delivered : forall k, k ∈ delivered_votes p <-> k ∈ ds;
  passed_needing : forall b, b ∈ needing_delegation p <-> (b ∉ held) /\ b ∈ map fst cs;
  passed_drafts : forall b, pass_drafts p !! b =
    (if terminal && negb (bool_decide (b ∈ held)) then match drafts_on b cs with [] => None | drafts => Some drafts end else None);
  passed_blocked : forall b, b ∈ pass_blocked p <-> terminal = false /\ (b ∉ held) /\ b ∈ map fst cs;
  passed_withheld : forall pid, pid ∈ pass_withheld p <-> pid ∈ ws
    \/ exists b draft, (b, draft) ∈ cs /\ draft_proposal_id draft = pid /\ (b ∈ held \/ terminal = false)
}.

Lemma passed_start retired : NoDup retired -> passed retired [] [] [] [] (no_pass retired).
Proof.
  intros Hnd. split; cbn [no_pass pass_obligations reconciled_units delivered_votes needing_delegation pass_drafts pass_blocked
    pass_withheld map drafts_on filter list_filter]; intros *; rewrite ?elem_of_nil, ?elem_of_empty.
  - split; [by left|]. intros [?|[[]|(b & pid & pos & idx & H & _)]]; [done|]. by apply elem_of_nil in H.
  - done.
  - done.
  - done.
  - naive_solver.
  - rewrite lookup_empty. by destruct (_ && _).
  - naive_solver.
  - split; [done|]. intros [[]|(b & d & H & _)]. by apply elem_of_nil in H.
Qed.

Lemma passed_withhold retired us ds cs ws p pid :
  passed retired us ds cs ws p -> passed retired us ds cs (ws ++ [pid]) (withhold p pid).
Proof.
  intros [Ho H1 Hr Hd Hn Hdr Hb Hw]. split; try done. intros q. cbn. rewrite elem_of_union, elem_of_singleton, Hw, elem_of_app, list_elem_of_singleton.
  tauto.
Qed.

Lemma drafts_on_snoc b cs c : drafts_on b (cs ++ [c]) = drafts_on b cs ++ (if bool_decide (c.1 = b) then [c.2] else []).
Proof. unfold drafts_on. rewrite filter_app, map_app, filter_cons, filter_nil. case_decide; by case_bool_decide. Qed.

Lemma passed_cast retired us ds cs ws p pid choice b :
  passed retired us ds cs ws p ->
  passed retired us ds (cs ++ [(b, {| draft_proposal_id := pid; draft_choice := choice |})]) ws (plan_cast terminal held p pid choice b).
Proof.
  intros [Ho H1 Hr Hd Hn Hdr Hb Hw]. unfold plan_cast. set (draft := {| draft_proposal_id := pid; draft_choice := choice |}).
  assert (forall q (P : N -> Prop), (exists b' draft', (b', draft') ∈ cs ++ [(b, draft)] /\ draft_proposal_id draft' = q /\ P b')
    <-> (exists b' draft', (b', draft') ∈ cs /\ draft_proposal_id draft' = q /\ P b') \/ (q = pid /\ P b)) as Hsnoc.
  { intros q P. setoid_rewrite elem_of_app. setoid_rewrite list_elem_of_singleton. split.
    - intros (b' & d' & [?|[= -> ->]] & ? & ?); [left; eauto|by right].
    - intros [(b' & d' & ? & ? & ?)|[-> ?]]; [eauto 10|]. exists b, draft. auto. }
  assert (forall b', b' ∈ map fst (cs ++ [(b, draft)]) <-> b' ∈ map fst cs \/ b' = b) as Hfst.
  { intros b'. rewrite map_app, elem_of_app. cbn. by rewrite list_elem_of_singleton. }
  destruct (bool_decide (b ∈ held)) eqn:Hheld; [apply bool_decide_eq_true in Hheld|apply bool_decide_eq_false in Hheld; destruct terminal eqn:Ht].
  all: split; cbn [withhold pass_obligations reconciled_units delivered_votes needing_delegation pass_drafts pass_blocked
    pass_withheld]; try done; intros *; rewrite ?Hsnoc, ?Hfst, ?elem_of_union, ?elem_of_singleton, ?Hn, ?Hb, ?Hw, ?drafts_on_snoc.
  all: rewrite ?Ht; try (intuition (subst; congruence || auto); fail).
  - rewrite Hdr. cbn [fst snd]. destruct (decide (b = b0)) as [<-|Hne].
    + by rewrite (bool_decide_true (b ∈ held)), andb_false_r.
    + by rewrite (bool_decide_false (b = b0)), app_nil_r.
  - cbn [fst snd andb]. destruct (decide (b0 = b)) as [->|Hne].
    + rewrite lookup_insert_eq, Hdr, (bool_decide_true (b = b)), (bool_decide_false (b ∈ held)) by done. cbn [negb andb].
      by destruct (drafts_on b cs).
    + rewrite lookup_insert_ne, (bool_decide_false (b = b0)), app_nil_r by congruence. by rewrite Hdr.
  - by rewrite Hdr.
Qed.

Lemma passed_reconcile retired us ds cs ws p u p' :
  (forall o, o ∈ retired -> exists id members, o = Retire id members) ->
  (forall u', u' ∈ us -> unit_id u' = unit_id u -> u' = u) ->
  passed retired us ds cs ws p -> reconcile_unit s p u = Ok p' -> passed retired (us ++ [u]) ds cs ws p'.
Proof.
  intros Hret Hdet [Ho H1 Hr Hd Hn Hdr Hb Hw] H. unfold reconcile_unit in H. inv_ok.
  destruct (bool_decide (unit_id u ∈ reconciled_units p)) eqn:Hold.
  - injection H as <-. inv_ok. rewrite Hr in Hold. apply list_elem_of_fmap in Hold as (u' & He & Hu'). pose proof (Hdet u' Hu' (eq_sym He)) as ->.
    split; try done.
    + intros o. rewrite Ho, map_app, elem_of_app. cbn [map]. rewrite list_elem_of_singleton. split; [tauto|].
      intros [?|[[?| ->]|?]]; auto. right. left. by apply (list_elem_of_fmap_2 reconcile_obligation).
    + intros id. rewrite Hr, map_app, elem_of_app. cbn [map]. rewrite list_elem_of_singleton. split; [tauto|].
      intros [?| ->]; [done|]. by apply (list_elem_of_fmap_2 unit_id).
  - inv_ok. assert (reconcile_obligation u ∉ pass_obligations p) as Hnew.
    { rewrite Ho. intros [Hin|[Hin|(b & pid & pos & idx & _ & _ & He)]]; [destruct (Hret _ Hin) as (? & ? & ?)| |]; try done.
      apply list_elem_of_fmap in Hin as (u' & He & Hu'). apply Hold, Hr. injection He as He _. rewrite He. by apply list_elem_of_fmap_2. }
    match goal with |- passed _ _ _ _ _ (add_obligation _ ?o) => assert (o = reconcile_obligation u) as -> end.
    { unfold reconcile_obligation. by match goal with Ha : anchor_proposal_id u = _ |- _ => rewrite Ha end. }
    split; cbn [add_obligation pass_obligations reconciled_units delivered_votes needing_delegation pass_drafts pass_blocked
      pass_withheld]; try done.
    + intros o. rewrite map_app, !elem_of_app, Ho. cbn [map]. rewrite list_elem_of_singleton. tauto.
    + apply NoDup_app. split; [done|]. split; [|apply NoDup_singleton]. intros o Hin ->%list_elem_of_singleton. done.
    + intros id. rewrite elem_of_cons, Hr, map_app, elem_of_app. cbn [map]. rewrite list_elem_of_singleton. tauto.
Qed.

Lemma passed_deliver retired us ds cs ws p b pid p' :
  (forall o, o ∈ retired -> exists id members, o = Retire id members) ->
  passed retired us ds cs ws p -> deliver s p b pid = Ok p' -> passed retired us (ds ++ [(b, pid)]) cs ws p'.
Proof.
  intros Hret [Ho H1 Hr Hd Hn Hdr Hb Hw] H. unfold deliver, failed in H.
  assert (forall o, (exists b' pid' pos idx, (b', pid') ∈ ds ++ [(b, pid)] /\ owes b' pid' pos idx /\ o = Deliver b' pid' pos idx None)
    <-> (exists b' pid' pos idx, (b', pid') ∈ ds /\ owes b' pid' pos idx /\ o = Deliver b' pid' pos idx None)
        \/ (exists pos idx, owes b pid pos idx /\ o = Deliver b pid pos idx None)) as Hsnoc.
  { intros o. setoid_rewrite elem_of_app. setoid_rewrite list_elem_of_singleton. split.
    - intros (b' & pid' & pos & idx & [?|[= -> ->]] & ? & ?); [left|right]; eauto 10.
    - intros [(b' & pid' & pos & idx & ? & ? & ?)|(pos & idx & ? & ?)]; eauto 10. }
  destruct (bool_decide ((b, pid) ∈ delivered_votes p)) eqn:Hold; [|inv_ok; destruct (bool_decide (a = [])) eqn:Hempty].
  - injection H as <-. inv_ok. rewrite Hd in Hold. split; try done.
    + intros o. rewrite Ho, Hsnoc. split; [tauto|]. intros [?|[?|[?|(pos & idx & ? & ?)]]]; auto. right. right. eauto 10.
    + intros k. rewrite Hd, elem_of_app, list_elem_of_singleton. split; [tauto|]. by intros [?| ->].
  - injection H as <-. inv_ok. split; cbn [pass_obligations reconciled_units delivered_votes needing_delegation pass_drafts
      pass_blocked pass_withheld]; try done.
    + intros o. rewrite Ho, Hsnoc. split; [tauto|]. intros [?|[?|[?|(pos & idx & (Hm & Hne & _) & ?)]]]; auto. congruence.
    + intros k. rewrite elem_of_union, elem_of_singleton, Hd, elem_of_app, list_elem_of_singleton. tauto.
  - inv_ok. assert (owes b pid a1 a) as Howes by done.
    split; cbn [add_obligation pass_obligations reconciled_units delivered_votes needing_delegation pass_drafts pass_blocked
      pass_withheld]; try done.
    + intros o. rewrite elem_of_app, list_elem_of_singleton, Ho, Hsnoc. split; [intros [?| ->]; [tauto|]; right; right; right; by eauto|].
      intros [?|[?|[?|(pos & idx & (Hm & _ & Hp) & ->)]]]; auto. right. congruence.
    + apply NoDup_app. split; [done|]. split; [|apply NoDup_singleton]. intros o Hin ->%list_elem_of_singleton. apply Ho in Hin.
      destruct Hin as [Hin|[Hin|(b' & pid' & pos & idx & Hin & _ & [= <- <- _ _])]]; [by destruct (Hret _ Hin) as (? & ? & ?)| |by apply Hold, Hd].
      by apply list_elem_of_fmap in Hin as (u' & He & _).
    + intros k. rewrite elem_of_union, elem_of_singleton, Hd, elem_of_app, list_elem_of_singleton. tauto.
Qed.

(** ** All effects *)

Lemma fold_effects_passed retired es p :
  NoDup retired -> (forall o, o ∈ retired -> exists id members, o = Retire id members) ->
  (forall u u', EReconcile u ∈ es -> EReconcile u' ∈ es -> unit_id u' = unit_id u -> u' = u) ->
  fold_results apply_effect (no_pass retired) es = Ok p ->
  passed retired (reconciles es) (deliveries es) (casts es) (withheld es) p.
Proof.
  intros Hnd Hret Hdet. apply (fold_results_invariant _ (fun pre p => passed retired (reconciles pre) (deliveries pre) (casts pre) (withheld pre) p)).
  { by apply passed_start. }
  intros pre e st st' [rest Hrest] Hok H. unfold reconciles, deliveries, casts, withheld in *. rewrite !omap_app.
  destruct e as [|pid|pid choice b|u|b pid|]; cbn [apply_effect omap list_omap] in *; rewrite ?app_nil_r; inv_ok; try done.
  - by apply passed_withhold.
  - by apply passed_cast.
  - eapply passed_reconcile; [done| |done|done]. intros u' Hu' He. apply list_elem_of_omap in Hu' as (e & Hin & Hx). destruct e; try done.
    injection Hx as ->.
    apply Hdet; [| |done]; rewrite Hrest; [apply elem_of_app; left; apply elem_of_app; right; by left|].
    apply elem_of_app. left. apply elem_of_app. by left.
  - by eapply passed_deliver.
Qed.

Lemma elem_of_reconciles es u : u ∈ reconciles es <-> EReconcile u ∈ es.
Proof.
  unfold reconciles. rewrite list_elem_of_omap. split; [intros (e & Hin & He); destruct e; by simplify_eq|]. intros H. by exists (EReconcile u).
Qed.

Lemma elem_of_deliveries es b pid : (b, pid) ∈ deliveries es <-> EDeliver b pid ∈ es.
Proof.
  unfold deliveries. rewrite list_elem_of_omap. split; [intros (e & Hin & He); destruct e; by simplify_eq|]. intros H. by exists (EDeliver b pid).
Qed.

Lemma elem_of_withheld es pid : pid ∈ withheld es <-> EWithhold pid ∈ es.
Proof.
  unfold withheld. rewrite list_elem_of_omap. split; [intros (e & Hin & He); destruct e; by simplify_eq|]. intros H. by exists (EWithhold pid).
Qed.

Lemma elem_of_casts es b d : (b, d) ∈ casts es <-> ECast (draft_proposal_id d) (draft_choice d) b ∈ es.
Proof.
  unfold casts. rewrite list_elem_of_omap. split; [intros (e & Hin & He); destruct e; by simplify_eq|].
  intros H. eexists. split; [exact H|]. by destruct d.
Qed.

Lemma elem_of_drafts_on b cs d : d ∈ drafts_on b cs <-> (b, d) ∈ cs.
Proof.
  unfold drafts_on. rewrite list_elem_of_fmap. split.
  - intros ([b' d'] & -> & [Hb Hin]%list_elem_of_filter). cbn in *. by subst.
  - intros H. exists (b, d). by rewrite list_elem_of_filter.
Qed.

(** ** Order of the drafts *)

Lemma drafts_on_app b cs cs' : drafts_on b (cs ++ cs') = drafts_on b cs ++ drafts_on b cs'.
Proof. unfold drafts_on. by rewrite filter_app, map_app. Qed.

Lemma casts_app es es' : casts (es ++ es') = casts es ++ casts es'.
Proof. apply omap_app. Qed.

(** One proposal has one draft on a bundle at most. *)
Lemma proposal_drafts b pid :
  map draft_proposal_id (drafts_on b (casts (proposal_effects pid))) = []
  \/ map draft_proposal_id (drafts_on b (casts (proposal_effects pid))) = [pid].
Proof.
  unfold proposal_effects. destruct (intents s !! pid) as [[c|]|]; [|by left|by left].
  assert (forall b', casts [choice_effect pid c b'] = [] \/ casts [choice_effect pid c b'] = [(b', {| draft_proposal_id := pid; draft_choice := c |})]) as Hone.
  { intros b'. unfold choice_effect, on_unit. destruct (cast_due _ _ _ _ _); [by right|left]. destruct (votes s !! _); [|done].
    destruct (position_of _); try done; destruct (unit_of _ _ _); try done. by destruct (every_member_agrees _ _ _ _). }
  pose proof (NoDup_sorted_keys (delegation_phases s)) as Hnd. induction Hnd as [|b' bs Hnew Hnd IH]; [by left|].
  cbn [map]. change (choice_effect pid c b' :: map (choice_effect pid c) bs) with ([choice_effect pid c b'] ++ map (choice_effect pid c) bs).
  rewrite casts_app, drafts_on_app, map_app. destruct (Hone b') as [-> | ->]; [done|]. destruct (decide (b' = b)) as [->|Hne].
  - right. replace (drafts_on b (casts (map (choice_effect pid c) bs))) with (@nil CastDraft).
    + unfold drafts_on. by rewrite filter_cons_True.
    + symmetry. apply elem_of_nil_inv. intros d Hd. rewrite elem_of_drafts_on, elem_of_casts in Hd.
      apply list_elem_of_fmap in Hd as (b'' & He & Hin). destruct (Hone b'') as [Hc|Hc]; rewrite <- He in Hc; [done|]. by injection Hc as -> _.
  - unfold drafts_on at 1 3. by rewrite filter_cons_False.
Qed.

Lemma drafts_sorted b pids :
  StronglySorted N.lt pids ->
  StronglySorted N.lt (map draft_proposal_id (drafts_on b (casts (concat (map proposal_effects pids)))))
  /\ forall p, p ∈ map draft_proposal_id (drafts_on b (casts (concat (map proposal_effects pids)))) -> p ∈ pids.
Proof.
  induction 1 as [|pid pids _ [IH Hin] Hlt]; [split; [constructor|done]|]. cbn [map concat]. rewrite casts_app, drafts_on_app, map_app.
  destruct (proposal_drafts b pid) as [-> | ->]; cbn [app]; split; try done.
  - intros p Hp. right. by apply Hin.
  - constructor; [done|]. rewrite Forall_forall in Hlt |- *. intros p Hp. by apply Hlt, Hin.
  - intros p [-> |Hp]%elem_of_cons; [by left|right; by apply Hin].
Qed.

(** ** Failures *)

(** The shares a confirmed vote owes are known, with the position they are sent with. *)
Definition deliverable (b pid : N) : Prop :=
  exists indexes, missing_share_indexes s b pid = Ok indexes
    /\ (indexes <> [] -> exists position, confirmed_tree_position s b pid = Ok (Some position)).

(** A submitted unit has the recovery material of every member. *)
Definition recoverable (u : VoteUnit) : Prop :=
  unit_phase u = VoteSubmitted -> forall m, m ∈ unit_members u -> is_Some (member_recovery m).

Lemma deliver_Ok p b pid p' :
  deliver s p b pid = Ok p' -> ((b, pid) ∈ delivered_votes p \/ deliverable b pid)
    /\ forall k, k ∈ delivered_votes p' -> k ∈ delivered_votes p \/ k = (b, pid).
Proof.
  unfold deliver, failed. intros H. destruct (bool_decide ((b, pid) ∈ delivered_votes p)) eqn:Hold.
  { injection H as <-. apply bool_decide_eq_true in Hold. auto. }
  inv_ok. destruct (bool_decide (a = [])) eqn:Hempty; inv_ok; cbn; (split; [right; eexists; split; [done|]; by eauto|]);
    intros k; rewrite elem_of_union, elem_of_singleton; tauto.
Qed.

Lemma reconcile_Ok p u p' : reconcile_unit s p u = Ok p' -> recoverable u /\ delivered_votes p' = delivered_votes p.
Proof.
  unfold reconcile_unit. intros H. apply result_bind_Ok in H as ([] & Hguard & H). split.
  - intros Hph m Hm. rewrite (bool_decide_true (unit_phase u = VoteSubmitted)) in Hguard by done.
    destruct (find _ _) eqn:Hf; [done|]. apply list_elem_of_In in Hm. pose proof (find_none _ _ Hf _ Hm) as Hn. cbn in Hn.
    apply bool_decide_eq_false in Hn. by apply not_eq_None_Some.
  - destruct (bool_decide (unit_id u ∈ reconciled_units p)); inv_ok; done.
Qed.

Lemma fold_effects_accepted retired es p :
  fold_results apply_effect (no_pass retired) es = Ok p ->
  (forall b pid, EDeliver b pid ∈ es -> deliverable b pid) /\ (forall u, EReconcile u ∈ es -> recoverable u).
Proof.
  intros H. apply (fold_results_invariant _ (fun pre st => ((forall b pid, EDeliver b pid ∈ pre -> deliverable b pid)
    /\ (forall u, EReconcile u ∈ pre -> recoverable u)) /\ forall k, k ∈ delivered_votes st -> deliverable k.1 k.2)) in H; [tauto| |].
  { split; [split; intros * Hin; by apply elem_of_nil in Hin|]. intros k Hk. by apply elem_of_empty in Hk. }
  intros pre e st st' _ [[Hd Hr] Hk] Hstep.
  assert ((forall b pid, e = EDeliver b pid -> deliverable b pid) /\ (forall u, e = EReconcile u -> recoverable u)
    /\ forall k, k ∈ delivered_votes st' -> deliverable k.1 k.2) as (He & Hu & Hk').
  { destruct e; cbn [apply_effect] in Hstep; inv_ok; try (split_and!; [done|done|by apply Hk]).
    - split_and!; [done|done|]. intros k. unfold plan_cast. destruct (bool_decide _), terminal; apply Hk.
    - apply reconcile_Ok in Hstep as [? ->]. split_and!; [done|by intros u' [= <-]|done].
    - apply deliver_Ok in Hstep as [Hcase Hin]. assert (deliverable b pid) by (destruct Hcase as [Hc|]; [apply (Hk _ Hc)|done]).
      split_and!; [by intros ? ? [= <- <-]|done|]. intros k [?| ->]%Hin; auto. }
  split; [|done]. split; intros *; rewrite elem_of_app, list_elem_of_singleton; intros [?|<-]; auto.
Qed.

Lemma fold_effects_failed retired es e :
  (forall u, EReconcile u ∈ es -> unit_members u <> []) -> EPanic ∉ es ->
  fold_results apply_effect (no_pass retired) es = Err e ->
  e <> Panicked /\ ((exists b pid, EDeliver b pid ∈ es /\ ~ deliverable b pid) \/ (exists u, EReconcile u ∈ es /\ ~ recoverable u)).
Proof.
  intros Hne Hpanic (x & st & Hin & Hx)%fold_results_Err. destruct x; cbn [apply_effect] in Hx; try done.
  - unfold reconcile_unit in Hx. destruct (find _ (unit_members u)) as [m|] eqn:Hf, (bool_decide (unit_phase u = VoteSubmitted)) eqn:Hph; cbn in Hx;
      try (exfalso; destruct (bool_decide (unit_id u ∈ reconciled_units st)); [done|]; unfold anchor_proposal_id in Hx;
           specialize (Hne u Hin); by destruct (unit_members u)).
    injection Hx as <-. split; [done|]. right. exists u. split; [done|]. intros Hrec. apply bool_decide_eq_true in Hph.
    apply find_some in Hf as [Hm%list_elem_of_In Hnone%bool_decide_eq_true]. destruct (Hrec Hph m Hm). congruence.
  - unfold deliver, failed in Hx. destruct (bool_decide ((b, pid) ∈ delivered_votes st)); [done|].
    assert (~ deliverable b pid /\ e <> Panicked) as [? ?]; [|split; [done|]; left; by eauto].
    destruct (missing_share_indexes s b pid) as [idx|] eqn:Hm; cbn in Hx.
    2: { split; [|congruence]. intros (idx & Hi & _). congruence. }
    destruct (bool_decide (idx = [])) eqn:Hempty; [done|]. apply bool_decide_eq_false in Hempty.
    destruct (confirmed_tree_position s b pid) as [[pos|]|] eqn:Hpos; cbn in Hx; [done| |]; (split; [|congruence]);
      intros (idx' & Hi & Hp); (destruct Hp; [congruence|congruence]).
Qed.
End effects.

(** ** The other obligations *)

Section segments.
Context `{GT : GenerationTables, HX : HexCrate, SH : Sha256Crate, RC : RoundIdCrates}.
Variable s : RoundSnapshot.

Lemma elem_of_cast_obligations drafts o :
  o ∈ cast_obligations s drafts <-> exists b ds, drafts !! b = Some ds /\ o = Cast b ds None (cast_signs_delegation s b).
Proof.
  unfold cast_obligations. rewrite list_elem_of_In, in_concat. setoid_rewrite <- list_elem_of_In. split.
  - intros (l & Hl & Ho). apply list_elem_of_fmap in Hl as ([b ds] & -> & Hin). rewrite elem_of_sort_by, elem_of_map_to_list in Hin.
    apply list_elem_of_singleton in Ho. eauto.
  - intros (b & ds & Hb & ->). eexists. split; [apply list_elem_of_fmap; exists (b, ds); split; [done|]|by left].
    by rewrite elem_of_sort_by, elem_of_map_to_list.
Qed.

Lemma cast_obligations_map drafts :
  cast_obligations s drafts = map (fun entry : N * list CastDraft => Cast entry.1 entry.2 None (cast_signs_delegation s entry.1))
    (sort_by (fun x y => (x.1 <=? y.1)%N) (map_to_list drafts)).
Proof. unfold cast_obligations. induction (sort_by _ _) as [|[b ds] l IH]; [done|]. cbn in *. by rewrite IH. Qed.

Lemma NoDup_cast_obligations drafts : NoDup (cast_obligations s drafts).
Proof.
  rewrite cast_obligations_map. apply NoDup_fmap_2_strong; [intros [] [] _ _ [= -> -> _]; done|].
  rewrite sort_by_Permutation. apply NoDup_map_to_list.
Qed.

Lemma elem_of_blocked_obligations open unrostered blocked o :
  o ∈ blocked_obligations open unrostered blocked <->
  exists b, b ∈ blocked /\ o = Blocked b (if bool_decide (open = []) then UnrosteredIntents unrostered else OpenBallot open).
Proof.
  unfold blocked_obligations. rewrite list_elem_of_fmap. setoid_rewrite elem_of_sort_by. setoid_rewrite elem_of_elements.
  split; intros (b & ? & ?); eauto.
Qed.

Lemma NoDup_blocked_obligations open unrostered blocked : NoDup (blocked_obligations open unrostered blocked).
Proof.
  unfold blocked_obligations. apply NoDup_fmap_2_strong; [by intros x y _ _ [= ->]|]. rewrite sort_by_Permutation. apply NoDup_elements.
Qed.

(** Every bundle with a delegation phase has a row. *)
Definition bundle_rows : Prop := forall b, is_Some (delegation_phases s !! b) -> is_Some (bundles s !! b).

Lemma delegation_obligation_total needing b phase :
  bundle_rows -> delegation_phases s !! b = Some phase -> exists o, delegation_obligation s needing b phase = Ok o.
Proof.
  intros Hrows Hb. unfold delegation_obligation. destruct (bundle_combined s b); [eauto|].
  destruct (Hrows b ltac:(eauto)) as [bundle Hbundle]. rewrite Hbundle. destruct phase; cbn; eauto.
Qed.

Lemma delegation_obligations_total needing : bundle_rows -> exists l, delegation_obligations s needing = Ok l.
Proof.
  intros Hrows. unfold delegation_obligations.
  assert (exists found, collect_results (fun b => match delegation_phases s !! b with Some phase => delegation_obligation s needing b phase
            | None => Ok None end) (sorted_keys (delegation_phases s)) = Ok found) as [found ->]; [|by eexists].
  assert (forall b, b ∈ sorted_keys (delegation_phases s) -> is_Some (delegation_phases s !! b)) as Hin
    by (intros b; apply elem_of_sorted_keys).
  induction (sorted_keys (delegation_phases s)) as [|b l IH]; [by exists []|]. cbn [collect_results].
  destruct (Hin b ltac:(by left)) as [phase Hb]. destruct (delegation_obligation_total needing b phase Hrows Hb) as [o Ho].
  destruct IH as [found Hfound]; [intros b' Hb'; apply Hin; by right|]. exists (o :: found). rewrite Hb, Ho. cbn. by rewrite Hfound.
Qed.

Lemma elem_of_delegation_obligations needing l o :
  delegation_obligations s needing = Ok l ->
  o ∈ l <-> exists b phase, delegation_phases s !! b = Some phase /\ delegation_obligation s needing b phase = Ok (Some o).
Proof.
  unfold delegation_obligations. intros H. inv_ok. apply collect_results_Ok in Ha. rewrite list_elem_of_omap. split.
  - intros (o' & [i Hi]%list_elem_of_lookup_1 & ->). destruct (Forall2_lookup_r _ _ _ _ _ Ha Hi) as (b & _ & Hb).
    destruct (delegation_phases s !! b) as [phase|] eqn:Hp; [eauto|]. done.
  - intros (b & phase & Hb & Ho). assert (b ∈ sorted_keys (delegation_phases s)) as Hin by (apply elem_of_sorted_keys; by eexists).
    apply list_elem_of_lookup_1 in Hin as [i Hi]. destruct (Forall2_lookup_l _ _ _ _ _ Ha Hi) as (o' & Ho' & He).
    rewrite Hb in He. exists (Some o). split; [|done]. replace (Some o) with o' by congruence. by eapply list_elem_of_lookup_2.
Qed.

Lemma delegation_obligation_bundle needing b phase o : delegation_obligation s needing b phase = Ok (Some o) -> obligation_bundle o = b.
Proof.
  unfold delegation_obligation. destruct (bundle_combined s b); [done|]. destruct phase; try done; intros H; inv_ok; try done;
    case_bool_decide; by inv_ok.
Qed.

Lemma NoDup_delegation_obligations needing l : delegation_obligations s needing = Ok l -> NoDup l.
Proof.
  unfold delegation_obligations. intros H. inv_ok. apply collect_results_Ok in Ha. pose proof (NoDup_sorted_keys (delegation_phases s)) as Hnd.
  induction Ha as [|b o bs os Hb Hall IH]; [constructor|]. apply NoDup_cons in Hnd as [Hnew Hnd]. cbn.
  destruct o as [o|]; [|by apply IH]. constructor; [|by apply IH]. intros ([o'|] & [i Hi]%list_elem_of_lookup_1 & [= ->])%list_elem_of_omap.
  destruct (Forall2_lookup_r _ _ _ _ _ Hall Hi) as (b' & Hb' & Ho').
  destruct (delegation_phases s !! b) eqn:Hp; [|done]. destruct (delegation_phases s !! b') eqn:Hp'; [|done].
  apply Hnew. apply delegation_obligation_bundle in Hb, Ho'. replace b with b' by congruence. by eapply list_elem_of_lookup_2.
Qed.
End segments.
