(* ===== verification/RoundRuleTable.v ===== *)
(** * The rule table of round planning

    The obligations of a round as [docs/round_orchestration_invariants.md] states them: one
    rule for each position of a vote unit, and the gating of casts and delegations.  The
    rules read the snapshot, the units and the roster; they do not mention the passes of
    the classifier.  [classify_round] implements the table. *)

From S2P Require Import Prelude Sorting Types Diagnostics Identity Generation LifecyclePlanning ShareTiming SharePlacement.
From S2P Require Import Ballot Phases RoundSnapshot RoundUnits RoundPlanning RoundRules.

Section rules.
Context `{GT : GenerationTables, HX : HexCrate, SH : Sha256Crate, RC : RoundIdCrates}.
Variables (s : RoundSnapshot) (roster : list N) (units : list VoteUnit).

(** ** Rules *)

Definition unit_position (u : VoteUnit) : LifecyclePosition := position_of (Some (unit_phase u)).

(** Undispatched work follows the roster: a unit with a member outside it is retired. *)
Definition retires (u : VoteUnit) : Prop :=
  u ∈ units /\ unit_position u = Undispatched /\ roster_relation (proposal_ids u) roster = LeftRoster.

(** Dispatched work is reconciled whatever the roster; undispatched work when the roster
    lists and the ballot agrees with every member. *)
Definition reconcilable (u : VoteUnit) : Prop :=
  u ∈ units /\ (unit_position u = OnWire
    \/ unit_position u = Undispatched /\ forall p, p ∈ proposal_ids u -> p ∈ roster
         /\ exists v, votes s !! (unit_bundle_index u, p) = Some v /\ ballot_relation (intents s) p (vote_choice v) = Agrees).

Definition confirmed_vote (b p : N) : Prop := exists v, votes s !! (b, p) = Some v /\ position_of (Some (vote_phase v)) = AtConfirmed.

(** A choice is covered on a bundle by a vote for it in a unit that stays. *)
Definition covered (b p choice : N) : Prop :=
  exists u v, u ∈ units /\ unit_bundle_index u = b /\ p ∈ proposal_ids u /\ votes s !! (b, p) = Some v
    /\ vote_choice v = choice /\ unit_position u <> Uncast /\ ~ retires u.

(** A choice the ballot records and no vote covers is due on every bundle. *)
Definition due (b p choice : N) : Prop :=
  p ∈ roster /\ intents s !! p = Some (Choice choice) /\ is_Some (delegation_phases s !! b) /\ ~ covered b p choice.

(** A bundle takes no new cast while a vote that stays holds it, while its delegation is
    in flight or refused, or once refused casts have blocked it. *)
Definition bundle_held (b : N) : Prop :=
  (exists u p v, u ∈ units /\ unit_bundle_index u = b /\ p ∈ proposal_ids u /\ votes s !! (b, p) = Some v
     /\ ballot_relation (intents s) p (vote_choice v) <> Conflicts /\ vote_phase_holds_bundle (unit_phase u) = true /\ ~ retires u)
  \/ (exists phase, delegation_phases s !! b = Some phase /\ delegation_phase_holds_bundle phase = true)
  \/ is_Some (rejection_blocked_bundles s !! b).

(** A vote the chain may have seen that the ballot contradicts. *)
Definition owned_conflict : Prop :=
  exists k v, votes s !! k = Some v /\ ballot_relation (intents s) k.2 (vote_choice v) = Conflicts
    /\ vote_phase_is_lifecycle_owned (vote_phase v) = true.

(** An agreed undispatched vote waits while a member of its batch has no recorded choice. *)
Definition awaits_batch (p : N) : Prop :=
  exists u v, u ∈ units /\ p ∈ proposal_ids u /\ unit_position u = Undispatched /\ p ∈ roster
    /\ votes s !! (unit_bundle_index u, p) = Some v /\ ballot_relation (intents s) p (vote_choice v) = Agrees
    /\ ~ retires u /\ ~ reconcilable u.

(** The chain may have seen a vote on the proposal. *)
Definition proposal_owned (p : N) : Prop :=
  exists b v, votes s !! (b, p) = Some v /\ vote_phase_is_lifecycle_owned (vote_phase v) = true.

(** Every rostered proposal is decided, and no undispatched intent is outside the roster. *)
Definition ballot_complete : Prop :=
  (forall p, p ∈ roster -> is_Some (intents s !! p))
  /\ (forall p, is_Some (intents s !! p) -> p ∈ roster \/ proposal_owned p).

(** The drafts of a cast: what is due on the bundle, in proposal order. *)
Definition drafts_due (b : N) (drafts : list CastDraft) : Prop :=
  StronglySorted N.lt (map draft_proposal_id drafts)
  /\ forall p c, {| draft_proposal_id := p; draft_choice := c |} ∈ drafts <-> due b p c.

(** A bundle that is to take a cast starts its delegation; a dispatched one is advanced.  A
    delegation combined with a cast belongs to the cast. *)
Definition starts_delegation (b : N) : Prop :=
  (delegation_phases s !! b = Some DelegationPrepared \/ delegation_phases s !! b = Some DelegationPcztBuilt)
  /\ bundle_combined s b = false /\ ~ bundle_held b /\ exists p c, due b p c.

Definition advances_delegation (b : N) (phase : DelegationPhase) : Prop :=
  delegation_phases s !! b = Some phase /\ (phase = DelegationSubmitted \/ phase = DelegationSubmissionManaged)
  /\ bundle_combined s b = false.

(** Other work of a bundle waits for its delegation. *)
Definition waits (b : N) (prerequisite : option N) : Prop :=
  prerequisite = Some b /\ (starts_delegation b \/ exists phase, advances_delegation b phase)
  \/ prerequisite = None /\ ~ (starts_delegation b \/ exists phase, advances_delegation b phase).

Definition share_row (b p index : N) : option ShareDelegationRecord :=
  List.find (fun r => bool_decide (share_bundle_index r = b) && bool_decide (share_proposal_id r = p)
                      && bool_decide (ShareTiming.share_index r = index)) (shares s).

(** The table. *)
Inductive owed (open_list unrostered : list N) : Obligation -> Prop :=
| owed_retire u : retires u -> owed open_list unrostered (Retire (unit_id u) (proposal_ids u))
| owed_reconcile u anchor prerequisite :
    reconcilable u -> anchor_proposal_id u = Some anchor -> waits (unit_bundle_index u) prerequisite ->
    owed open_list unrostered
      (ReconcileChain (unit_id u) (unit_bundle_index u) (proposal_ids u) (bool_decide (unit_position u = Undispatched))
         (unit_tx_hash s u anchor) prerequisite)
| owed_deliver b p position indexes prerequisite :
    confirmed_vote b p -> missing_share_indexes s b p = Ok indexes -> indexes <> [] ->
    confirmed_tree_position s b p = Ok (Some position) -> waits b prerequisite ->
    owed open_list unrostered (Deliver b p position indexes prerequisite)
| owed_cast b drafts prerequisite :
    ballot_complete -> ~ bundle_held b -> drafts_due b drafts -> drafts <> [] -> waits b prerequisite ->
    owed open_list unrostered (Cast b drafts prerequisite (cast_signs_delegation s b))
| owed_blocked b p c :
    ~ ballot_complete -> ~ bundle_held b -> due b p c ->
    owed open_list unrostered
      (Blocked b (if bool_decide (open_list = []) then UnrosteredIntents unrostered else OpenBallot open_list))
| owed_delegate b : starts_delegation b -> owed open_list unrostered (Delegate b)
| owed_advance b phase bundle :
    advances_delegation b phase -> bundles s !! b = Some bundle ->
    owed open_list unrostered (AdvanceDelegation b (capability_imported bundle) phase (delegation_tx_hash s b))
| owed_confirm b p index prerequisite :
    (b, p, index, ShareSubmitted) ∈ share_phases s ->
    ~ (exists v, votes s !! (b, p) = Some v /\ ballot_relation (intents s) p (vote_choice v) = Conflicts) ->
    waits b prerequisite ->
    owed open_list unrostered
      (Confirm b p index
         (match share_row b p index with
          | Some r => share_confirmed r || negb (bool_decide (sent_to_urls r = []))
          | None => true
          end)
         (match share_row b p index with
          | Some r => negb (bool_decide (ambiguous_urls r = [])) || negb (bool_decide (attempting_urls r = []))
          | None => false
          end)
         prerequisite).

(** A plan of the round: what is owed, each obligation once, and the proposals the rules
    read or hold back. *)
Record rule_table (plan : RoundObligations) : Prop := {
  table_owed : forall o, o ∈ obligations plan <-> owed (plan_open_proposals plan) (plan_unrostered_intents plan) o;
  table_once : NoDup (obligations plan);
  table_withheld : forall p, p ∈ withheld_casts plan <->
    awaits_batch p \/ exists b c, due b p c /\ (bundle_held b \/ ~ ballot_complete);
  table_choices : forall p, p ∈ plan_choice_proposals plan <-> p ∈ roster /\ exists c, intents s !! p = Some (Choice c);
  table_open : forall p, p ∈ plan_open_proposals plan <-> p ∈ roster /\ intents s !! p = None;
  table_unrostered : forall p, p ∈ plan_unrostered_intents plan <->
    is_Some (intents s !! p) /\ (p ∉ roster) /\ ~ proposal_owned p;
  table_stale : forall k, k ∈ stale_vote_keys plan <->
    exists v, votes s !! k = Some v /\ ballot_relation (intents s) k.2 (vote_choice v) = Conflicts;
  table_owned_choices : forall p, p ∈ lifecycle_owned_choices plan <->
    (exists c, intents s !! p = Some (Choice c)) /\ (p ∉ roster) /\ proposal_owned p
}.

(** ** Sets of the classifier *)

Lemma elem_of_stale_votes k :
  k ∈ stale_votes s <-> exists v, votes s !! k = Some v /\ ballot_relation (intents s) k.2 (vote_choice v) = Conflicts.
Proof.
  unfold stale_votes. rewrite elem_of_list_to_set, list_elem_of_fmap. split.
  - intros ([k' v] & -> & [Hc Hin]%list_elem_of_filter). exists v. by rewrite elem_of_votes_in_order in Hin.
  - intros (v & Hv & Hc). exists (k, v). split; [done|]. apply list_elem_of_filter. by rewrite elem_of_votes_in_order.
Qed.

Lemma conflicting_vote_None : conflicting_vote s (stale_votes s) = None <-> ~ owned_conflict.
Proof.
  unfold conflicting_vote. destruct (find _ _) as [[k v]|] eqn:Hf; cbn; split; try done.
  - intros H. destruct H. apply find_some in Hf as [Hin%list_elem_of_In Hc]. apply elem_of_votes_in_order in Hin.
    apply andb_true_iff in Hc as [Hs%bool_decide_eq_true Hl]. apply elem_of_stale_votes in Hs as (v' & Hv' & Hc).
    cbn in *. assert (v' = v) as -> by congruence. by exists k, v.
  - intros _ (k & v & Hv & Hc & Hl). apply elem_of_votes_in_order in Hv as Hin. apply list_elem_of_In in Hin.
    pose proof (find_none _ _ Hf _ Hin) as Hn. cbn in Hn. rewrite Hl, andb_true_r in Hn. apply bool_decide_eq_false in Hn.
    apply Hn, elem_of_stale_votes. eauto.
Qed.

Lemma unit_retired_iff u : u ∈ units -> unit_retired roster u = true <-> retires u.
Proof. intros Hu. unfold unit_retired, retires. rewrite andb_true_iff, !bool_decide_eq_true. unfold unit_position. tauto. Qed.

Hypothesis Hunits : units_ok s (intents s) units.

Lemma units_unique b p u u' :
  u ∈ units -> u' ∈ units -> unit_bundle_index u = b -> unit_bundle_index u' = b -> p ∈ proposal_ids u -> p ∈ proposal_ids u' -> u = u'.
Proof.
  intros Hu Hu' Hb Hb' Hp Hp'. unfold proposal_ids in *. apply list_elem_of_fmap in Hp as (m & -> & Hm), Hp' as (m' & He & Hm').
  destruct (unit_rows _ _ _ (units_sound _ _ _ Hunits u Hu) m Hm) as (v & Hok).
  destruct (unit_rows _ _ _ (units_sound _ _ _ Hunits u' Hu') m' Hm') as (v' & Hok').
  destruct Hok as [Hrow _ Hn _ _], Hok' as [Hrow' _ Hn' _ _]. rewrite Hb in *. rewrite Hb', <- He in *.
  assert (v' = v) as -> by congruence. assert (unit_id u = unit_id u') as Hid by congruence.
  by apply (unit_by_id s (intents s) units).
Qed.

Lemma unit_of_Ok b p u : unit_of units b p = Ok u <-> u ∈ units /\ unit_bundle_index u = b /\ p ∈ proposal_ids u.
Proof.
  unfold unit_of. rewrite ok_or_Ok. split.
  - intros [Hin%list_elem_of_In [Hb%bool_decide_eq_true Hp%bool_decide_eq_true]%andb_true_iff]%find_some. done.
  - intros (Hu & Hb & Hp). destruct (find _ units) as [u'|] eqn:Hf.
    + apply find_some in Hf as [Hin%list_elem_of_In [Hb'%bool_decide_eq_true Hp'%bool_decide_eq_true]%andb_true_iff].
      f_equal. by eapply units_unique.
    + apply list_elem_of_In in Hu. pose proof (find_none _ _ Hf _ Hu) as Hn. unfold unit_contains in Hn. cbn in Hn.
      rewrite (bool_decide_true (unit_bundle_index u = b)), (bool_decide_true (p ∈ proposal_ids u)) in Hn by done. done.
Qed.

Lemma unit_row u p : u ∈ units -> p ∈ proposal_ids u ->
  exists v, votes s !! (unit_bundle_index u, p) = Some v /\ vote_phase v = unit_phase u.
Proof.
  intros Hu (m & -> & Hm)%list_elem_of_fmap. destruct (unit_rows _ _ _ (units_sound _ _ _ Hunits u Hu) m Hm) as (v & []). eauto.
Qed.

Lemma vote_unit b p v : votes s !! (b, p) = Some v ->
  exists u, unit_of units b p = Ok u /\ u ∈ units /\ unit_bundle_index u = b /\ p ∈ proposal_ids u /\ unit_phase u = vote_phase v.
Proof.
  intros Hv. destruct (units_cover _ _ _ Hunits b p v Hv) as (u & Hu & Hb & Hp). exists u. rewrite unit_of_Ok. split; [done|].
  destruct (unit_row u p Hu Hp) as (v' & Hv' & Hph). rewrite Hb in Hv'. by assert (v' = v) as <- by congruence.
Qed.

Lemma elem_of_retirable_votes b p u :
  u ∈ units -> unit_bundle_index u = b -> p ∈ proposal_ids u -> (b, p) ∈ retirable_votes roster units <-> retires u.
Proof.
  intros Hu Hb Hp. unfold retirable_votes. rewrite elem_of_list_to_set, list_elem_of_In, in_concat. setoid_rewrite <- list_elem_of_In. split.
  - intros (l & (u' & -> & Hu')%list_elem_of_fmap & Hin). destruct (unit_retired roster u') eqn:Hr; [|by apply elem_of_nil in Hin].
    apply list_elem_of_fmap in Hin as (p' & [= Hb' <-] & Hp'). assert (u = u') as <- by (by eapply units_unique).
    by apply unit_retired_iff.
  - intros Hr. exists (map (pair (unit_bundle_index u)) (proposal_ids u)). rewrite !list_elem_of_fmap. split.
    + exists u. by rewrite (proj2 (unit_retired_iff u Hu) Hr).
    + exists p. by rewrite Hb.
Qed.

Abbreviation stale := (stale_votes s).
Abbreviation retirable := (retirable_votes roster units).
Abbreviation held := (held_bundles s stale retirable).

Lemma cast_due_iff b p choice :
  intents s !! p = Some (Choice choice) -> cast_due s stale retirable choice (b, p) = true <-> ~ covered b p choice.
Proof.
  intros Hi. unfold cast_due. destruct (votes s !! (b, p)) as [v|] eqn:Hv.
  2: { split; [|done]. intros _ (u & v & _ & _ & _ & Hv' & _). congruence. }
  destruct (vote_unit b p v Hv) as (u & _ & Hu & Hb & Hp & Hph).
  pose proof (elem_of_retirable_votes b p u Hu Hb Hp) as Hret.
  assert (covered b p choice <-> vote_choice v = choice /\ position_of (Some (vote_phase v)) <> Uncast /\ ~ retires u) as ->.
  { split.
    - intros (u' & v' & Hu' & Hb' & Hp' & Hv' & Hc & Hpos & Hr). assert (v' = v) as -> by congruence.
      assert (u' = u) as -> by (by eapply units_unique). unfold unit_position in Hpos. by rewrite Hph in Hpos.
    - intros (? & ? & ?). exists u, v. unfold unit_position. by rewrite Hph. }
  assert ((b, p) ∈ stale <-> vote_choice v <> choice) as Hstale.
  { rewrite elem_of_stale_votes. cbn. unfold ballot_relation. rewrite Hi. split.
    - intros (v' & Hv' & Hc). assert (v' = v) as -> by congruence. case_bool_decide; [done|congruence].
    - intros Hne. exists v. rewrite (bool_decide_false (choice = vote_choice v)) by congruence. done. }
  rewrite !orb_true_iff, negb_true_iff, bool_decide_eq_false, !bool_decide_eq_true, Hstale, <- Hret.
  destruct (decide (vote_choice v = choice)), (decide (position_of (Some (vote_phase v)) = Uncast)), (decide ((b, p) ∈ retirable)).
  all: tauto.
Qed.

Lemma elem_of_held_bundles b : b ∈ held <-> bundle_held b.
Proof.
  unfold held_bundles, bundle_held. rewrite !elem_of_union, elem_of_dom, !elem_of_list_to_set, list_elem_of_fmap.
  setoid_rewrite list_elem_of_In. setoid_rewrite filter_In. setoid_rewrite <- list_elem_of_In. rewrite elem_of_sorted_keys.
  assert (forall A B C A' B' : Prop, A <-> A' -> B <-> B' -> (A \/ B) \/ C <-> A' \/ B' \/ C) as Hor by tauto. apply Hor.
  - split.
    + intros ([[b' p] v] & -> & Hin & Hc). apply elem_of_votes_in_order in Hin. cbn in *.
      rewrite !andb_true_iff, !negb_true_iff, !bool_decide_eq_false in Hc. destruct Hc as [[Hs Hr] Hh].
      destruct (vote_unit b' p v Hin) as (u & _ & Hu & Hb & Hp & Hph). exists u, p, v. rewrite Hph.
      rewrite elem_of_retirable_votes in Hr by done. split_and!; try done. intros Hc. apply Hs, elem_of_stale_votes. eauto.
    + intros (u & p & v & Hu & Hb & Hp & Hv & Hc & Hh & Hr). exists ((b, p), v). rewrite elem_of_votes_in_order. cbn.
      split_and!; [done|done|]. rewrite !andb_true_iff, !negb_true_iff, !bool_decide_eq_false, (elem_of_retirable_votes b p u) by done.
      destruct (unit_row u p Hu Hp) as (v' & Hv' & Hph). rewrite Hb in Hv'. assert (v' = v) as -> by congruence. rewrite Hph.
      split_and!; try done. intros (v' & Hv'' & Hc')%elem_of_stale_votes. cbn in *. congruence.
  - split; [|intros (phase & -> & ?); eauto]. intros [[phase Hph] Hh]. rewrite Hph in Hh. eauto.
Qed.

(** ** Effects of the passes *)

Abbreviation chosen := (choice_effect s roster units stale retirable).
Abbreviation seen := (vote_effect s roster units).

(** The unit of a vote, as the passes find it. *)
Definition unit_at (b p : N) (v : VoteSnapshot) (u : VoteUnit) : Prop :=
  u ∈ units /\ unit_bundle_index u = b /\ p ∈ proposal_ids u /\ votes s !! (b, p) = Some v /\ unit_phase u = vote_phase v.

Lemma choice_effect_cases b p c :
  intents s !! p = Some (Choice c) ->
  (~ covered b p c /\ chosen p c b = ECast p c b)
  \/ exists u v, unit_at b p v u /\ vote_choice v = c /\ unit_position u <> Uncast /\ ~ retires u
     /\ chosen p c b = match unit_position u with
                       | AtConfirmed => EDeliver b p
                       | Undispatched => if every_member_agrees s roster b u then EReconcile u else EWithhold p
                       | OnWire => EReconcile u
                       | Terminal | Uncast => ENone
                       end.
Proof.
  intros Hi. pose proof (cast_due_iff b p c Hi) as Hdue. unfold choice_effect. destruct (cast_due _ _ _ _ _) eqn:Hd; [left; tauto|right].
  unfold cast_due in Hd. destruct (votes s !! (b, p)) as [v|] eqn:Hv; [|done].
  rewrite !orb_false_iff, negb_false_iff, !bool_decide_eq_false, bool_decide_eq_true in Hd. destruct Hd as [[[_ Hc] Hr] Hpos].
  destruct (vote_unit b p v Hv) as (u & Hof & Hu & Hb & Hp & Hph). rewrite elem_of_retirable_votes in Hr by done.
  exists u, v. unfold unit_at, on_unit, unit_position. rewrite Hof, Hph. split_and!; try done.
Qed.

Lemma vote_effect_cases b p v :
  votes s !! (b, p) = Some v ->
  (is_Some (intents s !! p) /\ p ∈ roster /\ seen ((b, p), v) = ENone)
  \/ (~ (is_Some (intents s !! p) /\ p ∈ roster) /\ exists u, unit_at b p v u
     /\ seen ((b, p), v) = match unit_position u with
                           | OnWire => EReconcile u
                           | AtConfirmed => EDeliver b p
                           | Uncast | Undispatched | Terminal => ENone
                           end).
Proof.
  intros Hv. unfold vote_effect. destruct (_ && _) eqn:Hif.
  - apply andb_true_iff in Hif as [?%bool_decide_eq_true ?%bool_decide_eq_true]. by left.
  - right. split; [intros [H1 H2]; by rewrite (bool_decide_true (is_Some _)), (bool_decide_true (p ∈ roster)) in Hif|].
    destruct (vote_unit b p v Hv) as (u & Hof & Hu & Hb & Hp & Hph). exists u. unfold unit_at, on_unit, unit_position.
    by rewrite Hof, Hph.
Qed.

Definition plan_effects : list planned_effect :=
  concat (map (proposal_effects s roster units stale retirable) (filter (fun p => is_choice (intents s !! p) = true) roster))
  ++ map seen (votes_in_order s).

Lemma elem_of_plan_effects e :
  e ∈ plan_effects <->
  (exists b p c, p ∈ roster /\ intents s !! p = Some (Choice c) /\ is_Some (delegation_phases s !! b) /\ e = chosen p c b)
  \/ (exists b p v, votes s !! (b, p) = Some v /\ e = seen ((b, p), v)).
Proof.
  unfold plan_effects. rewrite elem_of_app, list_elem_of_fmap, list_elem_of_In, in_concat. setoid_rewrite <- list_elem_of_In.
  apply or_iff_both; split.
  - intros (l & (p & -> & [Hc Hp]%list_elem_of_filter)%list_elem_of_fmap & He). unfold proposal_effects in He.
    destruct (intents s !! p) as [[c|]|] eqn:Hi; try done. apply list_elem_of_fmap in He as (b & -> & Hb%elem_of_sorted_keys).
    exists b, p, c. by rewrite Hi.
  - intros (b & p & c & Hp & Hi & Hb & ->). exists (proposal_effects s roster units stale retirable p). split.
    + apply list_elem_of_fmap. exists p. split; [done|]. apply list_elem_of_filter. by rewrite Hi.
    + unfold proposal_effects. rewrite Hi. apply list_elem_of_fmap. exists b. by rewrite elem_of_sorted_keys.
  - intros ([[b p] v] & -> & Hin%elem_of_votes_in_order). eauto.
  - intros (b & p & v & Hv & ->). exists ((b, p), v). by rewrite elem_of_votes_in_order.
Qed.

Lemma every_member_agrees_iff b u :
  every_member_agrees s roster b u = true <-> forall p, p ∈ proposal_ids u -> p ∈ roster
    /\ exists v, votes s !! (b, p) = Some v /\ ballot_relation (intents s) p (vote_choice v) = Agrees.
Proof.
  unfold every_member_agrees. rewrite forallb_forall. setoid_rewrite <- list_elem_of_In. split; intros H p Hp.
  - specialize (H p Hp). apply andb_true_iff in H as [?%bool_decide_eq_true H]. split; [done|].
    destruct (votes s !! (b, p)) as [v|]; [|done]. exists v. by apply bool_decide_eq_true in H.
  - destruct (H p Hp) as (Hr & v & -> & Ha). by rewrite (bool_decide_true (p ∈ roster)), bool_decide_true.
Qed.

Lemma ballot_relation_Agrees p choice : ballot_relation (intents s) p choice = Agrees <-> intents s !! p = Some (Choice choice).
Proof. unfold ballot_relation. destruct (intents s !! p) as [[c|]|]; try done. case_bool_decide; [by subst|]. split; congruence. Qed.

Hypothesis Hdelegated : forall b p v, votes s !! (b, p) = Some v -> is_Some (delegation_phases s !! b).
Hypothesis Hconflict : ~ owned_conflict.

(** A vote the chain may have seen is passed by one of the loops, under its unit. *)
Lemma owned_vote_effect b p v :
  votes s !! (b, p) = Some v -> vote_phase_is_lifecycle_owned (vote_phase v) = true ->
  exists e u, e ∈ plan_effects /\ unit_at b p v u /\ e = match unit_position u with
                                                      | OnWire => EReconcile u
                                                      | AtConfirmed => EDeliver b p
                                                      | _ => ENone
                                                      end.
Proof.
  intros Hv Ho. assert (ballot_relation (intents s) p (vote_choice v) <> Conflicts) as Hrel by (intros ?; apply Hconflict; by exists (b, p), v).
  destruct (vote_effect_cases b p v Hv) as [([d Hi] & Hr & _)|(_ & u & Hat & He)].
  2: { exists (seen ((b, p), v)), u. split_and!; [|done|by rewrite He; destruct (unit_position u)]. apply elem_of_plan_effects. right. eauto. }
  assert (d = Choice (vote_choice v)) as ->.
  { unfold ballot_relation in Hrel. rewrite Hi in Hrel. destruct d; [|done]. case_bool_decide; congruence. }
  exists (chosen p (vote_choice v) b). destruct (vote_unit b p v Hv) as (u & _ & Hu & Hb & Hp & Hph).
  assert (unit_position u <> Undispatched /\ unit_position u <> Uncast) as [Hpos1 Hpos2].
  { unfold unit_position. rewrite Hph. unfold vote_phase_is_lifecycle_owned in Ho. by destruct (position_of _). }
  exists u. split; [apply elem_of_plan_effects; left; by eauto 10|]. split; [done|].
  destruct (choice_effect_cases b p _ Hi) as [(Hnc & _)|(u' & v' & (Hu' & Hb' & Hp' & _ & _) & _ & _ & _ & ->)].
  - destruct Hnc. exists u, v. split_and!; try done. intros (_ & ? & _). done.
  - assert (u' = u) as -> by (by eapply units_unique). by destruct (unit_position u).
Qed.

Lemma choice_effect_covered b p c u v :
  intents s !! p = Some (Choice c) -> unit_at b p v u -> vote_choice v = c -> unit_position u <> Uncast -> ~ retires u ->
  chosen p c b = match unit_position u with
                 | AtConfirmed => EDeliver b p
                 | Undispatched => if every_member_agrees s roster b u then EReconcile u else EWithhold p
                 | OnWire => EReconcile u
                 | Terminal | Uncast => ENone
                 end.
Proof.
  intros Hi (Hu & Hb & Hp & Hv & Hph) Hc Hpos Hr.
  destruct (choice_effect_cases b p c Hi) as [(Hnc & _)|(u' & v' & (Hu' & Hb' & Hp' & _ & _) & _ & _ & _ & ->)].
  - destruct Hnc. by exists u, v.
  - by assert (u' = u) as -> by (by eapply units_unique).
Qed.

Lemma effect_reconcile u : EReconcile u ∈ plan_effects <-> reconcilable u.
Proof.
  split.
  - intros [(b & p & c & Hp & Hi & _ & He)|(b & p & v & Hv & He)]%elem_of_plan_effects.
    + destruct (choice_effect_cases b p c Hi) as [(_ & Hx)|(u' & v & (Hu' & Hb' & _) & _ & _ & _ & Hx)]; rewrite Hx in He; [done|].
      destruct (unit_position u') eqn:Hpos; try done; [destruct (every_member_agrees s roster b u') eqn:Ha; [|done]|];
        injection He as ->; (split; [done|]); [right|by left]. split; [done|]. rewrite Hb'. by apply every_member_agrees_iff.
    + destruct (vote_effect_cases b p v Hv) as [(_ & _ & Hx)|(_ & u' & (Hu' & _) & Hx)]; rewrite Hx in He; [done|].
      destruct (unit_position u') eqn:Hpos; try done. injection He as ->. split; [done|by left].
  - intros (Hu & Hcase). destruct (unit_members u) as [|m ms] eqn:Hms.
    { by destruct (unit_nonempty _ _ _ (units_sound _ _ _ Hunits u Hu)). }
    set (p := member_proposal_id m). assert (p ∈ proposal_ids u) as Hp by (unfold proposal_ids; rewrite Hms; by left).
    destruct (unit_row u p Hu Hp) as (v & Hv & Hph). destruct Hcase as [Hpos|[Hpos Hall]].
    + destruct (owned_vote_effect _ p v Hv) as (e & u' & He & (Hu' & Hb' & Hp' & _) & Hx).
      { unfold vote_phase_is_lifecycle_owned. rewrite Hph. unfold unit_position in Hpos. by rewrite Hpos. }
      assert (u' = u) as -> by (by eapply units_unique). rewrite Hpos in Hx. by rewrite <- Hx.
    + destruct (Hall p Hp) as (Hr & v' & Hv' & Ha). assert (v' = v) as -> by congruence. apply ballot_relation_Agrees in Ha.
      apply elem_of_plan_effects. left. exists (unit_bundle_index u), p, (vote_choice v). split_and!; [done|done|by eapply Hdelegated|].
      rewrite (choice_effect_covered (unit_bundle_index u) p (vote_choice v) u v); rewrite ?Hpos; try done.
      * by rewrite (proj2 (every_member_agrees_iff _ _) Hall).
      * intros (_ & _ & Hl). unfold roster_relation in Hl. destruct (forallb _ _) eqn:Hf; [done|].
        apply not_true_iff_false in Hf. apply Hf, forallb_forall. intros q Hq%list_elem_of_In. apply bool_decide_eq_true. by apply Hall.
Qed.

Lemma effect_deliver b p : EDeliver b p ∈ plan_effects <-> confirmed_vote b p.
Proof.
  split.
  - intros [(b' & p' & c & Hp & Hi & _ & He)|(b' & p' & v & Hv & He)]%elem_of_plan_effects.
    + destruct (choice_effect_cases b' p' c Hi) as [(_ & Hx)|(u' & v & (_ & _ & _ & Hv & Hph) & _ & _ & _ & Hx)]; rewrite Hx in He; [done|].
      destruct (unit_position u') eqn:Hpos; try done; [destruct (every_member_agrees _ _ _ _); done|]. injection He as -> ->.
      exists v. unfold unit_position in Hpos. by rewrite <- Hph.
    + destruct (vote_effect_cases b' p' v Hv) as [(_ & _ & Hx)|(_ & u' & (_ & _ & _ & _ & Hph) & Hx)]; rewrite Hx in He; [done|].
      destruct (unit_position u') eqn:Hpos; try done. injection He as -> ->. exists v. unfold unit_position in Hpos. by rewrite <- Hph.
  - intros (v & Hv & Hpos). destruct (owned_vote_effect b p v Hv) as (e & u & He & (_ & _ & _ & _ & Hph) & Hx).
    { unfold vote_phase_is_lifecycle_owned. by rewrite Hpos. }
    unfold unit_position in Hx. rewrite Hph, Hpos in Hx. by rewrite <- Hx.
Qed.

Lemma effect_cast b p c : ECast p c b ∈ plan_effects <-> due b p c.
Proof.
  unfold due. split.
  - intros [(b' & p' & c' & Hp & Hi & Hb & He)|(b' & p' & v & Hv & He)]%elem_of_plan_effects.
    + destruct (choice_effect_cases b' p' c' Hi) as [(Hnc & Hx)|(u' & v & _ & _ & _ & _ & Hx)]; rewrite Hx in He.
      * by injection He as -> -> ->.
      * destruct (unit_position u'); try done. by destruct (every_member_agrees _ _ _ _).
    + destruct (vote_effect_cases b' p' v Hv) as [(_ & _ & Hx)|(_ & u' & _ & Hx)]; rewrite Hx in He; [done|]. by destruct (unit_position u').
  - intros (Hr & Hi & Hb & Hnc). apply elem_of_plan_effects. left. exists b, p, c. split_and!; try done.
    destruct (choice_effect_cases b p c Hi) as [(_ & ->)|(u & v & (? & ? & ? & ? & ?) & ? & ? & ? & _)]; [done|].
    destruct Hnc. by exists u, v.
Qed.

Lemma effect_withhold p : EWithhold p ∈ plan_effects <-> awaits_batch p.
Proof.
  split.
  - intros [(b' & p' & c & Hp & Hi & _ & He)|(b' & p' & v & Hv & He)]%elem_of_plan_effects.
    + destruct (choice_effect_cases b' p' c Hi) as [(_ & Hx)|(u & v & (Hu & <- & Hpu & Hv & Hph) & <- & _ & Hr & Hx)]; rewrite Hx in He; [done|].
      destruct (unit_position u) eqn:Hpos; try done. destruct (every_member_agrees _ _ _ _) eqn:Ha; [done|]. injection He as ->.
      exists u, v. split_and!; try done; [by apply ballot_relation_Agrees|]. intros (_ & [?|[_ Hall]]); [congruence|].
      apply every_member_agrees_iff in Hall. congruence.
    + destruct (vote_effect_cases b' p' v Hv) as [(_ & _ & Hx)|(_ & u' & _ & Hx)]; rewrite Hx in He; [done|]. by destruct (unit_position u').
  - intros (u & v & Hu & Hp & Hpos & Hr & Hv & Ha%ballot_relation_Agrees & Hret & Hrec). destruct (unit_row u p Hu Hp) as (v' & Hv' & Hph).
    assert (v' = v) as -> by congruence. apply elem_of_plan_effects. left. exists (unit_bundle_index u), p, (vote_choice v).
    split_and!; [done|done|by eapply Hdelegated|].
    rewrite (choice_effect_covered (unit_bundle_index u) p (vote_choice v) u v); rewrite ?Hpos; try done.
    destruct (every_member_agrees _ _ _ _) eqn:Hall; [|done]. destruct Hrec. split; [done|right]. split; [done|by apply every_member_agrees_iff].
Qed.

Lemma effect_panic : EPanic ∉ plan_effects.
Proof.
  intros [(b & p & c & _ & Hi & _ & He)|(b & p & v & Hv & He)]%elem_of_plan_effects.
  - destruct (choice_effect_cases b p c Hi) as [(_ & Hx)|(u & v & _ & _ & _ & _ & Hx)]; rewrite Hx in He; [done|].
    destruct (unit_position u); try done. by destruct (every_member_agrees _ _ _ _).
  - destruct (vote_effect_cases b p v Hv) as [(_ & _ & Hx)|(_ & u & _ & Hx)]; rewrite Hx in He; [done|]. by destruct (unit_position u).
Qed.
End rules.

(** ** Drafts *)

(** The drafts due on a bundle are one list. *)
Lemma drafts_due_unique s roster units b ds ds' : drafts_due s roster units b ds -> drafts_due s roster units b ds' -> ds = ds'.
Proof.
  intros [Hs Hd] [Hs' Hd']. assert (forall d, d ∈ ds <-> d ∈ ds') as Hin by (intros [q c]; by rewrite Hd, Hd').
  clear Hd Hd'. revert ds' Hs' Hin. induction ds as [|d ds IH]; intros [|d' ds'] Hs' Hin; cbn [map] in *.
  - done.
  - exfalso. apply (not_elem_of_nil d'), Hin. by left.
  - exfalso. apply (not_elem_of_nil d), Hin. by left.
  - apply StronglySorted_inv in Hs as [Hs Hlt], Hs' as [Hs' Hlt']. rewrite Forall_forall in Hlt, Hlt'.
    assert (forall x, x ∈ ds -> (draft_proposal_id d < draft_proposal_id x)%N) as H1 by (intros; by apply Hlt, list_elem_of_fmap_2).
    assert (forall x, x ∈ ds' -> (draft_proposal_id d' < draft_proposal_id x)%N) as H2 by (intros; by apply Hlt', list_elem_of_fmap_2).
    assert (d = d') as <-.
    { destruct (proj1 (elem_of_cons _ _ _) (proj1 (Hin d) ltac:(by left))) as [|Hd']; [done|].
      destruct (proj1 (elem_of_cons _ _ _) (proj2 (Hin d') ltac:(by left))) as [|Hd]; [done|]. specialize (H1 _ Hd). specialize (H2 _ Hd'). lia. }
    f_equal. apply IH; [done|done|]. intros x. specialize (Hin x). rewrite !elem_of_cons in Hin. split; intros Hx.
    + destruct (proj1 Hin (or_intror Hx)) as [-> |]; [specialize (H1 _ Hx); lia|done].
    + destruct (proj2 Hin (or_intror Hx)) as [-> |]; [specialize (H2 _ Hx); lia|done].
Qed.

(** ** Prerequisites *)

Lemma set_prerequisite_again dbs dbs' o : set_prerequisite dbs (set_prerequisite dbs' o) = set_prerequisite dbs o.
Proof. by destruct o. Qed.

Lemma elem_of_prerequisites dbs owing o :
  (forall x, x ∈ owing -> set_prerequisite [] x = x) ->
  o ∈ map (set_prerequisite dbs) owing <-> set_prerequisite [] o ∈ owing /\ set_prerequisite dbs o = o.
Proof.
  intros Hnone. rewrite list_elem_of_fmap. split.
  - intros (x & -> & Hx). rewrite !set_prerequisite_again, (Hnone x Hx). done.
  - intros [Hin He]. exists (set_prerequisite [] o). by rewrite set_prerequisite_again.
Qed.

Lemma NoDup_prerequisites dbs owing :
  (forall x, x ∈ owing -> set_prerequisite [] x = x) -> NoDup owing -> NoDup (map (set_prerequisite dbs) owing).
Proof.
  intros Hnone. apply NoDup_fmap_2_strong. intros x y Hx Hy He. rewrite <- (Hnone x Hx), <- (Hnone y Hy).
  rewrite <- (set_prerequisite_again [] dbs x), He. apply set_prerequisite_again.
Qed.

(** ** The ballot *)

Record ballot_ok (s : RoundSnapshot) (ballot : BallotIntentClassification) : Prop := {
  ballot_sorted : StronglySorted N.lt (Ballot.roster ballot);
  ballot_choices : choice_proposals ballot = filter (fun p => is_choice (intents s !! p) = true) (Ballot.roster ballot);
  ballot_open : forall p, p ∈ open_proposals ballot <-> p ∈ Ballot.roster ballot /\ intents s !! p = None;
  ballot_unrostered : forall p, p ∈ unrostered_intents ballot <-> is_Some (intents s !! p) /\ p ∉ Ballot.roster ballot
}.

Lemma check_roster_NoDup seen ids u : check_roster seen ids = Ok u -> NoDup ids /\ forall p, p ∈ ids -> p ∉ seen.
Proof.
  revert seen. induction ids as [|p ids IH]; intros seen H; cbn [check_roster] in H.
  { split; [constructor|]. intros p Hp. by apply elem_of_nil in Hp. }
  inv_ok. apply IH in H as [Hnd Hfresh]. split.
  - apply NoDup_cons. split; [|done]. intros Hp. apply (Hfresh p Hp). by left.
  - intros q [-> |Hq]%elem_of_cons; [done|]. intros Hs. apply (Hfresh q Hq). by right.
Qed.

Lemma classify_ballot_intents_ok s ids ballot :
  classify_ballot_intents ids (intents s) = Ok ballot -> ballot_ok s ballot /\ Ballot.roster ballot = sort_by N.leb ids.
Proof.
  unfold classify_ballot_intents. intros H. inv_ok. apply check_roster_NoDup in Ha as [Hnd _]. split; [|done]. split; cbn.
  - by apply sort_N_strict.
  - done.
  - intros p. rewrite list_elem_of_filter. tauto.
  - intros p. rewrite elem_of_sort_by, list_elem_of_filter, elem_of_elements, elem_of_dom. tauto.
Qed.

Lemma proposal_lifecycle_owned_iff s p : proposal_lifecycle_owned s p = true <-> proposal_owned s p.
Proof.
  unfold proposal_lifecycle_owned, proposal_owned. rewrite existsb_elem_of. split.
  - intros ([[b p'] v] & Hin%elem_of_votes_in_order & [He%bool_decide_eq_true Ho]%andb_true_iff). cbn in *. subst. eauto.
  - intros (b & v & Hv & Ho). exists ((b, p), v). rewrite elem_of_votes_in_order. split; [done|]. cbn. by rewrite bool_decide_true.
Qed.

Definition unowned_unrostered (s : RoundSnapshot) (ballot : BallotIntentClassification) : list N :=
  List.filter (fun p => negb (proposal_lifecycle_owned s p)) (unrostered_intents ballot).

Lemma elem_of_unowned_unrostered s ballot p :
  p ∈ unowned_unrostered s ballot <-> p ∈ unrostered_intents ballot /\ ~ proposal_owned s p.
Proof.
  unfold unowned_unrostered. rewrite list_elem_of_In, filter_In, <- list_elem_of_In, negb_true_iff, <- not_true_iff_false.
  by rewrite proposal_lifecycle_owned_iff.
Qed.

Lemma ballot_complete_iff s ballot :
  ballot_ok s ballot ->
  bool_decide (open_proposals ballot = []) && bool_decide (unowned_unrostered s ballot = []) = true
  <-> ballot_complete s (Ballot.roster ballot).
Proof.
  intros Hok. rewrite andb_true_iff, !bool_decide_eq_true. unfold ballot_complete. split.
  - intros [Hopen Hun]. split; intros p Hp.
    + apply not_eq_None_Some. intros Hn. apply (not_elem_of_nil p). rewrite <- Hopen. by apply (ballot_open _ _ Hok).
    + destruct (decide (p ∈ Ballot.roster ballot)) as [|Hout]; [by left|]. destruct (proposal_lifecycle_owned s p) eqn:Ho.
      * right. by apply proposal_lifecycle_owned_iff.
      * destruct (not_elem_of_nil p). rewrite <- Hun. apply elem_of_unowned_unrostered. split; [by apply (ballot_unrostered _ _ Hok)|].
        rewrite <- proposal_lifecycle_owned_iff. congruence.
  - intros [Hdecided Hown]. split; apply elem_of_nil_inv; intros p Hp.
    + apply (ballot_open _ _ Hok) in Hp as [Hp Hn]. destruct (Hdecided p Hp). congruence.
    + apply elem_of_unowned_unrostered in Hp as [Hp Hno]. apply (ballot_unrostered _ _ Hok) in Hp as [Hp Hout].
      by destruct (Hown p Hp).
Qed.
