(* ===== verification/RoundClassification.v ===== *)
(** * The classifier implements the rule table

    Joins the effects of the passes ([RoundRules]) with the rules ([RoundRuleTable]): the
    obligations of [classify_round] are the owed ones, each once, and planning fails
    exactly where the durable state cannot be planned.  It never panics. *)

From S2P Require Import Prelude Sorting Types Diagnostics Identity Generation LifecyclePlanning ShareTiming SharePlacement.
From S2P Require Import Ballot Phases RoundSnapshot RoundUnits RoundPlanning RoundRules RoundRuleTable.

(** What the tables guarantee of one read: a vote row and a delegation belong to a bundle
    row, a recovery bundle is stored in the row it names, and share rows have one key. *)
Record snapshot_ok (s : RoundSnapshot) : Prop := {
  snapshot_recoveries : recoveries_own_rows s;
  snapshot_votes : forall b p v, votes s !! (b, p) = Some v -> is_Some (delegation_phases s !! b);
  snapshot_bundles : bundle_rows s;
  snapshot_shares : NoDup (map fst (share_phases s))
}.

Section classified.
Context `{GT : GenerationTables, HX : HexCrate, SH : Sha256Crate, RC : RoundIdCrates}.
Variables (s : RoundSnapshot) (ballot : BallotIntentClassification) (units : list VoteUnit).
Hypothesis Hsnapshot : snapshot_ok s.
Hypothesis Hballot : ballot_ok s ballot.
Hypothesis Hunits : units_ok s (intents s) units.

(** The round can be planned: no vote the chain may have seen contradicts the ballot, a
    submitted unit can be recovered and a confirmed vote's shares can be delivered. *)
Definition plannable : Prop :=
  ~ owned_conflict s /\ (forall u, u ∈ units -> recoverable u)
  /\ forall b p, confirmed_vote s b p -> deliverable s b p.

Abbreviation roster := (Ballot.roster ballot).
Abbreviation stale := (stale_votes s).
Abbreviation held := (held_bundles s stale (retirable_votes roster units)).
Abbreviation unrostered := (unowned_unrostered s ballot).
Abbreviation terminal := (bool_decide (open_proposals ballot = []) && bool_decide (unrostered = [])).
Abbreviation retired := (map (fun u => Retire (unit_id u) (proposal_ids u)) (List.filter (unit_retired roster) units)).
Abbreviation effects := (plan_effects s roster units).

(** ** The passes *)

Lemma passes_effects :
  (p ← fold_results (plan_proposal s roster units stale (retirable_votes roster units) held terminal) (no_pass retired) (choice_proposals ballot);
   fold_results (plan_unchosen s roster units) p (votes_in_order s))
  = fold_results (apply_effect s held terminal) (no_pass retired) effects.
Proof.
  unfold plan_effects. rewrite fold_results_app, <- plan_proposals_effects, (ballot_choices _ _ Hballot).
  destruct (fold_results _ _ _) as [p|]; [|done]. apply plan_unchosen_effects.
Qed.

Lemma elem_of_retired o : o ∈ retired <-> exists u, retires roster units u /\ o = Retire (unit_id u) (proposal_ids u).
Proof.
  rewrite list_elem_of_fmap. setoid_rewrite list_elem_of_In. setoid_rewrite filter_In. setoid_rewrite <- list_elem_of_In. split.
  - intros (u & -> & Hu & Hr). exists u. split; [|done]. by apply unit_retired_iff.
  - intros (u & Hr & ->). exists u. pose proof (proj1 Hr) as Hu. split_and!; [done|done|]. by apply (unit_retired_iff roster units).
Qed.

Lemma NoDup_retired : NoDup retired.
Proof.
  pose proof (units_names _ _ _ Hunits) as Hnd. clear - Hnd. induction units as [|u us IH]; [constructor|].
  apply NoDup_cons in Hnd as [Hnew Hnd]. cbn [List.filter]. destruct (unit_retired roster u); [|by apply IH]. cbn [map].
  apply NoDup_cons. split; [|by apply IH]. intros (u' & [= Hid _] & Hin)%list_elem_of_fmap. apply Hnew. rewrite Hid.
  apply (list_elem_of_fmap_2 unit_id). apply list_elem_of_In, filter_In in Hin as [Hin _]. by apply list_elem_of_In.
Qed.

Section planned.
Hypothesis Hconflict : ~ owned_conflict s.
Variable p : Pass.
Hypothesis Hpasses : fold_results (apply_effect s held terminal) (no_pass retired) effects = Ok p.

Lemma passes_passed : passed s held terminal retired (reconciles effects) (deliveries effects) (casts effects) (withheld effects) p.
Proof.
  apply fold_effects_passed; [apply NoDup_retired| | |done].
  - intros o (u & _ & ->)%elem_of_retired. eauto.
  - intros u u' Hu Hu' Hid. apply (effect_reconcile s roster units Hunits (snapshot_votes _ Hsnapshot) Hconflict) in Hu as [Hu _], Hu' as [Hu' _].
    by apply (unit_by_id s (intents s) units).
Qed.

Lemma cast_bundles b : b ∈ map fst (casts effects) <-> exists q c, due s roster units b q c.
Proof.
  rewrite list_elem_of_fmap. split.
  - intros ([b' d] & -> & Hd%elem_of_casts). apply (effect_cast s roster units Hunits) in Hd. eauto.
  - intros (q & c & Hd). exists (b, {| draft_proposal_id := q; draft_choice := c |}). split; [done|].
    rewrite elem_of_casts. by apply (effect_cast s roster units Hunits).
Qed.

Lemma needing_iff b : b ∈ needing_delegation p <-> ~ bundle_held s roster units b /\ exists q c, due s roster units b q c.
Proof. by rewrite (passed_needing _ _ _ _ _ _ _ _ _ passes_passed), cast_bundles, (elem_of_held_bundles s roster units Hunits). Qed.

Variable delegating : list Obligation.
Hypothesis Hdelegating : delegation_obligations s (needing_delegation p) = Ok delegating.

Lemma elem_of_delegating o :
  o ∈ delegating <-> (exists b, starts_delegation s roster units b /\ o = Delegate b)
    \/ exists b phase bundle, advances_delegation s b phase /\ bundles s !! b = Some bundle
         /\ o = AdvanceDelegation b (capability_imported bundle) phase (delegation_tx_hash s b).
Proof.
  rewrite (elem_of_delegation_obligations s _ _ _ Hdelegating). unfold delegation_obligation, starts_delegation, advances_delegation. split.
  - intros (b & phase & Hb & H). destruct (bundle_combined s b) eqn:Hc; [done|].
    destruct phase; try done; inv_ok; try (case_bool_decide as Hn; [|done]; apply needing_iff in Hn as [Hh Hd]; simplify_eq; left; by eauto 10).
    all: right; by eauto 10.
  - intros [(b & (Hb & Hc & Hn) & ->)|(b & phase & bundle & (Hb & Hph & Hc) & Hrow & ->)].
    + apply needing_iff in Hn. destruct Hb as [Hb|Hb]; exists b; eexists; (split; [exact Hb|]); rewrite Hc, (bool_decide_true (b ∈ _)); done.
    + exists b, phase. split; [done|]. rewrite Hc, Hrow. by destruct Hph as [-> | ->].
Qed.

Lemma delegating_bundles b :
  b ∈ map obligation_bundle delegating <-> starts_delegation s roster units b \/ exists phase, advances_delegation s b phase.
Proof.
  rewrite list_elem_of_fmap. setoid_rewrite elem_of_delegating. split.
  - intros (o & -> & [(b' & Hs & ->)|(b' & phase & bundle & Ha & _ & ->)]); cbn; eauto.
  - intros [Hs|[phase Ha]]; [exists (Delegate b); by eauto|].
    destruct (snapshot_bundles _ Hsnapshot b) as [bundle Hrow]; [by eexists; apply Ha|].
    exists (AdvanceDelegation b (capability_imported bundle) phase (delegation_tx_hash s b)). split; [done|]. right. by eauto 10.
Qed.

Lemma waits_iff b prerequisite :
  waits s roster units b prerequisite <-> prerequisite = (if bool_decide (b ∈ map obligation_bundle delegating) then Some b else None).
Proof.
  unfold waits. rewrite <- delegating_bundles. destruct (decide (b ∈ map obligation_bundle delegating)).
  - rewrite (bool_decide_true (b ∈ _)) by done. tauto.
  - rewrite (bool_decide_false (b ∈ _)) by done. tauto.
Qed.

(** ** Casts *)

Lemma drafts_on_due b : drafts_due s roster units b (drafts_on b (casts effects)).
Proof.
  split.
  - unfold plan_effects. rewrite casts_app, drafts_on_app.
    replace (casts (map _ (votes_in_order s))) with (@nil (N * CastDraft)).
    + rewrite app_nil_r, <- (ballot_choices _ _ Hballot). apply drafts_sorted. rewrite (ballot_choices _ _ Hballot).
      apply filter_sorted, (ballot_sorted _ _ Hballot).
    + symmetry. apply elem_of_nil_inv. intros [b' d] Hd%elem_of_casts. apply list_elem_of_fmap in Hd as ([[b'' q] v] & He & Hin%elem_of_votes_in_order).
      destruct (vote_effect_cases s roster units Hunits _ _ _ Hin) as [(_ & _ & Hx)|(_ & u & _ & Hx)]; rewrite Hx in He; [done|]. by destruct (unit_position u).
  - intros q c. rewrite elem_of_drafts_on, elem_of_casts. apply (effect_cast s roster units Hunits).
Qed.

Lemma elem_of_casting o :
  o ∈ cast_obligations s (pass_drafts p) <-> exists b drafts, ballot_complete s roster /\ ~ bundle_held s roster units b
    /\ drafts_due s roster units b drafts /\ drafts <> [] /\ o = Cast b drafts None (cast_signs_delegation s b).
Proof.
  rewrite elem_of_cast_obligations. setoid_rewrite (passed_drafts _ _ _ _ _ _ _ _ _ passes_passed).
  setoid_rewrite <- (elem_of_held_bundles s roster units Hunits). setoid_rewrite <- (ballot_complete_iff s ballot Hballot). split.
  - intros (b & drafts & Hd & ->). exists b, drafts. pose proof (drafts_on_due b) as Hdue. destruct terminal; [|done]. cbn in Hd.
    destruct (bool_decide (b ∈ held)) eqn:Hh; [done|]. apply bool_decide_eq_false in Hh. cbn in Hd.
    destruct (drafts_on b (casts effects)) eqn:He; [done|]. injection Hd as <-. done.
  - intros (b & drafts & Ht & Hh & Hdue & Hne & ->). exists b, drafts. split; [|done].
    rewrite Ht, (bool_decide_false (b ∈ held)) by done. cbn. replace (drafts_on b (casts effects)) with drafts; [by destruct drafts|].
    eapply drafts_due_unique; [exact Hdue|apply drafts_on_due].
Qed.

Abbreviation blocking := (blocked_obligations (open_proposals ballot) unrostered (pass_blocked p)).
Abbreviation confirming := (omap (confirm_obligation s stale) (share_phases s)).
Abbreviation owing := (pass_obligations p ++ cast_obligations s (pass_drafts p) ++ blocking ++ delegating ++ confirming).

Lemma elem_of_blocking o :
  o ∈ blocking <-> exists b q c, ~ ballot_complete s roster /\ ~ bundle_held s roster units b /\ due s roster units b q c
    /\ o = Blocked b (if bool_decide (open_proposals ballot = []) then UnrosteredIntents unrostered else OpenBallot (open_proposals ballot)).
Proof.
  rewrite elem_of_blocked_obligations. setoid_rewrite (passed_blocked _ _ _ _ _ _ _ _ _ passes_passed).
  setoid_rewrite cast_bundles. setoid_rewrite (elem_of_held_bundles s roster units Hunits). setoid_rewrite <- not_true_iff_false.
  setoid_rewrite (ballot_complete_iff s ballot Hballot). naive_solver.
Qed.

Lemma elem_of_confirming o :
  o ∈ confirming <-> exists b q index, (b, q, index, ShareSubmitted) ∈ share_phases s
    /\ ~ (exists v, votes s !! (b, q) = Some v /\ ballot_relation (intents s) q (vote_choice v) = Conflicts)
    /\ Some o = confirm_obligation s ∅ (b, q, index, ShareSubmitted).
Proof.
  rewrite list_elem_of_omap. split.
  - intros ([[[b q] index] phase] & Hin & Ho). destruct phase; [|done]. exists b, q, index. split; [done|]. cbn in *.
    destruct (bool_decide ((b, q) ∈ stale)) eqn:Hs; [done|]. apply bool_decide_eq_false in Hs. rewrite elem_of_stale_votes in Hs.
    by rewrite Ho.
  - intros (b & q & index & Hin & Hs & Ho). exists (b, q, index, ShareSubmitted). split; [done|]. rewrite Ho. cbn.
    rewrite (bool_decide_false ((b, q) ∈ stale)); [done|]. by rewrite elem_of_stale_votes.
Qed.

Lemma elem_of_pass_obligations o :
  o ∈ pass_obligations p <-> (exists u, retires roster units u /\ o = Retire (unit_id u) (proposal_ids u))
    \/ (exists u, reconcilable s roster units u /\ o = reconcile_obligation s u)
    \/ (exists b q position indexes, confirmed_vote s b q /\ owes s b q position indexes /\ o = Deliver b q position indexes None).
Proof.
  rewrite (passed_obligations _ _ _ _ _ _ _ _ _ passes_passed), elem_of_retired, list_elem_of_fmap.
  setoid_rewrite elem_of_reconciles. setoid_rewrite elem_of_deliveries.
  setoid_rewrite (effect_reconcile s roster units Hunits (snapshot_votes _ Hsnapshot) Hconflict).
  setoid_rewrite (effect_deliver s roster units Hunits (snapshot_votes _ Hsnapshot) Hconflict). naive_solver.
Qed.

(** No obligation has a prerequisite before they are set. *)
Lemma owing_unset o : o ∈ owing -> set_prerequisite [] o = o.
Proof.
  rewrite !elem_of_app, elem_of_pass_obligations, elem_of_casting, elem_of_blocking, elem_of_delegating, elem_of_confirming.
  intros [[(u & _ & ->)|[(u & _ & ->)|(b & q & pos & idx & _ & _ & ->)]]|[(b & ds & _ & _ & _ & _ & ->)|[(b & q & c & _ & _ & _ & ->)|
    [[(b & _ & ->)|(b & phase & bundle & _ & _ & ->)]|(b & q & index & _ & _ & Ho)]]]]; try done.
  cbn in Ho. by injection Ho as ->.
Qed.

Abbreviation planned := (map (set_prerequisite (map obligation_bundle delegating)) owing).

Lemma planned_owed o : o ∈ planned -> owed s roster units (open_proposals ballot) unrostered o.
Proof.
  rewrite (elem_of_prerequisites _ _ _ owing_unset). intros [Hin Hset].
  rewrite !elem_of_app, elem_of_pass_obligations, elem_of_casting, elem_of_blocking, elem_of_delegating, elem_of_confirming in Hin.
  rewrite <- Hset, <- (set_prerequisite_again _ []). clear Hset.
  destruct Hin as [[(u & Hr & ->)|[(u & Hr & ->)|(b & q & pos & idx & Hv & (Hm & Hne & Hpos) & ->)]]|
    [(b & ds & Hc & Hh & Hd & Hne & ->)|[(b & q & c & Hc & Hh & Hd & ->)|
    [[(b & Hs & ->)|(b & phase & bundle & Ha & Hb & ->)]|(b & q & index & Hin & Hc & [= ->])]]]]; cbn [set_prerequisite].
  - by constructor.
  - destruct (anchor_proposal_id u) as [anchor|] eqn:Hanchor.
    + unfold reconcile_obligation. rewrite Hanchor. cbn. constructor; [done|done|by apply waits_iff].
    + destruct (unit_nonempty _ _ _ (units_sound _ _ _ Hunits u (proj1 Hr))). unfold anchor_proposal_id in Hanchor. by destruct (unit_members u).
  - constructor; try done. by apply waits_iff.
  - constructor; try done. by apply waits_iff.
  - by econstructor.
  - by constructor.
  - by constructor.
  - constructor; [done|done|by apply waits_iff].
Qed.

Lemma owed_planned o : owed s roster units (open_proposals ballot) unrostered o -> o ∈ planned.
Proof.
  rewrite (elem_of_prerequisites _ _ _ owing_unset).
  rewrite !elem_of_app, elem_of_pass_obligations, elem_of_casting, elem_of_blocking, elem_of_delegating, elem_of_confirming.
  intros H. destruct H as [u Hr|u anchor pre Hr Ha Hw%waits_iff|b q pos idx pre Hv Hm Hne Hpos Hw%waits_iff|b ds pre Hc Hh Hd Hne Hw%waits_iff|
    b q c Hc Hh Hd|b Hs|b phase bundle Ha Hb|b q index pre Hin Hs Hw%waits_iff]; cbn [set_prerequisite obligation_bundle]; rewrite <- ?Hw; (split; [|done]).
  - left. left. by exists u.
  - left. right. left. exists u. split; [done|]. unfold reconcile_obligation. by rewrite Ha.
  - left. right. right. by exists b, q, pos, idx.
  - right. left. by exists b, ds.
  - right. right. left. by exists b, q, c.
  - right. right. right. left. left. by exists b.
  - right. right. right. left. right. by exists b, phase, bundle.
  - right. right. right. right. by exists b, q, index.
Qed.

Lemma NoDup_confirming : NoDup confirming.
Proof.
  pose proof (snapshot_shares _ Hsnapshot) as Hnd. induction (share_phases s) as [|[[[b q] index] phase] l IH]; [constructor|].
  apply NoDup_cons in Hnd as [Hnew Hnd]. change ((b, q, index, phase) :: l) with ([(b, q, index, phase)] ++ l). rewrite omap_app.
  apply NoDup_app. split; [|split; [|by apply IH]].
  - cbn. destruct phase; [|constructor]. destruct (bool_decide ((b, q) ∈ stale)); [constructor|apply NoDup_singleton].
  - intros o Ho Ho'. apply list_elem_of_omap in Ho as (x & ->%list_elem_of_singleton & Hx), Ho' as ([[[b' q'] index'] phase'] & Hin & Hx').
    apply Hnew. apply list_elem_of_fmap. exists (b', q', index', phase'). split; [|done]. cbn in *.
    destruct phase, phase'; try done. destruct (bool_decide ((b, q) ∈ _)), (bool_decide ((b', q') ∈ _)); by simplify_eq.
Qed.

(** The part of the list an obligation is in. *)
Definition segment (o : Obligation) : nat :=
  match o with
  | Retire _ _ | ReconcileChain _ _ _ _ _ _ | Deliver _ _ _ _ _ => 0
  | Cast _ _ _ _ => 1
  | Blocked _ _ => 2
  | Delegate _ | AdvanceDelegation _ _ _ _ => 3
  | Confirm _ _ _ _ _ _ => 4
  end.

Lemma owing_segments o :
  (o ∈ pass_obligations p -> segment o = 0) /\ (o ∈ cast_obligations s (pass_drafts p) -> segment o = 1)
  /\ (o ∈ blocking -> segment o = 2) /\ (o ∈ delegating -> segment o = 3) /\ (o ∈ confirming -> segment o = 4).
Proof.
  rewrite elem_of_pass_obligations, elem_of_casting, elem_of_blocking, elem_of_delegating, elem_of_confirming. split_and!.
  - by intros [(u & _ & ->)|[(u & _ & ->)|(b & q & pos & idx & _ & _ & ->)]].
  - by intros (b & ds & _ & _ & _ & _ & ->).
  - by intros (b & q & c & _ & _ & _ & ->).
  - by intros [(b & _ & ->)|(b & phase & bundle & _ & _ & ->)].
  - intros (b & q & index & _ & _ & Ho). by injection Ho as ->.
Qed.

Lemma NoDup_planned : NoDup planned.
Proof.
  apply NoDup_prerequisites; [apply owing_unset|]. rewrite !NoDup_app. setoid_rewrite elem_of_app.
  split_and!; [apply (passed_once _ _ _ _ _ _ _ _ _ passes_passed)| |apply NoDup_cast_obligations| |apply NoDup_blocked_obligations| |
    by eapply NoDup_delegation_obligations| |apply NoDup_confirming]; intros o; pose proof (owing_segments o) as (H0 & H1 & H2 & H3 & H4).
  all: rewrite ?elem_of_app; intuition congruence.
Qed.

Lemma planned_withheld q :
  q ∈ pass_withheld p <-> awaits_batch s roster units q
    \/ exists b c, due s roster units b q c /\ (bundle_held s roster units b \/ ~ ballot_complete s roster).
Proof.
  rewrite (passed_withheld _ _ _ _ _ _ _ _ _ passes_passed), elem_of_withheld.
  rewrite (effect_withhold s roster units Hunits (snapshot_votes _ Hsnapshot)).
  setoid_rewrite <- (ballot_complete_iff s ballot Hballot). setoid_rewrite not_true_iff_false. apply or_iff_both; [done|]. split.
  - intros (b & d & Hd & <- & Hh). exists b, (draft_choice d). rewrite elem_of_casts, (effect_cast s roster units Hunits) in Hd.
    by rewrite (elem_of_held_bundles s roster units Hunits) in Hh.
  - intros (b & c & Hd & Hh). exists b, {| draft_proposal_id := q; draft_choice := c |}.
    by rewrite elem_of_casts, (effect_cast s roster units Hunits), (elem_of_held_bundles s roster units Hunits).
Qed.
End planned.

Lemma is_choice_iff d : is_choice d = true <-> exists c, d = Some (Choice c).
Proof. destruct d as [[c|]|]; cbn; naive_solver. Qed.

Lemma passes_planned p delegating :
  ~ owned_conflict s -> fold_results (apply_effect s held terminal) (no_pass retired) effects = Ok p ->
  delegation_obligations s (needing_delegation p) = Ok delegating ->
  rule_table s roster units
    {| obligations := map (set_prerequisite (map obligation_bundle delegating))
         (pass_obligations p ++ cast_obligations s (pass_drafts p)
          ++ blocked_obligations (open_proposals ballot) unrostered (pass_blocked p)
          ++ delegating ++ omap (confirm_obligation s stale) (share_phases s));
       plan_choice_proposals := choice_proposals ballot; plan_open_proposals := open_proposals ballot;
       plan_unrostered_intents := unrostered; stale_vote_keys := stale; needs_bundle_setup := false;
       withheld_casts := pass_withheld p;
       lifecycle_owned_choices := list_to_set (List.filter (fun q => proposal_lifecycle_owned s q && is_choice (intents s !! q))
                                                 (unrostered_intents ballot)) |}.
Proof.
  intros Hc Hp Hd. split; cbn [obligations plan_choice_proposals plan_open_proposals plan_unrostered_intents stale_vote_keys withheld_casts
    lifecycle_owned_choices].
  - split; [by apply planned_owed|by apply owed_planned].
  - by apply NoDup_planned.
  - by apply planned_withheld.
  - intros q. rewrite (ballot_choices _ _ Hballot), list_elem_of_filter, is_choice_iff. tauto.
  - apply (ballot_open _ _ Hballot).
  - intros q. rewrite elem_of_unowned_unrostered, (ballot_unrostered _ _ Hballot). tauto.
  - apply elem_of_stale_votes.
  - intros q. rewrite elem_of_list_to_set, list_elem_of_In, filter_In, <- list_elem_of_In, andb_true_iff, is_choice_iff.
    rewrite (ballot_unrostered _ _ Hballot), proposal_lifecycle_owned_iff. naive_solver.
Qed.

Lemma passes_failed e :
  ~ owned_conflict s -> fold_results (apply_effect s held terminal) (no_pass retired) effects = Err e -> e <> Panicked /\ ~ plannable.
Proof.
  intros Hc H. apply fold_effects_failed in H as [He Hcase].
  - split; [done|]. intros (_ & Hrec & Hdel). destruct Hcase as [(b & q & Hin & Hno)|(u & Hin & Hno)]; apply Hno.
    + by apply Hdel, (effect_deliver s roster units Hunits (snapshot_votes _ Hsnapshot) Hc).
    + apply (effect_reconcile s roster units Hunits (snapshot_votes _ Hsnapshot) Hc) in Hin. by apply Hrec, Hin.
  - intros u [Hu _]%(effect_reconcile s roster units Hunits (snapshot_votes _ Hsnapshot) Hc). by apply (unit_nonempty _ _ _ (units_sound _ _ _ Hunits u Hu)).
  - by apply effect_panic.
Qed.

(** A submitted unit is on the wire, so the passes check its recovery material. *)
Lemma passes_plannable p :
  ~ owned_conflict s -> fold_results (apply_effect s held terminal) (no_pass retired) effects = Ok p -> plannable.
Proof.
  intros Hc H. apply fold_effects_accepted in H as [Hdel Hrec]. split; [done|]. split.
  - intros u Hu Hph. apply Hrec; [|done]. apply (effect_reconcile s roster units Hunits (snapshot_votes _ Hsnapshot) Hc).
    split; [done|]. left. unfold unit_position. by rewrite Hph.
  - intros b q Hq. by apply Hdel, (effect_deliver s roster units Hunits (snapshot_votes _ Hsnapshot) Hc).
Qed.

Lemma classify_table :
  match classify s units ballot with
  | Ok plan => plannable /\ needs_bundle_setup plan = false /\ rule_table s roster units plan
  | Err e => e <> Panicked /\ ~ plannable
  end.
Proof.
  unfold classify. fold (unowned_unrostered s ballot). pose proof (conflicting_vote_None s) as Hconf.
  destruct (conflicting_vote s stale) as [[b q]|].
  { cbn. split; [done|]. intros [Hc _]. by apply Hconf in Hc. }
  pose proof (proj1 Hconf eq_refl) as Hc. cbn [mbind result_bind].
  pose proof passes_effects as Hrun. pose proof (passes_failed) as Hfail. pose proof passes_plannable as Hplan. pose proof passes_planned as Htable.
  destruct (fold_results (plan_proposal _ _ _ _ _ _ _) _ _) as [p1|e1] eqn:H1; cbn in *.
  2: { symmetry in Hrun. by apply Hfail in Hrun. }
  destruct (fold_results (plan_unchosen _ _ _) p1 _) as [p2|e2] eqn:H2; cbn in *.
  2: { symmetry in Hrun. by apply Hfail in Hrun. }
  symmetry in Hrun. destruct (delegation_obligations_total s (needing_delegation p2) (snapshot_bundles _ Hsnapshot)) as [delegating Hd].
  rewrite Hd. cbn. split; [by eapply Hplan|]. split; [done|]. by apply Htable.
Qed.
End classified.

(** The outcome of planning, with the units it grouped. *)
Lemma classify_round_cases `{GT : GenerationTables, HX : HexCrate, SH : Sha256Crate, RC : RoundIdCrates} (s : RoundSnapshot) (ids : list N) :
  snapshot_ok s ->
  match classify_round s ids with
  | Ok plan =>
      is_ok (classify_ballot_intents ids (intents s)) = true
      /\ if needs_bundle_setup plan
         then delegations s = [] /\ obligations plan = [] /\ exists p c, p ∈ ids /\ intents s !! p = Some (Choice c)
         else exists units, group_vote_units s (intents s) = Ok units /\ units_ok s (intents s) units /\ plannable s units
                /\ rule_table s (sort_by N.leb ids) units plan
  | Err (Failed _) =>
      is_ok (classify_ballot_intents ids (intents s)) = false \/ is_ok (group_vote_units s (intents s)) = false
      \/ exists units, group_vote_units s (intents s) = Ok units /\ ~ plannable s units
  | Err Panicked => False
  end.
Proof.
  intros Hsnapshot. unfold classify_round, failed.
  destruct (classify_ballot_intents ids (intents s)) as [ballot|] eqn:Hb; [|by left]. cbn [map_err mbind result_bind].
  apply classify_ballot_intents_ok in Hb as [Hballot Hroster].
  destruct (negb _ && _) eqn:Hsetup.
  - apply andb_true_iff in Hsetup as [Hne%negb_true_iff%bool_decide_eq_false Hd%bool_decide_eq_true]. cbn. split_and!; try done.
    destruct (choice_proposals ballot) as [|p ps] eqn:Hps; [done|].
    assert (p ∈ choice_proposals ballot) as Hp by (rewrite Hps; by left).
    rewrite (ballot_choices _ _ Hballot), list_elem_of_filter, is_choice_iff, Hroster, elem_of_sort_by in Hp. naive_solver.
  - destruct (group_vote_units s (intents s)) as [units|] eqn:Hgroup; cbn; [|by right; left].
    apply group_vote_units_ok in Hgroup as Hunits; [|by apply snapshot_recoveries].
    pose proof (classify_table s ballot units Hsnapshot Hballot Hunits) as Htable. rewrite Hroster in Htable.
    destruct (classify s units ballot) as [plan|[e|]]; [|destruct Htable; right; right; by exists units|by destruct Htable].
    destruct Htable as (? & -> & ?). split; [done|]. by exists units.
Qed.

(** C4. [classify_round] follows the rule table of the round-orchestration specification.
    Over a snapshot the tables allow, it never panics.  It fails exactly when the roster or
    the stored batches are malformed, or the round cannot be planned: a vote the chain may
    have seen contradicts the ballot, a submitted unit lacks recovery material, or the
    shares of a confirmed vote cannot be determined.  Otherwise, unless bundles are still to
    be set up, its obligations are exactly those the table owes, each once: undispatched
    units follow the roster and the ballot, dispatched ones are reconciled whatever the
    roster, confirmed votes owe their missing shares, and casts and delegations are owed
    only on free bundles, for every choice no remaining vote covers. *)
Theorem classification_follows_rule_table `{GT : GenerationTables, HX : HexCrate, SH : Sha256Crate, RC : RoundIdCrates}
  (s : RoundSnapshot) (ids : list N) :
  snapshot_ok s ->
  match classify_round s ids with
  | Ok plan =>
      is_ok (classify_ballot_intents ids (intents s)) = true
      /\ if needs_bundle_setup plan
         then delegations s = [] /\ obligations plan = [] /\ exists p c, p ∈ ids /\ intents s !! p = Some (Choice c)
         else exists units, group_vote_units s (intents s) = Ok units /\ plannable s units
                /\ rule_table s (sort_by N.leb ids) units plan
  | Err (Failed _) =>
      is_ok (classify_ballot_intents ids (intents s)) = false \/ is_ok (group_vote_units s (intents s)) = false
      \/ exists units, group_vote_units s (intents s) = Ok units /\ ~ plannable s units
  | Err Panicked => False
  end.
Proof.
  intros Hsnapshot. pose proof (classify_round_cases s ids Hsnapshot) as H.
  destruct (classify_round s ids) as [plan|]; [|done]. destruct H as [? H]. split; [done|].
  destruct (needs_bundle_setup plan); [done|]. destruct H as (units & ? & _ & ?). by exists units.
Qed.

(** ** A concrete round *)

#[local] Existing Instances sample_hex sample_sha256 sample_tables.
#[local] Instance sample_round_crates : RoundIdCrates := {| pallas_canonical := fun _ => true; hex_error_text := fun _ => [] |}.

Definition sample_status (b : N) (phase : DelegationPhase) : DelegationSubmissionStatus :=
  {| status_bundle_index := b; status_phase := phase; status_diagnostic := None |}.

Definition sample_vote (choice : N) (phase : VotePhase) (recovery : option VoteRecoveryBundle) : VoteSnapshot :=
  {| vote_choice := choice; vote_phase := phase; vote_tx_hash_column := None; vote_vc_tree_position := None;
     vote_recovery := recovery |}.

(** An undispatched batch on bundle 3, a free bundle 4, and on bundle 5 a vote in flight on a
    proposal that left the roster. *)
Definition sample_round : RoundSnapshot :=
  let row := {| capability_imported := false; bundle_delegation_tx_hash := None |} in
  {| snapshot_round_id := lower_hex (bytes32_fill Byte.x01);
     delegations := [sample_status 3 DelegationConfirmed; sample_status 4 DelegationPrepared; sample_status 5 DelegationConfirmed];
     bundles := <[3%N := row]> (<[4%N := row]> {[5%N := row]});
     votes := <[(3, 9)%N := sample_vote 2 VoteCommitted (Some (sample_recovery 9 (Some (sample_membership 0))))]>
                (<[(3, 5)%N := sample_vote 2 VoteCommitted (Some (sample_recovery 5 (Some (sample_membership 1))))]>
                   {[(5, 7)%N := sample_vote 0 VoteSubmissionManaged None]});
     shares := []; share_phases := []; intents := <[1%N := Choice 0]> (<[5%N := Choice 2]> {[9%N := Choice 2]});
     lifecycle_hashes := ∅; persisted_immediate_share := None; rejection_blocked_bundles := ∅ |}.

Lemma sample_votes k v :
  votes sample_round !! k = Some v ->
  k = (3, 9)%N /\ v = sample_vote 2 VoteCommitted (Some (sample_recovery 9 (Some (sample_membership 0))))
  \/ k = (3, 5)%N /\ v = sample_vote 2 VoteCommitted (Some (sample_recovery 5 (Some (sample_membership 1))))
  \/ k = (5, 7)%N /\ v = sample_vote 0 VoteSubmissionManaged None.
Proof.
  cbn. intros H. apply lookup_insert_Some in H as [[<- <-]|[_ H]]; [by left|]. apply lookup_insert_Some in H as [[<- <-]|[_ H]]; [by right; left|].
  apply lookup_singleton_Some in H as [<- <-]. by right; right.
Qed.

Lemma sample_round_ok : snapshot_ok sample_round.
Proof.
  split.
  - intros k v r Hv Hr. apply sample_votes in Hv as [[-> ->]|[[-> ->]|[-> ->]]]; cbn in Hr; by simplify_eq.
  - intros b p v Hv. apply sample_votes in Hv as [[[= -> ->] _]|[[[= -> ->] _]|[[= -> ->] _]]]; vm_compute; by eexists.
  - intros b [phase Hb]. unfold delegation_phases in Hb. cbn in Hb. cbn.
    apply lookup_insert_Some in Hb as [[<- _]|[_ Hb]]; [by eexists|]. apply lookup_insert_Some in Hb as [[<- _]|[_ Hb]]; [by eexists|].
    apply lookup_insert_Some in Hb as [[<- _]|[_ Hb]]; [by eexists|]. by rewrite lookup_empty in Hb.
  - constructor.
Qed.

#[export] Instance CastDraft_eq_dec : EqDecision CastDraft.
Proof. solve_decision. Defined.
#[export] Instance BlockedReason_eq_dec : EqDecision BlockedReason.
Proof. solve_decision. Defined.
#[export] Instance Obligation_eq_dec : EqDecision Obligation.
Proof. solve_decision. Defined.

Definition sample_obligations : list Obligation :=
  [ReconcileChain (UnitBatch 3 sample_batch_digest) 3 [9; 5]%N true None None;
   ReconcileChain (UnitSingleton 5 7) 5 [7]%N false None None;
   Cast 4 [{| draft_proposal_id := 1; draft_choice := 0 |}; {| draft_proposal_id := 5; draft_choice := 2 |};
           {| draft_proposal_id := 9; draft_choice := 2 |}] (Some 4%N) true;
   Delegate 4].

Lemma sample_classified :
  match classify_round sample_round [5; 1; 9]%N with
  | Ok plan => bool_decide (obligations plan = sample_obligations) && negb (needs_bundle_setup plan)
  | Err _ => false
  end = true.
Proof. vm_cast_no_check (eq_refl true). Qed.

Lemma classification_follows_rule_table_witness :
  snapshot_ok sample_round /\ exists plan units,
    classify_round sample_round [5; 1; 9]%N = Ok plan /\ obligations plan = sample_obligations
    /\ group_vote_units sample_round (intents sample_round) = Ok units
    /\ rule_table sample_round (sort_by N.leb [5; 1; 9]%N) units plan.
Proof.
  split; [exact sample_round_ok|].
  pose proof (classification_follows_rule_table sample_round [5; 1; 9]%N sample_round_ok) as H. pose proof sample_classified as Hplan.
  destruct (classify_round sample_round [5; 1; 9]%N) as [plan|e]; [|discriminate Hplan].
  apply andb_true_iff in Hplan as [Hobs%bool_decide_eq_true Hset%negb_true_iff]. rewrite Hset in H. destruct H as (_ & units & Hgroup & _ & Htable).
  exists plan, units. split; [reflexivity|]. split; [exact Hobs|]. split; [exact Hgroup|exact Htable].
Defined.
