(* ===== verification/RoundProjection.v ===== *)
(** * The plan a host sees

    Models [round_planning/projection.rs] and the plan types of [session.rs]: the ordered
    steps of the classified obligations, the step a host selects resolved back to its
    obligation, the recovery work grouped from the steps and the flags derived from them.
    Indexing an empty unit and the [unreachable!] arms are panics. *)

From S2P Require Import Prelude Sorting Types Diagnostics Identity Generation LifecyclePlanning ShareTiming SharePlacement.
From S2P Require Import Ballot Phases RoundSnapshot RoundPlanning.

(** ** Steps *)

Inductive NextStep : Type :=
| StepDelegate (bundle_index : N)
| StepAdvanceDelegation (bundle_index : N)
| StepAdvanceImportedDelegation (bundle_index : N)
| StepCastVote (bundle_index proposal_id choice : N)
| StepAdvanceVote (bundle_index proposal_id : N)
| StepAdvanceVoteBatch (bundle_index proposal_id : N)
| StepSubmitShares (bundle_index proposal_id share_index : N)
| StepConfirmShare (bundle_index proposal_id share_index : N).

#[export] Instance NextStep_eq_dec : EqDecision NextStep.
Proof. solve_decision. Defined.

(** The steps of one obligation; a batch is anchored on its first member. *)
Definition obligation_steps (o : Obligation) : result PlanError (list NextStep) :=
  match o with
  | Delegate b => Ok [StepDelegate b]
  | AdvanceDelegation b imported _ _ => Ok [if imported then StepAdvanceImportedDelegation b else StepAdvanceDelegation b]
  | Cast b drafts _ _ => Ok (map (fun d => StepCastVote b (draft_proposal_id d) (draft_choice d)) drafts)
  | ReconcileChain (UnitSingleton _ p) b _ _ _ _ => Ok [StepAdvanceVote b p]
  | ReconcileChain (UnitBatch _ _) b ordered _ _ _ => anchor ← ok_or (head ordered) Panicked; Ok [StepAdvanceVoteBatch b anchor]
  | Deliver b p _ indexes _ => Ok (map (StepSubmitShares b p) indexes)
  | Confirm b p index _ _ _ => Ok [StepConfirmShare b p index]
  | Retire _ _ | Blocked _ _ => Ok []
  end.

Definition steps_from_obligations (obligations : list Obligation) : result PlanError (list NextStep) :=
  steps ← collect_results obligation_steps obligations;
  Ok (concat steps).

(** Whether a step executes an obligation. *)
Definition executes (step : NextStep) (o : Obligation) : result PlanError bool :=
  let anchored (b b' p : N) (ordered : list N) : result PlanError bool :=
    if bool_decide (b = b') then anchor ← ok_or (head ordered) Panicked; Ok (bool_decide (anchor = p)) else Ok false in
  match o, step with
  | Delegate b, StepDelegate b' => Ok (bool_decide (b = b'))
  | AdvanceDelegation b false _ _, StepAdvanceDelegation b' => Ok (bool_decide (b = b'))
  | AdvanceDelegation b true _ _, StepAdvanceImportedDelegation b' => Ok (bool_decide (b = b'))
  | Cast b drafts _ _, StepCastVote b' p choice =>
      Ok (bool_decide (b = b') && existsb (fun d => bool_decide (draft_proposal_id d = p) && bool_decide (draft_choice d = choice)) drafts)
  | ReconcileChain (UnitSingleton _ _) b ordered _ _ _, StepAdvanceVote b' p => anchored b b' p ordered
  | ReconcileChain (UnitBatch _ _) b ordered _ _ _, StepAdvanceVoteBatch b' p => anchored b b' p ordered
  | Deliver b p _ indexes _, StepSubmitShares b' p' index =>
      Ok (bool_decide (b = b') && bool_decide (p = p') && bool_decide (index ∈ indexes))
  | Confirm b p index _ _ _, StepConfirmShare b' p' index' =>
      Ok (bool_decide (b = b') && bool_decide (p = p') && bool_decide (index = index'))
  | _, _ => Ok false
  end.

Fixpoint resolve_step (obligations : list Obligation) (step : NextStep) : result PlanError (option Obligation) :=
  match obligations with
  | [] => Ok None
  | o :: rest =>
      match executes step o with
      | Ok true => Ok (Some o)
      | Ok false => resolve_step rest step
      | Err e => Err e
      end
  end.

Definition step_rank (step : NextStep) : N * N * N * N :=
  match step with
  | StepDelegate b | StepAdvanceDelegation b | StepAdvanceImportedDelegation b => (0, 0, b, 0)
  | StepCastVote b p _ | StepAdvanceVote b p | StepAdvanceVoteBatch b p => (1, p, b, 0)
  | StepSubmitShares b p index => (1, p, b, index)
  | StepConfirmShare b p index => (2, p, b, index)
  end%N.

(** Lexicographic order of ranks. *)
Definition rank_leb (x y : N * N * N * N) : bool :=
  let '(a, b, c, d) := x in
  let '(a', b', c', d') := y in
  ((a <? a') || (a =? a') && ((b <? b') || (b =? b') && ((c <? c') || (c =? c') && (d <=? d'))))%N.

Definition sort_steps (steps : list NextStep) : list NextStep := sort_by (fun x y => rank_leb (step_rank x) (step_rank y)) steps.

(** The bundle a delegation step is for. *)
Definition delegation_step_bundle (step : NextStep) : option N :=
  match step with
  | StepDelegate b | StepAdvanceDelegation b | StepAdvanceImportedDelegation b => Some b
  | _ => None
  end.

Definition blocking_prerequisite (steps : list NextStep) (step : NextStep) : option NextStep :=
  let blocked_on b := List.find (fun candidate => bool_decide (delegation_step_bundle candidate = Some b)) steps in
  match step with
  | StepDelegate _ | StepAdvanceDelegation _ | StepAdvanceImportedDelegation _ => None
  | StepCastVote b _ _ | StepAdvanceVote b _ | StepAdvanceVoteBatch b _
  | StepSubmitShares b _ _ | StepConfirmShare b _ _ => blocked_on b
  end.

(** ** Plan types *)

Inductive RoundPlanAction : Type := ActionIdle | ActionDelegate | ActionVote | ActionSubmitShares | ActionDone.

Inductive DelegationRecoveryWorkKind : Type := WorkDelegate | WorkAdvanceDelegation | WorkAdvanceImportedDelegation.

Record DelegationRecoveryWork : Type := {
  delegation_work_kind : DelegationRecoveryWorkKind;
  delegation_work_bundle : N;
  delegation_work_phase : DelegationPhase;
  delegation_work_tx_hash : option string
}.

Inductive VoteRecoveryWorkKind : Type := WorkAdvanceVote | WorkAdvanceVoteBatch | WorkSubmitShares.

#[export] Instance VoteRecoveryWorkKind_eq_dec : EqDecision VoteRecoveryWorkKind.
Proof. solve_decision. Defined.

Record VoteRecoveryWork : Type := {
  vote_work_kind : VoteRecoveryWorkKind;
  vote_work_bundle : N;
  vote_work_proposal : N;
  vote_work_tx_hash : option string;
  vote_work_position : option N;
  vote_work_shares : list N
}.

Record DelegationStatus : Type := {
  delegation_bundle : N;
  delegation_phase : DelegationPhase;
  delegation_hash : option string;
  submission_diagnostic : option ChainSubmissionDiagnostic;
  delegation_terminal : bool
}.

Record CompletedVoteChoice : Type := { completed_proposal : N; completed_choice : option N }.

Record CompletedVoteDisplay : Type := { completed_choices : list CompletedVoteChoice; voted_at : option N }.

Record RoundPlan : Type := {
  plan_round_id : string;
  pending_recovery : bool;
  next_steps : list NextStep;
  host_open_proposals : list N;
  host_unrostered_intents : list N;
  immediate_share_key : option ImmediateShareKey;
  immediate_share_confirmed : bool;
  all_decided : bool;
  delegation_statuses : list DelegationStatus;
  blocking_recovery : bool;
  blocking_share_work : bool;
  has_unconfirmed_shares : bool;
  hotkey_bound : bool;
  completed_vote_artifact : bool;
  completed_for_display : bool;
  plan_completed_vote : option CompletedVoteDisplay;
  needs_draft_setup : bool;
  host_needs_bundle_setup : bool;
  primary_action : RoundPlanAction;
  needs_delegation_signing : bool;
  has_in_flight_delegation : bool;
  delegation_bundles_needing_work : list N;
  delegation_bundles_needing_signing : list N;
  needs_vote_polling : bool;
  has_remaining_vote_or_share_work : bool;
  has_recoverable_vote_or_share_work : bool;
  recovered_delegation_work : list DelegationRecoveryWork;
  recovered_vote_work : list VoteRecoveryWork
}.

(** ** Flags *)

Definition select_primary_action (steps : list NextStep) (blocking_recovery blocking_share_work completed_for_display : bool) :
  RoundPlanAction :=
  if completed_for_display then ActionDone
  else if negb blocking_recovery then ActionIdle
  else if existsb (fun st => match st with
                             | StepDelegate _ | StepAdvanceDelegation _ | StepAdvanceImportedDelegation _ => true
                             | _ => false
                             end) steps then ActionDelegate
  else if existsb (fun st => match st with
                             | StepCastVote _ _ _ | StepAdvanceVote _ _ | StepAdvanceVoteBatch _ _ | StepSubmitShares _ _ _ => true
                             | _ => false
                             end) steps then ActionVote
  else if blocking_share_work then ActionSubmitShares else ActionIdle.

(** The choice shown for a proposal: the one its votes that are not stale agree on. *)
Definition completed_vote_choice (s : RoundSnapshot) (stale : gset (N * N)) (p : N) : CompletedVoteChoice :=
  let choices := remove_dups (omap (fun entry =>
        if bool_decide (entry.1.2 = p) && negb (bool_decide (entry.1 ∈ stale)) then Some (vote_choice entry.2) else None)
      (votes_in_order s)) in
  {| completed_proposal := p;
     completed_choice := match intents s !! p, choices with Some (Choice _), [choice] => Some choice | _, _ => None end |}.

Definition completed_vote_display (s : RoundSnapshot) (proposal_ids : list N) (stale : gset (N * N)) (at_time : option N) :
  CompletedVoteDisplay :=
  {| completed_choices := map (completed_vote_choice s stale) proposal_ids; voted_at := at_time |}.

(** Ascending, each number once. *)
Definition sorted_set (l : list N) : list N := sort_by N.leb (remove_dups l).

Record PlanWorkSummary : Type := {
  summary_needs_delegation_signing : bool;
  summary_has_in_flight_delegation : bool;
  summary_bundles_needing_work : list N;
  summary_bundles_needing_signing : list N;
  summary_needs_vote_polling : bool;
  summary_has_remaining : bool;
  summary_has_recoverable : bool
}.

(** One step of the summary; the two sets are the lists, until they are read out. *)
Definition summarize_step (blocking_share_work : bool) (w : PlanWorkSummary) (st : NextStep) : PlanWorkSummary :=
  match st with
  | StepDelegate b =>
      {| summary_needs_delegation_signing := summary_needs_delegation_signing w;
         summary_has_in_flight_delegation := summary_has_in_flight_delegation w;
         summary_bundles_needing_work := summary_bundles_needing_work w ++ [b];
         summary_bundles_needing_signing := summary_bundles_needing_signing w;
         summary_needs_vote_polling := summary_needs_vote_polling w; summary_has_remaining := summary_has_remaining w;
         summary_has_recoverable := summary_has_recoverable w |}
  | StepAdvanceDelegation b =>
      {| summary_needs_delegation_signing := true; summary_has_in_flight_delegation := true;
         summary_bundles_needing_work := summary_bundles_needing_work w ++ [b];
         summary_bundles_needing_signing := summary_bundles_needing_signing w ++ [b];
         summary_needs_vote_polling := summary_needs_vote_polling w; summary_has_remaining := summary_has_remaining w;
         summary_has_recoverable := summary_has_recoverable w |}
  | StepAdvanceImportedDelegation b =>
      {| summary_needs_delegation_signing := summary_needs_delegation_signing w; summary_has_in_flight_delegation := true;
         summary_bundles_needing_work := summary_bundles_needing_work w ++ [b];
         summary_bundles_needing_signing := summary_bundles_needing_signing w;
         summary_needs_vote_polling := summary_needs_vote_polling w; summary_has_remaining := summary_has_remaining w;
         summary_has_recoverable := summary_has_recoverable w |}
  | StepCastVote _ _ _ | StepAdvanceVote _ _ | StepAdvanceVoteBatch _ _ | StepSubmitShares _ _ _ =>
      {| summary_needs_delegation_signing := summary_needs_delegation_signing w;
         summary_has_in_flight_delegation := summary_has_in_flight_delegation w;
         summary_bundles_needing_work := summary_bundles_needing_work w;
         summary_bundles_needing_signing := summary_bundles_needing_signing w;
         summary_needs_vote_polling := true; summary_has_remaining := true; summary_has_recoverable := true |}
  | StepConfirmShare _ _ _ =>
      {| summary_needs_delegation_signing := summary_needs_delegation_signing w;
         summary_has_in_flight_delegation := summary_has_in_flight_delegation w;
         summary_bundles_needing_work := summary_bundles_needing_work w;
         summary_bundles_needing_signing := summary_bundles_needing_signing w;
         summary_needs_vote_polling := summary_needs_vote_polling w;
         summary_has_remaining := blocking_share_work || summary_has_remaining w; summary_has_recoverable := true |}
  end.

Definition no_work : PlanWorkSummary :=
  {| summary_needs_delegation_signing := false; summary_has_in_flight_delegation := false; summary_bundles_needing_work := [];
     summary_bundles_needing_signing := []; summary_needs_vote_polling := false; summary_has_remaining := false;
     summary_has_recoverable := false |}.

Definition summarize_plan_work (steps : list NextStep) (blocking_share_work : bool) : PlanWorkSummary :=
  let w := foldl (summarize_step blocking_share_work) no_work steps in
  {| summary_needs_delegation_signing := summary_needs_delegation_signing w;
     summary_has_in_flight_delegation := summary_has_in_flight_delegation w;
     summary_bundles_needing_work := sorted_set (summary_bundles_needing_work w);
     summary_bundles_needing_signing := sorted_set (summary_bundles_needing_signing w);
     summary_needs_vote_polling := summary_needs_vote_polling w; summary_has_remaining := summary_has_remaining w;
     summary_has_recoverable := summary_has_recoverable w |}.

(** ** Recovery work *)

Section project.
Context `{GT : GenerationTables, HX : HexCrate, SH : Sha256Crate, RC : RoundIdCrates}.
Variable s : RoundSnapshot.

(** The phase and hash an advance obligation carries. *)
Definition advance_work (obligations : list Obligation) (kind : DelegationRecoveryWorkKind) (message : text) (b : N) (st : NextStep) :
  result PlanError DelegationRecoveryWork :=
  found ← resolve_step obligations st;
  match found with
  | Some (AdvanceDelegation _ _ phase tx_hash) =>
      Ok {| delegation_work_kind := kind; delegation_work_bundle := b; delegation_work_phase := phase; delegation_work_tx_hash := tx_hash |}
  | _ => Err (Failed (VeInternal (message ++ bundle_place (snapshot_round_id s) b)))
  end.

Definition delegation_work (obligations : list Obligation) (work : list DelegationRecoveryWork) (st : NextStep) :
  result PlanError (list DelegationRecoveryWork) :=
  match st with
  | StepDelegate b =>
      phase ← failed (ok_or (delegation_phases s !! b)
                        (VeInternal (chars "delegate step missing phase for " ++ bundle_place (snapshot_round_id s) b)));
      Ok (work ++ [{| delegation_work_kind := WorkDelegate; delegation_work_bundle := b; delegation_work_phase := phase;
                      delegation_work_tx_hash := None |}])
  | StepAdvanceDelegation b =>
      item ← advance_work obligations WorkAdvanceDelegation (chars "poll delegation step missing phase for ") b st;
      Ok (work ++ [item])
  | StepAdvanceImportedDelegation b =>
      item ← advance_work obligations WorkAdvanceImportedDelegation (chars "imported delegation step missing phase for ") b st;
      Ok (work ++ [item])
  | StepCastVote _ _ _ | StepAdvanceVote _ _ | StepAdvanceVoteBatch _ _ | StepSubmitShares _ _ _ | StepConfirmShare _ _ _ => Ok work
  end.

Definition recovered_delegation_work_from_steps (obligations : list Obligation) (steps : list NextStep) :
  result PlanError (list DelegationRecoveryWork) :=
  fold_results (delegation_work obligations) [] steps.

Fixpoint push_submit_share_work (work : list VoteRecoveryWork) (b p index position : N) : list VoteRecoveryWork :=
  match work with
  | [] => [{| vote_work_kind := WorkSubmitShares; vote_work_bundle := b; vote_work_proposal := p; vote_work_tx_hash := None;
              vote_work_position := Some position; vote_work_shares := [index] |}]
  | item :: rest =>
      if bool_decide (vote_work_kind item = WorkSubmitShares) && bool_decide (vote_work_bundle item = b)
         && bool_decide (vote_work_proposal item = p)
      then {| vote_work_kind := vote_work_kind item; vote_work_bundle := vote_work_bundle item;
              vote_work_proposal := vote_work_proposal item; vote_work_tx_hash := vote_work_tx_hash item;
              vote_work_position := vote_work_position item; vote_work_shares := sorted_set (vote_work_shares item ++ [index]) |} :: rest
      else item :: push_submit_share_work rest b p index position
  end.

(** Members of units whose chain work is pending. *)
Definition pending_vote_confirmation_keys (obligations : list Obligation) : list (N * N) :=
  concat (map (fun o => match o with ReconcileChain _ b ordered _ _ _ => map (pair b) ordered | _ => [] end) obligations).

Definition advance_vote_work (obligations : list Obligation) (work : list VoteRecoveryWork) (b p : N) (st : NextStep) :
  result PlanError (list VoteRecoveryWork) :=
  found ← resolve_step obligations st;
  match found with
  | Some (ReconcileChain unit _ _ _ tx_hash _) =>
      Ok (work ++ [{| vote_work_kind := match unit with UnitSingleton _ _ => WorkAdvanceVote | UnitBatch _ _ => WorkAdvanceVoteBatch end;
                      vote_work_bundle := b; vote_work_proposal := p; vote_work_tx_hash := tx_hash; vote_work_position := None;
                      vote_work_shares := [] |}])
  | Some _ => Err Panicked
  | None => Err (Failed (VeInternal (chars "advance vote batch step missing active batch for " ++ vote_place (snapshot_round_id s) b p)))
  end.

Definition vote_work (blocking : list (N * N * N)) (obligations : list Obligation) (work : list VoteRecoveryWork) (st : NextStep) :
  result PlanError (list VoteRecoveryWork) :=
  match st with
  | StepAdvanceVote b p | StepAdvanceVoteBatch b p => advance_vote_work obligations work b p st
  | StepSubmitShares b p index =>
      found ← resolve_step obligations st;
      match found with
      | Some (Deliver _ _ position _ _) => Ok (push_submit_share_work work b p index position)
      | _ => Err Panicked
      end
  | StepConfirmShare b p index =>
      if bool_decide ((b, p, index) ∈ blocking) && negb (bool_decide ((b, p) ∈ pending_vote_confirmation_keys obligations)) then
        found ← failed (confirmed_tree_position s b p);
        position ← failed (ok_or found (VeInternal (chars "submit shares step missing vc_tree_position for "
                             ++ vote_place (snapshot_round_id s) b p)));
        Ok (push_submit_share_work work b p index position)
      else Ok work
  | StepDelegate _ | StepAdvanceDelegation _ | StepAdvanceImportedDelegation _ | StepCastVote _ _ _ => Ok work
  end.

Definition recovered_vote_work_from_steps (blocking : list (N * N * N)) (obligations : list Obligation) (steps : list NextStep) :
  result PlanError (list VoteRecoveryWork) :=
  fold_results (vote_work blocking obligations) [] steps.

(** ** Projection *)

(** Submitted shares no helper may hold. *)
Definition blocking_confirm_share_keys (obligations : list Obligation) : list (N * N * N) :=
  omap (fun o => match o with Confirm b p index false false _ => Some (b, p, index) | _ => None end) obligations.

Definition any_delegation (phase : DelegationPhase) : bool :=
  existsb (fun x => bool_decide (x.2 = phase)) (map_to_list (delegation_phases s)).
Definition any_vote (phase : VotePhase) : bool :=
  existsb (fun entry => bool_decide (vote_phase entry.2 = phase)) (votes_in_order s).

Definition blocks_recovery (blocking : list (N * N * N)) (steps : list NextStep) : bool :=
  (any_delegation DelegationSubmissionManaged || any_vote VoteSubmissionManaged)
  || (any_delegation DelegationSubmittedWithoutHash || any_vote VoteSubmittedWithoutHash)
  || (any_delegation DelegationSubmissionRejected || any_vote VoteSubmissionRejected)
  || negb (bool_decide (rejection_blocked_bundles s = ∅))
  || existsb (fun st => match st with StepConfirmShare b p index => bool_decide ((b, p, index) ∈ blocking) | _ => true end) steps.

(** Every proposal is skipped, or confirmed as chosen on every bundle. *)
Definition decided (p : N) : bool :=
  match intents s !! p with
  | Some Skipped => true
  | Some (Choice choice) =>
      negb (bool_decide (delegation_phases s = ∅))
      && forallb (fun b => match votes s !! (b, p) with
                           | Some vote => bool_decide (vote_choice vote = choice) && bool_decide (vote_phase vote = VoteConfirmed)
                           | None => false
                           end) (sorted_keys (delegation_phases s))
  | None => false
  end.

Definition vote_artifact (stale : gset (N * N)) : bool :=
  existsb (fun entry => negb (bool_decide (entry.1 ∈ stale))
             && bool_decide (intents s !! entry.1.2 = Some (Choice (vote_choice entry.2)))) (votes_in_order s)
  || existsb (fun x => negb (bool_decide (x.1.1 ∈ stale)) && is_choice (intents s !! x.1.1.2)) (share_phases s).

Definition host_status (d : DelegationSubmissionStatus) : DelegationStatus :=
  {| delegation_bundle := status_bundle_index d; delegation_phase := status_phase d;
     delegation_hash := delegation_tx_hash s (status_bundle_index d);
     submission_diagnostic := match status_diagnostic d with
                              | Some diagnostic => Some diagnostic
                              | None => rejection_blocked_bundles s !! status_bundle_index d
                              end;
     delegation_terminal := is_terminal_delegation_phase (status_phase d) |}.

(** Casts that sign their own delegation. *)
Definition signing_casts (obligations : list Obligation) (steps : list NextStep) : list N :=
  let signing := omap (fun o => match o with Cast b _ _ true => Some b | _ => None end) obligations in
  omap (fun st => match st with StepCastVote b _ _ => if bool_decide (b ∈ signing) then Some b else None | _ => None end) steps.

Definition max_of (l : list N) : option N := match l with [] => None | x :: rest => Some (foldl N.max x rest) end.

Definition project (proposal_ids : list N) (o : RoundObligations) : result PlanError RoundPlan :=
  steps ← steps_from_obligations (obligations o);
  let steps := sort_steps steps in
  let blocking := blocking_confirm_share_keys (obligations o) in
  let blocking_shares := negb (bool_decide (blocking = [])) in
  let blocking_rec := blocks_recovery blocking steps in
  let decided_all := forallb decided proposal_ids in
  let artifact := vote_artifact (stale_vote_keys o) in
  let display := artifact && negb blocking_rec in
  let at_time := max_of (filter (fun t => (0 < t)%N) (map created_at (shares s))) in
  delegation ← recovered_delegation_work_from_steps (obligations o) steps;
  vote ← recovered_vote_work_from_steps blocking (obligations o) steps;
  let summary := summarize_plan_work steps blocking_shares in
  let signing := sorted_set (summary_bundles_needing_signing summary ++ signing_casts (obligations o) steps) in
  let immediate := match persisted_immediate_share s with
                   | Some key => Some key
                   | None => round_immediate_share_key (max_of (sorted_keys (delegation_phases s))) (plan_choice_proposals o)
                   end in
  Ok {| plan_round_id := snapshot_round_id s;
        pending_recovery := (any_delegation DelegationSubmissionManaged || any_vote VoteSubmissionManaged)
                            || negb (bool_decide (steps = []));
        next_steps := steps; host_open_proposals := plan_open_proposals o; host_unrostered_intents := plan_unrostered_intents o;
        immediate_share_key := immediate;
        immediate_share_confirmed :=
          match immediate with
          | Some key => existsb (fun r => bool_decide (share_bundle_index r = immediate_bundle_index key)
                                   && bool_decide (share_proposal_id r = immediate_proposal_id key)
                                   && bool_decide (ShareTiming.share_index r = immediate_share_index key) && share_confirmed r) (shares s)
          | None => false
          end;
        all_decided := decided_all; delegation_statuses := map host_status (delegations s); blocking_recovery := blocking_rec;
        blocking_share_work := blocking_shares; has_unconfirmed_shares := existsb (fun r => negb (share_confirmed r)) (shares s);
        hotkey_bound := existsb (fun x => negb (bool_decide (x.2 = DelegationPrepared))) (map_to_list (delegation_phases s))
                        || negb (bool_decide (votes s = ∅)) || negb (bool_decide (share_phases s = []));
        completed_vote_artifact := artifact; completed_for_display := display;
        plan_completed_vote := if display then Some (completed_vote_display s proposal_ids (stale_vote_keys o) at_time) else None;
        needs_draft_setup := negb blocking_rec && negb decided_all && negb (bool_decide (plan_open_proposals o = []));
        host_needs_bundle_setup := needs_bundle_setup o;
        primary_action := if needs_bundle_setup o then ActionDelegate
                          else select_primary_action steps blocking_rec blocking_shares display;
        needs_delegation_signing := negb (bool_decide (signing = []));
        has_in_flight_delegation := summary_has_in_flight_delegation summary;
        delegation_bundles_needing_work := sorted_set (summary_bundles_needing_work summary ++ signing_casts (obligations o) steps);
        delegation_bundles_needing_signing := signing; needs_vote_polling := summary_needs_vote_polling summary;
        has_remaining_vote_or_share_work := summary_has_remaining summary;
        has_recoverable_vote_or_share_work := summary_has_recoverable summary;
        recovered_delegation_work := delegation; recovered_vote_work := vote |}.

(** [plan_from_snapshot]; [plan_round_classified] keeps the obligations beside the plan. *)
Definition plan_round_classified (proposal_ids : list N) : result PlanError (RoundPlan * RoundObligations) :=
  obligations ← classify_round s proposal_ids;
  plan ← project proposal_ids obligations;
  Ok (plan, obligations).
End project.
