(* ===== verification/RoundPresentation.v ===== *)
(** * The plan presents the obligations

    Correctness of [RoundProjection]: the steps of a plan are those of the obligations, in
    rank order, each once; a step resolves back to the one obligation it executes; its
    prerequisite is the obligation's; the recovery work and the flags follow the steps.
    Projection never panics. *)

From S2P Require Import Prelude Sorting Types Diagnostics Identity Generation LifecyclePlanning ShareTiming SharePlacement.
From S2P Require Import Ballot Phases RoundSnapshot RoundUnits RoundPlanning RoundRules RoundRuleTable RoundClassification RoundProjection.

Definition steps_of (o : Obligation) : list NextStep := match obligation_steps o with Ok steps => steps | Err _ => [] end.

(** The delegation an obligation waits for. *)
Definition obligation_prerequisite (o : Obligation) : option N :=
  match o with
  | Cast _ _ prerequisite _ | ReconcileChain _ _ _ _ _ prerequisite | Deliver _ _ _ _ prerequisite
  | Confirm _ _ _ _ _ prerequisite => prerequisite
  | Delegate _ | AdvanceDelegation _ _ _ _ | Retire _ _ | Blocked _ _ => None
  end.

(** ** Grouped shares *)

Definition submits (w : VoteRecoveryWork) (b p : N) : Prop :=
  vote_work_kind w = WorkSubmitShares /\ vote_work_bundle w = b /\ vote_work_proposal w = p.

Definition share_groups (work : list VoteRecoveryWork) : list (N * N) :=
  map (fun w => (vote_work_bundle w, vote_work_proposal w)) (filter (fun w => vote_work_kind w = WorkSubmitShares) work).

Lemma elem_of_sorted_set x l : x ∈ sorted_set l <-> x ∈ l.
Proof. unfold sorted_set. by rewrite elem_of_sort_by, elem_of_remove_dups. Qed.

Lemma push_shares work b p i pos b' p' i' :
  (exists w, w ∈ push_submit_share_work work b p i pos /\ submits w b' p' /\ i' ∈ vote_work_shares w)
  <-> (exists w, w ∈ work /\ submits w b' p' /\ i' ∈ vote_work_shares w) \/ (b', p', i') = (b, p, i).
Proof.
  assert (forall (x : VoteRecoveryWork) l (P : VoteRecoveryWork -> Prop), (exists w, w ∈ x :: l /\ P w) <-> P x \/ exists w, w ∈ l /\ P w) as Hcons.
  { intros x l P. split; [intros (w & [-> |Hw]%elem_of_cons & HP); eauto|]. intros [HP|(w & Hw & HP)]; eexists; (split; [|exact HP]); [by left|by right]. }
  induction work as [|w work IH]; cbn [push_submit_share_work].
  - rewrite Hcons. unfold submits. cbn. rewrite list_elem_of_singleton. split.
    + intros [[(_ & -> & ->) ->]|(w & Hw & _)]; [by right|by apply elem_of_nil in Hw].
    + intros [(w & Hw & _)|[= -> -> ->]]; [by apply elem_of_nil in Hw|by left].
  - destruct (_ && _) eqn:Hif; rewrite !Hcons.
    + rewrite !andb_true_iff, !bool_decide_eq_true in Hif. destruct Hif as [[Hk Hb] Hp]. unfold submits. cbn.
      rewrite elem_of_sorted_set, elem_of_app, list_elem_of_singleton, Hk, Hb, Hp. split.
      * intros [[(_ & <- & <-) [?| ->]]|?]; [left; left; done|right; done|left; right; done].
      * intros [[[(_ & <- & <-) ?]|?]|[= -> -> ->]]; [left|right|left]; auto.
    + rewrite IH. tauto.
Qed.

Lemma push_others work b p i pos w :
  vote_work_kind w <> WorkSubmitShares -> w ∈ push_submit_share_work work b p i pos <-> w ∈ work.
Proof.
  intros Hw. induction work as [|x work IH]; cbn [push_submit_share_work].
  - rewrite list_elem_of_singleton, elem_of_nil. split; [|done]. intros ->. done.
  - destruct (_ && _) eqn:Hif; rewrite !elem_of_cons; [|by rewrite IH].
    rewrite !andb_true_iff, !bool_decide_eq_true in Hif. destruct Hif as [[Hk Hb] Hp].
    split; (intros [-> |?]; [|by right]); cbn in Hw; congruence.
Qed.

Lemma push_positions (P : N -> N -> option N -> Prop) work b p i pos :
  P b p (Some pos) -> (forall w, w ∈ work -> vote_work_kind w = WorkSubmitShares -> P (vote_work_bundle w) (vote_work_proposal w) (vote_work_position w)) ->
  forall w, w ∈ push_submit_share_work work b p i pos -> vote_work_kind w = WorkSubmitShares ->
    P (vote_work_bundle w) (vote_work_proposal w) (vote_work_position w).
Proof.
  intros Hnew. induction work as [|x work IH]; intros Hall w; cbn [push_submit_share_work].
  - rewrite list_elem_of_singleton. by intros ->.
  - destruct (_ && _); rewrite elem_of_cons; intros [-> |Hw] Hk.
    + apply (Hall x); [by left|done].
    + apply Hall; [by right|done].
    + apply Hall; [by left|done].
    + apply IH; [|done|done]. intros; apply Hall; [by right|done].
Qed.

Lemma push_groups work b p i pos : NoDup (share_groups work) -> NoDup (share_groups (push_submit_share_work work b p i pos)).
Proof.
  assert (forall work k, k ∈ share_groups (push_submit_share_work work b p i pos) -> k ∈ share_groups work \/ k = (b, p)) as Hin.
  { clear work. induction work as [|x work IH]; intros k; cbn [push_submit_share_work].
    - unfold share_groups. rewrite filter_cons_True by done. cbn. rewrite list_elem_of_singleton. auto.
    - destruct (_ && _) eqn:Hif.
      + rewrite !andb_true_iff, !bool_decide_eq_true in Hif. destruct Hif as [[Hk Hb] Hp]. unfold share_groups. rewrite !filter_cons_True by done.
        cbn. rewrite elem_of_cons. intros [-> |?]; [right; congruence|left; by right].
      + unfold share_groups in *. rewrite !filter_cons. destruct (decide _); cbn; [rewrite !elem_of_cons; intros [?|[?|?]%IH]; auto|apply IH]. }
  induction work as [|x work IH]; intros Hnd; cbn [push_submit_share_work].
  - unfold share_groups. rewrite filter_cons_True by done. apply NoDup_singleton.
  - destruct (_ && _) eqn:Hif.
    + rewrite !andb_true_iff, !bool_decide_eq_true in Hif. destruct Hif as [[Hk Hb] Hp]. unfold share_groups in *. by rewrite !filter_cons_True in * by done.
    + rewrite !andb_false_iff, !bool_decide_eq_false in Hif. unfold share_groups in *. rewrite filter_cons in Hnd |- *.
      destruct (decide (vote_work_kind x = WorkSubmitShares)) as [Hk|Hk]; [|by apply IH]. cbn [map] in *. apply NoDup_cons in Hnd as [Hnew Hnd].
      apply NoDup_cons. split; [|by apply IH]. intros [?|[= Hb Hp]]%Hin; [done|]. tauto.
Qed.

(** ** Summary *)

Lemma summarize_fold blocking w l :
  summary_bundles_needing_work (foldl (summarize_step blocking) w l) = summary_bundles_needing_work w ++ omap delegation_step_bundle l
  /\ summary_bundles_needing_signing (foldl (summarize_step blocking) w l)
     = summary_bundles_needing_signing w ++ omap (fun st => match st with StepAdvanceDelegation b => Some b | _ => None end) l.
Proof.
  revert w. induction l as [|st l IH]; intros w; cbn [foldl]; [by rewrite !app_nil_r|].
  destruct (IH (summarize_step blocking w st)) as [-> ->]. destruct st; cbn; by rewrite <- ?app_assoc.
Qed.

Lemma elem_of_summary_signing b blocking l :
  b ∈ summary_bundles_needing_signing (summarize_plan_work l blocking) <-> StepAdvanceDelegation b ∈ l.
Proof.
  cbn. rewrite elem_of_sorted_set. destruct (summarize_fold blocking no_work l) as [_ ->]. cbn. rewrite list_elem_of_omap. split.
  - intros (st & Hst & H). by destruct st; simplify_eq.
  - intros H. by exists (StepAdvanceDelegation b).
Qed.

Lemma elem_of_summary_work b blocking l :
  b ∈ summary_bundles_needing_work (summarize_plan_work l blocking) <-> exists st, st ∈ l /\ delegation_step_bundle st = Some b.
Proof.
  cbn. rewrite elem_of_sorted_set. destruct (summarize_fold blocking no_work l) as [-> _]. cbn. by rewrite list_elem_of_omap.
Qed.

Lemma sorted_set_strict l : StronglySorted N.lt (sorted_set l).
Proof. apply sort_N_strict, NoDup_remove_dups. Qed.

(** Name the obligation a step comes from, with [H] from [elem_of_steps_of]. *)
Ltac step_origin H :=
  repeat match type of H with ex _ => destruct H as (? & H) end;
  match type of H with _ /\ _ => destruct H as [H _] | _ => idtac end; subst.

Section presented.
Context `{GT : GenerationTables, HX : HexCrate, SH : Sha256Crate, RC : RoundIdCrates}.
Variables (s : RoundSnapshot) (roster : list N) (units : list VoteUnit) (open_list unrostered : list N).
Hypothesis Hunits : units_ok s (intents s) units.

Abbreviation is_owed := (owed s roster units open_list unrostered).

(** ** One obligation *)

Lemma singleton_members u b p : u ∈ units -> unit_id u = UnitSingleton b p -> unit_bundle_index u = b /\ proposal_ids u = [p].
Proof.
  intros Hu Hid. pose proof (units_sound _ _ _ Hunits u Hu) as [Hne Hnd Hrows _].
  assert (forall q, q ∈ proposal_ids u -> unit_bundle_index u = b /\ q = p) as Hall.
  { intros q (m & -> & Hm)%list_elem_of_fmap. destruct (Hrows m Hm) as (v & [_ _ Hn _ _]). rewrite Hid in Hn. unfold unit_name in Hn.
    destruct (active_batch v); [done|]. by injection Hn as <- <-. }
  unfold proposal_ids in *. destruct (unit_members u) as [|m ms]; [done|]. cbn in *.
  destruct (Hall (member_proposal_id m)) as [-> Hm]; [by left|]. split; [done|].
  destruct ms as [|m' ms]; [by rewrite Hm|]. destruct (Hall (member_proposal_id m')) as [_ Hm']; [right; by left|].
  apply NoDup_cons in Hnd as [Hnew _]. destruct Hnew. cbn. rewrite Hm, Hm'. by left.
Qed.

Lemma waits_unique b pre pre' : waits s roster units b pre -> waits s roster units b pre' -> pre = pre'.
Proof. unfold waits. intros [[-> ?]|[-> ?]] [[-> ?]|[-> ?]]; tauto. Qed.

(** A reconciled unit has members, and a singleton unit its own proposal. *)
Definition reconciles_members (o : Obligation) : Prop :=
  match o with
  | ReconcileChain (UnitSingleton b p) b' ordered _ _ _ => b' = b /\ ordered = [p]
  | ReconcileChain (UnitBatch b _) b' ordered _ _ _ => b' = b /\ ordered <> []
  | _ => True
  end.

Lemma owed_members o : is_owed o -> reconciles_members o.
Proof.
  intros Ho. destruct Ho as [|u anchor pre [Hu _] Ha Hw|?|?|?|?|?|?]; try done. cbn. destruct (unit_id u) as [b p|b digest] eqn:Hid.
  - by apply singleton_members.
  - pose proof (units_sound _ _ _ Hunits u Hu) as Hok. destruct (unit_members u) as [|m ms] eqn:Hms; [by destruct (unit_nonempty _ _ _ Hok)|].
    destruct (unit_rows _ _ _ Hok m) as (v & [_ _ Hn _ _]); [rewrite Hms; by left|]. unfold unit_name in Hn. rewrite Hid in Hn.
    destruct (active_batch v); [|done]. injection Hn as Hb _. unfold proposal_ids. by rewrite Hms.
Qed.

Lemma steps_total o : reconciles_members o -> obligation_steps o = Ok (steps_of o).
Proof.
  unfold steps_of. destruct o as [| | | | |[b p|b digest] b' [|anchor ordered] und tx pre| |]; cbn; intros H; try done. by destruct H.
Qed.

Lemma executes_iff st o : reconciles_members o -> exists found, executes st o = Ok found /\ (found = true <-> st ∈ steps_of o).
Proof.
  intros H. unfold steps_of.
  destruct o as [b|b [] phase tx|u ms|b ds pre sg|b reason|[ub up|ub digest] b ordered und tx pre|b p pos idx pre|b p i acc unk pre]; cbn in H.
  7: destruct H as [-> ->]. 8: destruct ordered as [|anchor ordered]; [by destruct H|].
  all: destruct st as [b'|b'|b'|b' p' c'|b' p'|b' p'|b' p' i'|b' p' i']; cbn in *.
  all: try (eexists; split; [reflexivity|]; rewrite ?andb_true_iff, ?bool_decide_eq_true, ?elem_of_nil, ?list_elem_of_singleton, ?list_elem_of_fmap;
    first [naive_solver congruence | split; [done|]; intros (? & ? & _); done]; fail).
  - eexists. split; [reflexivity|]. rewrite andb_true_iff, bool_decide_eq_true, existsb_elem_of, list_elem_of_fmap. split.
    + intros [-> (d & Hd & [Hp%bool_decide_eq_true Hc%bool_decide_eq_true]%andb_true_iff)]. exists d. by rewrite Hp, Hc.
    + intros (d & [= -> -> ->] & Hd). split; [done|]. exists d. by rewrite !bool_decide_true.
  - destruct (bool_decide (ub = b')) eqn:Hb; (eexists; split; [reflexivity|]); rewrite ?bool_decide_eq_true, list_elem_of_singleton;
      [apply bool_decide_eq_true in Hb|apply bool_decide_eq_false in Hb]; naive_solver.
  - destruct (bool_decide (b = b')) eqn:Hb; (eexists; split; [reflexivity|]); rewrite ?bool_decide_eq_true, list_elem_of_singleton;
      [apply bool_decide_eq_true in Hb|apply bool_decide_eq_false in Hb]; naive_solver.
Qed.

(** ** Steps determine obligations *)

Lemma elem_of_steps_of st o :
  st ∈ steps_of o ->
  match st with
  | StepDelegate b => o = Delegate b
  | StepAdvanceDelegation b => exists phase tx, o = AdvanceDelegation b false phase tx
  | StepAdvanceImportedDelegation b => exists phase tx, o = AdvanceDelegation b true phase tx
  | StepCastVote b p c => exists drafts pre signs, o = Cast b drafts pre signs /\ {| draft_proposal_id := p; draft_choice := c |} ∈ drafts
  | StepAdvanceVote b p => exists b' ordered und tx pre, o = ReconcileChain (UnitSingleton b' p) b ordered und tx pre
  | StepAdvanceVoteBatch b p => exists b' digest rest und tx pre, o = ReconcileChain (UnitBatch b' digest) b (p :: rest) und tx pre
  | StepSubmitShares b p index => exists pos indexes pre, o = Deliver b p pos indexes pre /\ index ∈ indexes
  | StepConfirmShare b p index => exists accepted unknown pre, o = Confirm b p index accepted unknown pre
  end.
Proof.
  unfold steps_of. destruct o as [b|b [] phase tx|u ms|b ds pre sg|b reason|[ub up|ub digest] b [|anchor ordered] und tx pre|b p pos idx pre|b p i acc unk pre]; cbn.
  all: rewrite ?elem_of_nil, ?list_elem_of_singleton; try done; try (intros ->; by eauto 10).
  - intros ([q c] & -> & Hd)%list_elem_of_fmap. eauto 10.
  - intros (q & -> & Hd)%list_elem_of_fmap. eauto 10.
Qed.

Lemma owed_reconcile_unique id id' b ordered ordered' und und' tx tx' pre pre' p :
  is_owed (ReconcileChain id b ordered und tx pre) -> is_owed (ReconcileChain id' b ordered' und' tx' pre') ->
  p ∈ ordered -> p ∈ ordered' -> ReconcileChain id b ordered und tx pre = ReconcileChain id' b ordered' und' tx' pre'.
Proof.
  intros Ho Ho' Hp Hp'. inversion Ho as [|u1 a1 r1 [Hu1 _] Ha1 Hw1| | | | | |]; subst.
  inversion Ho' as [|u2 a2 r2 [Hu2 _] Ha2 Hw2| | | | | |]; subst.
  assert (u2 = u1) as -> by (by eapply (units_unique s units Hunits)). rewrite (waits_unique _ _ _ Hw1 Hw2). congruence.
Qed.

Lemma owed_step_unique st o o' : is_owed o -> is_owed o' -> st ∈ steps_of o -> st ∈ steps_of o' -> o = o'.
Proof.
  intros Ho Ho' Hst%elem_of_steps_of Hst'%elem_of_steps_of. destruct st as [b|b|b|b p c|b p|b p|b p i|b p i].
  - congruence.
  - destruct Hst as (phase & tx & ->), Hst' as (phase' & tx' & ->). inversion Ho as [| | | | | |b1 p1 r1 [Hp1 _] Hb1|]; subst. 
    inversion Ho' as [| | | | | |b2 p2 r2 [Hp2 _] Hb2|]; subst. congruence.
  - destruct Hst as (phase & tx & ->), Hst' as (phase' & tx' & ->). inversion Ho as [| | | | | |b1 p1 r1 [Hp1 _] Hb1|]; subst. 
    inversion Ho' as [| | | | | |b2 p2 r2 [Hp2 _] Hb2|]; subst. congruence.
  - destruct Hst as (ds & pre & sg & -> & _), Hst' as (ds' & pre' & sg' & -> & _). inversion Ho as [| | |b1 d1 r1 _ _ Hd1 _ Hw1| | | |]; subst.
    inversion Ho' as [| | |b2 d2 r2 _ _ Hd2 _ Hw2| | | |]; subst. by rewrite (drafts_due_unique _ _ _ _ _ _ Hd1 Hd2), (waits_unique _ _ _ Hw1 Hw2).
  - destruct Hst as (b' & ids & und & tx & pre & ->), Hst' as (b'' & ids' & und' & tx' & pre' & ->).
    destruct (owed_members _ Ho) as [-> ->], (owed_members _ Ho') as [<- ->]. eapply owed_reconcile_unique; [done|done|by left|by left].
  - destruct Hst as (b' & dig & ids & und & tx & pre & ->), Hst' as (b'' & dig' & ids' & und' & tx' & pre' & ->).
    eapply owed_reconcile_unique; [done|done|by left|by left].
  - destruct Hst as (pos & idx & pre & -> & _), Hst' as (pos' & idx' & pre' & -> & _). inversion Ho as [| |? ? ? ? ? _ Hm1 _ Hp1 Hw1| | | | |]; subst.
    inversion Ho' as [| |? ? ? ? ? _ Hm2 _ Hp2 Hw2| | | | |]; subst. rewrite (waits_unique _ _ _ Hw1 Hw2). congruence.
  - destruct Hst as (acc & unk & pre & ->), Hst' as (acc' & unk' & pre' & ->). inversion Ho as [| | | | | | |? ? ? ? _ _ Hw1]; subst.
    inversion Ho' as [| | | | | | |? ? ? ? _ _ Hw2]; subst. by rewrite (waits_unique _ _ _ Hw1 Hw2).
Qed.

Lemma NoDup_missing_share_indexes b p indexes : missing_share_indexes s b p = Ok indexes -> NoDup indexes.
Proof.
  unfold missing_share_indexes. intros H. inv_ok. rewrite sort_by_Permutation. apply NoDup_filter, NoDup_remove_dups.
Qed.

Lemma NoDup_steps_of o : is_owed o -> NoDup (steps_of o).
Proof.
  intros Ho. pose proof (owed_members o Ho) as Hm.
  destruct Ho as [|u anchor pre Hr Ha Hw|b q pos idx pre _ Hi _ _ _|b ds pre _ _ [Hs _] _ _|?|?|b phase bundle Ha Hb|?]; unfold steps_of; cbn;
    try apply NoDup_singleton; try constructor.
  - cbn in Hm. destruct (unit_id u); [apply NoDup_singleton|]. destruct (proposal_ids u); [by destruct Hm|apply NoDup_singleton].
  - apply NoDup_fmap_2_strong; [by intros ? ? _ _ [= ->]|]. by eapply NoDup_missing_share_indexes.
  - apply NoDup_fmap_2_strong; [intros [] [] _ _ [= -> ->]; done|]. clear - Hs. induction ds as [|d ds IH]; [constructor|].
    cbn in Hs. apply StronglySorted_inv in Hs as [Hs Hlt]. apply NoDup_cons. split; [|by apply IH]. intros Hd. rewrite Forall_forall in Hlt.
    specialize (Hlt _ (list_elem_of_fmap_2 draft_proposal_id _ _ Hd)). lia.
Qed.

(** ** The obligations of a plan *)

Variable obs : list Obligation.
Hypothesis Hobs : forall o, o ∈ obs <-> is_owed o.
Hypothesis Honce : NoDup obs.

Lemma steps_from_owed : steps_from_obligations obs = Ok (concat (map steps_of obs)).
Proof.
  unfold steps_from_obligations. rewrite (collect_results_map _ steps_of); [done|]. intros o Ho. by apply steps_total, owed_members, Hobs.
Qed.

Abbreviation steps := (sort_steps (concat (map steps_of obs))).

Lemma elem_of_steps st : st ∈ steps <-> exists o, o ∈ obs /\ st ∈ steps_of o.
Proof. unfold sort_steps. by rewrite elem_of_sort_by, elem_of_concat_map. Qed.

Lemma NoDup_steps : NoDup steps.
Proof.
  unfold sort_steps. rewrite sort_by_Permutation. apply NoDup_concat_map; [done| |].
  - intros o Ho. by apply NoDup_steps_of, Hobs.
  - intros o o' st Ho Ho'. apply owed_step_unique; by apply Hobs.
Qed.

Lemma resolve_step_iff st o : resolve_step obs st = Ok (Some o) <-> o ∈ obs /\ st ∈ steps_of o.
Proof.
  assert (forall l, (forall x, x ∈ l -> is_owed x) -> resolve_step l st = Ok (Some o) <-> o ∈ l /\ st ∈ steps_of o) as Hgen.
  2: { apply Hgen. intros x. apply Hobs. }
  induction l as [|x l IH]; intros Hl; cbn [resolve_step].
  { split; [done|]. intros [H _]. by apply elem_of_nil in H. }
  assert (is_owed x) as Hx by (apply Hl; by left). destruct (executes_iff st x (owed_members x Hx)) as (found & -> & Hf). destruct found.
  - split; [intros [= <-]; split; [by left|by apply Hf]|]. intros [Hin Hst]. rewrite (owed_step_unique st o x); [done|by apply Hl|done|done|by apply Hf].
  - rewrite IH by (intros y Hy; apply Hl; by right). rewrite elem_of_cons. split; [tauto|]. intros [[-> |?] Hst]; [by apply Hf in Hst|done].
Qed.

Lemma resolve_step_total st : exists found, resolve_step obs st = Ok found.
Proof.
  assert (forall l, (forall x, x ∈ l -> is_owed x) -> exists found, resolve_step l st = Ok found) as Hgen.
  2: { apply Hgen. intros x. apply Hobs. }
  induction l as [|x l IH]; intros Hl; cbn [resolve_step]; [by eexists|].
  destruct (executes_iff st x (owed_members x (Hl x ltac:(by left)))) as ([] & -> & _); [by eexists|]. apply IH. intros y Hy. apply Hl. by right.
Qed.

(** ** Order and prerequisites *)

Lemma rank_leb_le x y : rank_leb x y = true <->
  (x.1.1.1 < y.1.1.1 \/ x.1.1.1 = y.1.1.1 /\ (x.1.1.2 < y.1.1.2 \/ x.1.1.2 = y.1.1.2 /\ (x.1.2 < y.1.2 \/ x.1.2 = y.1.2 /\ x.2 <= y.2)))%N.
Proof.
  destruct x as [[[a b] c] d], y as [[[a' b'] c'] d']. cbn [rank_leb fst snd].
  by rewrite !orb_true_iff, !andb_true_iff, !orb_true_iff, !andb_true_iff, !orb_true_iff, !andb_true_iff, !N.ltb_lt, !N.eqb_eq, N.leb_le.
Qed.

Lemma steps_sorted : StronglySorted (fun x y => rank_leb (step_rank x) (step_rank y)) steps.
Proof.
  unfold sort_steps. apply sort_by_sorted; intros *; rewrite !rank_leb_le; lia.
Qed.

Hypothesis Hrows : bundle_rows s.

Lemma delegation_steps b :
  (exists st, st ∈ steps /\ delegation_step_bundle st = Some b)
  <-> starts_delegation s roster units b \/ exists phase, advances_delegation s b phase.
Proof.
  setoid_rewrite elem_of_steps. setoid_rewrite Hobs. split.
  - intros (st & (o & Ho & Hst%elem_of_steps_of) & Hb). destruct st; try done; injection Hb as ->; [subst o|destruct Hst as (? & ? & ->)..];
      inversion Ho; subst; eauto.
  - intros [Hs|[phase Ha]].
    + exists (StepDelegate b). split; [|done]. exists (Delegate b). split; [by constructor|by left].
    + destruct (Hrows b) as [bundle Hb]; [by eexists; apply Ha|]. exists (if capability_imported bundle then StepAdvanceImportedDelegation b else StepAdvanceDelegation b).
      split; [|by destruct (capability_imported bundle)]. eexists. split; [by eapply owed_advance|]. unfold steps_of. cbn. by left.
Qed.

(** The obligations that are not delegations wait as the rules say. *)
Lemma owed_waits st o :
  is_owed o -> st ∈ steps_of o -> delegation_step_bundle st = None -> waits s roster units (obligation_bundle o) (obligation_prerequisite o).
Proof.
  intros Ho Hst Hb. apply elem_of_steps_of in Hst. destruct st; try done;
    step_origin Hst; by inversion Ho.
Qed.

Lemma step_obligation_bundle st o : st ∈ steps_of o ->
  blocking_prerequisite steps st = match delegation_step_bundle st with
                                   | Some _ => None
                                   | None => List.find (fun c => bool_decide (delegation_step_bundle c = Some (obligation_bundle o))) steps
                                   end.
Proof.
  intros Hst%elem_of_steps_of. by destruct st; step_origin Hst.
Qed.

Lemma prerequisite_presented o st :
  o ∈ obs -> st ∈ steps_of o ->
  obligation_prerequisite o = (pre ← blocking_prerequisite steps st; delegation_step_bundle pre)
  /\ forall pre, blocking_prerequisite steps st = Some pre -> pre ∈ steps /\ rank_leb (step_rank st) (step_rank pre) = false.
Proof.
  intros Ho%Hobs Hst. rewrite (step_obligation_bundle st o Hst). destruct (delegation_step_bundle st) eqn:Hd.
  { split; [|done]. apply elem_of_steps_of in Hst. destruct st; try done; [by subst|destruct Hst as (? & ? & ->); done..]. }
  pose proof (owed_waits st o Ho Hst Hd) as Hw. pose proof (delegation_steps (obligation_bundle o)) as Hdel. unfold waits in Hw. rewrite <- Hdel in Hw.
  destruct (find _ _) as [c|] eqn:Hf.
  - apply find_some in Hf as [Hin%list_elem_of_In Hc%bool_decide_eq_true]. cbn. rewrite Hc. split.
    + destruct Hw as [[-> _]|[_ Hno]]; [done|]. destruct Hno. eauto.
    + intros pre [= <-]. split; [done|]. apply not_true_iff_false. rewrite rank_leb_le. destruct st, c; try done; cbn; lia.
  - split; [|done]. cbn. destruct Hw as [[_ (c & Hin & Hc)]|[-> _]]; [|done]. apply list_elem_of_In in Hin.
    pose proof (find_none _ _ Hf _ Hin) as Hn. cbn in Hn. by apply bool_decide_eq_false in Hn.
Qed.

(** ** Recovery work *)

Lemma delegation_item st b :
  st ∈ steps -> delegation_step_bundle st = Some b ->
  exists w, delegation_work_bundle w = b /\ delegation_phases s !! b = Some (delegation_work_phase w)
    /\ forall work, delegation_work s obs work st = Ok (work ++ [w]).
Proof.
  intros (o & Ho & Hst)%elem_of_steps Hb. pose proof (proj2 (resolve_step_iff st o) (conj Ho Hst)) as Hres. apply Hobs in Ho.
  apply elem_of_steps_of in Hst. destruct st; try done; injection Hb as ->; cbn [delegation_work]; unfold advance_work; rewrite ?Hres; step_origin Hst.
  - inversion Ho as [| | | | |b1 [Hph _]| |]; subst. destruct Hph as [Hph|Hph]; rewrite Hph; cbn; (eexists; split; [|split; [|intros work; reflexivity]]; done).
  - inversion Ho as [| | | | | |b1 p1 r1 [Hp1 _] Hb1|]; subst. eexists. split; [|split]; [| |intros work; reflexivity]; done.
  - inversion Ho as [| | | | | |b1 p1 r1 [Hp1 _] Hb1|]; subst. eexists. split; [|split]; [| |intros work; reflexivity]; done.
Qed.

Lemma delegation_work_presented :
  exists work, recovered_delegation_work_from_steps s obs steps = Ok work
    /\ map delegation_work_bundle work = omap delegation_step_bundle steps
    /\ forall w, w ∈ work -> delegation_phases s !! delegation_work_bundle w = Some (delegation_work_phase w).
Proof.
  unfold recovered_delegation_work_from_steps.
  assert (forall l acc, (forall st, st ∈ l -> st ∈ steps) -> exists work, fold_results (delegation_work s obs) acc l = Ok (acc ++ work)
    /\ map delegation_work_bundle work = omap delegation_step_bundle l
    /\ forall w, w ∈ work -> delegation_phases s !! delegation_work_bundle w = Some (delegation_work_phase w)) as Hgen; [|by apply (Hgen _ [])].
  induction l as [|st l IH]; intros acc Hl.
  { exists []. rewrite app_nil_r. split_and!; try done. intros w Hw. by apply elem_of_nil in Hw. }
  cbn [fold_results]. assert (forall st', st' ∈ l -> st' ∈ steps) as Hl' by (intros; apply Hl; by right).
  destruct (delegation_step_bundle st) as [b|] eqn:Hb.
  - destruct (delegation_item st b (Hl st ltac:(by left)) Hb) as (w & Hw & Hph & ->). destruct (IH (acc ++ [w]) Hl') as (work & Hf & Hm & Hall).
    exists (w :: work). cbn. rewrite Hf, Hb, <- app_assoc. split_and!; [done|by rewrite Hw, Hm|].
    intros w' [-> |Hw']%elem_of_cons; [by rewrite Hw|by apply Hall].
  - replace (delegation_work s obs acc st) with (Ok (E := PlanError) acc) by by destruct st. destruct (IH acc Hl') as (work & Hf & Hm & Hall).
    exists work. cbn. by rewrite Hf, Hb.
Qed.

(** A step asks for a share to be submitted: one a confirmed vote still owes, or one no
    helper may hold while the chain work of its vote is done. *)
Definition asks_share (obligations : list Obligation) (st : NextStep) (b p i : N) : Prop :=
  st = StepSubmitShares b p i
  \/ st = StepConfirmShare b p i /\ (b, p, i) ∈ blocking_confirm_share_keys obligations
     /\ (b, p) ∉ pending_vote_confirmation_keys obligations.

(** The vote work of some steps. *)
Record works (obligations : list Obligation) (passed : list NextStep) (work : list VoteRecoveryWork) : Prop := {
  works_shares : forall b p i, (exists w, w ∈ work /\ submits w b p /\ i ∈ vote_work_shares w)
    <-> exists st, st ∈ passed /\ asks_share obligations st b p i;
  works_groups : NoDup (share_groups work);
  works_positions : forall w, w ∈ work -> vote_work_kind w = WorkSubmitShares ->
    exists position, vote_work_position w = Some position
      /\ confirmed_tree_position s (vote_work_bundle w) (vote_work_proposal w) = Ok (Some position);
  works_votes : forall b p, (exists w, w ∈ work /\ vote_work_kind w = WorkAdvanceVote /\ vote_work_bundle w = b /\ vote_work_proposal w = p)
    <-> StepAdvanceVote b p ∈ passed;
  works_batches : forall b p, (exists w, w ∈ work /\ vote_work_kind w = WorkAdvanceVoteBatch /\ vote_work_bundle w = b /\ vote_work_proposal w = p)
    <-> StepAdvanceVoteBatch b p ∈ passed
}.

Lemma works_start : works obs [] [].
Proof.
  split; intros *; rewrite ?elem_of_nil.
  - split; [intros (w & Hw & _); by apply elem_of_nil in Hw|intros (st & Hst & _); by apply elem_of_nil in Hst].
  - constructor.
  - done.
  - split; [intros (w & Hw & _); by apply elem_of_nil in Hw|done].
  - split; [intros (w & Hw & _); by apply elem_of_nil in Hw|done].
Qed.

Lemma exists_snoc {A} (l : list A) x (P : A -> Prop) : (exists y, y ∈ l ++ [x] /\ P y) <-> (exists y, y ∈ l /\ P y) \/ P x.
Proof.
  split.
  - intros (y & [Hy| ->%list_elem_of_singleton]%elem_of_app & HP); eauto.
  - intros [(y & Hy & HP)|HP]; eexists; (split; [|exact HP]); apply elem_of_app; [by left|right; by left].
Qed.

(** A step that asks for no share and advances no vote adds nothing. *)
Lemma works_skip passed work st :
  (forall b p i, ~ asks_share obs st b p i) -> (forall b p, st <> StepAdvanceVote b p) -> (forall b p, st <> StepAdvanceVoteBatch b p) ->
  works obs passed work -> works obs (passed ++ [st]) work.
Proof.
  intros Hno Hv Hb [H1 H2 H3 H4 H5]. split; try done; intros *; rewrite ?H1, ?H4, ?H5, ?exists_snoc, ?elem_of_app, ?list_elem_of_singleton.
  - specialize (Hno b p i). tauto.
  - specialize (Hv b p). split; [by left|]. by intros [?|<-].
  - specialize (Hb b p). split; [by left|]. by intros [?|<-].
Qed.

Lemma works_push passed work st b p i pos :
  (forall b' p' i', asks_share obs st b' p' i' <-> (b', p', i') = (b, p, i)) ->
  (forall b p, st <> StepAdvanceVote b p) -> (forall b p, st <> StepAdvanceVoteBatch b p) ->
  confirmed_tree_position s b p = Ok (Some pos) -> works obs passed work ->
  works obs (passed ++ [st]) (push_submit_share_work work b p i pos).
Proof.
  intros Hask Hv Hb Hpos [H1 H2 H3 H4 H5]. split.
  - intros b' p' i'. by rewrite push_shares, exists_snoc, H1, Hask.
  - by apply push_groups.
  - apply (push_positions (fun b p o => exists position, o = Some position /\ confirmed_tree_position s b p = Ok (Some position))); [by eauto|done].
  - intros b' p'. rewrite elem_of_app, list_elem_of_singleton, <- H4. split.
    + intros (w & Hw & Hk & ?). apply push_others in Hw; [|by rewrite Hk]. left. by exists w.
    + intros [(w & Hw & Hk & ?)|<-]; [|by destruct (Hv b' p')]. exists w. split; [|done]. apply push_others; [by rewrite Hk|done].
  - intros b' p'. rewrite elem_of_app, list_elem_of_singleton, <- H5. split.
    + intros (w & Hw & Hk & ?). apply push_others in Hw; [|by rewrite Hk]. left. by exists w.
    + intros [(w & Hw & Hk & ?)|<-]; [|by destruct (Hb b' p')]. exists w. split; [|done]. apply push_others; [by rewrite Hk|done].
Qed.

Lemma works_advance passed work st w b p :
  (st = StepAdvanceVote b p /\ vote_work_kind w = WorkAdvanceVote \/ st = StepAdvanceVoteBatch b p /\ vote_work_kind w = WorkAdvanceVoteBatch) ->
  vote_work_bundle w = b -> vote_work_proposal w = p -> works obs passed work -> works obs (passed ++ [st]) (work ++ [w]).
Proof.
  intros Hst Hb Hp [H1 H2 H3 H4 H5]. assert (vote_work_kind w <> WorkSubmitShares) as Hk by (destruct Hst as [[_ ->]|[_ ->]]; done). split.
  - intros b' p' i'. rewrite !exists_snoc, H1. unfold submits, asks_share. split; [|]; (intros [?|Hx]; [by left|]); [tauto|].
    destruct Hst as [[-> _]|[-> _]]; by destruct Hx as [|[? _]].
  - unfold share_groups. rewrite filter_app, filter_cons_False, filter_nil, app_nil_r; done.
  - intros w' [Hw| ->%list_elem_of_singleton]%elem_of_app; [by apply H3|done].
  - intros b' p'. rewrite exists_snoc, H4, elem_of_app, list_elem_of_singleton. destruct Hst as [[-> ->]|[-> ->]]; rewrite Hb, Hp; naive_solver.
  - intros b' p'. rewrite exists_snoc, H5, elem_of_app, list_elem_of_singleton. destruct Hst as [[-> ->]|[-> ->]]; rewrite Hb, Hp; naive_solver.
Qed.

Abbreviation blocking := (blocking_confirm_share_keys obs).

(** A share no helper may hold whose vote has no confirmed position. *)
Definition unplaced_share (obligations : list Obligation) : Prop :=
  exists b p i, (b, p, i) ∈ blocking_confirm_share_keys obligations /\ ~ exists position, confirmed_tree_position s b p = Ok (Some position).

Lemma vote_work_step passed work st :
  st ∈ steps -> works obs passed work ->
  match vote_work s blocking obs work st with
  | Ok work' => works obs (passed ++ [st]) work'
  | Err e => e <> Panicked /\ unplaced_share obs
  end.
Proof.
  intros (o & Ho & Hst)%elem_of_steps Hok. pose proof (proj2 (resolve_step_iff st o) (conj Ho Hst)) as Hres. apply Hobs in Ho.
  apply elem_of_steps_of in Hst. destruct st as [b|b|b|b p c|b p|b p|b p i|b p i]; cbn [vote_work]; unfold advance_vote_work; rewrite ?Hres.
  1-4: apply works_skip; [by intros ? ? ? [?|[? _]]|done|done|done].
  - step_origin Hst. cbn. eapply works_advance; [by left|done|done|done].
  - step_origin Hst. cbn. eapply works_advance; [by right|done|done|done].
  - step_origin Hst. cbn. apply works_push; [|done|done|by inversion Ho|done]. intros b' p' i'. unfold asks_share. split; [|naive_solver].
    by intros [[= -> -> ->]|[? _]].
  - destruct (_ && _) eqn:Hif.
    + apply andb_true_iff in Hif as [Hin%bool_decide_eq_true Hout%negb_true_iff%bool_decide_eq_false]. unfold failed.
      destruct (confirmed_tree_position s b p) as [[pos|]|] eqn:Hpos; cbn.
      * apply works_push; [|done|done|done|done]. intros b' p' i'. unfold asks_share. split; [by intros [?|[[= -> -> ->] _]]|].
        intros [= -> -> ->]. by right.
      * split; [done|]. exists b, p, i. split; [done|]. intros [pos ?]. congruence.
      * split; [done|]. exists b, p, i. split; [done|]. intros [pos ?]. congruence.
    + apply works_skip; [|done|done|done]. intros b' p' i' [?|([= -> -> ->] & Hin & Hout)]; [done|].
      by rewrite (bool_decide_true _ Hin), (bool_decide_false _ Hout) in Hif.
Qed.

Lemma vote_work_presented :
  match recovered_vote_work_from_steps s blocking obs steps with
  | Ok work => works obs steps work
  | Err e => e <> Panicked /\ unplaced_share obs
  end.
Proof.
  unfold recovered_vote_work_from_steps. destruct (fold_results _ [] steps) as [work|e] eqn:Hf.
  - eapply (fold_results_invariant (vote_work s blocking obs) (fun pre w => works obs pre w)); [apply works_start| |exact Hf].
    intros pre st w w' [rest Hrest] Hw Hstep. assert (st ∈ steps) as Hst.
    { rewrite Hrest. apply elem_of_app. left. apply elem_of_app. right. by left. }
    pose proof (vote_work_step pre w st Hst Hw) as H. by rewrite Hstep in H.
  - (* the failing step, after the steps that succeeded *)
    assert (forall l pre w, (forall st, st ∈ l -> st ∈ steps) -> works obs pre w -> fold_results (vote_work s blocking obs) w l = Err e ->
      e <> Panicked /\ unplaced_share obs) as Hgen; [|apply (Hgen steps [] []); [done|apply works_start|done]].
    induction l as [|st l IH]; intros pre w Hl Hw H; cbn [fold_results] in H; [done|].
    pose proof (vote_work_step pre w st (Hl st ltac:(by left)) Hw) as Hstep. destruct (vote_work s blocking obs w st) as [w'|e'].
    + eapply IH; [intros; apply Hl; by right|done|done].
    + cbn in H. by injection H as ->.
Qed.

Lemma elem_of_signing_casts b : b ∈ signing_casts obs steps <-> exists drafts pre, Cast b drafts pre true ∈ obs.
Proof.
  unfold signing_casts. rewrite list_elem_of_omap. split.
  - intros (st & Hst & H). destruct st as [| | |b' p c| | | |]; try done. cbn in H.
    destruct (bool_decide _) eqn:Hin; [|done]. apply bool_decide_eq_true in Hin. injection H as ->.
    apply list_elem_of_omap in Hin as (o & Ho & H). destruct o as [| | |b' ds pre []| | | |]; try done. injection H as ->. eauto.
  - intros (ds & pre & Ho). assert (ds <> []) as Hne by (apply Hobs in Ho; by inversion Ho).
    destruct ds as [|[p c] ds]; [done|]. exists (StepCastVote b p c). split.
    + apply elem_of_steps. eexists. split; [exact Ho|]. unfold steps_of. cbn. by left.
    + rewrite bool_decide_true; [done|]. apply list_elem_of_omap. eexists. split; [exact Ho|done].
Qed.
End presented.

(** What a plan shows of the obligations it was projected from. *)
Record plan_presents `{GT : GenerationTables, HX : HexCrate, SH : Sha256Crate, RC : RoundIdCrates}
  (s : RoundSnapshot) (obs : list Obligation) (plan : RoundPlan) : Prop := {
  presents_steps : forall st, st ∈ next_steps plan <-> exists o, o ∈ obs /\ st ∈ steps_of o;
  presents_once : NoDup (next_steps plan);
  presents_order : StronglySorted (fun x y => rank_leb (step_rank x) (step_rank y)) (next_steps plan);
  presents_resolved : forall st o, resolve_step obs st = Ok (Some o) <-> o ∈ obs /\ st ∈ steps_of o;
  presents_prerequisites : forall o st, o ∈ obs -> st ∈ steps_of o ->
    obligation_prerequisite o = (pre ← blocking_prerequisite (next_steps plan) st; delegation_step_bundle pre)
    /\ forall pre, blocking_prerequisite (next_steps plan) st = Some pre ->
         pre ∈ next_steps plan /\ rank_leb (step_rank st) (step_rank pre) = false;
  presents_delegations : map delegation_work_bundle (recovered_delegation_work plan) = omap delegation_step_bundle (next_steps plan);
  presents_phases : forall w, w ∈ recovered_delegation_work plan -> delegation_phases s !! delegation_work_bundle w = Some (delegation_work_phase w);
  presents_votes : works s obs (next_steps plan) (recovered_vote_work plan);
  presents_ascending : StronglySorted N.lt (delegation_bundles_needing_work plan) /\ StronglySorted N.lt (delegation_bundles_needing_signing plan);
  presents_work : forall b, b ∈ delegation_bundles_needing_work plan <->
    (exists st, st ∈ next_steps plan /\ delegation_step_bundle st = Some b) \/ exists drafts pre, Cast b drafts pre true ∈ obs;
  presents_signing : forall b, b ∈ delegation_bundles_needing_signing plan <->
    StepAdvanceDelegation b ∈ next_steps plan \/ exists drafts pre, Cast b drafts pre true ∈ obs;
  presents_signing_flag : needs_delegation_signing plan = true <-> exists b, b ∈ delegation_bundles_needing_signing plan;
  presents_done : completed_for_display plan = true -> forall st, st ∈ next_steps plan ->
    exists b p i pre accepted unknown, st = StepConfirmShare b p i /\ Confirm b p i accepted unknown pre ∈ obs /\ accepted || unknown = true
}.

Section projected.
Context `{GT : GenerationTables, HX : HexCrate, SH : Sha256Crate, RC : RoundIdCrates}.
Variables (s : RoundSnapshot) (ids roster : list N) (units : list VoteUnit) (o : RoundObligations).
Hypothesis Hsnapshot : snapshot_ok s.
Hypothesis Hunits : units_ok s (intents s) units.
Hypothesis Htable : rule_table s roster units o.

Lemma project_presents :
  match project s ids o with
  | Ok plan => plan_presents s (obligations o) plan
  | Err e => e <> Panicked /\ unplaced_share s (obligations o)
  end.
Proof.
  pose proof (table_owed _ _ _ _ Htable) as Howed. pose proof (table_once _ _ _ _ Htable) as Honce. pose proof (snapshot_bundles _ Hsnapshot) as Hrows.
  set (steps := sort_steps (concat (map steps_of (obligations o)))).
  destruct (delegation_work_presented s roster units (plan_open_proposals o) (plan_unrostered_intents o) Hunits _ Howed) as (work & Hwork & Hmap & Hphases).
  pose proof (vote_work_presented s roster units (plan_open_proposals o) (plan_unrostered_intents o) Hunits _ Howed) as Hvotes. fold steps in Hwork, Hmap, Hvotes.
  unfold project. rewrite (steps_from_owed s roster units (plan_open_proposals o) (plan_unrostered_intents o) Hunits _ Howed). cbn [mbind result_bind]. fold steps. rewrite Hwork. cbn [mbind result_bind].
  destruct (recovered_vote_work_from_steps _ _ _ _) as [votes|e]; cbn [mbind result_bind]; [|done].
  split; cbn [next_steps recovered_delegation_work recovered_vote_work delegation_bundles_needing_work delegation_bundles_needing_signing
    needs_delegation_signing completed_for_display].
  - intros st. apply elem_of_steps.
  - by apply (NoDup_steps s roster units (plan_open_proposals o) (plan_unrostered_intents o) Hunits).
  - apply steps_sorted.
  - by apply (resolve_step_iff s roster units (plan_open_proposals o) (plan_unrostered_intents o) Hunits).
  - by apply (prerequisite_presented s roster units (plan_open_proposals o) (plan_unrostered_intents o) _ Howed).
  - done.
  - done.
  - done.
  - split; apply sorted_set_strict.
  - intros b. rewrite elem_of_sorted_set, elem_of_app, elem_of_summary_work. apply or_iff_both; [done|].
    apply (elem_of_signing_casts s roster units _ _ _ Howed).
  - intros b. rewrite elem_of_sorted_set, elem_of_app, elem_of_summary_signing. apply or_iff_both; [done|].
    apply (elem_of_signing_casts s roster units _ _ _ Howed).
  - destruct (sorted_set _) as [|b l]; cbn; [|split; [intros _; exists b; by left|done]].
    split; [done|]. intros [b Hb]. by apply elem_of_nil in Hb.
  - intros [_ Hblock%negb_true_iff]%andb_true_iff st Hst. unfold blocks_recovery in Hblock. rewrite !orb_false_iff in Hblock.
    destruct Hblock as [_ Hblock]. rewrite existsb_false in Hblock. specialize (Hblock st Hst). destruct st as [| | | | | | |b p i]; try done.
    apply bool_decide_eq_false in Hblock. apply elem_of_steps in Hst as (x & Hx & Hst%elem_of_steps_of). destruct Hst as (acc & unk & pre & ->).
    exists b, p, i, pre, acc, unk. split; [done|]. split; [done|]. destruct acc, unk; try done. destruct Hblock.
    apply list_elem_of_omap. by exists (Confirm b p i false false pre).
Qed.
End projected.

(** C15. The plan a host receives presents the classified obligations and nothing else.  Over
    a snapshot the tables allow, planning never panics: neither the indexing of an empty unit
    nor an [unreachable!] arm is reached.  It fails only where classification fails, or where
    a share no helper may hold belongs to a vote without a confirmed tree position.  The steps
    are those of the obligations, each once, in rank order; resolving a step gives exactly the
    obligation it executes; the prerequisite read from the steps is the one classified, and it
    comes earlier; every delegation step has one recovery item and every share to be
    submitted one group with its confirmed position; the bundles needing signatures are those
    of in-flight delegations and of casts that sign; and a round shown as done has only
    shares left that some helper may hold. *)
Theorem plan_presents_obligations `{GT : GenerationTables, HX : HexCrate, SH : Sha256Crate, RC : RoundIdCrates}
  (s : RoundSnapshot) (ids : list N) :
  snapshot_ok s ->
  match plan_round_classified s ids with
  | Ok (plan, o) =>
      classify_round s ids = Ok o
      /\ if needs_bundle_setup o then next_steps plan = [] /\ primary_action plan = ActionDelegate
         else plan_presents s (obligations o) plan
  | Err (Failed e) => classify_round s ids = Err (Failed e) \/ exists o, classify_round s ids = Ok o /\ unplaced_share s (obligations o)
  | Err Panicked => False
  end.
Proof.
  intros Hsnapshot. pose proof (classify_round_cases s ids Hsnapshot) as Hcases. unfold plan_round_classified.
  destruct (classify_round s ids) as [o|[e|]]; cbn [mbind result_bind]; [|by left|done].
  destruct Hcases as [_ Hcases]. destruct (needs_bundle_setup o) eqn:Hsetup.
  - destruct Hcases as (_ & Hobs & _). unfold project. rewrite Hobs. cbn. by rewrite Hsetup.
  - destruct Hcases as (units & _ & Hunits & _ & Htable).
    pose proof (project_presents s ids (sort_by N.leb ids) units o Hsnapshot Hunits Htable) as H.
    destruct (project s ids o) as [plan|[e|]]; cbn; [by rewrite Hsetup|right; exists o; by destruct H|by destruct H].
Qed.

#[local] Existing Instances sample_hex sample_sha256 sample_tables sample_round_crates.

Lemma sample_round_planned :
  match plan_round_classified sample_round [5; 1; 9]%N with
  | Ok (plan, o) =>
      bool_decide (next_steps plan = [StepDelegate 4; StepCastVote 4 1 0; StepCastVote 4 5 2; StepAdvanceVote 5 7; StepAdvanceVoteBatch 3 9;
                                      StepCastVote 4 9 2]%N)
      && bool_decide (delegation_bundles_needing_signing plan = [4]%N) && negb (needs_bundle_setup o)
  | Err _ => false
  end = true.
Proof. vm_cast_no_check (eq_refl true). Qed.

Lemma plan_presents_obligations_witness :
  snapshot_ok sample_round /\ exists plan o,
    plan_round_classified sample_round [5; 1; 9]%N = Ok (plan, o)
    /\ next_steps plan = [StepDelegate 4; StepCastVote 4 1 0; StepCastVote 4 5 2; StepAdvanceVote 5 7; StepAdvanceVoteBatch 3 9;
                           StepCastVote 4 9 2]%N
    /\ delegation_bundles_needing_signing plan = [4]%N /\ plan_presents sample_round (obligations o) plan.
Proof.
  split; [exact sample_round_ok|].
  pose proof (plan_presents_obligations sample_round [5; 1; 9]%N sample_round_ok) as H. pose proof sample_round_planned as Hplan.
  destruct (plan_round_classified sample_round [5; 1; 9]%N) as [[plan o]|e]; [|discriminate Hplan].
  rewrite !andb_true_iff, !bool_decide_eq_true, negb_true_iff in Hplan. destruct Hplan as [[Hsteps Hsign] Hset].
  rewrite Hset in H. destruct H as [_ H]. exists plan, o. split; [reflexivity|]. split; [exact Hsteps|]. split; [exact Hsign|exact H].
Defined.
