(* ===== verification/VoteRecovery.v ===== *)
(** * The stored form of a signed vote

    Models the recovery bundle of [vote.rs] as it is persisted: [VoteRecoveryJson] and its
    conversions, [serialize_recovery] and [parse_recovery].  [serde_json] is an interface
    whose laws are those of derived serialization: a document decodes to values of their
    types, and encoding is inverted by decoding. *)

From S2P Require Import Prelude Types Diagnostics Identity Generation Confirmation Ballot RoundPlanning.

(** ** The document *)

Record EncryptedShareJson : Type := {
  json_c1 : bytes;
  json_c2 : bytes;
  json_share_index : N;
  json_plaintext_value : N;
  json_randomness : bytes
}.

Record VoteRecoveryJson : Type := {
  json_format : string;
  json_vote_round_id : string;
  json_bundle_index : N;
  json_proposal_id : N;
  json_vote_decision : N;
  json_anchor_height : N;
  json_vc_tree_position : N;
  json_single_share : bool;
  json_num_options : N;
  json_van_nullifier : bytes;
  json_vote_authority_note_new : bytes;
  json_vote_commitment : bytes;
  json_proof : bytes;
  json_shares_hash : bytes;
  json_r_vpk : bytes;
  json_alpha_v : bytes;
  json_vote_auth_sig : bytes;
  json_encrypted_shares : list EncryptedShareJson;
  json_share_blinds : list bytes;
  json_share_comms : list bytes;
  json_batch_digest : option bytes;
  json_delegation_van : option bytes32;
  json_batch_index : option N;
  json_batch_size : option N
}.

(** The integer fields hold values of their Rust types. *)
Definition share_json_typed (s : EncryptedShareJson) : Prop :=
  (json_share_index s <= u32_max)%N /\ (json_plaintext_value s <= u64_max)%N.

Definition option_u32 (o : option N) : Prop := match o with Some n => (n <= u32_max)%N | None => True end.

Record json_typed (j : VoteRecoveryJson) : Prop := {
  typed_bundle_index : (json_bundle_index j <= u32_max)%N;
  typed_proposal_id : (json_proposal_id j <= u32_max)%N;
  typed_vote_decision : (json_vote_decision j <= u32_max)%N;
  typed_anchor_height : (json_anchor_height j <= u32_max)%N;
  typed_vc_tree_position : (json_vc_tree_position j <= u64_max)%N;
  typed_num_options : (json_num_options j <= u32_max)%N;
  typed_shares : Forall share_json_typed (json_encrypted_shares j);
  typed_batch_index : option_u32 (json_batch_index j);
  typed_batch_size : option_u32 (json_batch_size j)
}.

Definition has_batch_metadata (j : VoteRecoveryJson) : bool :=
  bool_decide (is_Some (json_batch_digest j)) || bool_decide (is_Some (json_batch_index j))
  || bool_decide (is_Some (json_batch_size j)).

(** [serde_json] on the document, and SQLite's and [serde_json::Value]'s view of a few of
    its fields.  An error is its text. *)
Class RecoverySerde : Type := {
  recovery_to_string : VoteRecoveryJson -> text;
  recovery_from_str : text -> result text VoteRecoveryJson;
  recovery_from_str_typed : forall t j, recovery_from_str t = Ok j -> json_typed j;
  recovery_from_to : forall j, json_typed j -> recovery_from_str (recovery_to_string j) = Ok j;
  (** [serde_json::from_str::<Value>], then whether a batch field is present and not null. *)
  value_batch_markers : text -> result text bool;
  value_batch_markers_of : forall t j, recovery_from_str t = Ok j -> value_batch_markers t = Ok (has_batch_metadata j);
  (** [json_extract(json, '$.delegation_van') IS NOT NULL]. *)
  extracts_delegation_van : text -> bool;
  extracts_delegation_van_of : forall t j, recovery_from_str t = Ok j ->
    extracts_delegation_van t = bool_decide (is_Some (json_delegation_van j))
}.

Definition VOTE_RECOVERY_FORMAT : string := "zcash_voting_vote_recovery_v1".
Definition VOTE_BATCH_RECOVERY_FORMAT : string := "zcash_voting_vote_batch_recovery_v1".
Definition DELEGATE_AND_VOTE_BATCH_RECOVERY_FORMAT : string := "zcash_voting_delegate_cast_recovery_v1".

(** ** Conversions *)

Definition share_to_json (s : EncryptedShare) : EncryptedShareJson :=
  {| json_c1 := share_c1 s; json_c2 := share_c2 s; json_share_index := Generation.share_index s;
     json_plaintext_value := share_plaintext_value s; json_randomness := share_randomness s |}.

Definition share_from_json (s : EncryptedShareJson) : EncryptedShare :=
  {| share_c1 := json_c1 s; share_c2 := json_c2 s; Generation.share_index := json_share_index s;
     share_plaintext_value := json_plaintext_value s; share_randomness := json_randomness s |}.

Definition recovery_format (r : VoteRecoveryBundle) : string :=
  if bool_decide (is_Some (recovery_van r)) then DELEGATE_AND_VOTE_BATCH_RECOVERY_FORMAT
  else if bool_decide (is_Some (rec_batch r)) then VOTE_BATCH_RECOVERY_FORMAT
  else VOTE_RECOVERY_FORMAT.

(** [VoteRecoveryJson::from]. *)
Definition recovery_to_json (r : VoteRecoveryBundle) : VoteRecoveryJson :=
  {| json_format := recovery_format r;
     json_vote_round_id := rec_vote_round_id r;
     json_bundle_index := rec_bundle_index r;
     json_proposal_id := rec_proposal_id r;
     json_vote_decision := rec_vote_decision r;
     json_anchor_height := rec_anchor_height r;
     json_vc_tree_position := rec_vc_tree_position r;
     json_single_share := rec_single_share r;
     json_num_options := rec_num_options r;
     json_van_nullifier := rec_van_nullifier r;
     json_vote_authority_note_new := rec_vote_authority_note_new r;
     json_vote_commitment := rec_vote_commitment r;
     json_proof := rec_proof r;
     json_shares_hash := rec_shares_hash r;
     json_r_vpk := rec_r_vpk r;
     json_alpha_v := rec_alpha_v r;
     json_vote_auth_sig := rec_vote_auth_sig r;
     json_encrypted_shares := map share_to_json (rec_encrypted_shares r);
     json_share_blinds := map bytes32_bytes (rec_share_blinds r);
     json_share_comms := map bytes32_bytes (rec_share_comms r);
     json_batch_digest := (fun b => bytes32_bytes (batch_recovery_digest b)) <$> rec_batch r;
     json_delegation_van := recovery_van r;
     json_batch_index := batch_index <$> rec_batch r;
     json_batch_size := batch_size <$> rec_batch r |}.

Definition array32 (label : text) (value : bytes) : result VotingError bytes32 :=
  ok_or (try_into_bytes32 value) (VeInternal (label ++ chars " must be 32 bytes, got " ++ decimal_nat (length value))).

Definition array64 (label : text) (value : bytes) : result VotingError bytes :=
  if bool_decide (length value = 64) then Ok value
  else Err (VeInternal (label ++ chars " must be 64 bytes, got " ++ decimal_nat (length value))).

Definition array32_vec (label : text) (values : list bytes) : result VotingError (list bytes32) :=
  collect_results (fun indexed : nat * bytes => array32 (label ++ chars "[" ++ decimal_nat indexed.1 ++ chars "]") indexed.2)
    (imap pair values).

Section recovery.
Context `{HX : HexCrate, RC : RoundIdCrates, RS : RecoverySerde}.

(** The batch membership of a document. *)
Definition recovery_batch_of_json (j : VoteRecoveryJson) : result VotingError (option VoteBatchRecovery) :=
  match json_batch_digest j, json_batch_index j, json_batch_size j with
  | None, None, None => Ok None
  | Some digest, Some index, Some size =>
      _ ← fail_if (bool_decide (size = 0)%N || bool_decide (N.of_nat MAX_VOTE_BATCH_ACTIONS < size)%N
                   || bool_decide (size <= index)%N)
            (VeInvalidInput (chars "invalid vote batch recovery position index=" ++ decimal index
               ++ chars ", size=" ++ decimal size));
      digest ← array32 (chars "batch_digest") digest;
      Ok (Some {| batch_delegation_van := json_delegation_van j; batch_recovery_digest := digest;
                  batch_index := index; batch_size := size |})
  | _, _, _ =>
      Err (VeInvalidInput (chars "vote batch recovery metadata must include digest, index, and size together"))
  end.

(** [VoteRecoveryBundle::try_from]. *)
Definition recovery_of_json (j : VoteRecoveryJson) : result VotingError VoteRecoveryBundle :=
  _ ← validate_vote_round_id_hex (json_vote_round_id j);
  _ ← validate_proposal_id (json_proposal_id j);
  _ ← validate_vote_decision (json_vote_decision j) (json_num_options j);
  batch ← recovery_batch_of_json j;
  van_nullifier ← array32 (chars "van_nullifier") (json_van_nullifier j);
  vote_authority_note_new ← array32 (chars "vote_authority_note_new") (json_vote_authority_note_new j);
  vote_commitment ← array32 (chars "vote_commitment") (json_vote_commitment j);
  shares_hash ← array32 (chars "shares_hash") (json_shares_hash j);
  r_vpk ← array32 (chars "r_vpk") (json_r_vpk j);
  alpha_v ← array32 (chars "alpha_v") (json_alpha_v j);
  vote_auth_sig ← array64 (chars "vote_auth_sig") (json_vote_auth_sig j);
  share_blinds ← array32_vec (chars "share_blinds") (json_share_blinds j);
  share_comms ← array32_vec (chars "share_comms") (json_share_comms j);
  Ok {| rec_vote_round_id := json_vote_round_id j; rec_bundle_index := json_bundle_index j;
        rec_proposal_id := json_proposal_id j; rec_vote_decision := json_vote_decision j;
        rec_anchor_height := json_anchor_height j; rec_vc_tree_position := json_vc_tree_position j;
        rec_single_share := json_single_share j; rec_num_options := json_num_options j;
        rec_van_nullifier := van_nullifier; rec_vote_authority_note_new := vote_authority_note_new;
        rec_vote_commitment := vote_commitment; rec_proof := json_proof j; rec_shares_hash := shares_hash;
        rec_r_vpk := r_vpk; rec_alpha_v := alpha_v; rec_vote_auth_sig := vote_auth_sig;
        rec_encrypted_shares := map share_from_json (json_encrypted_shares j);
        rec_share_blinds := share_blinds; rec_share_comms := share_comms; rec_batch := batch |}.

Definition serialize_recovery (r : VoteRecoveryBundle) : result VotingError text :=
  _ ← validate_recovery_bundle_vote_fields r;
  Ok (recovery_to_string (recovery_to_json r)).

(** The format a document declares agrees with its contents. *)
Definition check_recovery_format (j : VoteRecoveryJson) : result VotingError unit :=
  let no_van := bool_decide (json_delegation_van j = None) in
  let known := String.eqb (json_format j) VOTE_RECOVERY_FORMAT || String.eqb (json_format j) VOTE_BATCH_RECOVERY_FORMAT in
  if String.eqb (json_format j) VOTE_RECOVERY_FORMAT && negb (has_batch_metadata j) && no_van then Ok tt
  else if String.eqb (json_format j) VOTE_BATCH_RECOVERY_FORMAT && has_batch_metadata j && no_van then Ok tt
  else if String.eqb (json_format j) DELEGATE_AND_VOTE_BATCH_RECOVERY_FORMAT && has_batch_metadata j && negb no_van
          && bool_decide (json_anchor_height j = 0)%N then Ok tt
  else if known
       then Err (VeInvalidInput (chars "vote recovery format " ++ chars (json_format j)
                   ++ chars " does not match its record contents"))
       else Err (VeInvalidInput (chars "unsupported vote recovery format: " ++ chars (json_format j))).

Definition parse_recovery (json : text) : result VotingError VoteRecoveryBundle :=
  j ← map_err (fun e => VeInvalidInput (chars "invalid vote recovery JSON: " ++ e)) (recovery_from_str json);
  _ ← check_recovery_format j;
  recovery_of_json j.

(** ** Storable bundles *)

Definition share_typed (s : EncryptedShare) : Prop :=
  (Generation.share_index s <= u32_max)%N /\ (share_plaintext_value s <= u64_max)%N.

(** A bundle the code can read back: legal vote fields, values of their types, a batch
    position within the batch, and no anchor for a batch that carries its delegation. *)
Record storable (r : VoteRecoveryBundle) : Prop := {
  storable_fields : validate_recovery_bundle_vote_fields r = Ok tt;
  storable_bundle_index : (rec_bundle_index r <= u32_max)%N;
  storable_anchor_height : (rec_anchor_height r <= u32_max)%N;
  storable_position : (rec_vc_tree_position r <= u64_max)%N;
  storable_signature : length (rec_vote_auth_sig r) = 64;
  storable_shares : Forall share_typed (rec_encrypted_shares r);
  storable_batch : forall b, rec_batch r = Some b ->
    (0 < batch_size b <= N.of_nat MAX_VOTE_BATCH_ACTIONS)%N /\ (batch_index b < batch_size b)%N
    /\ (is_Some (batch_delegation_van b) -> rec_anchor_height r = 0%N)
}.

Lemma array32_of_bytes label (a : bytes32) : array32 label a = Ok a.
Proof. unfold array32. by rewrite (proj2 (try_into_bytes32_Some a a) eq_refl). Qed.

Lemma array32_Ok label value a : array32 label value = Ok a -> value = a.
Proof. unfold array32. intros H%ok_or_Ok. by apply try_into_bytes32_Some in H as ->. Qed.

Lemma array32_vec_of_bytes label (l : list bytes32) : array32_vec label (map bytes32_bytes l) = Ok l.
Proof.
  unfold array32_vec. apply collect_results_Ok, Forall2_same_length_lookup. rewrite length_imap, length_map. split; [done|].
  intros i [j v] a. rewrite list_lookup_imap, list_lookup_fmap. intros Hx Ha. rewrite Ha in Hx. injection Hx as <- <-.
  apply array32_of_bytes.
Qed.

Lemma array32_vec_Ok label values l : array32_vec label values = Ok l -> values = map bytes32_bytes l.
Proof.
  unfold array32_vec. intros H%collect_results_Ok. apply list_eq. intros i. rewrite list_lookup_fmap.
  pose proof (Forall2_length _ _ _ H) as Hlen. rewrite length_imap in Hlen.
  destruct (values !! i) as [v|] eqn:Hv.
  - assert (imap pair values !! i = Some (i, v)) as Hi by (by rewrite list_lookup_imap, Hv).
    destruct (Forall2_lookup_l _ _ _ _ _ H Hi) as (a & Ha & Hv'%array32_Ok). cbn in Hv'. by rewrite Ha, Hv'.
  - apply lookup_ge_None in Hv. by rewrite (proj2 (lookup_ge_None l i)) by lia.
Qed.

Lemma share_json_round_trip l : map share_from_json (map share_to_json l) = l.
Proof. rewrite map_map. rewrite <- (map_id l) at 2. apply map_ext. by intros []. Qed.

Lemma share_json_round_trip' l : map share_to_json (map share_from_json l) = l.
Proof. rewrite map_map. rewrite <- (map_id l) at 2. apply map_ext. by intros []. Qed.

Lemma validated_ranges r :
  validate_recovery_bundle_vote_fields r = Ok tt ->
  (rec_proposal_id r <= u32_max)%N /\ (rec_vote_decision r <= u32_max)%N /\ (rec_num_options r <= u32_max)%N.
Proof.
  unfold validate_recovery_bundle_vote_fields, validate_proposal_id, validate_vote_decision, validate_vote_options.
  intros H. inv_ok. unfold MIN_PROPOSAL_ID, MAX_PROPOSAL_ID, u32_max in *. lia.
Qed.

Lemma recovery_to_json_typed r : storable r -> json_typed (recovery_to_json r).
Proof.
  intros [Hf Hb Ha Hp _ Hs Hbatch]. destruct (validated_ranges r Hf) as (? & ? & ?). split; cbn; try done.
  - apply Forall_fmap. by eapply Forall_impl.
  - destruct (rec_batch r) as [b|]; [|done]. destruct (Hbatch b eq_refl) as (? & ? & _). cbn. unfold u32_max. lia.
  - destruct (rec_batch r) as [b|]; [|done]. destruct (Hbatch b eq_refl) as (? & ? & _). cbn. unfold u32_max. lia.
Qed.

Lemma has_batch_metadata_of r : has_batch_metadata (recovery_to_json r) = bool_decide (is_Some (rec_batch r)).
Proof. unfold has_batch_metadata. cbn. by destruct (rec_batch r). Qed.

Lemma check_format_storable r : storable r -> check_recovery_format (recovery_to_json r) = Ok tt.
Proof.
  intros Hr. unfold check_recovery_format. rewrite has_batch_metadata_of. cbn. unfold recovery_format, recovery_van.
  destruct (rec_batch r) as [b|] eqn:Hb; cbn; [|done]. destruct (storable_batch _ Hr b Hb) as (_ & _ & Hanchor).
  destruct (batch_delegation_van b); cbn; [|done]. by rewrite Hanchor.
Qed.

Lemma recovery_of_to_json r : storable r -> recovery_of_json (recovery_to_json r) = Ok r.
Proof.
  intros Hr. pose proof (storable_fields _ Hr) as Hf. unfold validate_recovery_bundle_vote_fields in Hf.
  apply result_bind_Ok in Hf as ([] & H1 & Hf). apply result_bind_Ok in Hf as ([] & H2 & H3).
  unfold recovery_of_json. cbn [json_vote_round_id json_proposal_id json_vote_decision json_num_options recovery_to_json].
  rewrite H1, H2, H3. cbn [mbind result_bind].
  assert (recovery_batch_of_json (recovery_to_json r) = Ok (rec_batch r)) as Hbatch.
  { unfold recovery_batch_of_json. cbn. unfold recovery_van. destruct (rec_batch r) as [b|] eqn:Hb; cbn; [|done].
    destruct (storable_batch _ Hr b Hb) as (? & ? & _). rewrite !bool_decide_false by lia. cbn.
    rewrite array32_of_bytes. cbn. by destruct b. }
  cbn [recovery_to_json] in Hbatch |- *. rewrite Hbatch. cbn -[array32 array32_vec array64].
  rewrite !array32_of_bytes. cbn -[array32_vec array64]. unfold array64.
  rewrite bool_decide_true by apply Hr. cbn -[array32_vec]. rewrite !array32_vec_of_bytes. cbn. rewrite share_json_round_trip. by destruct r.
Qed.

Lemma recovery_batch_of_json_Ok j batch :
  recovery_batch_of_json j = Ok batch ->
  json_batch_digest j = (fun b => bytes32_bytes (batch_recovery_digest b)) <$> batch
  /\ json_batch_index j = batch_index <$> batch /\ json_batch_size j = batch_size <$> batch
  /\ forall b, batch = Some b -> batch_delegation_van b = json_delegation_van j
       /\ (0 < batch_size b <= N.of_nat MAX_VOTE_BATCH_ACTIONS)%N /\ (batch_index b < batch_size b)%N.
Proof.
  unfold recovery_batch_of_json. intros H. destruct (json_batch_digest j) as [digest|], (json_batch_index j) as [index|],
    (json_batch_size j) as [size|]; try done.
  - apply result_bind_Ok in H as ([] & Hc%fail_if_Ok & H). apply result_bind_Ok in H as (d & Hd%array32_Ok & [= <-]). cbn.
    subst digest. rewrite !orb_false_iff, !bool_decide_eq_false in Hc. split_and!; try done. intros b [= <-]. cbn.
    split; [done|]. lia.
  - injection H as <-. done.
Qed.

Lemma check_recovery_format_Ok j :
  check_recovery_format j = Ok tt ->
  (json_format j = VOTE_RECOVERY_FORMAT /\ has_batch_metadata j = false /\ json_delegation_van j = None)
  \/ (json_format j = VOTE_BATCH_RECOVERY_FORMAT /\ has_batch_metadata j = true /\ json_delegation_van j = None)
  \/ (json_format j = DELEGATE_AND_VOTE_BATCH_RECOVERY_FORMAT /\ has_batch_metadata j = true
     /\ is_Some (json_delegation_van j) /\ json_anchor_height j = 0%N).
Proof.
  unfold check_recovery_format. intros H.
  destruct (_ && negb (has_batch_metadata j) && _) eqn:E1 in H; [clear H; inv_ok; left; split_and!; [by apply String.eqb_eq|done..]|].
  destruct (_ && has_batch_metadata j && bool_decide _) eqn:E2 in H; [clear H E1; inv_ok; right; left; split_and!; [by apply String.eqb_eq|done..]|].
  destruct (_ && has_batch_metadata j && negb _ && _) eqn:E3 in H; [|by destruct (_ || _)].
  clear H E1 E2. inv_ok. right; right. split_and!; [by apply String.eqb_eq|done| |done]. by destruct (json_delegation_van j).
Qed.

(** A parsed document is the stored form of the bundle it yields. *)
Lemma recovery_of_json_Ok j r :
  json_typed j -> check_recovery_format j = Ok tt -> recovery_of_json j = Ok r -> j = recovery_to_json r /\ storable r.
Proof.
  intros Ht Hformat H. unfold recovery_of_json in H.
  apply result_bind_Ok in H as ([] & H1 & H). apply result_bind_Ok in H as ([] & H2 & H). apply result_bind_Ok in H as ([] & H3 & H).
  apply result_bind_Ok in H as (batch & Hbatch & H). apply recovery_batch_of_json_Ok in Hbatch as (Hdigest & Hindex & Hsize & Hbatch).
  do 6 (apply result_bind_Ok in H as (? & ?%array32_Ok & H)). apply result_bind_Ok in H as (sig & Hsig & H).
  unfold array64 in Hsig. case_bool_decide as Hlen; [|done]. injection Hsig as <-.
  do 2 (apply result_bind_Ok in H as (? & ?%array32_vec_Ok & H)). injection H as <-.
  apply check_recovery_format_Ok in Hformat. unfold has_batch_metadata in Hformat. rewrite Hdigest, Hindex, Hsize in Hformat.
  assert (json_delegation_van j = b ← batch; batch_delegation_van b) as Hvan.
  { destruct batch as [b|]; cbn in *; [by destruct (Hbatch b eq_refl) as [-> _]|].
    by destruct Hformat as [(_ & _ & ?)|[(_ & _ & ?)|(_ & ? & _)]]. }
  split.
  - unfold recovery_to_json. cbn. rewrite share_json_round_trip'. unfold recovery_format, recovery_van. cbn. rewrite <- Hvan.
    assert (json_format j = if bool_decide (is_Some (json_delegation_van j)) then DELEGATE_AND_VOTE_BATCH_RECOVERY_FORMAT
      else if bool_decide (is_Some batch) then VOTE_BATCH_RECOVERY_FORMAT else VOTE_RECOVERY_FORMAT) as <-.
    { destruct Hformat as [(-> & ? & ->)|[(-> & ? & ->)|(-> & ? & [? ->] & ?)]]; destruct batch; done. }
    clear Hformat Hbatch Hvan H1 H2 H3 Ht. destruct j; cbn in *. by subst.
  - split; cbn; try done; try apply Ht.
    + unfold validate_recovery_bundle_vote_fields. cbn. by rewrite H1, H2.
    + apply Forall_fmap. by eapply Forall_impl; [apply Ht|].
    + intros b ->. destruct (Hbatch b eq_refl) as (-> & ? & ?). split; [done|]. split; [done|]. intros [? Hv].
      by destruct Hformat as [(_ & _ & Hn)|[(_ & _ & Hn)|(_ & _ & _ & ?)]]; [congruence..|].
Qed.

Lemma parse_recovery_Ok t r :
  parse_recovery t = Ok r -> recovery_from_str t = Ok (recovery_to_json r) /\ storable r.
Proof.
  unfold parse_recovery. intros H. apply result_bind_Ok in H as (j & Hj%map_err_Ok & H).
  apply result_bind_Ok in H as ([] & Hf & H). apply recovery_from_str_typed in Hj as Ht.
  destruct (recovery_of_json_Ok j r Ht Hf H) as [-> ?]. done.
Qed.

Lemma serialize_recovery_parses r :
  storable r -> exists t, serialize_recovery r = Ok t /\ parse_recovery t = Ok r.
Proof.
  intros Hr. exists (recovery_to_string (recovery_to_json r)). unfold serialize_recovery, parse_recovery.
  rewrite (storable_fields _ Hr), recovery_from_to by by apply recovery_to_json_typed. cbn.
  rewrite check_format_storable by done. split; [done|]. by apply recovery_of_to_json.
Qed.

(** C16. Signed votes survive storage: a bundle can be read back exactly when it is storable,
    and then serializing it yields a document that parses to the same bundle; a document
    that parses is the stored form of its bundle in every field, its declared format
    included, so no two documents with different contents are read as one vote. *)
Theorem recovery_storage_faithful (r : VoteRecoveryBundle) :
  (storable r <-> exists t, serialize_recovery r = Ok t /\ parse_recovery t = Ok r)
  /\ (forall t, parse_recovery t = Ok r -> recovery_from_str t = Ok (recovery_to_json r) /\ storable r).
Proof.
  split; [split|].
  - apply serialize_recovery_parses.
  - intros (t & _ & H). by apply parse_recovery_Ok in H as [_ ?].
  - intros t. apply parse_recovery_Ok.
Qed.
End recovery.

(** ** Documents by number *)

#[export] Instance EncryptedShareJson_eq_dec : EqDecision EncryptedShareJson.
Proof. solve_decision. Defined.
#[export] Instance EncryptedShareJson_countable : Countable EncryptedShareJson.
Proof.
  apply (inj_countable' (fun s => (json_c1 s, json_c2 s, json_share_index s, json_plaintext_value s, json_randomness s))
    (fun t => let '(a, b, c, d, e) := t in Build_EncryptedShareJson a b c d e)). by intros [].
Defined.

#[export] Instance bytes32_countable : Countable bytes32.
Proof.
  apply (inj_countable bytes32_bytes try_into_bytes32). intros a. by apply try_into_bytes32_Some.
Defined.

#[export] Instance VoteRecoveryJson_eq_dec : EqDecision VoteRecoveryJson.
Proof. solve_decision. Defined.
#[export] Instance VoteRecoveryJson_countable : Countable VoteRecoveryJson.
Proof.
  apply (inj_countable'
    (fun j => ((json_format j, json_vote_round_id j, json_bundle_index j, json_proposal_id j, json_vote_decision j, json_anchor_height j),
               (json_vc_tree_position j, json_single_share j, json_num_options j, json_van_nullifier j, json_vote_authority_note_new j,
                json_vote_commitment j), (json_proof j, json_shares_hash j, json_r_vpk j, json_alpha_v j, json_vote_auth_sig j),
               (json_encrypted_shares j, json_share_blinds j, json_share_comms j),
               (json_batch_digest j, json_delegation_van j, json_batch_index j, json_batch_size j)))
    (fun t => let '((a1, a2, a3, a4, a5, a6), (b1, b2, b3, b4, b5, b6), (c1, c2, c3, c4, c5), (d1, d2, d3), (e1, e2, e3, e4)) := t in
              Build_VoteRecoveryJson a1 a2 a3 a4 a5 a6 b1 b2 b3 b4 b5 b6 c1 c2 c3 c4 c5 d1 d2 d3 e1 e2 e3 e4)). by intros [].
Defined.

#[export] Instance share_json_typed_dec s : base.Decision (share_json_typed s).
Proof. unfold share_json_typed. apply _. Defined.
#[export] Instance option_u32_dec o : base.Decision (option_u32 o).
Proof. destruct o; cbn; apply _. Defined.

Definition json_typed_bool (j : VoteRecoveryJson) : bool :=
  bool_decide ((json_bundle_index j <= u32_max)%N /\ (json_proposal_id j <= u32_max)%N /\ (json_vote_decision j <= u32_max)%N
    /\ (json_anchor_height j <= u32_max)%N /\ (json_vc_tree_position j <= u64_max)%N /\ (json_num_options j <= u32_max)%N
    /\ Forall share_json_typed (json_encrypted_shares j) /\ option_u32 (json_batch_index j) /\ option_u32 (json_batch_size j)).

Lemma json_typed_bool_iff j : json_typed_bool j = true <-> json_typed j.
Proof. unfold json_typed_bool. rewrite bool_decide_eq_true. split; [by intros (? & ? & ? & ? & ? & ? & ? & ? & ?)|by intros []]. Qed.

(** A vote with one encrypted share. *)
Definition sample_shared : VoteRecoveryBundle :=
  {| rec_vote_round_id := rec_vote_round_id (sample_recovery 1 None); rec_bundle_index := 3; rec_proposal_id := 2; rec_vote_decision := 1;
     rec_anchor_height := 123; rec_vc_tree_position := 8; rec_single_share := true; rec_num_options := 3;
     rec_van_nullifier := bytes32_fill Byte.x10; rec_vote_authority_note_new := bytes32_fill Byte.x11;
     rec_vote_commitment := bytes32_fill Byte.x12; rec_proof := [Byte.x13]; rec_shares_hash := bytes32_fill Byte.x14;
     rec_r_vpk := bytes32_fill Byte.x15; rec_alpha_v := bytes32_fill Byte.x16; rec_vote_auth_sig := replicate 64 Byte.x17;
     rec_encrypted_shares := [{| share_c1 := replicate 32 Byte.x18; share_c2 := replicate 32 Byte.x19; Generation.share_index := 0;
                                 share_plaintext_value := 1; share_randomness := replicate 32 Byte.x1a |}];
     rec_share_blinds := [bytes32_fill Byte.x1b]; rec_share_comms := replicate 16 (bytes32_fill Byte.x1c); rec_batch := None |}.

(** A few documents have short names; any document is written as its number. *)
Definition sample_documents (n : N) : option VoteRecoveryJson :=
  recovery_to_json <$>
  match n with
  | 1%N => Some (sample_recovery 1 None)
  | 2%N => Some sample_shared
  | 5%N => Some (sample_recovery 5 (Some (sample_membership 1)))
  | 9%N => Some (sample_recovery 9 (Some (sample_membership 0)))
  | _ => None
  end.

Definition sample_from_str (t : text) : result text VoteRecoveryJson :=
  j ← ok_or (match t with [0%N; n] => sample_documents n | [1%N; Npos c] => decode c | _ => None end) (chars "expected value");
  if json_typed_bool j then Ok j else Err (chars "invalid value").

Lemma sample_from_str_typed t j : sample_from_str t = Ok j -> json_typed j.
Proof.
  unfold sample_from_str. intros H. apply result_bind_Ok in H as (j' & _ & H). destruct (json_typed_bool j') eqn:E; [|done].
  injection H as <-. by apply json_typed_bool_iff.
Qed.

Lemma sample_from_str_number j : json_typed j -> sample_from_str [1%N; Npos (encode j)] = Ok j.
Proof. intros Hj. unfold sample_from_str. rewrite decode_encode. cbn. by rewrite (proj2 (json_typed_bool_iff j) Hj). Qed.

Definition sample_markers (t : text) : result text bool := j ← sample_from_str t; Ok (has_batch_metadata j).
Definition sample_extracts (t : text) : bool :=
  match sample_from_str t with Ok j => bool_decide (is_Some (json_delegation_van j)) | Err _ => false end.

Lemma sample_markers_of t j : sample_from_str t = Ok j -> sample_markers t = Ok (has_batch_metadata j).
Proof. intros H. unfold sample_markers. by rewrite H. Qed.
Lemma sample_extracts_of t j : sample_from_str t = Ok j -> sample_extracts t = bool_decide (is_Some (json_delegation_van j)).
Proof. intros H. unfold sample_extracts. by rewrite H. Qed.

#[local] Instance sample_recovery_serde : RecoverySerde := {|
  recovery_to_string := fun j => [1%N; Npos (encode j)];
  recovery_from_str := sample_from_str;
  recovery_from_str_typed := sample_from_str_typed;
  recovery_from_to := sample_from_str_number;
  value_batch_markers := sample_markers;
  value_batch_markers_of := sample_markers_of;
  extracts_delegation_van := sample_extracts;
  extracts_delegation_van_of := sample_extracts_of
|}.

#[local] Existing Instances sample_hex.
#[local] Instance any_round_id : RoundIdCrates := {| pallas_canonical := fun _ => true; hex_error_text := fun _ => [] |}.

(** The interface can be implemented, and stores a member of a batch. *)
Lemma recovery_storage_faithful_witness :
  let r := sample_recovery 9 (Some (sample_membership 0)) in
  storable r /\ exists t, serialize_recovery r = Ok t /\ parse_recovery t = Ok r.
Proof.
  pose proof (recovery_storage_faithful (sample_recovery 9 (Some (sample_membership 0)))) as [Hiff Hparse].
  assert (storable (sample_recovery 9 (Some (sample_membership 0)))) as Hs.
  { apply (Hparse [0%N; 9%N]). vm_compute. reflexivity. }
  split; [exact Hs|]. apply Hiff. exact Hs.
Defined.
