(* ===== verification/WalletTables.v ===== *)
(** * The wallet tables

    The tables of [storage/migrations/001_init.sql] that the submission lifecycle and round
    planning read and write beside [chain_submissions]: rounds, bundles, proofs, votes,
    share records, ballot intents, the immediate-share designation and combined
    authorizations.  With them the queries of [storage/queries/mod.rs], [vote.rs],
    [chain_submission/generation.rs], [delegate_and_vote_batch/preparation.rs] and
    [chain_submission/store/sqlite.rs], and the confirmation writes of [confirmation.rs] and
    [vote.rs].  They implement the interfaces [GenerationTables], [ConfirmationTables],
    [StoreTables] and [ProjectionColumns] of the lifecycle.

    Columns hold values of their declared types.  A query without ORDER BY reads the rows in
    key order, as the unique index does.  Failing statements are left out. *)

From S2P Require Import Prelude Sorting Types Diagnostics SubmissionState Identity Generation Confirmation StoreRow Store.
From S2P Require Import LifecyclePlanning ShareTiming SharePlacement Ballot RoundPlanning ShareDelivery VoteRecovery.

(** ** Rows *)

Abbreviation RoundKey := (string * string)%type (only parsing).
Abbreviation BundleKey := (string * string * Z)%type (only parsing).
Abbreviation VoteKey := (string * string * Z * Z)%type (only parsing).
Abbreviation ShareKey := (string * string * Z * Z * Z)%type (only parsing).

Record BundleColumns : Type := {
  col_note_positions_blob : option bytes;
  col_note_identity_hashes_blob : option bytes;
  col_van_comm_rand : option bytes;
  col_dummy_nullifiers : option bytes;
  col_rho_signed : option bytes;
  col_padded_note_data : option bytes;
  col_nf_signed : option bytes;
  col_cmx_new : option bytes;
  col_alpha : option bytes;
  col_rseed_signed : option bytes;
  col_rseed_output : option bytes;
  col_gov_comm : option bytes;
  col_total_note_value : option Z;
  col_address_index : option Z;
  col_van_leaf_position : option Z;
  col_rk : option bytes;
  col_gov_nullifiers_blob : option bytes;
  col_padded_note_secrets : option bytes;
  col_pczt_sighash : option bytes;
  col_tx1_effects : option bytes;
  col_delegation_tx_hash : option string;
  col_delegation_pczt : option bytes
}.

Record ProofColumns : Type := { col_witness : option bytes; col_proof : option bytes; col_success : Z }.

Record VoteColumns : Type := {
  col_choice : Z;
  col_commitment : option bytes;
  col_tx_hash : option string;
  col_vc_tree_position : option Z;
  col_commitment_bundle_json : option text
}.

Record ShareColumns : Type := {
  col_sent_to_urls : text;
  col_nullifier : bytes;
  col_confirmed : Z;
  col_submit_at : N;
  col_share_created_at : N;
  col_ambiguous_urls : text;
  col_attempting_urls : text;
  col_target_count : N
}.

Record IntentColumns : Type := { col_skipped : Z; col_intent_choice : option Z }.

Record AuthorizationColumns : Type := { col_delegation_generation_digest : bytes; col_spend_auth_signature : bytes }.

(** Tables by their keys: round and wallet first.  A round's row is its network. *)
Record WalletTables : Type := {
  rounds_table : gmap RoundKey string;
  bundles_table : gmap BundleKey BundleColumns;
  proofs_table : gmap BundleKey ProofColumns;
  votes_table : gmap VoteKey VoteColumns;
  shares_table : gmap ShareKey ShareColumns;
  intents_table : gmap BundleKey IntentColumns;
  immediate_table : gmap RoundKey (Z * Z * Z);
  authorizations_table : gmap (string * string * Z * bytes) AuthorizationColumns
}.

(** Parts of a table rewritten by a statement. *)
Definition with_bundles (w : WalletTables) (t : gmap BundleKey BundleColumns) : WalletTables :=
  {| rounds_table := rounds_table w; bundles_table := t; proofs_table := proofs_table w; votes_table := votes_table w;
     shares_table := shares_table w; intents_table := intents_table w; immediate_table := immediate_table w;
     authorizations_table := authorizations_table w |}.

Definition with_votes (w : WalletTables) (t : gmap VoteKey VoteColumns) : WalletTables :=
  {| rounds_table := rounds_table w; bundles_table := bundles_table w; proofs_table := proofs_table w; votes_table := t;
     shares_table := shares_table w; intents_table := intents_table w; immediate_table := immediate_table w;
     authorizations_table := authorizations_table w |}.

Definition with_shares (w : WalletTables) (t : gmap ShareKey ShareColumns) : WalletTables :=
  {| rounds_table := rounds_table w; bundles_table := bundles_table w; proofs_table := proofs_table w;
     votes_table := votes_table w; shares_table := t; intents_table := intents_table w;
     immediate_table := immediate_table w; authorizations_table := authorizations_table w |}.

Definition with_immediate (w : WalletTables) (t : gmap RoundKey (Z * Z * Z)) : WalletTables :=
  {| rounds_table := rounds_table w; bundles_table := bundles_table w; proofs_table := proofs_table w;
     votes_table := votes_table w; shares_table := shares_table w; intents_table := intents_table w;
     immediate_table := t; authorizations_table := authorizations_table w |}.

Definition with_authorizations (w : WalletTables) (t : gmap (string * string * Z * bytes) AuthorizationColumns) : WalletTables :=
  {| rounds_table := rounds_table w; bundles_table := bundles_table w; proofs_table := proofs_table w;
     votes_table := votes_table w; shares_table := shares_table w; intents_table := intents_table w;
     immediate_table := immediate_table w; authorizations_table := t |}.

Definition set_van_leaf_position (b : BundleColumns) (position : Z) : BundleColumns :=
  {| col_note_positions_blob := col_note_positions_blob b; col_note_identity_hashes_blob := col_note_identity_hashes_blob b;
     col_van_comm_rand := col_van_comm_rand b; col_dummy_nullifiers := col_dummy_nullifiers b; col_rho_signed := col_rho_signed b;
     col_padded_note_data := col_padded_note_data b; col_nf_signed := col_nf_signed b; col_cmx_new := col_cmx_new b;
     col_alpha := col_alpha b; col_rseed_signed := col_rseed_signed b; col_rseed_output := col_rseed_output b;
     col_gov_comm := col_gov_comm b; col_total_note_value := col_total_note_value b; col_address_index := col_address_index b;
     col_van_leaf_position := Some position; col_rk := col_rk b; col_gov_nullifiers_blob := col_gov_nullifiers_blob b;
     col_padded_note_secrets := col_padded_note_secrets b; col_pczt_sighash := col_pczt_sighash b;
     col_tx1_effects := col_tx1_effects b; col_delegation_tx_hash := col_delegation_tx_hash b;
     col_delegation_pczt := col_delegation_pczt b |}.

Definition set_delegation_tx_hash (b : BundleColumns) (tx_hash : string) : BundleColumns :=
  {| col_note_positions_blob := col_note_positions_blob b; col_note_identity_hashes_blob := col_note_identity_hashes_blob b;
     col_van_comm_rand := col_van_comm_rand b; col_dummy_nullifiers := col_dummy_nullifiers b; col_rho_signed := col_rho_signed b;
     col_padded_note_data := col_padded_note_data b; col_nf_signed := col_nf_signed b; col_cmx_new := col_cmx_new b;
     col_alpha := col_alpha b; col_rseed_signed := col_rseed_signed b; col_rseed_output := col_rseed_output b;
     col_gov_comm := col_gov_comm b; col_total_note_value := col_total_note_value b; col_address_index := col_address_index b;
     col_van_leaf_position := col_van_leaf_position b; col_rk := col_rk b; col_gov_nullifiers_blob := col_gov_nullifiers_blob b;
     col_padded_note_secrets := col_padded_note_secrets b; col_pczt_sighash := col_pczt_sighash b;
     col_tx1_effects := col_tx1_effects b; col_delegation_tx_hash := Some tx_hash;
     col_delegation_pczt := col_delegation_pczt b |}.

(** ** Outside code *)

(** The wire types and the routines of [wire.rs], [delegate.rs] and the cryptographic crates
    that derivation calls, and texts of [rusqlite] and [serde_json]. *)
Class WalletCrates : Type := {
  crate_DelegationWire : Type;
  crate_VoteWire : Type;
  crate_gov_nullifier_count : crate_DelegationWire -> nat;
  crate_van_nullifier : crate_VoteWire -> string;
  crate_delegate_and_vote_batch_sighash : string -> bytes32 -> list CastVoteBatchSighashAction -> result VotingError bytes32;
  crate_cast_vote_batch_sighash : string -> N -> list CastVoteBatchSighashAction -> result VotingError bytes32;
  crate_delegation_submission : WalletTables -> string -> string -> N -> bytes -> result VotingError crate_DelegationWire;
  crate_wire_submission_from_recovery : VoteRecoveryBundle -> result VotingError crate_VoteWire;
  crate_authorization_digest : crate_DelegationWire -> list crate_VoteWire -> result VotingError bytes32;
  (** [serde_json::to_vec] of an object with the four hex fields of a stored commitment. *)
  commitment_json : string -> string -> string -> string -> bytes;
  (** The error of reading a NULL in a column, by its index. *)
  null_column_text : nat -> text;
  (** The error of reading an integer outside the requested type. *)
  out_of_range_text : nat -> Z -> text
}.

Section tables.
Context `{HX : HexCrate, SH : Sha256Crate, RC : RoundIdCrates, RQ : RusqliteCrate, RS : RecoverySerde, PJ : PlanJson, WC : WalletCrates}.

(** ** Queries *)

Definition network_from_storage (value : string) : result VotingError Network :=
  if String.eqb value "mainnet" then Ok Mainnet
  else if String.eqb value "testnet" then Ok Testnet
  else if String.eqb value "regtest" then Ok Regtest
  else Err (VeInternal (chars "stored round network is invalid: " ++ chars value)).

Definition wallet_round_network (w : WalletTables) (round_id wallet : string) : result VotingError Network :=
  network ← ok_or (rounds_table w !! (round_id, wallet)) (VeInvalidInput (chars "round not found: " ++ chars round_id));
  network_from_storage network.

Definition bundle_at (w : WalletTables) (round_id wallet : string) (b : N) : option BundleColumns :=
  bundles_table w !! (round_id, wallet, Z.of_N b).
Definition vote_at (w : WalletTables) (round_id wallet : string) (b p : N) : option VoteColumns :=
  votes_table w !! (round_id, wallet, Z.of_N b, Z.of_N p).

(** A non-null column of the delegation inputs. *)
Definition input_column {A} (index : nat) (column : option A) : result VotingError A :=
  ok_or column (VeInternal (chars "malformed stored delegation generation inputs: " ++ null_column_text index)).

Definition raw_delegation_row (b : BundleColumns) (p : ProofColumns) : result VotingError RawDelegationRow :=
  c0 ← input_column 0 (col_note_positions_blob b);
  c1 ← input_column 1 (col_note_identity_hashes_blob b);
  c2 ← input_column 2 (col_van_comm_rand b);
  c3 ← input_column 3 (col_dummy_nullifiers b);
  c4 ← input_column 4 (col_rho_signed b);
  c5 ← input_column 5 (col_padded_note_data b);
  c6 ← input_column 6 (col_nf_signed b);
  c7 ← input_column 7 (col_cmx_new b);
  c8 ← input_column 8 (col_alpha b);
  c9 ← input_column 9 (col_rseed_signed b);
  c10 ← input_column 10 (col_rseed_output b);
  c11 ← input_column 11 (col_gov_comm b);
  c12 ← input_column 12 (col_total_note_value b);
  c13 ← input_column 13 (col_address_index b);
  c14 ← input_column 14 (col_rk b);
  c15 ← input_column 15 (col_gov_nullifiers_blob b);
  c16 ← input_column 16 (col_padded_note_secrets b);
  c17 ← input_column 17 (col_pczt_sighash b);
  c18 ← input_column 18 (col_tx1_effects b);
  c19 ← input_column 19 (col_proof p);
  Ok {| raw_note_positions := c0; raw_note_identity_hashes := c1; raw_van_comm_rand := c2; raw_dummy_nullifiers := c3;
        raw_rho_signed := c4; raw_padded_note_data := c5; raw_nf_signed := c6; raw_cmx_new := c7; raw_alpha := c8;
        raw_rseed_signed := c9; raw_rseed_output := c10; raw_gov_comm := c11; raw_total_note_value := c12;
        raw_address_index := c13; raw_rk := c14; raw_gov_nullifiers := c15; raw_padded_note_secrets := c16;
        raw_pczt_sighash := c17; raw_tx1_effects := c18; raw_proof := c19 |}.

(** The bundle joined with its successful proof. *)
Definition wallet_delegation_row (w : WalletTables) (round_id wallet : string) (b : N) :
  result VotingError (option RawDelegationRow) :=
  match bundle_at w round_id wallet b, proofs_table w !! (round_id, wallet, Z.of_N b) with
  | Some bundle, Some proof =>
      if bool_decide (col_success proof = 1)%Z then row ← raw_delegation_row bundle proof; Ok (Some row) else Ok None
  | _, _ => Ok None
  end.

Definition is_none {A} (o : option A) : bool := match o with None => true | Some _ => false end.
Definition is_some {A} (o : option A) : bool := negb (is_none o).

(** A bundle that came with an imported capability: no local setup, and no proof. *)
Definition imported_capability (b : BundleColumns) (proof : option ProofColumns) : bool :=
  is_none (col_note_positions_blob b) && is_none (col_note_identity_hashes_blob b) && is_none (col_dummy_nullifiers b)
  && is_none (col_rho_signed b) && is_none (col_padded_note_data b) && is_none (col_nf_signed b) && is_none (col_cmx_new b)
  && is_none (col_alpha b) && is_none (col_rseed_signed b) && is_none (col_rseed_output b) && is_none (col_rk b)
  && is_none (col_gov_nullifiers_blob b) && is_none (col_padded_note_secrets b) && is_none (col_pczt_sighash b)
  && is_none (col_tx1_effects b) && is_some (col_van_comm_rand b) && is_some (col_total_note_value b)
  && bool_decide (col_address_index b = Some 0%Z) && is_none proof.

Definition wallet_imported_row (w : WalletTables) (round_id wallet : string) (b : N) :
  result VotingError (option (option bytes * option string * bool)) :=
  Ok ((fun bundle => (col_gov_comm bundle, col_delegation_tx_hash bundle,
                      imported_capability bundle (proofs_table w !! (round_id, wallet, Z.of_N b))))
      <$> bundle_at w round_id wallet b).

(** [CandidateTransactionHash::from_str]. *)
Definition candidate_from_str (value : string) : result text CandidateTransactionHash :=
  let bad := chars "transaction hash must be exactly 64 lowercase hexadecimal characters" in
  _ ← fail_if (negb (bool_decide (String.length value = 64))
               || negb (forallb (fun c => bool_decide (48 <= c <= 57)%N || bool_decide (97 <= c <= 102)%N) (chars value))) bad;
  decoded ← ok_or (hex_decode (chars value)) bad;
  ok_or (try_into_bytes32 decoded) bad.

Definition recovery_json_with_conn (w : WalletTables) (wallet round_id : string) (b p : N) : option text :=
  vote ← vote_at w round_id wallet b p; col_commitment_bundle_json vote.

Definition wallet_recovery_bundle (w : WalletTables) (wallet round_id : string) (b p : N) :
  result VotingError (option VoteRecoveryBundle) :=
  match recovery_json_with_conn w wallet round_id b p with
  | None => Ok None
  | Some json => recovery ← parse_recovery json; Ok (Some recovery)
  end.

Definition wallet_vote_row_state (w : WalletTables) (round_id wallet : string) (b p : N) :
  result VotingError (option VoteRowState) :=
  Ok ((fun vote => {| Generation.vote_choice := col_choice vote; vote_row_commitment := col_commitment vote |})
      <$> vote_at w round_id wallet b p).

(** Rows of one round in key order. *)
Definition round_votes_in_order (w : WalletTables) (round_id wallet : string) : list (Z * Z * VoteColumns) :=
  sort_by (fun x y : Z * Z * VoteColumns => (x.1.1 <? y.1.1)%Z || ((x.1.1 =? y.1.1)%Z && (x.1.2 <=? y.1.2)%Z))
    (omap (fun entry : VoteKey * VoteColumns =>
             let '((r, wa, b, p), vote) := entry in
             if bool_decide (r = round_id) && bool_decide (wa = wallet) then Some (b, p, vote) else None)
       (map_to_list (votes_table w))).

Definition wallet_bundle_recoveries (w : WalletTables) (wallet round_id : string) (b : N) :
  result VotingError (list VoteRecoveryBundle) :=
  collect_results parse_recovery
    (omap (fun row : Z * Z * VoteColumns => if bool_decide (row.1.1 = Z.of_N b) then col_commitment_bundle_json row.2 else None)
       (round_votes_in_order w round_id wallet)).

Definition wallet_commitment_bytes (r : VoteRecoveryBundle) : result VotingError bytes :=
  Ok (commitment_json (hex_encode (rec_van_nullifier r)) (hex_encode (rec_vote_authority_note_new r))
        (hex_encode (rec_vote_commitment r)) (hex_encode (rec_proof r))).

Lemma wallet_bundle_recoveries_typed t wallet round_id b rs :
  wallet_bundle_recoveries t wallet round_id b = Ok rs ->
  forall r m, r ∈ rs -> rec_batch r = Some m -> (batch_size m <= u32_max)%N.
Proof.
  intros H r m Hr Hm. apply collect_results_Ok in H. apply list_elem_of_lookup in Hr as (i & Hr).
  destruct (Forall2_lookup_r _ _ _ _ _ H Hr) as (json & _ & [_ Hs]%parse_recovery_Ok).
  destruct (storable_batch _ Hs m Hm) as (? & _). unfold u32_max. lia.
Qed.

(** ** The reads as an interface *)

(** Derivation reads the tables; restoring a combined authorization derives a delegation
    itself, so it is an argument. *)
Definition wallet_reads
  (recover : WalletTables -> string -> string -> N -> bytes32 -> result VotingError crate_DelegationWire) : GenerationTables :=
  {| Tables := WalletTables; DelegationWire := crate_DelegationWire; VoteWire := crate_VoteWire;
     wire_gov_nullifier_count := crate_gov_nullifier_count; wire_van_nullifier := crate_van_nullifier;
     load_round_network := wallet_round_network; query_delegation_row := wallet_delegation_row;
     query_imported_row := wallet_imported_row; parse_transaction_hash := candidate_from_str;
     recovery_bundle_with_conn := wallet_recovery_bundle; load_vote_row_state := wallet_vote_row_state;
     query_bundle_recoveries := wallet_bundle_recoveries;
     query_bundle_recoveries_typed := wallet_bundle_recoveries_typed;
     stored_vote_commitment_bytes := wallet_commitment_bytes;
     delegate_and_vote_batch_sighash := crate_delegate_and_vote_batch_sighash;
     cast_vote_batch_sighash := crate_cast_vote_batch_sighash;
     delegation_submission := crate_delegation_submission;
     wire_submission_from_recovery := crate_wire_submission_from_recovery;
     recover_submission := recover;
     authorization_digest := crate_authorization_digest |}.

(** [hex::decode(round_id)] into 32 bytes. *)
Definition round_bytes_of (round_id : string) : option bytes32 := decoded ← hex_decode (chars round_id); try_into_bytes32 decoded.

(** [DelegationAuthorization::recover_submission]. *)
Definition wallet_recover_submission (w : WalletTables) (wallet round_id : string) (b : N) (digest : bytes32) :
  result VotingError crate_DelegationWire :=
  row ← ok_or (authorizations_table w !! (round_id, wallet, Z.of_N b, bytes32_bytes digest))
          (VeStorage (chars "recover combined authorization: " ++ sql_error_text SqlNoRows));
  network ← wallet_round_network w round_id wallet;
  round_bytes ← ok_or (round_bytes_of round_id) (VeInvalidInput (chars "invalid combined round"));
  identity ← map_err (fun e => VeInvalidInput (identity_error_text e))
               (identity_new pallas_canonical wallet network round_bytes b TargetDelegation);
  generation ← @generation_for_delegation (wallet_reads (fun _ _ _ _ _ => Err (VeInternal []))) HX SH w identity;
  _ ← fail_if (negb (bool_decide (bytes32_bytes (generation_digest (bound_generation generation))
                                  = col_delegation_generation_digest row)))
        (VeInvalidInput (chars "stored combined delegation changed"));
  _ ← fail_if (negb (bool_decide (length (col_spend_auth_signature row) = 64)))
        (VeInvalidInput (chars "stored combined signature must contain 64 bytes"));
  crate_delegation_submission w wallet round_id b (col_spend_auth_signature row).

Definition wallet_generation : GenerationTables := wallet_reads wallet_recover_submission.
#[local] Existing Instance wallet_generation.

(** ** Confirmation writes *)

Definition require_sqlite_position (position : N) (field : string) : result VotingError unit :=
  fail_if (negb (bool_decide (position <= i64_max)%N))
    (VeInvalidInput (chars field ++ chars " " ++ decimal position ++ chars " does not fit in SQLite i64")).

Definition require_tx_hash (tx_hash : string) : result VotingError unit :=
  fail_if (bool_decide (trim (chars tx_hash) = [])) (VeInvalidInput (chars "tx_hash must not be empty")).

Definition load_bundle_confirmation_fields (w : WalletTables) (round_id wallet : string) (b : N) :
  result VotingError (option string * option Z) :=
  bundle ← ok_or (bundle_at w round_id wallet b)
    (VeInvalidInput (chars "bundle not found for round=" ++ chars round_id ++ chars ", bundle=" ++ decimal b));
  Ok (col_delegation_tx_hash bundle, col_van_leaf_position bundle).

Definition check_text_conflict (existing : option string) (requested : string) (field : string) : result VotingError unit :=
  match existing with
  | Some existing =>
      fail_if (negb (String.eqb existing requested))
        (VeInvalidInput (chars field ++ chars " conflict: stored " ++ chars existing ++ chars ", requested " ++ chars requested))
  | None => Ok tt
  end.

Definition delegation_van_position_should_update (stored : option Z) (van_leaf_position : N) : result VotingError bool :=
  _ ← require_sqlite_position van_leaf_position "VAN leaf position";
  match stored with
  | None => Ok true
  | Some existing =>
      _ ← fail_if (bool_decide (existing < 0)%Z)
            (VeInvalidInput (chars "invalid stored van_leaf_position: " ++ decimal_Z existing));
      _ ← fail_if (bool_decide (existing < Z.of_N van_leaf_position)%Z)
            (VeInvalidInput (chars "delegation van_leaf_position conflict: stored " ++ decimal_Z existing
               ++ chars ", requested " ++ decimal van_leaf_position));
      Ok false
  end.

(** [queries::store_delegation_tx_hash]. *)
Definition wallet_store_delegation_tx_hash (w : WalletTables) (round_id wallet : string) (b : N) (tx_hash : string) :
  result VotingError WalletTables :=
  match bundle_at w round_id wallet b with
  | Some bundle =>
      if bool_decide (col_delegation_tx_hash bundle = None) || bool_decide (col_delegation_tx_hash bundle = Some tx_hash)
      then Ok (with_bundles w (<[(round_id, wallet, Z.of_N b) := set_delegation_tx_hash bundle tx_hash]> (bundles_table w)))
      else Err (VeInvalidInput (chars "delegation tx hash already recorded for round=" ++ chars round_id
                  ++ chars ", wallet=" ++ chars wallet ++ chars ", bundle=" ++ decimal b))
  | None =>
      Err (VeInvalidInput (chars "no bundle found for round=" ++ chars round_id ++ chars ", wallet=" ++ chars wallet
             ++ chars ", bundle=" ++ decimal b))
  end.

(** [queries::store_van_position_u64]. *)
Definition store_van_position (w : WalletTables) (round_id wallet : string) (b position : N) : result VotingError WalletTables :=
  _ ← require_sqlite_position position "VAN leaf position";
  bundle ← ok_or (bundle_at w round_id wallet b)
    (VeInvalidInput (chars "bundle not found: round=" ++ chars round_id ++ chars ", bundle=" ++ decimal b));
  Ok (with_bundles w (<[(round_id, wallet, Z.of_N b) := set_van_leaf_position bundle (Z.of_N position)]> (bundles_table w))).

Definition wallet_apply_delegation_confirmation (w : WalletTables) (wallet round_id : string) (b : N)
  (tx_hash : option string) (van_leaf_position : N) : result VotingError WalletTables :=
  _ ← require_sqlite_position van_leaf_position "VAN leaf position";
  stored ← load_bundle_confirmation_fields w round_id wallet b;
  _ ← match tx_hash with
      | Some tx_hash => _ ← require_tx_hash tx_hash; check_text_conflict stored.1 tx_hash "delegation tx_hash"
      | None => Ok tt
      end;
  should_store ← delegation_van_position_should_update stored.2 van_leaf_position;
  w ← match tx_hash with
      | Some tx_hash => wallet_store_delegation_tx_hash w round_id wallet b tx_hash
      | None => Ok w
      end;
  if (should_store : bool) then store_van_position w round_id wallet b van_leaf_position else Ok w.

(** The bundle's VAN moves forward only. *)
Definition advance_van_position (w : WalletTables) (round_id wallet : string) (b van_leaf_position : N) :
  result VotingError WalletTables :=
  stored ← load_bundle_confirmation_fields w round_id wallet b;
  match stored.2 with
  | Some position =>
      _ ← fail_if (bool_decide (position < 0)%Z)
            (VeInvalidInput (chars "invalid stored van_leaf_position: " ++ decimal_Z position));
      _ ← require_sqlite_position van_leaf_position "VAN leaf position";
      if bool_decide (Z.of_N van_leaf_position < position)%Z then Ok w
      else store_van_position w round_id wallet b van_leaf_position
  | None => store_van_position w round_id wallet b van_leaf_position
  end.

(** *** Votes *)

(** [ensure_vote_submission_matches_ballot_intent]. *)
Definition ensure_submission_matches_intent (w : WalletTables) (round_id wallet : string) (b p : N) : result VotingError unit :=
  let place := chars "round=" ++ chars round_id ++ chars ", wallet=" ++ chars wallet in
  match intents_table w !! (round_id, wallet, Z.of_N p), vote_at w round_id wallet b p with
  | Some intent, Some vote =>
      _ ← fail_if (negb (bool_decide (col_skipped intent = 0)%Z))
            (VeInvalidInput (chars "cannot record vote submission for skipped proposal " ++ place
               ++ chars ", bundle=" ++ decimal b ++ chars ", proposal=" ++ decimal p));
      choice ← ok_or (col_intent_choice intent)
            (VeInvalidInput (chars "ballot intent choice missing for " ++ place ++ chars ", proposal=" ++ decimal p));
      fail_if (negb (bool_decide (col_choice vote = choice)))
        (VeInvalidInput (chars "vote submission conflicts with ballot intent for " ++ place
           ++ chars ", bundle=" ++ decimal b ++ chars ", proposal=" ++ decimal p))
  | _, _ => Ok tt
  end.

Definition set_tx_hash (v : VoteColumns) (tx_hash : string) : VoteColumns :=
  {| col_choice := col_choice v; col_commitment := col_commitment v; col_tx_hash := Some tx_hash;
     col_vc_tree_position := col_vc_tree_position v; col_commitment_bundle_json := col_commitment_bundle_json v |}.

(** [queries::record_vote_submission]; the guards of its UPDATE on the intent repeat the check. *)
Definition record_vote_submission (w : WalletTables) (round_id wallet : string) (b p : N) (tx_hash : string) :
  result VotingError WalletTables :=
  let place := chars "round=" ++ chars round_id ++ chars ", wallet=" ++ chars wallet ++ chars ", bundle=" ++ decimal b
               ++ chars ", proposal=" ++ decimal p in
  _ ← ensure_submission_matches_intent w round_id wallet b p;
  match vote_at w round_id wallet b p with
  | Some vote =>
      if bool_decide (col_tx_hash vote = None) || bool_decide (col_tx_hash vote = Some tx_hash)
      then Ok (with_votes w (<[(round_id, wallet, Z.of_N b, Z.of_N p) := set_tx_hash vote tx_hash]> (votes_table w)))
      else Err (VeInvalidInput (chars "vote tx hash already recorded for " ++ place))
  | None => Err (VeInvalidInput (chars "no vote found for " ++ place))
  end.

(** The trigger of [round_immediate_share] on an UPDATE of a vote's JSON. *)
Definition as_vote_row (v : VoteColumns) : VoteRow :=
  {| ShareDelivery.vote_choice := as_u32 (col_choice v); vote_vc_position := col_vc_tree_position v;
     vote_commitment_json := col_commitment_bundle_json v |}.

Definition immediate_share_trigger (round_id wallet : string) (b p : Z) (old new : VoteColumns)
  (immediate : gmap (string * string) (Z * Z * Z)) : gmap (string * string) (Z * Z * Z) :=
  match immediate !! (round_id, wallet) with
  | Some (b', p', _) =>
      if negb (bool_decide (col_commitment_bundle_json old = col_commitment_bundle_json new))
         && bool_decide (fills_position (as_vote_row old) (as_vote_row new) = Some false)
         && bool_decide (b' = b) && bool_decide (p' = p)
      then delete (round_id, wallet) immediate else immediate
  | None => immediate
  end.

Definition update_vote_json (w : WalletTables) (round_id wallet : string) (b p : N) (old new : VoteColumns) : WalletTables :=
  with_immediate (with_votes w (<[(round_id, wallet, Z.of_N b, Z.of_N p) := new]> (votes_table w)))
    (immediate_share_trigger round_id wallet (Z.of_N b) (Z.of_N p) old new (immediate_table w)).

Definition require_vote_recovery_json (w : WalletTables) (round_id wallet : string) (b p : N) : result VotingError unit :=
  match vote_at w round_id wallet b p with
  | Some vote =>
      fail_if (is_none (col_commitment_bundle_json vote))
        (VeInvalidInput (chars "vote recovery bundle not found for " ++ vote_location round_id b p))
  | None => Err (VeInvalidInput (chars "vote not found for " ++ vote_location round_id b p))
  end.

(** [recovery.vc_tree_position = position]. *)
Definition set_recovery_position (r : VoteRecoveryBundle) (position : N) : VoteRecoveryBundle :=
  {| rec_vote_round_id := rec_vote_round_id r; rec_bundle_index := rec_bundle_index r; rec_proposal_id := rec_proposal_id r;
     rec_vote_decision := rec_vote_decision r; rec_anchor_height := rec_anchor_height r; rec_vc_tree_position := position;
     rec_single_share := rec_single_share r; rec_num_options := rec_num_options r; rec_van_nullifier := rec_van_nullifier r;
     rec_vote_authority_note_new := rec_vote_authority_note_new r; rec_vote_commitment := rec_vote_commitment r;
     rec_proof := rec_proof r; rec_shares_hash := rec_shares_hash r; rec_r_vpk := rec_r_vpk r; rec_alpha_v := rec_alpha_v r;
     rec_vote_auth_sig := rec_vote_auth_sig r; rec_encrypted_shares := rec_encrypted_shares r;
     rec_share_blinds := rec_share_blinds r; rec_share_comms := rec_share_comms r; rec_batch := rec_batch r |}.

Definition set_vc_position (v : VoteColumns) (json : option text) (position : Z) : VoteColumns :=
  {| col_choice := col_choice v; col_commitment := col_commitment v; col_tx_hash := col_tx_hash v;
     col_vc_tree_position := Some position; col_commitment_bundle_json := json |}.

(** [record_vc_position_with_conn].  Its updates guard against a row that changed since it
    was read, which one transaction excludes. *)
Definition record_vc_position (w : WalletTables) (wallet round_id : string) (b p position : N) : result VotingError WalletTables :=
  _ ← require_sqlite_position position "vc_tree_position";
  vote ← ok_or (vote_at w round_id wallet b p) (VeInvalidInput (chars "vote not found for " ++ vote_location round_id b p));
  _ ← match col_vc_tree_position vote with
      | Some stored =>
          _ ← fail_if (bool_decide (stored < 0)%Z)
                (VeInternal (chars "stored vc_tree_position must be non-negative, got " ++ decimal_Z stored));
          fail_if (negb (bool_decide (stored = Z.of_N position)))
            (VeInvalidInput (chars "vote commitment tree position already recorded for " ++ vote_location round_id b p))
      | None => Ok tt
      end;
  match col_commitment_bundle_json vote with
  | Some json =>
      recovery ← parse_recovery json;
      _ ← validate_recovery_matches_stored_vote recovery round_id b p (col_choice vote) (col_commitment vote);
      updated ← serialize_recovery (set_recovery_position recovery position);
      Ok (update_vote_json w round_id wallet b p vote (set_vc_position vote (Some updated) (Z.of_N position)))
  | None =>
      Ok (with_votes w (<[(round_id, wallet, Z.of_N b, Z.of_N p) := set_vc_position vote None (Z.of_N position)]> (votes_table w)))
  end.

(** [ensure_singleton_vote_update_with_conn]. *)
Definition ensure_singleton_vote_update (w : WalletTables) (wallet round_id : string) (b p : N) : result VotingError unit :=
  match recovery_json_with_conn w wallet round_id b p with
  | None => Ok tt
  | Some json =>
      batch ← map_err (fun e => VeInvalidInput (chars "invalid vote recovery JSON: " ++ e)) (value_batch_markers json);
      fail_if batch
        (VeInvalidInput (chars "vote belongs to an atomic batch; use the complete batch lifecycle instead of a per-vote API"))
  end.

Definition wallet_apply_vote_confirmation (w : WalletTables) (wallet round_id : string) (b p : N) (tx_hash : option string)
  (van_leaf_position vc_tree_position : N) : result VotingError WalletTables :=
  _ ← require_sqlite_position van_leaf_position "VAN leaf position";
  _ ← require_sqlite_position vc_tree_position "vote commitment tree position";
  _ ← ensure_singleton_vote_update w wallet round_id b p;
  w ← match tx_hash with
      | Some tx_hash => _ ← require_tx_hash tx_hash; record_vote_submission w round_id wallet b p tx_hash
      | None => Ok w
      end;
  _ ← require_vote_recovery_json w round_id wallet b p;
  w ← advance_van_position w round_id wallet b van_leaf_position;
  record_vc_position w wallet round_id b p vc_tree_position.

(** One member of a confirmed batch. *)
Definition confirm_member (wallet round_id : string) (b : N) (tx_hash : option string) (w : WalletTables)
  (member : VoteRecoveryBundle * N) : result VotingError WalletTables :=
  let p := rec_proposal_id member.1 in
  w ← match tx_hash with
      | Some tx_hash => record_vote_submission w round_id wallet b p tx_hash
      | None => Ok w
      end;
  _ ← require_vote_recovery_json w round_id wallet b p;
  record_vc_position w wallet round_id b p member.2.

(** [apply_vote_batch_confirmation_with_conn], as the lifecycle calls it: with the proposals
    it expects and no nullifiers. *)
Definition wallet_apply_vote_batch_confirmation (w : WalletTables) (wallet round_id : string) (b : N) (digest : bytes32)
  (tx_hash : option string) (van_leaf_position : N) (vc_tree_positions observed_proposal_ids : list N) :
  result VotingError WalletTables :=
  _ ← require_sqlite_position van_leaf_position "VAN leaf position";
  _ ← collect_results (fun position => require_sqlite_position position "vote commitment tree position") vc_tree_positions;
  _ ← match tx_hash with Some tx_hash => require_tx_hash tx_hash | None => Ok tt end;
  recoveries ← load_vote_batch_recoveries w wallet round_id b digest;
  _ ← fail_if (negb (bool_decide (observed_proposal_ids = map rec_proposal_id recoveries)))
        (VeInvalidInput (chars "cast_vote_batch event actions do not match persisted recovery data"));
  _ ← fail_if (negb (bool_decide (length vc_tree_positions = length recoveries)))
        (VeInvalidInput (chars "cast_vote_batch event has the wrong number of VC positions"));
  w ← fold_results (confirm_member wallet round_id b tx_hash) w (zip recoveries vc_tree_positions);
  advance_van_position w round_id wallet b van_leaf_position.

(** *** Retirement of a rejected batch *)

Definition clear_json (v : VoteColumns) : VoteColumns :=
  {| col_choice := col_choice v; col_commitment := col_commitment v; col_tx_hash := col_tx_hash v;
     col_vc_tree_position := col_vc_tree_position v; col_commitment_bundle_json := None |}.

(** [clear_unsubmitted_vote_recovery_with_conn]. *)
Definition clear_unsubmitted_vote_recovery (wallet round_id : string) (b : N) (w : WalletTables) (p : N) :
  result VotingError WalletTables :=
  let changed := VeInvalidInput (chars "vote recovery changed before it could be retired for " ++ vote_location round_id b p) in
  vote ← ok_or (vote_at w round_id wallet b p) changed;
  _ ← fail_if (is_some (col_tx_hash vote) || is_some (col_vc_tree_position vote)) changed;
  let w := update_vote_json w round_id wallet b p vote (clear_json vote) in
  Ok (with_shares w (filter (fun entry : (string * string * Z * Z * Z) * ShareColumns =>
                               entry.1.1 <> (round_id, wallet, Z.of_N b, Z.of_N p)) (shares_table w))).

(** [retire_combined_authorization_with_conn]. *)
Definition retire_combined_authorization (w : WalletTables) (wallet round_id : string) (b : N) : WalletTables :=
  let combined (row : Z * Z * VoteColumns) :=
    bool_decide (row.1.1 = Z.of_N b)
    && match col_commitment_bundle_json row.2 with Some json => extracts_delegation_van json | None => false end in
  if existsb combined (round_votes_in_order w round_id wallet) then w
  else with_authorizations w (filter (fun entry : (string * string * Z * bytes) * AuthorizationColumns =>
                                        entry.1.1 <> (round_id, wallet, Z.of_N b)) (authorizations_table w)).

(** [clear_vote_batch_recovery_with_conn]. *)
Definition wallet_clear_vote_batch_recovery (w : WalletTables) (wallet round_id : string) (b : N) (digest : bytes32) :
  result VotingError (WalletTables * list N) :=
  members ← load_vote_batch_recoveries w wallet round_id b digest;
  let cleared := map rec_proposal_id members in
  w ← fold_results (clear_unsubmitted_vote_recovery wallet round_id b) w cleared;
  Ok (if bool_decide (cleared = []) then w else retire_combined_authorization w wallet round_id b, cleared).

(** [DelegationAuthorization::persisted_generation_digest]. *)
Definition wallet_persisted_generation_digest (w : WalletTables) (wallet round_id : string) (b : N) (digest : bytes32) :
  result VotingError (option bytes32) :=
  match authorizations_table w !! (round_id, wallet, Z.of_N b, bytes32_bytes digest) with
  | None => Ok None
  | Some row =>
      generation ← ok_or (try_into_bytes32 (col_delegation_generation_digest row))
        (VeInvalidInput (chars "stored combined delegation generation must contain 32 bytes"));
      Ok (Some generation)
  end.

(** ** The interfaces of the lifecycle *)

Definition wallet_confirmation : ConfirmationTables :=
  {| apply_delegation_confirmation := (wallet_apply_delegation_confirmation : Tables -> _);
     apply_vote_confirmation := wallet_apply_vote_confirmation;
     apply_vote_batch_confirmation := wallet_apply_vote_batch_confirmation;
     store_delegation_tx_hash := wallet_store_delegation_tx_hash;
     persisted_generation_digest := wallet_persisted_generation_digest;
     clear_vote_batch_recovery := wallet_clear_vote_batch_recovery |}.

Definition wallet_bundle_delegation_set (w : WalletTables) (round_id wallet : string) (b : N) : option bool :=
  (fun bundle => is_some (col_delegation_tx_hash bundle) || is_some (col_van_leaf_position bundle))
  <$> bundle_at w round_id wallet b.

Definition wallet_combined_recovery_exists (w : WalletTables) (round_id wallet : string) (b : N) : bool :=
  existsb (fun entry : (string * string * Z * bytes) * AuthorizationColumns =>
             bool_decide (entry.1.1 = (round_id, wallet, Z.of_N b))) (map_to_list (authorizations_table w)).

Definition wallet_store : StoreTables :=
  {| store_confirmation := wallet_confirmation;
     bundle_delegation_set := (wallet_bundle_delegation_set : Tables -> _);
     combined_recovery_exists := wallet_combined_recovery_exists;
     round_exists := fun w round_id wallet => is_some (rounds_table w !! (round_id, wallet)) |}.

Definition wallet_get_delegation_tx_hash (w : WalletTables) (wallet round_id : string) (b : N) :
  result VotingError (option string) :=
  bundle ← ok_or (bundle_at w round_id wallet b)
    (VeInternal (chars "failed to get delegation tx hash: " ++ sql_error_text SqlNoRows));
  Ok (col_delegation_tx_hash bundle).

Definition wallet_get_vote_tx_hash (w : WalletTables) (wallet round_id : string) (b p : N) :
  result VotingError (option string) :=
  vote ← ok_or (vote_at w round_id wallet b p)
    (VeInternal (chars "failed to get vote tx hash: " ++ sql_error_text SqlNoRows));
  Ok (col_tx_hash vote).

Definition wallet_projection : ProjectionColumns :=
  {| get_delegation_tx_hash := (wallet_get_delegation_tx_hash : Tables -> _);
     get_vote_tx_hash := wallet_get_vote_tx_hash |}.
End tables.
