(* ===== verification/WalletFacts.v ===== *)
(** * What the wallet tables guarantee

    The invariant of [WalletTables]: rows hang under their parents, keys are machine
    integers, and a stored recovery bundle names the row it is stored in.  The writes the
    submission lifecycle makes keep it: they change rows, and add or remove none but share
    records and authorizations. *)

From S2P Require Import Prelude Sorting Types Diagnostics SubmissionState Identity Generation Confirmation StoreRow Store.
From S2P Require Import LifecyclePlanning ShareTiming SharePlacement Ballot RoundPlanning ShareDelivery VoteRecovery WalletTables.

(** A stored integer that is a [u32]. *)
Definition is_u32 (z : Z) : Prop := (0 <= z <= 4294967295)%Z.

Lemma as_u32_inj y z : is_u32 y -> is_u32 z -> as_u32 y = as_u32 z -> y = z.
Proof. unfold is_u32, as_u32. intros Hy Hz H. rewrite !Z.mod_small in H by lia. lia. Qed.

Lemma as_u32_Z z : is_u32 z -> Z.of_N (as_u32 z) = z.
Proof. unfold is_u32, as_u32. intros Hz. rewrite Z.mod_small by lia. lia. Qed.

Section wallet.
Context `{HX : HexCrate, SH : Sha256Crate, RC : RoundIdCrates, RQ : RusqliteCrate, RS : RecoverySerde, PJ : PlanJson, WC : WalletCrates}.
#[local] Existing Instances wallet_generation wallet_confirmation wallet_store.

(** ** The invariant *)

(** A row's recovery bundle, when it can be read, is the row's own. *)
Definition materials_ok (w : WalletTables) : Prop :=
  forall round_id wallet b p v json r, votes_table w !! (round_id, wallet, b, p) = Some v ->
    col_commitment_bundle_json v = Some json -> parse_recovery json = Ok r -> Z.of_N (rec_proposal_id r) = p.

Record wallet_ok (w : WalletTables) : Prop := {
  ok_bundle_keys : forall round_id wallet b, is_Some (bundles_table w !! (round_id, wallet, b)) -> is_u32 b;
  ok_vote_keys : forall round_id wallet b p, is_Some (votes_table w !! (round_id, wallet, b, p)) ->
    is_u32 p /\ is_Some (bundles_table w !! (round_id, wallet, b));
  ok_share_keys : forall round_id wallet b p i, is_Some (shares_table w !! (round_id, wallet, b, p, i)) ->
    is_u32 b /\ is_u32 p /\ is_u32 i;
  ok_materials : materials_ok w
}.

(** ** Writes *)

(** What a write of the lifecycle leaves as it is. *)
Record writes (w w' : WalletTables) : Prop := {
  writes_rounds : rounds_table w' = rounds_table w;
  writes_bundles : forall k, is_Some (bundles_table w' !! k) <-> is_Some (bundles_table w !! k);
  writes_votes : forall k, is_Some (votes_table w' !! k) <-> is_Some (votes_table w !! k);
  writes_shares : forall k, is_Some (shares_table w' !! k) -> is_Some (shares_table w !! k);
  writes_materials : materials_ok w -> materials_ok w'
}.

#[export] Instance writes_preorder : PreOrder writes.
Proof.
  split; [by split|]. intros w1 w2 w3 [R1 B1 V1 S1 M1] [R2 B2 V2 S2 M2]. split; [congruence| | |auto|auto].
  - intros k. by rewrite B2, B1.
  - intros k. by rewrite V2, V1.
Qed.

Lemma writes_ok w w' : writes w w' -> wallet_ok w -> wallet_ok w'.
Proof.
  intros [_ B V S M] [Hb Hv Hs Hm]. split.
  - intros r wa b H%B. eauto.
  - intros r wa b p H%V. rewrite B. eauto.
  - intros r wa b p i H%S. eauto.
  - auto.
Qed.

Lemma insert_keeps_keys {A} `{Countable K} (m : gmap K A) k x y :
  m !! k = Some x -> forall k', is_Some (<[k := y]> m !! k') <-> is_Some (m !! k').
Proof. intros Hk k'. rewrite lookup_insert_is_Some. destruct (decide (k = k')) as [<-|]; naive_solver. Qed.

Lemma bundle_write w k b b' : bundles_table w !! k = Some b -> writes w (with_bundles w (<[k := b']> (bundles_table w))).
Proof. intros Hb. split; cbn; try done. by eapply insert_keeps_keys. Qed.

Lemma vote_write w round_id wallet b p v v' :
  votes_table w !! (round_id, wallet, b, p) = Some v ->
  (forall json r, col_commitment_bundle_json v' = Some json -> parse_recovery json = Ok r ->
     (col_commitment_bundle_json v = Some json \/ Z.of_N (rec_proposal_id r) = p)) ->
  writes w (with_votes w (<[(round_id, wallet, b, p) := v']> (votes_table w))).
Proof.
  intros Hv Hm. split; cbn; try done; [by eapply insert_keeps_keys|]. intros Hok r' wa' b' p' x json r Hx Hj Hr.
  cbn in Hx. apply lookup_insert_Some in Hx as [[[= <- <- <- <-] <-]|[_ Hx]]; [|by eapply Hok].
  destruct (Hm json r Hj Hr) as [?|?]; [by eapply Hok|done].
Qed.

Lemma immediate_write w t : writes w (with_immediate w t).
Proof. by split. Qed.

Lemma authorization_write w t : writes w (with_authorizations w t).
Proof. by split. Qed.

Lemma store_tx_hash_writes w round_id wallet b h w' :
  wallet_store_delegation_tx_hash w round_id wallet b h = Ok w' -> writes w w'.
Proof.
  unfold wallet_store_delegation_tx_hash. intros H. destruct (bundle_at _ _ _ _) as [bundle|] eqn:Hb; [|done].
  destruct (_ || _); [|done]. injection H as <-. by eapply bundle_write.
Qed.

Lemma store_van_writes w round_id wallet b n w' : store_van_position w round_id wallet b n = Ok w' -> writes w w'.
Proof. unfold store_van_position. intros H. inv_ok. by eapply bundle_write. Qed.

Lemma advance_van_writes w round_id wallet b n w' : advance_van_position w round_id wallet b n = Ok w' -> writes w w'.
Proof.
  unfold advance_van_position. intros H. inv_ok. destruct a.2 as [z|]; inv_ok; [|by eapply store_van_writes].
  destruct (bool_decide _); inv_ok; [done|by eapply store_van_writes].
Qed.

Lemma delegation_confirmation_writes w wallet round_id b h n w' :
  wallet_apply_delegation_confirmation w wallet round_id b h n = Ok w' -> writes w w'.
Proof.
  unfold wallet_apply_delegation_confirmation. intros H.
  apply result_bind_Ok in H as ([] & _ & H). apply result_bind_Ok in H as (stored & _ & H).
  apply result_bind_Ok in H as ([] & _ & H). apply result_bind_Ok in H as (should & _ & H).
  apply result_bind_Ok in H as (w1 & H1 & H). transitivity w1.
  - destruct h; [by eapply store_tx_hash_writes|by inv_ok].
  - destruct should; [by eapply store_van_writes|by inv_ok].
Qed.

Lemma record_submission_writes w round_id wallet b p h w' :
  record_vote_submission w round_id wallet b p h = Ok w' -> writes w w'.
Proof.
  unfold record_vote_submission. intros H. inv_ok. destruct (vote_at _ _ _ _ _) as [vote|] eqn:Hv; [|done].
  destruct (_ || _); [|done]. injection H as <-. eapply vote_write; [done|]. cbn. auto.
Qed.

Lemma update_json_writes w round_id wallet b p v v' :
  vote_at w round_id wallet b p = Some v ->
  (forall json r, col_commitment_bundle_json v' = Some json -> parse_recovery json = Ok r -> rec_proposal_id r = p) ->
  writes w (update_vote_json w round_id wallet b p v v').
Proof.
  intros Hv Hm. unfold update_vote_json. etransitivity; [|apply immediate_write]. eapply vote_write; [done|].
  intros json r Hj Hr. right. by rewrite (Hm json r).
Qed.

(** Filling the position of a readable bundle yields a readable bundle. *)
Lemma set_position_storable r n : storable r -> (n <= i64_max)%N -> storable (set_recovery_position r n).
Proof. intros [Hf Hb Ha Hp Hs Hsh Hbatch] Hn. split; cbn; try done. unfold i64_max, u64_max in *. lia. Qed.

Lemma positioned_parses json r n t :
  parse_recovery json = Ok r -> (n <= i64_max)%N -> serialize_recovery (set_recovery_position r n) = Ok t ->
  parse_recovery t = Ok (set_recovery_position r n).
Proof.
  intros [_ Hr]%parse_recovery_Ok Hn Ht.
  destruct (serialize_recovery_parses _ (set_position_storable r n Hr Hn)) as (t' & Ht' & ?). congruence.
Qed.

Lemma require_sqlite_position_Ok n field : require_sqlite_position n field = Ok tt <-> (n <= i64_max)%N.
Proof. unfold require_sqlite_position. by rewrite fail_if_Ok, negb_false_iff, bool_decide_eq_true. Qed.

(** What recording a tree position does to the vote. *)
Lemma record_vc_position_Ok w wallet round_id b p n w' :
  record_vc_position w wallet round_id b p n = Ok w' ->
  (n <= i64_max)%N /\ exists v, vote_at w round_id wallet b p = Some v
    /\ (col_vc_tree_position v = None \/ col_vc_tree_position v = Some (Z.of_N n))
    /\ match col_commitment_bundle_json v with
       | None => w' = with_votes w (<[(round_id, wallet, Z.of_N b, Z.of_N p) := set_vc_position v None (Z.of_N n)]> (votes_table w))
       | Some json => exists r t, parse_recovery json = Ok r /\ rec_proposal_id r = p
           /\ serialize_recovery (set_recovery_position r n) = Ok t /\ parse_recovery t = Ok (set_recovery_position r n)
           /\ w' = update_vote_json w round_id wallet b p v (set_vc_position v (Some t) (Z.of_N n))
       end.
Proof.
  unfold record_vc_position. intros H.
  apply result_bind_Ok in H as ([] & Hn%require_sqlite_position_Ok & H). split; [done|].
  apply result_bind_Ok in H as (vote & Hv%ok_or_Ok & H). apply result_bind_Ok in H as ([] & Hpos & H).
  exists vote. split; [done|]. split.
  { destruct (col_vc_tree_position vote) as [z|]; [right|by left]. by inv_ok. }
  destruct (col_commitment_bundle_json vote) as [json|]; [|congruence].
  apply result_bind_Ok in H as (r & Hr & H). apply result_bind_Ok in H as ([] & Hval & H).
  apply result_bind_Ok in H as (t & Ht & [= <-]). exists r, t. split_and!; try done; [|by eapply positioned_parses].
  unfold validate_recovery_matches_stored_vote in Hval. by inv_ok.
Qed.

Lemma record_vc_writes w wallet round_id b p n w' : record_vc_position w wallet round_id b p n = Ok w' -> writes w w'.
Proof.
  intros (Hn & v & Hv & _ & H)%record_vc_position_Ok. destruct (col_commitment_bundle_json v) as [json|].
  - destruct H as (r & t & _ & Hp & _ & Hparse & ->). apply update_json_writes; [done|]. cbn. intros ? r' [= <-] Hr'.
    rewrite Hparse in Hr'. by injection Hr' as <-.
  - subst w'. by eapply vote_write.
Qed.

Lemma confirm_member_writes wallet round_id b h w m w' : confirm_member wallet round_id b h w m = Ok w' -> writes w w'.
Proof.
  unfold confirm_member. intros H. apply result_bind_Ok in H as (w1 & H1 & H). apply result_bind_Ok in H as ([] & _ & H).
  transitivity w1; [|by eapply record_vc_writes]. destruct h; [by eapply record_submission_writes|by inv_ok].
Qed.

Lemma fold_writes {A} (f : WalletTables -> A -> result VotingError WalletTables) l w w' :
  (forall w x w', f w x = Ok w' -> writes w w') -> fold_results f w l = Ok w' -> writes w w'.
Proof.
  intros Hf. revert w. induction l as [|x l IH]; intros w H; cbn [fold_results] in H; [by inv_ok|].
  apply result_bind_Ok in H as (w1 & H1 & H). transitivity w1; eauto.
Qed.

Lemma vote_confirmation_writes w wallet round_id b p h n m w' :
  wallet_apply_vote_confirmation w wallet round_id b p h n m = Ok w' -> writes w w'.
Proof.
  unfold wallet_apply_vote_confirmation. intros H. do 3 (apply result_bind_Ok in H as ([] & _ & H)).
  apply result_bind_Ok in H as (w1 & H1 & H). apply result_bind_Ok in H as ([] & _ & H). apply result_bind_Ok in H as (w2 & H2 & H).
  transitivity w1; [|transitivity w2; [by eapply advance_van_writes|by eapply record_vc_writes]].
  destruct h; inv_ok; [by eapply record_submission_writes|done].
Qed.

Lemma batch_confirmation_writes w wallet round_id b d h n ms ps w' :
  wallet_apply_vote_batch_confirmation w wallet round_id b d h n ms ps = Ok w' -> writes w w'.
Proof.
  unfold wallet_apply_vote_batch_confirmation. intros H. do 3 (apply result_bind_Ok in H as (? & _ & H)).
  apply result_bind_Ok in H as (rs & _ & H). do 2 (apply result_bind_Ok in H as ([] & _ & H)).
  apply result_bind_Ok in H as (w1 & H1 & H). transitivity w1; [|by eapply advance_van_writes].
  eapply fold_writes; [|exact H1]. apply confirm_member_writes.
Qed.

Lemma clear_unsubmitted_writes wallet round_id b w p w' :
  clear_unsubmitted_vote_recovery wallet round_id b w p = Ok w' -> writes w w'.
Proof.
  unfold clear_unsubmitted_vote_recovery. intros H. inv_ok. etransitivity; [by apply (update_json_writes w round_id wallet b p a (clear_json a))|].
  split; cbn; try done. intros k [x Hx]. apply map_lookup_filter_Some in Hx as [Hx _]. by exists x.
Qed.

Lemma clear_batch_writes w wallet round_id b d w' ps :
  wallet_clear_vote_batch_recovery w wallet round_id b d = Ok (w', ps) -> writes w w'.
Proof.
  unfold wallet_clear_vote_batch_recovery. intros H. apply result_bind_Ok in H as (rs & _ & H).
  apply result_bind_Ok in H as (w1 & H1 & [= <- <-]). transitivity w1.
  { eapply fold_writes; [|exact H1]. apply clear_unsubmitted_writes. }
  destruct (bool_decide _); [done|]. unfold retire_combined_authorization. destruct (existsb _ _); [done|apply authorization_write].
Qed.

(** ** Effects of the lifecycle on the tables *)

Lemma confirmed_generation_writes s b v s' :
  apply_confirmed_generation s b v = Ok s' -> writes (tables s) (tables s').
Proof.
  unfold apply_confirmed_generation. intros H. destruct (negb _); [done|]. destruct (target _) as [|p|d|d].
  - apply result_bind_Ok in H as (t & Ht & [= <-]). exact (delegation_confirmation_writes _ _ _ _ _ _ _ Ht).
  - apply result_bind_Ok in H as (t & Ht & [= <-]). exact (vote_confirmation_writes _ _ _ _ _ _ _ _ _ Ht).
  - apply result_bind_Ok in H as (t & Ht & [= <-]). exact (batch_confirmation_writes _ _ _ _ _ _ _ _ _ _ Ht).
  - apply result_bind_Ok in H as (t & Ht & H). apply result_bind_Ok in H as (t' & Ht' & [= <-]). cbn.
    transitivity (t : WalletTables); [exact (batch_confirmation_writes _ _ _ _ _ _ _ _ _ _ Ht)|].
    destruct (_ <$> _); [by eapply store_tx_hash_writes|by inv_ok].
Qed.

Lemma retirement_writes s i d now s' :
  retire_rejected_combined_generation s i d now = Ok s' -> writes (tables s) (tables s').
Proof.
  unfold retire_rejected_combined_generation. intros H. destruct (target i); try done.
  apply result_bind_Ok in H as (found & _ & H). apply result_bind_Ok in H as (g & _ & H).
  apply result_bind_Ok in H as ([t ps] & Ht & H). apply result_bind_Ok in H as ([] & _ & H).
  apply result_bind_Ok in H as (l & _ & [= <-]). exact (clear_batch_writes _ _ _ _ _ _ _ Ht).
Qed.
End wallet.
