(* ===== verification/WalletHistory.v ===== *)
(** * Histories of the wallet database

    Joins the submission store with the wallet tables: what one store operation does to the
    tables and to the keys of [chain_submissions], and the invariant of every database such
    operations and the other writers lead to.  A submission on record keeps the bundle or
    vote it was derived from, and a bundle has at most one submission of its delegation. *)

From S2P Require Import Prelude Sorting Types Diagnostics SubmissionState Identity Generation Confirmation StoreRow StoreRowFacts.
From S2P Require Import Store StoreFacts StoreInvariant LifecyclePlanning ShareTiming SharePlacement Ballot RoundPlanning ShareDelivery.
From S2P Require Import VoteRecovery WalletTables WalletFacts.

Abbreviation key := submission_identity_key (only parsing).

(** ** One operation *)

Section operations.
Context `{ST : StoreTables, B64 : Base64Crate, HX : HexCrate, SH : Sha256Crate, RQ : RusqliteCrate}.

(** An operation leaves the other tables, or projects a confirmation, or retires a rejection. *)
Inductive domain_effect (s : DomainState) : DomainState -> Prop :=
| domain_kept : domain_effect s s
| domain_confirmed b v s' : apply_confirmed_generation s b v = Ok s' -> domain_effect s s'
| domain_retired i d now s' : retire_rejected_combined_generation s i d now = Ok s' -> domain_effect s s'.

(** The admission of a submission that is not on record. *)
Record admitted (db : Database) (i : ChainSubmissionIdentity) : Prop := {
  admitted_valid : identity_valid i;
  admitted_derives : exists q d, request_identity q = i /\ validate_target q = Ok tt /\ derive (tables (domain db)) (derivation q) = Ok d;
  admitted_combined : combined_guard db i = Ok tt;
  admitted_successor : successor_guard db i = Ok tt
}.

(** What an operation does: it adds at most one submission, by admission. *)
Record operation_effect (db db' : Database) : Prop := {
  operation_domain : domain_effect (domain db) (domain db');
  operation_keys : (forall k, is_Some (submissions db' !! k) -> is_Some (submissions db !! k))
    \/ (exists i, admitted db i /\ domain db' = domain db
          /\ forall k, is_Some (submissions db' !! k) -> is_Some (submissions db !! k) \/ k = key i)
}.

Lemma operation_effect_refl db : operation_effect db db.
Proof. split; [constructor|by left]. Qed.

Lemma transact_operation {R} env (op : Database -> result ChainSubmissionFailure (Database * R)) db :
  (forall db' x, op db = Ok (db', x) -> operation_effect db db') -> operation_effect db (transact env op db).1.
Proof.
  intros H. unfold transact. destruct (begin_error env); [apply operation_effect_refl|].
  destruct (op db) as [[db' x]|e]; [|apply operation_effect_refl]. destruct (commit_error env); [apply operation_effect_refl|]. by eapply H.
Qed.

Lemma persist_keys db r db' :
  persist_mutable db r = Ok db' -> domain db' = domain db /\ forall k, is_Some (submissions db' !! k) -> is_Some (submissions db !! k).
Proof.
  unfold persist_mutable, sql_update. intros H. inv_ok. destruct (submissions db !! _) as [old|] eqn:Hold; [|by inv_ok].
  inv_ok. cbn. split; [done|]. intros k [Hk|[_ ?]]%lookup_insert_is_Some; [|done]. subst k. by exists old.
Qed.

Lemma insert_keys db i row db' :
  insert_row db i row = Ok db' -> domain db' = domain db
  /\ forall k, is_Some (submissions db' !! k) -> is_Some (submissions db !! k) \/ k = key i.
Proof.
  unfold insert_row, sql_insert. intros H. inv_ok. cbn. split; [done|]. intros k [<-|[_ ?]]%lookup_insert_is_Some; auto.
Qed.

Lemma update_operation db r db' : persist_mutable db r = Ok db' -> operation_effect db db'.
Proof. intros [Hd Hk]%persist_keys. split; [rewrite Hd; constructor|by left]. Qed.

Lemma commit_operation db r b v now db' x : commit_confirmation db r b v now = Ok (db', x) -> operation_effect db db'.
Proof.
  unfold commit_confirmation. intros H. inv_ok.
  match goal with Hp : persist_mutable _ _ = _ |- _ => apply persist_keys in Hp as [Hd Hk] end. cbn in *.
  split; [rewrite Hd; by eapply domain_confirmed|by left].
Qed.

Lemma observation_operation g o d now db db' x :
  observation_transaction g o d now db = Ok (db', x) -> operation_effect db db'.
Proof.
  unfold observation_transaction. intros H. inv_ok. destruct (retires_combined_generation _ _); inv_ok; [|by eapply update_operation].
  split; [by eapply domain_retired|left]. cbn. unfold sql_delete. by intros k [_ ?]%lookup_delete_is_Some.
Qed.

Lemma admit_new_operation db q batch n now db' x :
  identity_valid (request_identity q) -> validate_target q = Ok tt -> (forall d, batch = Some d -> derive (tables (domain db)) (derivation q) = Ok d) ->
  admit_new db q batch n now = Ok (db', x) -> operation_effect db db'.
Proof.
  intros Hi Htarget Hbatch H. unfold admit_new in H.
  apply result_bind_Ok in H as ([] & Hc & H). apply result_bind_Ok in H as ([] & _ & H). apply result_bind_Ok in H as ([] & Hs & H).
  assert (exists d, derive (tables (domain db)) (derivation q) = Ok d /\ domain db' = domain db
    /\ forall k, is_Some (submissions db' !! k) -> is_Some (submissions db !! k) \/ k = key (request_identity q)) as (d & Hd & Hdom & Hk).
  { destruct (is_imported_delegation q); inv_ok.
    - match goal with Hd : derive _ _ = Ok ?d |- _ => exists d; split; [done|]; apply derive_identity in Hd end.
      match goal with Hi : insert_imported_delegation _ _ _ = _ |- _ => apply insert_keys in Hi as [? Hk] end.
      split; [done|]. intros k Hin. destruct (Hk k Hin) as [? | ->]; [by left|right]. f_equal. done.
    - match goal with Hd : match batch with _ => _ end = Ok ?d |- _ => assert (derive (tables (domain db)) (derivation q) = Ok d) as Hd'
        by (destruct batch; inv_ok; [by apply Hbatch|done]); exists d; split; [done|]; apply derive_identity in Hd' end.
      match goal with Hi : insert_fresh _ _ = _ |- _ => apply insert_keys in Hi as [? Hk] end.
      split; [done|]. intros k Hin. destruct (Hk k Hin) as [? | ->]; [by left|right]. f_equal. done. }
  split; [rewrite Hdom; constructor|]. right. exists (request_identity q). split; [|done]. split; [done| |done..]. by exists q, d.
Qed.

Lemma admit_operation q work n now db db' x :
  identity_valid (request_identity q) -> validate_target q = Ok tt -> admit_transaction q work n now db = Ok (db', x) -> operation_effect db db'.
Proof.
  intros Hi Htarget H. unfold admit_transaction, derive_for in H. inv_ok. destruct a as [r|].
  - destruct (is_submitting r); inv_ok.
    + match goal with Hn : normalize_abandoned _ _ _ = Ok ?p |- _ => destruct p as [db1 r1]; unfold normalize_abandoned in Hn end.
      inv_ok. by eapply update_operation.
    + destruct (negb work); inv_ok; [apply operation_effect_refl|]. unfold admit_existing in H. inv_ok. apply operation_effect_refl.
  - destruct (negb work); inv_ok; [apply operation_effect_refl|]. eapply admit_new_operation; [done|done| |exact H]. intros d ->.
    match goal with Hb : (if is_batch q then _ else _) = _ |- _ => destruct (is_batch q); by inv_ok end.
Qed.

Lemma store_operation_keys db db' : store_operation db db' -> operation_effect db db'.
Proof.
  intros H. destruct H as [env q work n now db0 Hi|env g db0 Hi|env g o d now db0 Hi Ho Hd|env g o now db0 Hi Ho
    |env g now db0 Hi|env q a now db0 Hi|env q g c e allowed now db0 Hi|env q g van ps allowed now db0 Hi].
  - unfold admit_submission. destruct (validate_target q) as [[]|] eqn:Hq; [|apply operation_effect_refl].
    pose proof (transact_operation env (admit_transaction q work n now) db0) as H.
    destruct (transact _ _ _). apply H. intros db2 x. by apply admit_operation.
  - apply transact_operation. intros db2 x H. unfold remove_transaction in H. inv_ok. split; [constructor|left].
    cbn. unfold sql_delete. by intros k [_ ?]%lookup_delete_is_Some.
  - apply transact_operation. intros db2 x. apply observation_operation.
  - apply transact_operation. intros db2 x. apply observation_operation.
  - apply transact_operation. intros db2 x H. unfold ambiguous_retry_transaction in H. inv_ok. by eapply update_operation.
  - apply transact_operation. intros db2 x H. unfold recovery_retry_transaction in H. inv_ok. by eapply update_operation.
  - apply transact_operation. intros db2 x H. unfold confirm_committed_transaction in H. inv_ok.
    destruct (negb allowed); inv_ok; [apply operation_effect_refl|by eapply commit_operation].
  - apply transact_operation. intros db2 x H. unfold confirm_tree_transaction in H. inv_ok.
    destruct (negb allowed); inv_ok; [apply operation_effect_refl|by eapply commit_operation].
Qed.
End operations.

(** ** Histories *)

Section history.
Context `{HX : HexCrate, SH : Sha256Crate, RC : RoundIdCrates, RQ : RusqliteCrate, RS : RecoverySerde, PJ : PlanJson, WC : WalletCrates}.
Context `{B64 : Base64Crate}.
#[local] Existing Instances wallet_generation wallet_confirmation wallet_store.

Definition wallet_of (db : Database) : WalletTables := tables (domain db).

(** The submissions of a bundle's delegation. *)
Definition delegates (i : ChainSubmissionIdentity) : bool :=
  match target i with TargetDelegation | TargetDelegateAndVoteBatch _ => true | TargetVote _ | TargetVoteBatch _ => false end.

Definition same_place (i j : ChainSubmissionIdentity) : Prop :=
  wallet_id i = wallet_id j /\ vote_round_id i = vote_round_id j /\ bundle_index i = bundle_index j.

(** The rows a submission stands on: its round, on its network, and its bundle or vote. *)
Definition owned (w : WalletTables) (i : ChainSubmissionIdentity) : Prop :=
  rounds_table w !! (round_hex i, wallet_id i) = Some (network_name (network i))
  /\ match target i with
     | TargetDelegation | TargetDelegateAndVoteBatch _ => is_Some (bundle_at w (round_hex i) (wallet_id i) (bundle_index i))
     | TargetVote p => is_Some (vote_at w (round_hex i) (wallet_id i) (bundle_index i) p)
     | TargetVoteBatch _ => True
     end.

Definition on_record (db : Database) (i : ChainSubmissionIdentity) : Prop := identity_valid i /\ is_Some (submissions db !! key i).

Record database_ok (db : Database) : Prop := {
  db_table : table_ok (submissions db);
  db_wallet : wallet_ok (wallet_of db);
  db_owned : forall i, on_record db i -> owned (wallet_of db) i;
  db_single : forall i j, on_record db i -> on_record db j -> same_place i j -> delegates i = true -> delegates j = true -> i = j;
  db_combined : forall i row, identity_valid i -> submissions db !! key i = Some row -> is_combined (target i) = true ->
    row_state row <> "rejected"
}.

(** One step of the wallet: a store operation; a write of another component, which keeps
    the rows that submissions on record stand on; or the deletion of rounds, which takes
    their submissions with them. *)
Inductive wallet_step : Database -> Database -> Prop :=
| wallet_operation db db' : store_operation db db' -> wallet_step db db'
| wallet_other db (s : DomainState) :
    wallet_ok (tables s) -> (forall i, on_record db i -> owned (tables s) i) ->
    wallet_step db {| submissions := submissions db; domain := s |}
| wallet_delete_rounds db gone (s : DomainState) :
    wallet_ok (tables s) ->
    (forall i, on_record db i -> gone (round_hex i) (wallet_id i) = false -> owned (tables s) i) ->
    wallet_step db {| submissions := sql_delete_rounds (submissions db) gone; domain := s |}.

(** *** Admission *)

Lemma network_from_storage_Ok name n : network_from_storage name = Ok n -> name = network_name n.
Proof.
  unfold network_from_storage. intros H.
  destruct (String.eqb_spec name "mainnet") as [->|]; [by injection H as <-|].
  destruct (String.eqb_spec name "testnet") as [->|]; [by injection H as <-|].
  destruct (String.eqb_spec name "regtest") as [->|]; [by injection H as <-|done].
Qed.

Lemma identity_context_round w i round_id :
  validate_identity_context w i = Ok round_id ->
  round_id = round_hex i /\ rounds_table w !! (round_hex i, wallet_id i) = Some (network_name (network i)).
Proof.
  unfold validate_identity_context. intros H. apply result_bind_Ok in H as (n & Hn & H). inv_ok.
  cbn in Hn. unfold wallet_round_network in Hn. inv_ok. split; [done|]. by apply network_from_storage_Ok in Hn as <-.
Qed.

Lemma delegation_inputs_bundle (w : WalletTables) i round_id inputs :
  load_delegation_inputs w i round_id = Ok (Some inputs) -> is_Some (bundle_at w round_id (wallet_id i) (bundle_index i)).
Proof.
  unfold load_delegation_inputs. intros H. apply result_bind_Ok in H as (row & Hrow & H). cbn in Hrow.
  unfold wallet_delegation_row in Hrow. destruct (bundle_at _ _ _ _); [by eexists|]. injection Hrow as <-. done.
Qed.

(** A re-derived batch stands on its round and, when combined, on its bundle. *)
Lemma validated_batch_owned (w : WalletTables) i bound :
  validated_vote_batch w i = Ok bound -> owned w i.
Proof.
  unfold validated_vote_batch, owned. intros H. destruct (batch_digest (target i)) as [digest|] eqn:Hdigest; [|done].
  apply result_bind_Ok in H as (round_id & [-> Hround]%identity_context_round & H). split; [done|].
  apply result_bind_Ok in H as (rs & Hrs & H). destruct rs as [|first rs]; [done|]. cbv zeta in H.
  apply result_bind_Ok in H as ([] & Hkind%fail_if_Ok & H). apply result_bind_Ok in H as (ps & _ & H).
  apply result_bind_Ok in H as ([] & _ & H). apply result_bind_Ok in H as (g & Hg & _).
  destruct (target i) as [| |d|d]; try done. destruct (recovery_van first) as [van|]; [|done].
  apply result_bind_Ok in Hg as ([inputs|] & Hin & Hg); [|done]. by eapply delegation_inputs_bundle.
Qed.

(** A submission is derived from the rows it stands on. *)
Lemma derive_owned (w : WalletTables) q d :
  validate_target q = Ok tt -> derive w (derivation q) = Ok d -> owned w (request_identity q).
Proof.
  intros Htarget Hd. unfold validate_target, request_identity, derive in *. apply map_err_Ok in Hd.
  destruct (derivation q) as [i sig|i|i|i]; cbn [derivation_identity] in *.
  - unfold owned. destruct (target i); try done. unfold derive_delegation, generation_for_delegation, complete_generation_for_delegation in Hd.
    apply result_bind_Ok in Hd as (bound & Hd & _). apply result_bind_Ok in Hd as (o & Hd & Ho).
    apply result_bind_Ok in Hd as ([] & _ & Hd). apply result_bind_Ok in Hd as (round_id & [-> Hround]%identity_context_round & Hd).
    apply result_bind_Ok in Hd as ([inputs|] & Hin & Hd); [|by injection Hd as <-]. split; [done|]. by eapply delegation_inputs_bundle.
  - unfold owned. destruct (target i); try done. unfold derive_imported_delegation, generation_for_imported_delegation in Hd.
    apply result_bind_Ok in Hd as (bound & Hd & _). apply result_bind_Ok in Hd as ([] & _ & Hd).
    apply result_bind_Ok in Hd as (round_id & [-> Hround]%identity_context_round & Hd).
    apply result_bind_Ok in Hd as (row & Hrow & Hd). split; [done|]. cbn in Hrow. unfold wallet_imported_row in Hrow.
    destruct (bundle_at _ _ _ _); [by eexists|]. by injection Hrow as <-.
  - unfold owned. unfold derive_vote, validated_singleton_vote in Hd. destruct (target i) as [|p| |]; try done.
    apply result_bind_Ok in Hd as (bound & Hd & _). apply result_bind_Ok in Hd as (round_id & [-> Hround]%identity_context_round & Hd).
    split; [done|]. apply result_bind_Ok in Hd as (r & Hr & _). unfold load_validated_vote in Hr.
    apply result_bind_Ok in Hr as (found & _ & Hr). apply result_bind_Ok in Hr as (rec & _ & Hr).
    apply result_bind_Ok in Hr as (o & Ho & Hr). apply result_bind_Ok in Hr as (st & Hst%ok_or_Ok & _). subst o. cbn in Ho.
    unfold wallet_vote_row_state in Ho. destruct (vote_at _ _ _ _ _); [by eexists|done].
  - unfold derive_vote_batch in Hd. apply result_bind_Ok in Hd as (bound & Hd & _). by eapply validated_batch_owned.
Qed.

(** *** Preservation *)

Lemma writes_owned w w' i : writes w w' -> owned w i -> owned w' i.
Proof.
  intros [Hr Hb Hv _ _]. unfold owned, bundle_at, vote_at. rewrite Hr. intros [Hround Htarget]. split; [done|].
  destruct (target i); try done; [by apply Hb|by apply Hv|by apply Hb].
Qed.

Lemma domain_effect_writes (s s' : DomainState) : domain_effect s s' -> writes (tables s) (tables s').
Proof. intros [|b v s1 H|i d now s1 H]; [done|by eapply confirmed_generation_writes|by eapply retirement_writes]. Qed.

Lemma row_on_record db i row : identity_valid i -> submissions db !! key i = Some row -> on_record db i.
Proof. intros Hi Hr. split; [done|by exists row]. Qed.

(** The columns of a row are those of its identity. *)
Lemma record_columns t i row :
  table_ok t -> identity_valid i -> t !! key i = Some row -> exists r, represents i row r.
Proof.
  intros Ht Hi Hrow. destruct (table_typed _ Ht _ _ Hrow) as (j & r & Hk & Hj & Hrep).
  apply same_key in Hk as ->; [|done..]. by exists r.
Qed.

(** Admission adds no second submission of a delegation. *)
Lemma admitted_single db i j :
  database_ok db -> admitted db i -> on_record db j -> same_place i j ->
  delegates i = true -> delegates j = true -> i = j.
Proof.
  intros [Htable _ Howned _ Hcomb] [Hi (q & d & Hq & Htarget & Hd) Hguard Hsuc] [Hj [row Hrow]] (Hw & Hr & Hb) Hdi Hdj.
  assert (network i = network j) as Hnet.
  { apply network_name_inj. destruct (derive_owned _ _ _ Htarget Hd) as [H1 _]. rewrite Hq in H1.
    destruct (Howned j (row_on_record _ _ _ Hj Hrow)) as [H2 _]. unfold wallet_of, round_hex in *. rewrite Hw, Hr in H1.
    rewrite H2 in H1. congruence. }
  destruct (record_columns _ _ _ Htable Hj Hrow) as (r & Hrep).
  destruct (rep_identity _ _ _ Hrep) as (Er & Ew & En & Eb & Ek).
  assert (in_round_bundle i row = true) as Hplace.
  { unfold in_round_bundle, round_hex in *. rewrite Er, Ew, Eb, Hw, Hr, Hb. by rewrite !bool_decide_true. }
  unfold combined_guard in Hguard. unfold successor_guard in Hsuc. unfold delegates in Hdi.
  destruct (target i) as [| | |di] eqn:Hti; try done; cbn in Hguard, Hsuc.
  2: { apply result_bind_Ok in Hguard as (b & _ & Hfree%fail_if_Ok). apply orb_false_iff in Hfree as [_ Hfree].
       apply (any_row_false _ _ _ _ Hfree) in Hrow. congruence. }
  apply result_bind_Ok in Hsuc as ([] & Hpred%fail_if_Ok & Hconf%fail_if_Ok).
  unfold delegates in Hdj. destruct (target j) as [| | |dj] eqn:Htj; try done.
  { destruct i, j; cbn in *; congruence. }
  assert (in_bundle i row = true) as Hin. { unfold in_bundle. rewrite Hplace, En, Hnet. by rewrite bool_decide_true. }
  apply (any_row_false _ _ _ _ Hpred) in Hrow as H1. apply (any_row_false _ _ _ _ Hconf) in Hrow as H2.
  cbn beta in H1, H2. rewrite Hin in H1, H2. cbn in H1, H2.
  pose proof (Hcomb j row Hj Hrow) as Hnr. rewrite Htj in Hnr. specialize (Hnr eq_refl).
  rewrite (rep_state _ _ _ Hrep) in *.
  assert (row_kind row = "delegate_and_cast_vote_batch") as Hk by (cbn in Ek; congruence).
  rewrite Hk in H2. by destruct (stored_state r).
Qed.

(** What an operation leaves on record was there, or was admitted. *)
Lemma operation_on_record db db' :
  operation_effect db db' ->
  (forall i, on_record db' i -> on_record db i) \/
  (exists j, admitted db j /\ domain db' = domain db /\ forall i, on_record db' i -> on_record db i \/ i = j).
Proof.
  intros [_ [Hk|(j & Hj & Hd & Hk)]].
  - left. intros i [Hi ?]. split; [done|by apply Hk].
  - right. exists j. split; [done|]. split; [done|]. intros i [Hi Hsome]. destruct (Hk _ Hsome) as [?|E]; [by left|right].
    apply same_key; [done|by apply Hj|done].
Qed.

Lemma effect_combined t t' :
  effect t t' -> (forall i row, identity_valid i -> t !! key i = Some row -> is_combined (target i) = true -> row_state row <> "rejected") ->
  forall i row, identity_valid i -> t' !! key i = Some row -> is_combined (target i) = true -> row_state row <> "rejected".
Proof.
  intros Heff Hold i row Hi Hrow Hc. destruct Heff as [|j row' r Hj Hvj Hrep Hstate _|j old row' r r' Hj Hvj Hrep Hrep' _ _ Hkept _ _
    |j old r Hj Hvj Hrep Hs|j old r d Hj Hvj Hrep _ _].
  - by eapply Hold.
  - apply lookup_insert_Some in Hrow as [[E <-]|[_ ?]]; [|by eapply Hold]. by rewrite (rep_state _ _ _ Hrep).
  - apply lookup_insert_Some in Hrow as [[E%same_key <-]|[_ ?]]; [|done..|by eapply Hold]. subst j.
    rewrite (rep_state _ _ _ Hrep'). intros Hr. apply (Hold i old); [done..|]. rewrite (rep_state _ _ _ Hrep).
    apply Hkept; [done|]. by destruct (reloaded_columns r') as (_ & _ & E); rewrite <- E.
  - apply lookup_delete_Some in Hrow as [_ ?]. by eapply Hold.
  - apply lookup_delete_Some in Hrow as [_ ?]. by eapply Hold.
Qed.

Lemma operation_ok db db' : database_ok db -> store_operation db db' -> database_ok db'.
Proof.
  intros Hok Hop. pose proof (store_operation_effect _ _ (db_table _ Hok) Hop) as Heff.
  pose proof (store_operation_keys _ _ Hop) as Heffect. pose proof (operation_on_record _ _ Heffect) as Hrec.
  pose proof (domain_effect_writes _ _ (operation_domain _ _ Heffect)) as Hw. split.
  - eapply effect_ok; [apply Hok|done].
  - eapply writes_ok; [exact Hw|apply Hok].
  - intros i Hi. destruct Hrec as [Hsub|(j & Hj & Hd & Hsub)]; [eapply writes_owned; [exact Hw|by apply Hok, Hsub]|].
    destruct (Hsub i Hi) as [?| ->]; [eapply writes_owned; [exact Hw|by apply Hok]|]. unfold wallet_of. rewrite Hd.
    destruct (admitted_derives _ _ Hj) as (q & d & <- & Htarget & Hder). by eapply derive_owned.
  - intros i j Hi Hj Hplace Hdi Hdj. destruct Hrec as [Hsub|(x & Hx & _ & Hsub)]; [by eapply Hok; auto|].
    destruct (Hsub i Hi) as [Hi'|Ei], (Hsub j Hj) as [Hj'|Ej]; [by eapply Hok|subst j|subst i|congruence].
    + symmetry. eapply admitted_single; try done. destruct Hplace as (? & ? & ?). by split_and!.
    + by eapply admitted_single.
  - eapply effect_combined; [exact Heff|apply Hok].
Qed.

Lemma on_record_filter db gone s i :
  table_ok (submissions db) -> on_record {| submissions := sql_delete_rounds (submissions db) gone; domain := s |} i ->
  on_record db i /\ gone (round_hex i) (wallet_id i) = false.
Proof.
  intros Ht [Hi [row Hrow]]. cbn in Hrow. apply map_lookup_filter_Some in Hrow as [Hrow Hne]. cbn in Hne.
  split; [by eapply row_on_record|]. destruct (record_columns _ _ _ Ht Hi Hrow) as (r & Hrep).
  destruct (rep_identity _ _ _ Hrep) as (Er & Ew & _). by rewrite Er, Ew in Hne.
Qed.

Lemma wallet_step_ok db db' : database_ok db -> wallet_step db db' -> database_ok db'.
Proof.
  intros Hok Hstep. destruct Hstep as [db db' Hop|db s Hs Howned|db gone s Hs Howned].
  - by eapply operation_ok.
  - destruct Hok. by split.
  - pose proof (fun i => on_record_filter db gone s i (db_table _ Hok)) as Hrec. split.
    + eapply table_ok_subseteq; [|apply Hok]. cbn. apply map_filter_subseteq.
    + done.
    + intros i [? ?]%Hrec. by apply Howned.
    + intros i j [Hi _]%Hrec [Hj _]%Hrec. by apply Hok.
    + intros i row Hi Hrow. cbn in Hrow. apply map_lookup_filter_Some in Hrow as [Hrow _]. by eapply Hok.
Qed.

(** Every database a new wallet's history leads to. *)
Lemma wallet_history_ok dom db :
  wallet_ok (tables dom) -> rtc wallet_step (empty_database dom) db -> database_ok db.
Proof.
  intros Hw. assert (database_ok (empty_database dom)) as H0.
  { split; cbn; [apply table_ok_empty|done|..].
    - intros i [_ [row Hrow]]. by cbn in Hrow; rewrite lookup_empty in Hrow.
    - intros i j [_ [row Hrow]]. by cbn in Hrow; rewrite lookup_empty in Hrow.
    - intros i row _ Hrow. by rewrite lookup_empty in Hrow. }
  intros H. revert H0. induction H as [|db1 db2 db3 Hstep _ IH]; [done|]. intros Hok. apply IH. by eapply wallet_step_ok.
Qed.
End history.
