(* ===== verification/RoundLoading.v ===== *)
(** * Reading a round

    Models the read transaction of round planning: [phases.rs] with
    [phases/authoritative_batch.rs] (the phases of delegations, votes and shares from their
    rows and the authoritative submissions), the share records of
    [storage/queries/share_delegations.rs] with [ShareDeliveryState] of [share.rs], the
    ballot of [session.rs], the rejection ledger of [storage/queries/mod.rs], and
    [load_round_snapshot] of [round_planning/snapshot.rs].  A LEFT JOIN yields a row for
    every matching submission and one without when there is none. *)

From S2P Require Import Prelude Sorting Types Diagnostics SubmissionState Identity Generation Confirmation StoreRow StoreRowFacts.
From S2P Require Import Store Protocol LifecyclePlanning ShareTiming SharePlacement Ballot Phases ShareDelivery RoundSnapshot RoundPlanning.
From S2P Require Import VoteRecovery WalletTables.

Section loading.
Context `{HX : HexCrate, SH : Sha256Crate, RC : RoundIdCrates, RQ : RusqliteCrate, RS : RecoverySerde, PJ : PlanJson, WC : WalletCrates}.
Context `{UC : UrlCrate, UT : UrlTexts}.
#[local] Existing Instances wallet_generation wallet_confirmation wallet_store.

Abbreviation wallet_of db := (tables (domain db) : WalletTables) (only parsing).

(** ** Phases *)

Definition stored_submission_diagnostic (kind : option string) (message : option text) :
  result VotingError (option ChainSubmissionDiagnostic) :=
  match kind, message with
  | None, None => Ok None
  | Some kind, Some message =>
      kind' ← ok_or (from_stable_name kind)
        (VeInternal (chars "chain submission row stores unknown diagnostic kind " ++ debug_text (chars kind)));
      Ok (Some (from_redacted_message kind' message))
  | _, _ =>
      Err (VeInternal (chars "chain submission row stores a diagnostic kind without a message or a message without a kind"))
  end.

(** LEFT JOIN of one row with the submissions that match it. *)
Definition left_join (rows : list Row) (matches : Row -> bool) : list (option Row) :=
  match List.filter matches rows with [] => [None] | found => map Some found end.

(** Bundle rows of one round, by index. *)
Definition round_bundles (w : WalletTables) (round_id wallet : string) : list (Z * BundleColumns) :=
  sort_by (fun x y : Z * BundleColumns => (x.1 <=? y.1)%Z)
    (omap (fun entry : (string * string * Z) * BundleColumns =>
             let '((r, wa, b), bundle) := entry in
             if bool_decide (r = round_id) && bool_decide (wa = wallet) then Some (b, bundle) else None)
       (map_to_list (bundles_table w))).

Definition delegation_joins (db : Database) (wallet round_id : string) : list (Z * BundleColumns * option Row) :=
  concat (map (fun entry : Z * BundleColumns =>
                 map (pair entry)
                   (left_join (round_rows (submissions db) wallet round_id)
                      (fun row => bool_decide (row_bundle_index row = entry.1)
                                  && kind_is row ["delegation"; "delegate_and_cast_vote_batch"])))
            (round_bundles (wallet_of db) round_id wallet)).

Definition delegation_status (w : WalletTables) (wallet round_id : string) (row : Z * BundleColumns * option Row) :
  result VotingError DelegationSubmissionStatus :=
  let '(b, bundle, submission) := row in
  let proved := match proofs_table w !! (round_id, wallet, b) with
                | Some proof => bool_decide (col_success proof = 1)%Z
                | None => false
                end in
  diagnostic ← stored_submission_diagnostic (submission ≫= row_diagnostic_kind) (submission ≫= row_diagnostic);
  Ok {| status_bundle_index := as_u32 b;
        status_phase := phase_from_columns (is_some (col_pczt_sighash bundle) || is_some (col_rk bundle)) proved
                          (is_some (col_delegation_tx_hash bundle)) (is_some (col_van_leaf_position bundle))
                          (row_state <$> submission);
        status_diagnostic := diagnostic |}.

Definition delegation_submission_statuses (db : Database) (wallet round_id : string) :
  result VotingError (list DelegationSubmissionStatus) :=
  collect_results (delegation_status (wallet_of db) wallet round_id) (delegation_joins db wallet round_id).

(** *** Authoritative batches *)

Record AuthoritativeBatchMember : Type := {
  batch_member_phase : VotePhase;
  batch_member_diagnostic : option ChainSubmissionDiagnostic;
  batch_member_digest : bytes32
}.

(** Proposals may be claimed once. *)
Definition claim_proposal (round_id : string) (b : N) (member : AuthoritativeBatchMember)
  (phases : gmap (N * N) AuthoritativeBatchMember) (p : N) : result VotingError (gmap (N * N) AuthoritativeBatchMember) :=
  _ ← fail_if (bool_decide (is_Some (phases !! (b, p))))
        (VeInternal (chars "vote belongs to multiple authoritative batches for " ++ vote_place round_id b p));
  Ok (<[(b, p) := member]> phases).

(** One batch row with its digest: its members are those its generation is re-derived from. *)
Definition batch_row_phases (w : WalletTables) (wallet round_id : string) (network : Network) (round_bytes : bytes32)
  (phases : gmap (N * N) AuthoritativeBatchMember) (entry : Row * bytes) : result VotingError (gmap (N * N) AuthoritativeBatchMember) :=
  let '(row, digest) := entry in
  match authoritative_submission_phase (Some (row_state row)) with
  | None => Ok phases
  | Some phase =>
      b ← ok_or (u32_try_from (row_bundle_index row))
        (VeInternal (chars "authoritative vote batch has invalid bundle index " ++ decimal_Z (row_bundle_index row)));
      ordered_batch_digest ← ok_or (try_into_bytes32 digest)
        (VeInternal (chars "authoritative vote batch digest must be 32 bytes, got " ++ decimal_nat (length digest)));
      diagnostic ← stored_submission_diagnostic (row_diagnostic_kind row) (row_diagnostic row);
      identity ← map_err (fun e => VeInternal (chars "invalid authoritative vote batch identity: " ++ identity_error_text e))
        (identity_new pallas_canonical wallet network round_bytes b
           (if String.eqb (row_kind row) "delegate_and_cast_vote_batch"
            then TargetDelegateAndVoteBatch ordered_batch_digest else TargetVoteBatch ordered_batch_digest));
      bound ← validated_vote_batch w identity;
      _ ← fail_if (negb (bool_decide (row_generation_digest row = bytes32_bytes (generation_digest (bound_generation bound.1)))))
        (VeInternal (chars "authoritative vote batch generation digest does not match persisted members for "
           ++ bundle_place round_id b));
      fold_results
        (claim_proposal round_id b
           {| batch_member_phase := phase; batch_member_diagnostic := diagnostic; batch_member_digest := ordered_batch_digest |})
        phases (ordered_proposal_ids bound.1)
  end.

Definition selects_bundle (bundle_index : option N) (b : Z) : bool :=
  match bundle_index with None => true | Some n => bool_decide (b = Z.of_N n) end.

Definition load_authoritative_batch_phases (db : Database) (wallet round_id : string) (bundle_index : option N) :
  result VotingError (gmap (N * N) AuthoritativeBatchMember) :=
  let rows := List.filter (fun row => kind_is row ["vote_batch"; "delegate_and_cast_vote_batch"]
                                      && selects_bundle bundle_index (row_bundle_index row))
                (round_rows (submissions db) wallet round_id) in
  batch_rows ← collect_results
    (fun row => digest ← ok_or (row_ordered_batch_digest row)
                  (VeInternal (chars "failed to read authoritative vote batch: " ++ null_column_text 1));
                Ok (row, digest)) rows;
  match batch_rows with
  | [] => Ok ∅
  | _ =>
      round_bytes ← ok_or (round_bytes_of round_id)
        (VeInternal (chars "authoritative vote batch has noncanonical round id " ++ chars round_id));
      network ← wallet_round_network (wallet_of db) round_id wallet;
      fold_results (batch_row_phases (wallet_of db) wallet round_id network round_bytes) ∅ batch_rows
  end.

(** *** Votes *)

Record VoteSubmissionStatus : Type := {
  vote_status_bundle_index : N;
  vote_status_proposal_id : N;
  vote_status_phase : VotePhase;
  vote_status_diagnostic : option ChainSubmissionDiagnostic;
  vote_status_batch_digest : option bytes32
}.

(** The phase of one vote row, joined with a submission of its own. *)
Definition vote_status (round_id : string) (batch_members : gmap (N * N) AuthoritativeBatchMember)
  (row : Z * Z * VoteColumns * option Row) : result VotingError VoteSubmissionStatus :=
  let '(b, p, vote, singleton) := row in
  let b := as_u32 b in let p := as_u32 p in
  let singleton_phase := authoritative_submission_phase (row_state <$> singleton) in
  let batch_member := batch_members !! (b, p) in
  _ ← fail_if (is_some singleton_phase && is_some batch_member)
        (VeInternal (chars "vote has overlapping authoritative singleton and batch submissions for " ++ vote_place round_id b p));
  outcome ← match singleton_phase, batch_member with
            | Some phase, _ =>
                diagnostic ← stored_submission_diagnostic (singleton ≫= row_diagnostic_kind) (singleton ≫= row_diagnostic);
                Ok (phase, diagnostic, None)
            | None, Some member =>
                Ok (batch_member_phase member, batch_member_diagnostic member, Some (batch_member_digest member))
            | None, None =>
                Ok (vote_phase_from_columns (is_some (col_tx_hash vote)) (is_some (col_vc_tree_position vote))
                      (is_some (col_commitment_bundle_json vote)), None, None)
            end;
  Ok {| vote_status_bundle_index := b; vote_status_proposal_id := p; vote_status_phase := outcome.1.1;
        vote_status_diagnostic := outcome.1.2; vote_status_batch_digest := outcome.2 |}.

Definition vote_joins (db : Database) (wallet round_id : string) (bundle_index proposal_id : option N) :
  list (Z * Z * VoteColumns * option Row) :=
  concat (map (fun entry : Z * Z * VoteColumns =>
                 map (pair entry)
                   (left_join (round_rows (submissions db) wallet round_id)
                      (fun row => bool_decide (row_bundle_index row = entry.1.1) && kind_is row ["vote"]
                                  && bool_decide (row_proposal_id row = Some entry.1.2))))
            (List.filter (fun entry => selects_bundle bundle_index entry.1.1 && selects_bundle proposal_id entry.1.2)
               (round_votes_in_order (wallet_of db) round_id wallet))).

Definition load_vote_submission_statuses (db : Database) (wallet round_id : string) (bundle_index proposal_id : option N) :
  result VotingError (list VoteSubmissionStatus) :=
  batch_members ← load_authoritative_batch_phases db wallet round_id bundle_index;
  collect_results (vote_status round_id batch_members) (vote_joins db wallet round_id bundle_index proposal_id).

(** *** Shares *)

(** Share rows of one round, ordered by [leb] on their keys. *)
Definition round_share_rows (w : WalletTables) (round_id wallet : string) (leb : Z * Z * Z -> Z * Z * Z -> bool) :
  list (Z * Z * Z * ShareColumns) :=
  sort_by (fun x y : Z * Z * Z * ShareColumns => leb x.1 y.1)
    (omap (fun entry : (string * string * Z * Z * Z) * ShareColumns =>
             let '((r, wa, b, p, i), share) := entry in
             if bool_decide (r = round_id) && bool_decide (wa = wallet) then Some (b, p, i, share) else None)
       (map_to_list (shares_table w))).

Definition lex_leb (x y : list Z) : bool :=
  (fix lex x y := match x, y with
                  | a :: x', b :: y' => (a <? b)%Z || ((a =? b)%Z && lex x' y')
                  | _, _ => true
                  end) x y.

Definition share_phases_of (w : WalletTables) (wallet round_id : string) : list (N * N * N * SharePhase) :=
  map (fun row : Z * Z * Z * ShareColumns =>
         let '(b, p, i, share) := row in
         (as_u32 b, as_u32 p, as_u32 i, if negb (bool_decide (col_confirmed share = 0)%Z) then ShareConfirmed else ShareSubmitted))
    (round_share_rows w round_id wallet (fun x y => lex_leb [x.1.1; x.1.2; x.2] [y.1.1; y.1.2; y.2])).

(** The canonical entries of a stored helper list, each once; others are kept aside. *)
Fixpoint stored_helper_urls (canonical : list url) (urls : list url) : list url :=
  match urls with
  | [] => canonical
  | u :: rest =>
      match canonicalize_helper_base_url u with
      | Ok u' => stored_helper_urls (if bool_decide (u' ∈ canonical) then canonical else canonical ++ [u']) rest
      | Err _ => stored_helper_urls canonical rest
      end
  end.

Record ShareDeliveryState : Type := {
  accepted_urls : list url;
  outcome_unknown_urls : list url;
  in_flight_urls : list url
}.

Definition mark_accepted_canonical (s : ShareDeliveryState) (u : url) : ShareDeliveryState :=
  {| accepted_urls := if bool_decide (u ∈ accepted_urls s) then accepted_urls s else accepted_urls s ++ [u];
     outcome_unknown_urls := filter (fun c => c <> u) (outcome_unknown_urls s);
     in_flight_urls := filter (fun c => c <> u) (in_flight_urls s) |}.

Definition mark_outcome_unknown_canonical (s : ShareDeliveryState) (u : url) : ShareDeliveryState :=
  {| accepted_urls := accepted_urls s;
     outcome_unknown_urls := if bool_decide (u ∈ accepted_urls s) || bool_decide (u ∈ outcome_unknown_urls s)
                             then outcome_unknown_urls s else outcome_unknown_urls s ++ [u];
     in_flight_urls := filter (fun c => c <> u) (in_flight_urls s) |}.

Definition delivery_contains (s : ShareDeliveryState) (u : url) : bool :=
  bool_decide (u ∈ accepted_urls s) || bool_decide (u ∈ outcome_unknown_urls s) || bool_decide (u ∈ in_flight_urls s).

Definition begin_in_flight (s : ShareDeliveryState) (u : url) : ShareDeliveryState :=
  if delivery_contains s u then s
  else {| accepted_urls := accepted_urls s; outcome_unknown_urls := outcome_unknown_urls s;
          in_flight_urls := in_flight_urls s ++ [u] |}.

(** [ShareDeliveryState::from_url_lists], with [merge_persisted_report]. *)
Definition from_url_lists (accepted unknown in_flight : list url) : result VotingError ShareDeliveryState :=
  accepted ← canonical_helper_url_list accepted;
  let s := foldl mark_accepted_canonical {| accepted_urls := []; outcome_unknown_urls := []; in_flight_urls := [] |} accepted in
  unknown ← canonical_helper_url_list unknown;
  let s := foldl mark_outcome_unknown_canonical s unknown in
  in_flight ← canonical_helper_url_list in_flight;
  Ok (foldl begin_in_flight s in_flight).

Definition share_key_column (index : nat) (value : Z) : result VotingError N :=
  ok_or (u32_try_from value) (VeInternal (chars "failed to read share delegation row: " ++ out_of_range_text index value)).

Definition stored_url_list (name : string) (json : text) : result VotingError (list url) :=
  map_err (fun e => VeInternal (chars "failed to deserialize " ++ chars name ++ chars ": " ++ e)) (urls_from_json json).

(** One row of [load_share_delegations]. *)
Definition share_record (round_id : string) (row : Z * Z * Z * ShareColumns) : result VotingError ShareDelegationRecord :=
  let '(b, p, i, share) := row in
  b ← share_key_column 0 b;
  p ← share_key_column 1 p;
  i ← share_key_column 2 i;
  sent ← stored_url_list "sent_to_urls" (col_sent_to_urls share);
  ambiguous ← stored_url_list "ambiguous_urls" (col_ambiguous_urls share);
  attempting ← stored_url_list "attempting_urls" (col_attempting_urls share);
  state ← from_url_lists (stored_helper_urls [] sent) (stored_helper_urls [] ambiguous) (stored_helper_urls [] attempting);
  Ok {| share_round_id := round_id; share_bundle_index := b; share_proposal_id := p; ShareTiming.share_index := i;
        sent_to_urls := accepted_urls state; ambiguous_urls := outcome_unknown_urls state;
        attempting_urls := in_flight_urls state; share_target_count := col_target_count share;
        share_nullifier := col_nullifier share; share_confirmed := negb (bool_decide (col_confirmed share = 0)%Z);
        submit_at := col_submit_at share; ShareTiming.created_at := col_share_created_at share |}.

Definition get_share_delegations (w : WalletTables) (round_id wallet : string) : result VotingError (list ShareDelegationRecord) :=
  collect_results (share_record round_id)
    (round_share_rows w round_id wallet (fun x y => lex_leb [x.1.2; x.2; x.1.1] [y.1.2; y.2; y.1.1])).

(** ** Rejection ledger *)

Record CombinedRejectionLedgerRow : Type := {
  ledger_bundle_index : N;
  ledger_generation_digest : bytes32;
  ledger_consecutive_rejections : N;
  ledger_diagnostic : ChainSubmissionDiagnostic
}.

Definition ledger_row (entry : N * RejectionRow) : result VotingError CombinedRejectionLedgerRow :=
  diagnostic ← stored_submission_diagnostic (Some (last_diagnostic_kind entry.2)) (Some (last_diagnostic entry.2));
  diagnostic ← ok_or diagnostic (VeInternal (chars "combined rejection ledger stores no diagnostic"));
  Ok {| ledger_bundle_index := entry.1; ledger_generation_digest := delegation_generation_digest entry.2;
        ledger_consecutive_rejections := default u32_max (u32_try_from (consecutive_rejections entry.2));
        ledger_diagnostic := diagnostic |}.

Definition combined_rejection_ledger_rows (l : RejectionLedger) (round_id wallet : string) :
  result VotingError (list CombinedRejectionLedgerRow) :=
  collect_results ledger_row
    (sort_by (fun x y : N * RejectionRow => (x.1 <=? y.1)%N)
       (omap (fun entry : (string * string * N) * RejectionRow =>
                let '((r, wa, b), row) := entry in
                if bool_decide (r = round_id) && bool_decide (wa = wallet) then Some (b, row) else None)
          (map_to_list l))).

(** One capped bundle: blocked while its delegation generation is the rejected one. *)
Definition block_bundle (w : WalletTables) (wallet : string) (network : Network) (round_bytes : bytes32)
  (blocked : gmap N ChainSubmissionDiagnostic) (row : CombinedRejectionLedgerRow) : result VotingError (gmap N ChainSubmissionDiagnostic) :=
  identity ← map_err (fun e => VeInternal (chars "combined rejection ledger names an unusable identity: " ++ identity_error_text e))
    (identity_new pallas_canonical wallet network round_bytes (ledger_bundle_index row) TargetDelegation);
  current ← complete_generation_for_delegation w identity;
  Ok (match current with
      | Some bound =>
          if bool_decide (generation_digest (bound_generation bound) = ledger_generation_digest row)
          then <[ledger_bundle_index row := ledger_diagnostic row]> blocked else blocked
      | None => blocked
      end).

Definition load_rejection_blocked_bundles (db : Database) (wallet round_id : string) :
  result VotingError (gmap N ChainSubmissionDiagnostic) :=
  rows ← combined_rejection_ledger_rows (ledger (domain db)) round_id wallet;
  match List.filter (fun row => combined_rejections_block_bundle (ledger_consecutive_rejections row)) rows with
  | [] => Ok ∅
  | capped =>
      round_bytes ← ok_or (round_bytes_of round_id)
        (VeInternal (chars "combined rejection ledger belongs to a malformed round id"));
      network ← wallet_round_network (wallet_of db) round_id wallet;
      fold_results (block_bundle (wallet_of db) wallet network round_bytes) ∅ capped
  end.

(** ** The snapshot *)

Definition bundle_planning_rows (w : WalletTables) (round_id wallet : string) : gmap N BundleSnapshot :=
  list_to_map (reverse (map (fun entry : Z * BundleColumns =>
    (as_u32 entry.1, {| capability_imported := is_none (col_note_positions_blob entry.2);
                        bundle_delegation_tx_hash := col_delegation_tx_hash entry.2 |}))
    (round_bundles w round_id wallet))).

Definition ballot_decision (entry : Z * IntentColumns) : result VotingError (N * Decision) :=
  decision ← if negb (bool_decide (col_skipped entry.2 = 0)%Z) then Ok Skipped
             else choice ← ok_or (col_intent_choice entry.2) (VeStorage (chars "collect ballot_intents: " ++ sql_error_text SqlInvalidQuery));
                  Ok (Choice (as_u32 choice));
  Ok (as_u32 entry.1, decision).

Definition load_ballot_intents (w : WalletTables) (round_id wallet : string) : result VotingError (list (N * Decision)) :=
  collect_results ballot_decision
    (sort_by (fun x y : Z * IntentColumns => (x.1 <=? y.1)%Z)
       (omap (fun entry : (string * string * Z) * IntentColumns =>
                let '((r, wa, p), intent) := entry in
                if bool_decide (r = round_id) && bool_decide (wa = wallet) then Some (p, intent) else None)
          (map_to_list (intents_table w)))).

Definition load_round_immediate_share (w : WalletTables) (round_id wallet : string) : option ImmediateShareKey :=
  (fun key : Z * Z * Z => {| immediate_bundle_index := as_u32 key.1.1; immediate_proposal_id := as_u32 key.1.2;
                             immediate_share_index := as_u32 key.2 |})
  <$> immediate_table w !! (round_id, wallet).

(** One vote row of the snapshot. *)
Definition snapshot_vote (round_id : string) (phases : gmap (N * N) VotePhase) (votes : gmap (N * N) VoteSnapshot)
  (row : Z * Z * VoteColumns) : result VotingError (gmap (N * N) VoteSnapshot) :=
  let '(b, p, vote) := row in
  let b := as_u32 b in let p := as_u32 p in
  phase ← ok_or (phases !! (b, p)) (VeInternal (chars "vote row without a canonical phase for " ++ vote_place round_id b p));
  recovery ← match col_commitment_bundle_json vote with
             | Some json => recovery ← parse_recovery json; Ok (Some recovery)
             | None => Ok None
             end;
  Ok (<[(b, p) := {| RoundSnapshot.vote_choice := as_u32 (col_choice vote); vote_phase := phase;
                     vote_tx_hash_column := col_tx_hash vote; vote_vc_tree_position := col_vc_tree_position vote;
                     vote_recovery := recovery |}]> votes).

Definition load_round_snapshot (db : Database) (wallet round_id : string) : result VotingError RoundSnapshot :=
  delegations ← delegation_submission_statuses db wallet round_id;
  blocked ← load_rejection_blocked_bundles db wallet round_id;
  statuses ← load_vote_submission_statuses db wallet round_id None None;
  let phases : gmap (N * N) VotePhase :=
    list_to_map (reverse (map (fun s => ((vote_status_bundle_index s, vote_status_proposal_id s), vote_status_phase s)) statuses)) in
  votes ← fold_results (snapshot_vote round_id phases) ∅ (round_votes_in_order (wallet_of db) round_id wallet);
  shares ← get_share_delegations (wallet_of db) round_id wallet;
  intents ← load_ballot_intents (wallet_of db) round_id wallet;
  hashes ← lifecycle_transaction_hashes (submissions db) wallet round_id;
  Ok {| snapshot_round_id := round_id; delegations := delegations; bundles := bundle_planning_rows (wallet_of db) round_id wallet;
        votes := votes; shares := shares; share_phases := share_phases_of (wallet_of db) wallet round_id;
        intents := list_to_map (reverse intents); lifecycle_hashes := hashes;
        persisted_immediate_share := load_round_immediate_share (wallet_of db) round_id wallet;
        rejection_blocked_bundles := blocked |}.
End loading.
