(* ===== verification/RoundReading.v ===== *)
(** * What a loaded round says of the tables

    Facts about [RoundLoading]: a snapshot has exactly the bundle and vote rows of the
    round, in phases read from the one submission on record for each, and it satisfies what
    planning relies on ([snapshot_ok]). *)

From S2P Require Import Prelude Sorting Types Diagnostics SubmissionState Identity Generation Confirmation StoreRow StoreRowFacts.
From S2P Require Import Store StoreFacts StoreInvariant Protocol LifecyclePlanning ShareTiming SharePlacement Ballot Phases ShareDelivery.
From S2P Require Import RoundSnapshot RoundUnits RoundPlanning RoundRules RoundRuleTable RoundClassification.
From S2P Require Import VoteRecovery WalletTables WalletFacts WalletHistory RoundLoading.

(** ** Lists *)

Lemma elem_of_left_join rows matches o :
  o ∈ left_join rows matches <->
  match o with
  | Some row => row ∈ rows /\ matches row = true
  | None => forall row, row ∈ rows -> matches row = false
  end.
Proof.
  unfold left_join. assert (forall row, row ∈ List.filter matches rows <-> row ∈ rows /\ matches row = true) as Hf.
  { intros row. by rewrite !list_elem_of_In, filter_In. }
  destruct (List.filter matches rows) as [|x l] eqn:E.
  - rewrite list_elem_of_singleton. destruct o as [row|].
    + rewrite <- Hf. split; [done|]. intros H. by apply elem_of_nil in H.
    + split; [|done]. intros _ row Hin. apply not_true_iff_false. intros Hm. assert (row ∈ []) as H by (by apply Hf). by apply elem_of_nil in H.
  - destruct o as [row|].
    + rewrite <- Hf, list_elem_of_fmap. split; [by intros (? & [= <-] & ?)|by exists row].
    + split; [by intros (? & ? & _)%list_elem_of_fmap|]. intros H. destruct (proj1 (Hf x)) as [Hin Hm]; [by left|].
      rewrite (H x Hin) in Hm. done.
Qed.

Lemma left_join_nonempty rows matches : exists o, o ∈ left_join rows matches.
Proof. unfold left_join. destruct (List.filter matches rows) as [|x l]; [exists None|exists (Some x)]; by left. Qed.

Lemma collected {E A B} (f : A -> result E B) l bs :
  collect_results f l = Ok bs ->
  (forall b, b ∈ bs -> exists a, a ∈ l /\ f a = Ok b) /\ (forall a, a ∈ l -> exists b, b ∈ bs /\ f a = Ok b).
Proof.
  intros H%collect_results_Ok. split.
  - intros b [i Hi]%list_elem_of_lookup. destruct (Forall2_lookup_r _ _ _ _ _ H Hi) as (a & Ha & ?). exists a. split; [|done].
    by eapply list_elem_of_lookup_2.
  - intros a [i Hi]%list_elem_of_lookup. destruct (Forall2_lookup_l _ _ _ _ _ H Hi) as (b & Hb & ?). exists b. split; [|done].
    by eapply list_elem_of_lookup_2.
Qed.

(** A map collected from a list, later entries replacing earlier ones. *)
Lemma collected_map_Some {K V} `{Countable K} (l : list (K * V)) k v :
  (list_to_map (reverse l) : gmap K V) !! k = Some v -> (k, v) ∈ l.
Proof. intros Hk%elem_of_list_to_map_2. by rewrite elem_of_reverse in Hk. Qed.

Lemma collected_map_is_Some {K V} `{Countable K} (l : list (K * V)) k v :
  (k, v) ∈ l -> is_Some ((list_to_map (reverse l) : gmap K V) !! k).
Proof.
  intros Hin. destruct (_ !! k) eqn:E; [by eexists|]. apply not_elem_of_list_to_map in E. destruct E.
  apply list_elem_of_fmap. exists (k, v). split; [done|]. by rewrite elem_of_reverse.
Qed.

Section reading.
Context `{HX : HexCrate, SH : Sha256Crate, RC : RoundIdCrates, RQ : RusqliteCrate, RS : RecoverySerde, PJ : PlanJson, WC : WalletCrates}.
Context `{UC : UrlCrate, UT : UrlTexts, B64 : Base64Crate}.
#[local] Existing Instances wallet_generation wallet_confirmation wallet_store.

(** ** Rows of a round *)

Lemma elem_of_round_bundles w round_id wallet b bundle :
  (b, bundle) ∈ round_bundles w round_id wallet <-> bundles_table w !! (round_id, wallet, b) = Some bundle.
Proof.
  unfold round_bundles. rewrite elem_of_sort_by, list_elem_of_omap. split.
  - intros ([[[r wa] b'] x] & Hin & H). case_bool_decide as Hr; [|done]. case_bool_decide as Hw; [|done].
    cbn in H. injection H as -> ->. subst. by apply elem_of_map_to_list.
  - intros H. exists ((round_id, wallet, b), bundle). split; [by apply elem_of_map_to_list|].
    rewrite !bool_decide_true by done. done.
Qed.

Lemma elem_of_round_votes w round_id wallet b p vote :
  (b, p, vote) ∈ round_votes_in_order w round_id wallet <-> votes_table w !! (round_id, wallet, b, p) = Some vote.
Proof.
  unfold round_votes_in_order. rewrite elem_of_sort_by, list_elem_of_omap. split.
  - intros ([[[[r wa] b'] p'] x] & Hin & H). case_bool_decide as Hr; [|done]. case_bool_decide as Hw; [|done].
    cbn in H. injection H as -> -> ->. subst. by apply elem_of_map_to_list.
  - intros H. exists ((round_id, wallet, b, p), vote). split; [by apply elem_of_map_to_list|].
    rewrite !bool_decide_true by done. done.
Qed.

Lemma elem_of_round_shares w round_id wallet leb b p i share :
  (b, p, i, share) ∈ round_share_rows w round_id wallet leb -> shares_table w !! (round_id, wallet, b, p, i) = Some share.
Proof.
  unfold round_share_rows. rewrite elem_of_sort_by, list_elem_of_omap.
  intros ([[[[[r wa] b'] p'] i'] x] & Hin & H). case_bool_decide as Hr; [|done]. case_bool_decide as Hw; [|done].
  cbn in H. injection H as -> -> -> ->. subst. by apply elem_of_map_to_list.
Qed.

Lemma NoDup_round_shares w round_id wallet leb : NoDup (map fst (round_share_rows w round_id wallet leb)).
Proof.
  unfold round_share_rows. rewrite sort_by_Permutation. pose proof (NoDup_fst_map_to_list (shares_table w)) as Hnd.
  induction (map_to_list (shares_table w)) as [|[[[[[r wa] b] p] i] x] l IH]; [constructor|]. apply NoDup_cons in Hnd as [Hnew Hnd].
  cbn. case_bool_decide as Hr; [|by apply IH]. case_bool_decide as Hw; [|by apply IH]. cbn. apply NoDup_cons. split; [|by apply IH].
  intros ([[[b' p'] i'] y] & E & Hin)%list_elem_of_fmap. cbn in E. injection E as <- <- <-. apply Hnew.
  apply list_elem_of_omap in Hin as ([[[[[r' wa'] b'] p'] i'] z] & Hin & H). case_bool_decide as Hr'; [|done]. case_bool_decide as Hw'; [|done].
  cbn in H. injection H as -> -> -> ->. subst. apply list_elem_of_fmap. by exists ((round_id, wallet, b, p, i), y).
Qed.

Lemma share_phases_keys w wallet round_id : wallet_ok w -> NoDup (map fst (share_phases_of w wallet round_id)).
Proof.
  intros Hw. unfold share_phases_of. rewrite map_map. set (leb := fun _ _ => _).
  pose proof (NoDup_round_shares w round_id wallet leb) as Hnd.
  assert (forall row, row ∈ round_share_rows w round_id wallet leb -> is_u32 row.1.1.1 /\ is_u32 row.1.1.2 /\ is_u32 row.1.2) as Hkeys.
  { intros [[[b p] i] x] Hin%elem_of_round_shares. by eapply (ok_share_keys _ Hw), mk_is_Some. }
  induction (round_share_rows w round_id wallet leb) as [|[[[b p] i] x] l IH]; [constructor|]. cbn. apply NoDup_cons in Hnd as [Hnew Hnd].
  apply NoDup_cons. split; [|apply IH; [done|]; intros row Hrow; apply Hkeys; by right].
  intros ([[[b' p'] i'] y] & E & Hin)%list_elem_of_fmap. cbn in E. injection E as E1 E2 E3.
  destruct (Hkeys (b, p, i, x)) as (K1 & K2 & K3); [by left|]. destruct (Hkeys (b', p', i', y)) as (L1 & L2 & L3); [by right|].
  cbn in *. apply as_u32_inj in E1, E2, E3; [|done..]. subst. apply Hnew, list_elem_of_fmap. by exists (b', p', i', y).
Qed.

(** ** Members of batches *)

Lemma claim_proposals_Ok round_id b m ps phases phases' :
  fold_results (claim_proposal round_id b m) phases ps = Ok phases' -> phases ⊆ phases' /\ forall p, p ∈ ps -> phases' !! (b, p) = Some m.
Proof.
  apply (fold_results_invariant _ (fun done phases' => phases ⊆ phases' /\ forall p, p ∈ done -> phases' !! (b, p) = Some m)).
  - split; [done|]. intros p H. by apply elem_of_nil in H.
  - intros pre x st st' _ [Hsub Hin] H. unfold claim_proposal in H. inv_ok. split.
    + etrans; [done|]. apply insert_subseteq. apply eq_None_not_Some. done.
    + intros p [Hp| ->%list_elem_of_singleton]%elem_of_app; [|apply lookup_insert_eq].
      destruct (decide (p = x)) as [->|]; [apply lookup_insert_eq|]. rewrite lookup_insert_ne by congruence. by apply Hin.
Qed.

(** The submission a batch row names. *)
Definition batch_identity (wallet : string) (network : Network) (round_bytes : bytes32) (b : N) (row : Row) (digest : bytes32) :
  ChainSubmissionIdentity :=
  {| wallet_id := wallet; network := network; vote_round_id := round_bytes; bundle_index := b;
     target := if String.eqb (row_kind row) "delegate_and_cast_vote_batch"
               then TargetDelegateAndVoteBatch digest else TargetVoteBatch digest |}.

Lemma batch_row_phases_Ok w wallet round_id network round_bytes phases row digest phases' :
  batch_row_phases w wallet round_id network round_bytes phases (row, digest) = Ok phases' ->
  phases ⊆ phases' /\ forall phase, authoritative_submission_phase (Some (row_state row)) = Some phase ->
    exists b d bound, u32_try_from (row_bundle_index row) = Some b /\ try_into_bytes32 digest = Some d
      /\ validated_vote_batch w (batch_identity wallet network round_bytes b row d) = Ok bound
      /\ forall p, p ∈ ordered_proposal_ids bound.1 -> exists m, phases' !! (b, p) = Some m /\ batch_member_phase m = phase.
Proof.
  unfold batch_row_phases. destruct (authoritative_submission_phase _) as [phase|]; [|intros [= <-]; split; [done|by intros ? ?]].
  intros H. apply result_bind_Ok in H as (b & Hb%ok_or_Ok & H). apply result_bind_Ok in H as (d & Hd%ok_or_Ok & H).
  apply result_bind_Ok in H as (diag & _ & H). apply result_bind_Ok in H as (i & Hi%map_err_Ok & H).
  apply result_bind_Ok in H as (bound & Hbound & H). apply result_bind_Ok in H as ([] & _ & [Hsub Hin]%claim_proposals_Ok).
  split; [done|]. intros ? [= <-]. exists b, d, bound. split_and!; [done|done| |].
  - unfold identity_new in Hi. apply result_bind_Ok in Hi as ([] & _ & Hi). apply result_bind_Ok in Hi as ([] & _ & Hi).
    apply result_bind_Ok in Hi as ([] & _ & Hi). injection Hi as <-. done.
  - intros p Hp. eexists. split; [by apply Hin|done].
Qed.

(** ** One load *)

(** A vote of the snapshot as its row, read in some phase. *)
Record reads_vote (phase : VotePhase) (vote : VoteColumns) (v : VoteSnapshot) : Prop := {
  read_choice : RoundSnapshot.vote_choice v = as_u32 (col_choice vote);
  read_phase : vote_phase v = phase;
  read_recovery : match vote_recovery v with
                  | Some r => exists json, col_commitment_bundle_json vote = Some json /\ parse_recovery json = Ok r
                  | None => col_commitment_bundle_json vote = None
                  end
}.

Lemma snapshot_votes_read round_id phases rows votes :
  fold_results (snapshot_vote round_id phases) ∅ rows = Ok votes ->
  (forall k v, votes !! k = Some v -> exists b p vote phase, (b, p, vote) ∈ rows /\ k = (as_u32 b, as_u32 p)
     /\ phases !! k = Some phase /\ reads_vote phase vote v)
  /\ (forall b p vote, (b, p, vote) ∈ rows -> is_Some (votes !! (as_u32 b, as_u32 p))).
Proof.
  apply (fold_results_invariant _ (fun done votes =>
    (forall k v, votes !! k = Some v -> exists b p vote phase, (b, p, vote) ∈ done /\ k = (as_u32 b, as_u32 p)
       /\ phases !! k = Some phase /\ reads_vote phase vote v)
    /\ (forall b p vote, (b, p, vote) ∈ done -> is_Some (votes !! (as_u32 b, as_u32 p))))).
  - split; [intros k v H; by rewrite lookup_empty in H|]. intros b p vote H. by apply elem_of_nil in H.
  - intros pre [[b p] vote] votes0 votes1 _ [Hread Hall] H. unfold snapshot_vote in H. apply result_bind_Ok in H as (phase & Hphase%ok_or_Ok & H).
    apply result_bind_Ok in H as (rec & Hrec & H). injection H as <-. split.
    + intros k v [[<- <-]|[_ Hk]]%lookup_insert_Some.
      * exists b, p, vote, phase. split_and!; [apply elem_of_app; right; by left|done|done|]. split; cbn; [done|done|].
        destruct (col_commitment_bundle_json vote) as [json|] eqn:Ej; [|by injection Hrec as <-].
        apply result_bind_Ok in Hrec as (r & Hr & [= <-]). by exists json.
      * destruct (Hread k v Hk) as (b' & p' & vote' & phase' & Hin & Hrest). exists b', p', vote', phase'. split; [|done].
        apply elem_of_app. by left.
    + intros b' p' vote' [Hin|Hin]%elem_of_app; [apply lookup_insert_is_Some'; right; by eapply Hall|].
      apply list_elem_of_singleton in Hin as [= -> -> ->]. rewrite lookup_insert_eq. by eexists.
Qed.

Section loaded.
Variables (db : Database) (wallet round_id : string) (s : RoundSnapshot).
Hypothesis Hdb : database_ok db.
Hypothesis Hload : load_round_snapshot db wallet round_id = Ok s.

Abbreviation w := (tables (domain db) : WalletTables).

Lemma loaded_parts : exists members statuses,
  delegation_submission_statuses db wallet round_id = Ok (delegations s)
  /\ load_authoritative_batch_phases db wallet round_id None = Ok members
  /\ collect_results (vote_status round_id members) (vote_joins db wallet round_id None None) = Ok statuses
  /\ fold_results (snapshot_vote round_id
       (list_to_map (reverse (map (fun st => ((vote_status_bundle_index st, vote_status_proposal_id st), vote_status_phase st)) statuses))))
       ∅ (round_votes_in_order w round_id wallet) = Ok (votes s)
  /\ bundles s = bundle_planning_rows w round_id wallet /\ share_phases s = share_phases_of w wallet round_id.
Proof.
  unfold load_round_snapshot in Hload. apply result_bind_Ok in Hload as (ds & Hds & H).
  apply result_bind_Ok in H as (blocked & _ & H). apply result_bind_Ok in H as (statuses & Hst & H).
  apply result_bind_Ok in H as (vs & Hvs & H). apply result_bind_Ok in H as (shares & _ & H).
  apply result_bind_Ok in H as (intents & _ & H). apply result_bind_Ok in H as (hashes & _ & H). injection H as <-.
  unfold load_vote_submission_statuses in Hst. apply result_bind_Ok in Hst as (members & Hm & Hst).
  exists members, statuses. done.
Qed.

(** *** Bundles *)

Lemma bundle_loaded b bundle : bundles_table w !! (round_id, wallet, b) = Some bundle -> is_Some (delegation_phases s !! as_u32 b).
Proof.
  intros Hb. destruct loaded_parts as (members & statuses & Hd & _). destruct (collected _ _ _ Hd) as [_ Hall].
  destruct (left_join_nonempty (round_rows (submissions db) wallet round_id)
    (fun row => bool_decide (row_bundle_index row = b) && kind_is row ["delegation"; "delegate_and_cast_vote_batch"])) as (o & Ho).
  destruct (Hall (b, bundle, o)) as (st & Hst & Hstatus).
  { unfold delegation_joins. rewrite elem_of_concat_map. exists (b, bundle). split; [by apply elem_of_round_bundles|].
    apply list_elem_of_fmap. by exists o. }
  unfold delegation_status in Hstatus. apply result_bind_Ok in Hstatus as (d & _ & [= <-]).
  unfold delegation_phases. eapply collected_map_is_Some, list_elem_of_fmap. eexists. split; [|exact Hst]. done.
Qed.

Lemma delegation_loaded b phase :
  delegation_phases s !! b = Some phase ->
  exists bundle o, bundle_at w round_id wallet b = Some bundle
    /\ match o with
       | Some row => (row ∈ round_rows (submissions db) wallet round_id) /\ row_bundle_index row = Z.of_N b
                     /\ kind_is row ["delegation"; "delegate_and_cast_vote_batch"] = true
       | None => forall row, row ∈ round_rows (submissions db) wallet round_id -> row_bundle_index row = Z.of_N b ->
                   kind_is row ["delegation"; "delegate_and_cast_vote_batch"] = false
       end
    /\ exists has_pczt has_proof has_tx_hash has_van, phase = phase_from_columns has_pczt has_proof has_tx_hash has_van (row_state <$> o).
Proof.
  intros Hphase. destruct loaded_parts as (members & statuses & Hd & _). destruct (collected _ _ _ Hd) as [Hfrom _].
  apply collected_map_Some, list_elem_of_fmap in Hphase as (st & [= -> ->] & Hst). destruct (Hfrom st Hst) as ([[b bundle] o] & Hjoin & Hstatus).
  unfold delegation_joins in Hjoin. rewrite elem_of_concat_map in Hjoin. destruct Hjoin as ([b' bundle'] & Hb & Ho).
  apply list_elem_of_fmap in Ho as (o' & [= <- <- <-] & Ho). apply elem_of_round_bundles in Hb. cbn in Ho.
  unfold delegation_status in Hstatus. apply result_bind_Ok in Hstatus as (d & _ & [= <-]). cbn [status_bundle_index status_phase].
  assert (is_u32 b) as Hu by (by eapply (ok_bundle_keys _ (db_wallet _ Hdb)), mk_is_Some).
  exists bundle, o. unfold bundle_at. rewrite (as_u32_Z b Hu). split; [done|]. split; [|by eauto].
  apply elem_of_left_join in Ho. destruct o as [row|].
  - destruct Ho as [Hin [Eb%bool_decide_eq_true Hk]%andb_true_iff]. done.
  - intros row Hin Eb. specialize (Ho row Hin). rewrite bool_decide_true in Ho by done. done.
Qed.

(** *** Votes *)

Lemma vote_loaded b p v :
  votes s !! (b, p) = Some v ->
  exists vote o members status, vote_at w round_id wallet b p = Some vote
    /\ load_authoritative_batch_phases db wallet round_id None = Ok members
    /\ match o with
       | Some row => (row ∈ round_rows (submissions db) wallet round_id) /\ row_bundle_index row = Z.of_N b
                     /\ row_kind row = "vote" /\ row_proposal_id row = Some (Z.of_N p)
       | None => forall row, row ∈ round_rows (submissions db) wallet round_id -> row_bundle_index row = Z.of_N b ->
                   row_kind row = "vote" -> row_proposal_id row <> Some (Z.of_N p)
       end
    /\ vote_status round_id members (Z.of_N b, Z.of_N p, vote, o) = Ok status /\ reads_vote (vote_status_phase status) vote v.
Proof.
  intros Hv. destruct loaded_parts as (members & statuses & _ & Hm & Hst & Hvotes & _).
  destruct (snapshot_votes_read _ _ _ _ Hvotes) as [Hread _]. destruct (Hread _ _ Hv) as (zb & zp & vote & phase & Hrow & [= -> ->] & Hphase & Hr).
  apply elem_of_round_votes in Hrow. destruct (ok_vote_keys _ (db_wallet _ Hdb) round_id wallet zb zp) as [Hup Hbundle]; [by eexists|].
  assert (is_u32 zb) as Hub by (by eapply (ok_bundle_keys _ (db_wallet _ Hdb))).
  apply collected_map_Some, list_elem_of_fmap in Hphase as (st & E & Hin). injection E as Eb Ep ->.
  destruct (collected _ _ _ Hst) as [Hfrom _]. destruct (Hfrom st Hin) as ([[[b' p'] vote'] o] & Hjoin & Hstatus).
  unfold vote_joins in Hjoin. rewrite elem_of_concat_map in Hjoin. destruct Hjoin as ([[b0 p0] vote0] & Hv0 & Ho).
  apply list_elem_of_fmap in Ho as (o' & [= <- <- <- <-] & Ho). rewrite list_elem_of_In, filter_In, <- list_elem_of_In in Hv0.
  destruct Hv0 as [Hv0%elem_of_round_votes _]. cbn in Ho.
  destruct (ok_vote_keys _ (db_wallet _ Hdb) round_id wallet b' p') as [Hup' Hbundle']; [by eexists|].
  assert (is_u32 b') as Hub' by (by eapply (ok_bundle_keys _ (db_wallet _ Hdb))).
  assert (vote_status_bundle_index st = as_u32 b' /\ vote_status_proposal_id st = as_u32 p') as [Eb' Ep'].
  { unfold vote_status in Hstatus. apply result_bind_Ok in Hstatus as ([] & _ & Hstatus). apply result_bind_Ok in Hstatus as (x & _ & [= <-]). done. }
  rewrite Eb' in Eb. rewrite Ep' in Ep. apply as_u32_inj in Eb as <-, Ep as <-; [|done..].
  assert (vote' = vote) as -> by congruence. exists vote, o, members, st. unfold vote_at. rewrite !as_u32_Z by done. split_and!; try done.
  apply elem_of_left_join in Ho. destruct o as [row|].
  - destruct Ho as [Hrow' [[E1%bool_decide_eq_true Hk]%andb_true_iff E2%bool_decide_eq_true]%andb_true_iff]. split_and!; try done.
    unfold kind_is in Hk. cbn in Hk. by rewrite orb_false_r, String.eqb_eq in Hk.
  - intros row Hrow' E1 Hk E2. specialize (Ho row Hrow'). unfold kind_is in Ho. cbn in Ho.
    rewrite (bool_decide_true (row_bundle_index row = _)), (bool_decide_true (row_proposal_id row = _)), Hk in Ho by done. done.
Qed.

Lemma vote_present b p vote : vote_at w round_id wallet b p = Some vote -> is_u32 (Z.of_N b) -> is_Some (votes s !! (b, p)).
Proof.
  intros Hv Hb. destruct loaded_parts as (members & statuses & _ & _ & _ & Hvotes & _).
  destruct (snapshot_votes_read _ _ _ _ Hvotes) as [_ Hall]. unfold vote_at in Hv.
  destruct (ok_vote_keys _ (db_wallet _ Hdb) round_id wallet (Z.of_N b) (Z.of_N p)) as [Hp _]; [by eexists|].
  apply elem_of_round_votes in Hv. specialize (Hall _ _ _ Hv).
  assert (forall n, is_u32 (Z.of_N n) -> as_u32 (Z.of_N n) = n) as E by (intros n ?%as_u32_Z; lia).
  by rewrite !E in Hall.
Qed.

(** *** What planning relies on *)

Lemma loaded_snapshot_ok : snapshot_ok s.
Proof.
  split.
  - intros [b p] v r Hv Hr. destruct (vote_loaded b p v Hv) as (vote & o & members & status & Hvote & _ & _ & _ & [_ _ Hrec]).
    rewrite Hr in Hrec. destruct Hrec as (json & Hj & Hparse). unfold vote_at in Hvote.
    pose proof (ok_materials _ (db_wallet _ Hdb) _ _ _ _ _ _ _ Hvote Hj Hparse) as E. cbn. lia.
  - intros b p v Hv. destruct (vote_loaded b p v Hv) as (vote & _ & _ & _ & Hvote & _). unfold vote_at in Hvote.
    destruct (ok_vote_keys _ (db_wallet _ Hdb) round_id wallet (Z.of_N b) (Z.of_N p)) as [_ [bundle Hb]]; [by eexists|].
    pose proof (ok_bundle_keys _ (db_wallet _ Hdb) _ _ _ (mk_is_Some _ _ Hb)) as Hu. apply bundle_loaded in Hb.
    replace (as_u32 (Z.of_N b)) with b in Hb; [done|]. pose proof (as_u32_Z _ Hu). lia.
  - intros b [phase Hphase]. destruct (delegation_loaded b phase Hphase) as (bundle & _ & Hb & _). unfold bundle_at in Hb.
    destruct loaded_parts as (members & statuses & _ & _ & _ & _ & -> & _). unfold bundle_planning_rows.
    pose proof (ok_bundle_keys _ (db_wallet _ Hdb) _ _ _ (mk_is_Some _ _ Hb)) as Hu. apply elem_of_round_bundles in Hb.
    eapply collected_map_is_Some, list_elem_of_fmap. exists (Z.of_N b, bundle). split; [|done]. cbn.
    replace (as_u32 (Z.of_N b)) with b; [done|]. pose proof (as_u32_Z _ Hu). lia.
  - destruct loaded_parts as (members & statuses & _ & _ & _ & _ & _ & ->). apply share_phases_keys, Hdb.
Qed.

End loaded.

(** ** Submissions of the round *)

Section recorded.
Variables (db : Database) (wallet round_id : string).
Hypothesis Hdb : database_ok db.

Abbreviation w := (tables (domain db) : WalletTables).

(** A row of the round is that of a submission on record, on the round's network. *)
Lemma round_row_submission row :
  row ∈ round_rows (submissions db) wallet round_id ->
  exists i r, identity_valid i /\ submissions db !! submission_identity_key i = Some row /\ represents i row r
    /\ wallet_id i = wallet /\ round_hex i = round_id /\ rounds_table w !! (round_id, wallet) = Some (network_name (network i)).
Proof.
  intros ([<- <-] & k & Hk)%elem_of_round_rows. destruct (table_typed _ (db_table _ Hdb) _ _ Hk) as (i & r & -> & Hi & Hrep).
  destruct (rep_identity _ _ _ Hrep) as (Er & Ew & _). exists i, r. rewrite Er, Ew. split_and!; try done.
  by apply (db_owned _ Hdb), (row_on_record db i row).
Qed.

Lemma submission_row i row :
  identity_valid i -> submissions db !! submission_identity_key i = Some row -> wallet_id i = wallet -> round_hex i = round_id ->
  row ∈ round_rows (submissions db) wallet round_id.
Proof.
  intros Hi Hrow <- <-. apply elem_of_round_rows. split; [|by eexists].
  destruct (record_columns _ _ _ (db_table _ Hdb) Hi Hrow) as (r & Hrep). by destruct (rep_identity _ _ _ Hrep) as (-> & -> & _).
Qed.

(** The columns of a submission tell it from the others of the round. *)
Lemma round_row_unique i row row' :
  identity_valid i -> submissions db !! submission_identity_key i = Some row -> wallet_id i = wallet -> round_hex i = round_id ->
  row' ∈ round_rows (submissions db) wallet round_id -> row_bundle_index row' = Z.of_N (bundle_index i) ->
  (row_kind row', row_proposal_id row', row_ordered_batch_digest row') = target_columns (target i) -> row' = row.
Proof.
  intros Hi Hrow Hw Hr Hrow' Eb Et. destruct (round_row_submission row' Hrow') as (j & r & Hj & Hjrow & Hrep & Hjw & Hjr & Hnet).
  destruct (rep_identity _ _ _ Hrep) as (_ & _ & _ & Ejb & Ejt).
  destruct (db_owned _ Hdb i) as [Hneti _]; [by eapply row_on_record|]. unfold wallet_of in Hneti. rewrite Hw, Hr, Hnet in Hneti.
  assert (j = i) as ->; [|congruence]. destruct i as [wi ni ri bi ti], j as [wj nj rj bj tj]. unfold round_hex in *. cbn in *.
  f_equal; [congruence| | |lia|].
  - apply network_name_inj. congruence.
  - apply bytes32_eq, hex_encode_injective. congruence.
  - apply target_columns_inj. congruence.
Qed.

(** *** Batches *)

(** The votes of a batch, re-derived from the tables, are in its phase. *)
Definition batch_claimed (i : ChainSubmissionIdentity) (phase : VotePhase) (members : gmap (N * N) AuthoritativeBatchMember) : Prop :=
  exists bound, validated_vote_batch w i = Ok bound
    /\ forall p, p ∈ ordered_proposal_ids bound.1 -> exists m, members !! (bundle_index i, p) = Some m /\ batch_member_phase m = phase.

Lemma batch_loaded members i row phase :
  load_authoritative_batch_phases db wallet round_id None = Ok members ->
  identity_valid i -> submissions db !! submission_identity_key i = Some row -> wallet_id i = wallet -> round_hex i = round_id ->
  is_Some (batch_digest (target i)) -> authoritative_submission_phase (Some (row_state row)) = Some phase ->
  batch_claimed i phase members.
Proof.
  intros Hm Hi Hrow Hw Hr [digest Hdigest] Hphase. pose proof (submission_row i row Hi Hrow Hw Hr) as Hin.
  destruct (record_columns _ _ _ (db_table _ Hdb) Hi Hrow) as (r & Hrep). destruct (rep_identity _ _ _ Hrep) as (_ & _ & _ & Eb & Et).
  unfold load_authoritative_batch_phases in Hm. apply result_bind_Ok in Hm as (entries & Hentries & Hm).
  destruct (collected _ _ _ Hentries) as [_ Hall].
  assert (row_ordered_batch_digest row = Some (bytes32_bytes digest) /\ kind_is row ["vote_batch"; "delegate_and_cast_vote_batch"] = true
    /\ (if String.eqb (row_kind row) "delegate_and_cast_vote_batch" then TargetDelegateAndVoteBatch digest else TargetVoteBatch digest) = target i)
    as (Ed & Hkind & Ht).
  { unfold kind_is. destruct (target i); try done; cbn in Hdigest; injection Hdigest as ->; cbn in Et; by injection Et as -> _ ->. }
  destruct (Hall row) as (entry & Hentry & E).
  { rewrite list_elem_of_In, filter_In, <- list_elem_of_In. cbn [selects_bundle]. by rewrite Hkind. }
  rewrite Ed in E. cbn in E. injection E as <-.
  assert (exists round_bytes network, round_bytes_of round_id = Some round_bytes /\ wallet_round_network w round_id wallet = Ok network
    /\ fold_results (batch_row_phases w wallet round_id network round_bytes) ∅ entries = Ok members) as (round_bytes & network & Hbytes & Hnet & Hfold).
  { destruct entries as [|x l]; [by apply elem_of_nil in Hentry|]. apply result_bind_Ok in Hm as (bs & Hbs%ok_or_Ok & Hm).
    apply result_bind_Ok in Hm as (n & Hn & Hm). by exists bs, n. }
  assert (batch_identity wallet network round_bytes (bundle_index i) row digest = i) as Ei.
  { unfold batch_identity. rewrite Ht. destruct (db_owned _ Hdb i) as [Hrounds _]; [by eapply row_on_record|]. unfold wallet_of in Hrounds.
    unfold wallet_round_network in Hnet. apply result_bind_Ok in Hnet as (name & Hname%ok_or_Ok & Hn%network_from_storage_Ok).
    rewrite Hw, Hr, Hname in Hrounds. unfold round_hex in Hr. unfold round_bytes_of in Hbytes. rewrite <- Hr, hex_decode_encode in Hbytes.
    cbn in Hbytes. apply try_into_bytes32_Some, bytes32_eq in Hbytes. destruct i; cbn in *. f_equal; [done| |done]. apply network_name_inj. congruence. }
  revert Hentry. revert Hfold.
  apply (fold_results_invariant _ (fun (done : list (Row * bytes)) (members : gmap (N * N) AuthoritativeBatchMember) =>
    (row, bytes32_bytes digest) ∈ done -> batch_claimed i phase members)).
  - intros H. by apply elem_of_nil in H.
  - intros pre [row' digest'] st st' _ IH Hstep. apply batch_row_phases_Ok in Hstep as [Hsub Hbatch].
    intros [Hpre|Hlast%list_elem_of_singleton]%elem_of_app.
    + destruct (IH Hpre) as (bound & Hbound & Hps). exists bound. split; [done|]. intros p Hp. destruct (Hps p Hp) as (m & Hlook & ?).
      exists m. split; [by eapply lookup_weaken|done].
    + injection Hlast as <- <-. destruct (Hbatch phase Hphase) as (b & d & bound & Eb' & Ed' & Hbound & Hps).
      apply try_into_bytes32_Some, bytes32_eq in Ed' as ->. rewrite Eb in Eb'.
      assert (b = bundle_index i) as ->. { unfold u32_try_from in Eb'. case_bool_decide; [injection Eb' as <-; lia|done]. }
      rewrite Ei in Hbound. by exists bound.
Qed.
End recorded.
End reading.
