(* ===== verification/RoundSubmissions.v ===== *)
(** * Plans and submissions on record

    Joins the store, the wallet tables, the loader and the planner.  For every database a
    wallet's history leads to, the plan of a round accounts for each submission on record
    of that round: one the chain may still answer is tended, its bundle takes no further
    cast or delegation while it is unresolved, and none of its votes are retired. *)

From S2P Require Import Prelude Sorting Types Diagnostics SubmissionState Identity Generation Confirmation StoreRow StoreRowFacts.
From S2P Require Import Store StoreFacts StoreInvariant Protocol LifecyclePlanning ShareTiming SharePlacement Ballot Phases ShareDelivery.
From S2P Require Import RoundSnapshot RoundUnits RoundPlanning RoundRules RoundRuleTable RoundClassification.
From S2P Require Import VoteRecovery WalletTables WalletFacts WalletHistory RoundLoading RoundReading.

(** The chain may still answer the submission. *)
Definition in_flight (st : SubmissionRecordState) : bool :=
  match st with Submitting | Tracking _ | Recovering _ _ => true | SubmittedWithoutHash _ | Confirmed _ | Rejected _ => false end.

Lemma recorded_phase st : authoritative_submission_phase (Some (state_name st)) =
  Some (match st with
        | Submitting | Tracking _ | Recovering _ _ => VoteSubmissionManaged
        | SubmittedWithoutHash _ => VoteSubmittedWithoutHash
        | Confirmed _ => VoteConfirmed
        | Rejected _ => VoteSubmissionRejected
        end).
Proof. by destruct st. Qed.

Lemma unresolved_delegation_holds st has_pczt has_proof has_tx_hash has_van :
  unresolved_state (state_name st) = true ->
  delegation_phase_holds_bundle (phase_from_columns has_pczt has_proof has_tx_hash has_van (Some (state_name st))) = true.
Proof. by destruct st. Qed.

Section accounting.
Context `{HX : HexCrate, SH : Sha256Crate, RC : RoundIdCrates, RQ : RusqliteCrate, RS : RecoverySerde, PJ : PlanJson, WC : WalletCrates}.
Context `{UC : UrlCrate, UT : UrlTexts, B64 : Base64Crate}.
#[local] Existing Instances wallet_generation wallet_confirmation wallet_store.

(** The proposals a submission votes on: a batch votes on those its generation is
    re-derived from. *)
Definition votes_on (w : WalletTables) (i : ChainSubmissionIdentity) (p : N) : Prop :=
  match target i with
  | TargetDelegation => False
  | TargetVote q => p = q
  | TargetVoteBatch _ | TargetDelegateAndVoteBatch _ =>
      exists bound, validated_vote_batch w i = Ok bound /\ p ∈ ordered_proposal_ids bound.1
  end.

(** A plan asks for a new transaction on a bundle. *)
Definition asks_transaction (o : Obligation) : bool :=
  match o with Cast _ _ _ _ | Delegate _ => true | _ => false end.

(** What the plan of a round says of one submission on record. *)
Record accounted (w : WalletTables) (s : RoundSnapshot) (plan : RoundObligations) (i : ChainSubmissionIdentity)
  (st : SubmissionRecordState) : Prop := {
  accounted_kept : forall unit ps p, Retire unit ps ∈ obligations plan ->
    obligation_bundle (Retire unit ps) = bundle_index i -> votes_on w i p -> p ∉ ps;
  accounted_once : unresolved_state (state_name st) = true -> forall o, o ∈ obligations plan ->
    obligation_bundle o = bundle_index i -> asks_transaction o = false;
  accounted_tended : in_flight st = true ->
    match target i with
    | TargetDelegation =>
        bundle_combined s (bundle_index i) = true
        \/ exists imported tx_hash, AdvanceDelegation (bundle_index i) imported DelegationSubmissionManaged tx_hash ∈ obligations plan
    | TargetVote p =>
        exists unit ps tx_hash prerequisite,
          ReconcileChain unit (bundle_index i) ps false tx_hash prerequisite ∈ obligations plan /\ p ∈ ps
    | TargetVoteBatch digest | TargetDelegateAndVoteBatch digest =>
        exists ps tx_hash prerequisite,
          ReconcileChain (UnitBatch (bundle_index i) digest) (bundle_index i) ps false tx_hash prerequisite ∈ obligations plan
          /\ forall p, p ∈ ps <-> votes_on w i p
    end
}.

(** ** Votes of a batch *)

Section batches.
Variable w : WalletTables.
Hypothesis Hw : wallet_ok w.

Lemma elem_of_bundle_recoveries_rows wallet round_id b rs r :
  wallet_bundle_recoveries w wallet round_id b = Ok rs ->
  r ∈ rs <-> exists vote json, vote_at w round_id wallet b (rec_proposal_id r) = Some vote
    /\ col_commitment_bundle_json vote = Some json /\ parse_recovery json = Ok r.
Proof.
  intros H. destruct (collected _ _ _ H) as [Hfrom Hall]. split.
  - intros Hr. destruct (Hfrom r Hr) as (json & Hjson & Hparse). apply list_elem_of_omap in Hjson as ([[zb zp] vote] & Hin & Hj). cbn in Hj.
    case_bool_decide as Eb; [|done]. subst zb. apply elem_of_round_votes in Hin. exists vote, json.
    by rewrite <- (ok_materials _ Hw _ _ _ _ _ _ _ Hin Hj Hparse) in Hin.
  - intros (vote & json & Hv & Hj & Hparse). destruct (Hall json) as (r' & Hr' & E).
    + apply list_elem_of_omap. exists (Z.of_N b, Z.of_N (rec_proposal_id r), vote). split; [by apply elem_of_round_votes|]. cbn.
      by rewrite bool_decide_true.
    + congruence.
Qed.

(** The votes of a re-derived batch are the rows that store its digest. *)
Lemma listed_batch_votes i bound digest p :
  validated_vote_batch w i = Ok bound -> batch_digest (target i) = Some digest ->
  p ∈ ordered_proposal_ids bound.1 <-> exists vote json r m, vote_at w (round_hex i) (wallet_id i) (bundle_index i) p = Some vote
    /\ col_commitment_bundle_json vote = Some json /\ parse_recovery json = Ok r /\ rec_batch r = Some m /\ batch_recovery_digest m = digest.
Proof.
  destruct bound as [bound rs]. intros Hbound Hdigest.
  destruct (validated_vote_batch_Ok _ _ _ _ Hbound) as (digest' & candidates & Hd' & Hcand & Hassembled & _ & Hids & _).
  assert (digest' = digest) as -> by congruence. cbn [fst]. rewrite Hids, list_elem_of_fmap.
  assert (forall r, r ∈ rs <-> r ∈ candidates /\ in_batch digest r = true) as Hrs.
  { intros r. rewrite (assembled_members _ _ _ _ Hassembled), !list_elem_of_In, filter_In. done. }
  assert (forall r, r ∈ candidates <-> exists vote json, vote_at w (round_hex i) (wallet_id i) (bundle_index i) (rec_proposal_id r) = Some vote
    /\ col_commitment_bundle_json vote = Some json /\ parse_recovery json = Ok r) as Hc by (intros r; by apply elem_of_bundle_recoveries_rows).
  split.
  - intros (r & -> & [(vote & json & Hv & Hj & Hp)%Hc Hb]%Hrs). unfold in_batch in Hb. destruct (rec_batch r) as [m|] eqn:Hm; [|done].
    apply bool_decide_eq_true in Hb. by exists vote, json, r, m.
  - intros (vote & json & r & m & Hv & Hj & Hp & Hm & Hd). exists r.
    assert (p = rec_proposal_id r) as E. { pose proof (ok_materials _ Hw _ _ _ _ _ _ _ Hv Hj Hp). lia. }
    split; [done|]. apply Hrs. split; [apply Hc; rewrite <- E; by eauto|]. unfold in_batch. rewrite Hm. by apply bool_decide_eq_true.
Qed.

Lemma batch_votes_nonempty i bound : validated_vote_batch w i = Ok bound -> exists p, p ∈ ordered_proposal_ids bound.1.
Proof.
  destruct bound as [bound rs]. intros Hbound. destruct (validated_vote_batch_Ok _ _ _ _ Hbound) as (d & c & _ & _ & [Hne _ _ _] & _ & Hids & _).
  destruct rs as [|r rs]; [done|]. cbn [fst]. rewrite Hids. exists (rec_proposal_id r). by left.
Qed.
End batches.

(** ** One submission *)

Section submission.
Variables (db : Database) (s : RoundSnapshot) (i : ChainSubmissionIdentity) (r : StoredChainSubmission) (row : Row).
Hypothesis Hdb : database_ok db.
Hypothesis Hload : load_round_snapshot db (wallet_id i) (round_hex i) = Ok s.
Hypothesis Hi : identity_valid i.
Hypothesis Hrow : submissions db !! submission_identity_key i = Some row.
Hypothesis Hrep : represents i row r.

Abbreviation w := (tables (domain db) : WalletTables).
Abbreviation b := (bundle_index i).
Abbreviation phase := (match stored_state r with
  | Submitting | Tracking _ | Recovering _ _ => VoteSubmissionManaged
  | SubmittedWithoutHash _ => VoteSubmittedWithoutHash
  | Confirmed _ => VoteConfirmed
  | Rejected _ => VoteSubmissionRejected
  end).

Lemma row_phase : authoritative_submission_phase (Some (row_state row)) = Some phase.
Proof. rewrite (rep_state _ _ _ Hrep). apply recorded_phase. Qed.

Lemma bundle_in_range : is_u32 (Z.of_N b).
Proof. destruct Hi as [(_ & Hb & _) _]. unfold is_u32, u32_max in *. lia. Qed.

(** A vote submitted alone is in the phase of its submission. *)
Lemma single_vote_phase p : target i = TargetVote p -> exists v, votes s !! (b, p) = Some v /\ vote_phase v = phase.
Proof.
  intros Ht. destruct (db_owned _ Hdb i) as [_ Hvote]; [by eapply row_on_record|]. rewrite Ht in Hvote. destruct Hvote as [vote Hvote].
  destruct (vote_present db _ _ s Hdb Hload b p vote Hvote bundle_in_range) as [v Hv]. exists v. split; [done|].
  destruct (vote_loaded db _ _ s Hdb Hload b p v Hv) as (vote' & o & members & status & _ & _ & Ho & Hstatus & [_ -> _]).
  destruct (rep_identity _ _ _ Hrep) as (_ & _ & _ & Eb & Et). rewrite Ht in Et. cbn in Et. injection Et as Ek Ep Ed.
  assert (o = Some row) as ->.
  { pose proof (submission_row db _ _ Hdb i row Hi Hrow eq_refl eq_refl) as Hin. destruct o as [row'|]; [|by destruct (Ho row Hin Eb Ek)].
    destruct Ho as (Hin' & Eb' & Ek' & Ep'). f_equal. eapply (round_row_unique db (wallet_id i) (round_hex i) Hdb i row row'); try done.
    destruct (round_row_submission db _ _ Hdb row' Hin') as (j & r' & _ & _ & Hrep' & _).
    destruct (rep_identity _ _ _ Hrep') as (_ & _ & _ & _ & Et'). rewrite Ht. cbn. rewrite Ek', Ep' in *.
    destruct (target j); cbn in Et'; try done. congruence. }
  unfold vote_status in Hstatus. cbn [fmap option_fmap option_map] in Hstatus. rewrite row_phase in Hstatus.
  apply result_bind_Ok in Hstatus as ([] & _ & Hstatus). apply result_bind_Ok in Hstatus as (out & Hout & [= <-]).
  apply result_bind_Ok in Hout as (diag & _ & [= <-]). done.
Qed.

(** So are the votes of a batch, which store the batch. *)
Lemma batch_vote_phase digest p :
  batch_digest (target i) = Some digest ->
  (exists bound, validated_vote_batch w i = Ok bound /\ p ∈ ordered_proposal_ids bound.1) ->
  exists v rec m, votes s !! (b, p) = Some v /\ vote_phase v = phase /\ vote_recovery v = Some rec /\ rec_batch rec = Some m
    /\ batch_recovery_digest m = digest.
Proof.
  intros Hd (bound & Hbound & Hp). pose proof Hp as Hp'. apply (listed_batch_votes w (db_wallet _ Hdb) i bound digest p Hbound Hd) in Hp'
    as (vote & json & rec & m & Hvote & Hj & Hparse & Hm & Hdig).
  destruct (vote_present db _ _ s Hdb Hload b p vote Hvote bundle_in_range) as [v Hv]. exists v, rec, m.
  destruct (vote_loaded db _ _ s Hdb Hload b p v Hv) as (vote' & o & members & status & Hvote' & Hmembers & _ & Hstatus & [_ Hphase Hrec]).
  assert (vote' = vote) as -> by congruence.
  destruct (batch_loaded db _ _ Hdb members i row phase Hmembers Hi Hrow eq_refl eq_refl (mk_is_Some _ _ Hd) row_phase) as (bound' & Hbound' & Hin).
  assert (bound' = bound) as -> by congruence. destruct (Hin p Hp) as (member & Hmember & Hmp). split_and!; try done.
  - rewrite Hphase. unfold vote_status in Hstatus. cbv zeta in Hstatus.
    assert (forall n, is_u32 (Z.of_N n) -> as_u32 (Z.of_N n) = n) as E by (intros n ?%as_u32_Z; lia).
    rewrite (E b bundle_in_range), (E p), Hmember in Hstatus.
    2: { apply (ok_vote_keys _ (db_wallet _ Hdb) (round_hex i) (wallet_id i) (Z.of_N b)). by eexists. }
    apply result_bind_Ok in Hstatus as ([] & Hno%fail_if_Ok & Hstatus). cbn in Hno. rewrite andb_true_r in Hno.
    destruct (authoritative_submission_phase (row_state <$> o)); [done|].
    apply result_bind_Ok in Hstatus as (out & [= <-] & [= <-]). done.
  - destruct (vote_recovery v); [destruct Hrec as (json' & Hj' & Hparse'); congruence|congruence].
Qed.

(** The delegation of a bundle is in the phase of its submission. *)
Lemma delegation_phase_recorded :
  delegates i = true -> exists has_pczt has_proof has_tx_hash has_van,
    delegation_phases s !! b = Some (phase_from_columns has_pczt has_proof has_tx_hash has_van (Some (state_name (stored_state r)))).
Proof.
  intros Hdel. destruct (db_owned _ Hdb i) as [_ Hbundle]; [by eapply row_on_record|].
  assert (is_Some (bundle_at w (round_hex i) (wallet_id i) b)) as [bundle Hb]. { unfold delegates in Hdel. by destruct (target i). }
  apply (bundle_loaded db _ _ s Hload) in Hb as [ph Hph].
  replace (as_u32 (Z.of_N b)) with b in Hph by (pose proof (as_u32_Z _ bundle_in_range); lia).
  destruct (delegation_loaded db _ _ s Hdb Hload b ph Hph) as (bundle' & o & _ & Ho & x1 & x2 & x3 & x4 & ->).
  destruct (rep_identity _ _ _ Hrep) as (_ & _ & _ & Eb & Et). pose proof (submission_row db _ _ Hdb i row Hi Hrow eq_refl eq_refl) as Hin.
  assert (kind_is row ["delegation"; "delegate_and_cast_vote_batch"] = true) as Hk.
  { unfold kind_is, delegates in *. destruct (target i); try done; cbn in Et; by injection Et as -> _ _. }
  exists x1, x2, x3, x4. rewrite Hph. do 2 f_equal. rewrite <- (rep_state _ _ _ Hrep).
  destruct o as [row'|]; [|by rewrite (Ho row Hin Eb) in Hk]. destruct Ho as (Hin' & Eb' & Hk'). cbn. do 2 f_equal.
  destruct (round_row_submission db _ _ Hdb row' Hin') as (j & r' & Hj & Hjrow & Hrep' & Hjw & Hjr & _).
  destruct (rep_identity _ _ _ Hrep') as (_ & _ & _ & Ejb & Ejt).
  assert (j = i) as ->; [|congruence]. apply (db_single _ Hdb).
  - by eapply row_on_record.
  - by eapply row_on_record.
  - split; [done|]. split; [|lia]. apply bytes32_eq, hex_encode_injective. done.
  - unfold delegates, kind_is in *. destruct (target j); try done; cbn in Ejt; injection Ejt as E _ _; by rewrite E in Hk'.
  - done.
Qed.
End submission.

(** ** One plan *)

Section plan.
Variables (s : RoundSnapshot) (roster : list N) (units : list VoteUnit) (plan : RoundObligations).
Hypothesis Hsnapshot : snapshot_ok s.
Hypothesis Hunits : units_ok s (intents s) units.
Hypothesis Hplannable : plannable s units.
Hypothesis Htable : rule_table s roster units plan.

(** Whether work waits for a delegation can be read off the plan. *)
Lemma table_waits b : exists prerequisite, waits s roster units b prerequisite.
Proof.
  destruct (existsb (fun o => match o with Delegate b' | AdvanceDelegation b' _ _ _ => bool_decide (b' = b) | _ => false end) (obligations plan)) eqn:E.
  - exists (Some b). left. split; [done|]. apply existsb_exists in E as (o & Hin%list_elem_of_In%(table_owed _ _ _ _ Htable) & Ho).
    destruct Hin as [| | | | |b' Hs|b' ph bundle Ha _|]; try done; apply bool_decide_eq_true in Ho as ->; eauto.
  - exists None. right. split; [done|]. intros Hdel. rewrite <- not_true_iff_false, existsb_exists in E. apply E.
    setoid_rewrite <- list_elem_of_In. setoid_rewrite (table_owed _ _ _ _ Htable). destruct Hdel as [Hs|[ph Ha]].
    + exists (Delegate b). split; [by constructor|by apply bool_decide_eq_true].
    + destruct (snapshot_bundles _ Hsnapshot b) as [bundle Hb]; [eexists; apply Ha|].
      eexists. split; [by apply (owed_advance _ _ _ _ _ b ph bundle)|by apply bool_decide_eq_true].
Qed.

Lemma managed_reconciled u :
  u ∈ units -> unit_phase u = VoteSubmissionManaged ->
  exists tx_hash prerequisite, ReconcileChain (unit_id u) (unit_bundle_index u) (proposal_ids u) false tx_hash prerequisite ∈ obligations plan.
Proof.
  intros Hu Hph. destruct (table_waits (unit_bundle_index u)) as [pre Hpre].
  assert (is_Some (anchor_proposal_id u)) as [anchor Hanchor].
  { pose proof (unit_nonempty _ _ _ (units_sound _ _ _ Hunits u Hu)). unfold anchor_proposal_id. destruct (unit_members u); [done|by eexists]. }
  assert (unit_position u = OnWire) as Hpos by (unfold unit_position; by rewrite Hph).
  exists (unit_tx_hash s u anchor), pre. apply (table_owed _ _ _ _ Htable).
  replace false with (bool_decide (unit_position u = Undispatched)) by (by rewrite Hpos). constructor; [|done|done]. split; [done|by left].
Qed.

Lemma held_asks_nothing b o :
  bundle_held s roster units b -> o ∈ obligations plan -> obligation_bundle o = b -> asks_transaction o = false.
Proof.
  intros Hheld Ho%(table_owed _ _ _ _ Htable) Hb.
  destruct Ho as [| | |b' ds pre _ Hfree|b' p c|b' (_ & _ & Hfree & _)| |]; try done; cbn in Hb; by subst b'.
Qed.

Lemma vote_holds b p v :
  votes s !! (b, p) = Some v -> vote_phase v = VoteSubmissionManaged \/ vote_phase v = VoteSubmittedWithoutHash -> bundle_held s roster units b.
Proof.
  intros Hv Hph. destruct (vote_unit s units Hunits b p v Hv) as (u & _ & Hu & Hb & Hp & Hphase). left. exists u, p, v. split_and!; try done.
  - intros Hc. apply (proj1 Hplannable). exists (b, p), v. split_and!; [done|done|]. by destruct Hph as [-> | ->].
  - rewrite Hphase. by destruct Hph as [-> | ->].
  - intros (_ & Hpos & _). unfold unit_position in Hpos. rewrite Hphase in Hpos. by destruct Hph as [Hph|Hph]; rewrite Hph in Hpos.
Qed.

Lemma retired_undispatched unit ps p :
  Retire unit ps ∈ obligations plan -> p ∈ ps ->
  exists v, votes s !! (obligation_bundle (Retire unit ps), p) = Some v /\ vote_phase v = VoteCommitted.
Proof.
  intros Ho%(table_owed _ _ _ _ Htable) Hp. inversion Ho as [u Hret| | | | | | |]; subst unit ps. destruct Hret as (Hu & Hpos & _).
  pose proof Hp as Hp'. unfold proposal_ids in Hp'. apply list_elem_of_fmap in Hp' as (m & Ep & Hm).
  destruct (unit_rows _ _ _ (units_sound _ _ _ Hunits u Hu) m Hm) as (v & [Hv Hph Hname _ _]).
  assert (obligation_bundle (Retire (unit_id u) (proposal_ids u)) = unit_bundle_index u) as ->.
  { rewrite <- Hname. unfold unit_name. by destruct (active_batch v). }
  rewrite Ep. exists v. split; [done|]. unfold unit_position in Hpos. rewrite <- Hph in Hpos. by destruct (vote_phase v).
Qed.
End plan.

(** ** The account *)

Section account.
Variables (db : Database) (s : RoundSnapshot) (i : ChainSubmissionIdentity) (r : StoredChainSubmission) (row : Row).
Hypothesis Hdb : database_ok db.
Hypothesis Hload : load_round_snapshot db (wallet_id i) (round_hex i) = Ok s.
Hypothesis Hi : identity_valid i.
Hypothesis Hrow : submissions db !! submission_identity_key i = Some row.
Hypothesis Hrep : represents i row r.

Abbreviation w := (tables (domain db) : WalletTables).

(** A vote of the submission is in its phase; a vote of a batch stores the batch. *)
Lemma voted_phase p :
  votes_on w i p -> exists v, votes s !! (bundle_index i, p) = Some v
    /\ authoritative_submission_phase (Some (state_name (stored_state r))) = Some (vote_phase v)
    /\ forall digest, batch_digest (target i) = Some digest -> vote_phase v = VoteSubmissionManaged ->
         unit_name (bundle_index i) p v = UnitBatch (bundle_index i) digest.
Proof.
  rewrite recorded_phase. unfold votes_on. intros Hp. destruct (batch_digest (target i)) as [digest|] eqn:Hd.
  - destruct (batch_vote_phase db s i r row Hdb Hload Hi Hrow Hrep digest p Hd) as (v & rec & m & Hv & Hph & Hrec & Hm & Hdig).
    { by destruct (target i). }
    exists v. split; [done|]. split; [by rewrite Hph|]. intros ? [= <-] Hmanaged. unfold unit_name, active_batch.
    rewrite Hmanaged, Hrec. cbn. by rewrite Hm, Hdig.
  - destruct (target i) as [|q| |] eqn:Ht; try done. subst q.
    destruct (single_vote_phase db s i r row Hdb Hload Hi Hrow Hrep p Ht) as (v & Hv & Hph). exists v. by rewrite Hph.
Qed.

Lemma batch_votes_on digest : batch_digest (target i) = Some digest -> exists bound, validated_vote_batch w i = Ok bound
  /\ forall p, votes_on w i p <-> p ∈ ordered_proposal_ids bound.1.
Proof.
  intros Hd. destruct (loaded_parts db _ _ s Hload) as (members & _ & _ & Hm & _).
  destruct (batch_loaded db _ _ Hdb members i row _ Hm Hi Hrow eq_refl eq_refl (mk_is_Some _ _ Hd) (row_phase i r row Hrep)) as (bound & Hbound & _).
  exists bound. split; [done|]. intros p. unfold votes_on. destruct (target i); try done; split; try (intros (bound' & Hb & Hp); congruence); by exists bound.
Qed.

(** The bundle of a submission is read. *)
Lemma submission_bundle_loaded : is_Some (delegation_phases s !! bundle_index i).
Proof.
  pose proof (loaded_snapshot_ok db _ _ s Hdb Hload) as Hok.
  destruct (target i) eqn:Ht; [|..].
  - destruct (delegation_phase_recorded db s i r row Hdb Hload Hi Hrow Hrep) as (? & ? & ? & ? & H); [unfold delegates; by rewrite Ht|by eexists].
  - destruct (voted_phase proposal_id) as (v & Hv & _); [unfold votes_on; by rewrite Ht|]. by eapply (snapshot_votes _ Hok).
  - destruct (batch_votes_on ordered_batch_digest) as (bound & Hb & Hin); [by rewrite Ht|].
    destruct (batch_votes_nonempty w i bound Hb) as [p Hp%Hin]. destruct (voted_phase p Hp) as (v & Hv & _). by eapply (snapshot_votes _ Hok).
  - destruct (delegation_phase_recorded db s i r row Hdb Hload Hi Hrow Hrep) as (? & ? & ? & ? & H); [unfold delegates; by rewrite Ht|by eexists].
Qed.

Variables (roster : list N) (units : list VoteUnit) (plan : RoundObligations).
Hypothesis Hunits : units_ok s (intents s) units.
Hypothesis Hplannable : plannable s units.
Hypothesis Htable : rule_table s roster units plan.

Lemma unresolved_holds : unresolved_state (state_name (stored_state r)) = true -> bundle_held s roster units (bundle_index i).
Proof.
  intros Hst. destruct (delegates i) eqn:Hdel.
  - destruct (delegation_phase_recorded db s i r row Hdb Hload Hi Hrow Hrep Hdel) as (x1 & x2 & x3 & x4 & H). right. left.
    eexists. split; [exact H|by apply unresolved_delegation_holds].
  - assert (exists p, votes_on w i p) as [p Hp].
    { unfold delegates in Hdel. destruct (target i) as [|p|digest|] eqn:Ht; try done; [exists p; unfold votes_on; by rewrite Ht|].
      destruct (batch_votes_on digest) as (bound & Hb & Hin); [by rewrite Ht|]. destruct (batch_votes_nonempty w i bound Hb) as [p Hp%Hin]. by exists p. }
    destruct (voted_phase p Hp) as (v & Hv & Hph & _). eapply vote_holds; [done|done|exact Hv|]. rewrite recorded_phase in Hph.
    injection Hph as <-. destruct (stored_state r); try done; auto.
Qed.

Lemma in_flight_reconciled p :
  in_flight (stored_state r) = true -> votes_on w i p ->
  exists u tx_hash prerequisite, u ∈ units /\ unit_bundle_index u = bundle_index i /\ p ∈ proposal_ids u
    /\ ReconcileChain (unit_id u) (bundle_index i) (proposal_ids u) false tx_hash prerequisite ∈ obligations plan
    /\ forall digest, batch_digest (target i) = Some digest -> unit_id u = UnitBatch (bundle_index i) digest.
Proof.
  intros Hst Hp. destruct (voted_phase p Hp) as (v & Hv & Hph & Hname). rewrite recorded_phase in Hph.
  assert (vote_phase v = VoteSubmissionManaged) as Hmanaged by (injection Hph as <-; by destruct (stored_state r)).
  destruct (vote_unit s units Hunits _ p v Hv) as (u & _ & Hu & Hb & Hin & Hphase).
  destruct (managed_reconciled s roster units plan (loaded_snapshot_ok db _ _ s Hdb Hload) Hunits Htable u Hu) as (h & pre & Hrec); [congruence|].
  exists u, h, pre. rewrite Hb in Hrec. split_and!; try done. intros digest Hd. rewrite <- (Hname digest Hd Hmanaged).
  unfold proposal_ids in Hin. apply list_elem_of_fmap in Hin as (m & -> & Hm).
  destruct (unit_rows _ _ _ (units_sound _ _ _ Hunits u Hu) m Hm) as (v' & [Hv' _ Hn _ _]). rewrite Hb in *.
  by assert (v' = v) as -> by congruence.
Qed.

(** A unit of a batch on record has the votes of the batch. *)
Lemma batch_unit_votes digest u p :
  batch_digest (target i) = Some digest -> u ∈ units -> unit_bundle_index u = bundle_index i ->
  unit_id u = UnitBatch (bundle_index i) digest -> p ∈ proposal_ids u -> votes_on w i p.
Proof.
  intros Hd Hu Hb Hid Hin. destruct (batch_votes_on digest Hd) as (bound & Hbound & ->).
  apply (listed_batch_votes w (db_wallet _ Hdb) i bound digest p Hbound Hd).
  unfold proposal_ids in Hin. apply list_elem_of_fmap in Hin as (m & -> & Hm).
  destruct (unit_rows _ _ _ (units_sound _ _ _ Hunits u Hu) m Hm) as (v & [Hv _ Hn _ _]). rewrite Hb, Hid in *.
  unfold unit_name in Hn. destruct (active_batch v) as [batch|] eqn:Ha; [|done]. injection Hn as Hdig.
  apply active_batch_Some in Ha as [(rec & Hrec & Hbatch) _].
  destruct (vote_loaded db _ _ s Hdb Hload _ _ v Hv) as (vote & o & members & status & Hvote & _ & _ & _ & [_ _ Hread]).
  rewrite Hrec in Hread. destruct Hread as (json & Hj & Hparse). by exists vote, json, rec, batch.
Qed.

Lemma submission_accounted : accounted w s plan i (stored_state r).
Proof.
  split.
  - intros unit ps p Hret Hb Hp Hin. destruct (retired_undispatched s roster units plan Hunits Htable unit ps p Hret Hin) as (v & Hv & Hph).
    destruct (voted_phase p Hp) as (v' & Hv' & Hph' & _). rewrite Hb in Hv. assert (v' = v) as -> by congruence.
    rewrite recorded_phase, Hph in Hph'. by destruct (stored_state r).
  - intros Hst o Ho Hb. eapply held_asks_nothing; [done|by apply unresolved_holds|done|done].
  - intros Hst. pose proof in_flight_reconciled as Hrec. pose proof batch_votes_on as Hbatch. pose proof batch_unit_votes as Hunit.
    assert (forall digest, batch_digest (target i) = Some digest -> exists ps tx_hash prerequisite,
      ReconcileChain (UnitBatch (bundle_index i) digest) (bundle_index i) ps false tx_hash prerequisite ∈ obligations plan
      /\ forall p, p ∈ ps <-> votes_on w i p) as Hdigest.
    { intros digest Hd. destruct (Hbatch digest Hd) as (bound & Hb & Hin). destruct (batch_votes_nonempty w i bound Hb) as [p Hp%Hin].
      destruct (Hrec p Hst Hp) as (u & h & pre & Hu & Hub & _ & Ho & Hid). pose proof (Hid digest Hd) as Eid. rewrite Eid in Ho.
      exists (proposal_ids u), h, pre. split; [done|]. intros q. split; [by apply (Hunit digest u q)|]. intros Hq.
      destruct (Hrec q Hst Hq) as (u' & _ & _ & Hu' & _ & Hq' & _ & Hid'). pose proof (Hid' digest Hd) as Eid'.
      assert (u' = u) as <-; [|done]. apply (unit_by_id s (intents s) units); [done|done|done|congruence]. }
    unfold votes_on in Hrec. destruct (target i) as [|p|digest|digest] eqn:Ht; [| |by apply Hdigest|by apply Hdigest].
    + destruct (bundle_combined s (bundle_index i)) eqn:Hc; [by left|right].
      destruct (delegation_phase_recorded db s i r row Hdb Hload Hi Hrow Hrep) as (x1 & x2 & x3 & x4 & Hph); [unfold delegates; by rewrite Ht|].
      pose proof (loaded_snapshot_ok db _ _ s Hdb Hload) as Hok.
      destruct (snapshot_bundles _ Hok (bundle_index i)) as [bundle Hb]; [by eexists|].
      exists (capability_imported bundle), (delegation_tx_hash s (bundle_index i)). apply (table_owed _ _ _ _ Htable). constructor; [|done].
      split_and!; [|by right|done]. rewrite Hph. by destruct (stored_state r).
    + destruct (Hrec p Hst eq_refl) as (u & h & pre & Hu & _ & Hp & Ho & _). by exists (unit_id u), (proposal_ids u), h, pre.
Qed.
End account.

(** ** Histories *)

(** C25. Every round the wallet can load can be planned by the rule table: the snapshot
    [load_round_snapshot] reads from a database any history of the wallet leads to satisfies
    what planning relies on, so [classify_round] never panics on it. *)
Theorem loaded_rounds_are_plannable (dom : DomainState) (db : Database) (wallet round_id : string) (s : RoundSnapshot) (ids : list N) :
  wallet_ok (tables dom) -> rtc wallet_step (empty_database dom) db ->
  load_round_snapshot db wallet round_id = Ok s ->
  snapshot_ok s /\ classify_round s ids <> Err Panicked.
Proof.
  intros Hw Hhist Hload. pose proof (wallet_history_ok dom db Hw Hhist) as Hdb.
  pose proof (loaded_snapshot_ok db wallet round_id s Hdb Hload) as Hok. split; [done|].
  pose proof (classify_round_cases s ids Hok) as H. by destruct (classify_round s ids) as [plan|[e|]].
Qed.

(** C3. A plan accounts for every submission on record.  Whatever a wallet's history - store
    operations in any order, writes of other components, rounds deleted - the plan of a
    round it loads retires no vote of a submission; while a submission is unresolved its
    bundle is asked for no cast and no delegation, so nothing is submitted twice; and a
    submission in flight is tended: a vote is in a unit that is reconciled, a batch is
    reconciled under its own digest with exactly the votes its generation is re-derived
    from, and a delegation is advanced unless a combined cast owns it. *)
Theorem plan_accounts_for_submissions (dom : DomainState) (db : Database) (i : ChainSubmissionIdentity) (r : StoredChainSubmission)
  (s : RoundSnapshot) (ids : list N) (plan : RoundObligations) :
  wallet_ok (tables dom) -> rtc wallet_step (empty_database dom) db ->
  identity_valid i -> load_submission db i = Ok (Some r) ->
  load_round_snapshot db (wallet_id i) (round_hex i) = Ok s -> classify_round s ids = Ok plan ->
  needs_bundle_setup plan = false /\ accounted (tables (domain db)) s plan i (stored_state r).
Proof.
  intros Hw Hhist Hi Hr Hload Hplan. pose proof (wallet_history_ok dom db Hw Hhist) as Hdb.
  destruct (load_submission_Ok db i (Some r) (db_table _ Hdb) Hi Hr) as (row & Hrow & Hrep).
  pose proof (loaded_snapshot_ok db _ _ s Hdb Hload) as Hok. pose proof (classify_round_cases s ids Hok) as H. rewrite Hplan in H.
  destruct H as [_ H]. destruct (needs_bundle_setup plan).
  - destruct H as (Hnone & _). destruct (submission_bundle_loaded db s i r row Hdb Hload Hi Hrow Hrep) as [ph Hph].
    unfold delegation_phases in Hph. by rewrite Hnone in Hph.
  - destruct H as (units & _ & Hunits & Hplannable & Htable). split; [done|]. by eapply submission_accounted.
Qed.
End accounting.

(** ** A concrete history *)

#[local] Existing Instances sample_hex sample_sha256 sample_base64 sample_rusqlite any_round_id sample_recovery_serde.
#[local] Existing Instances plain_urls plain_texts numbered_json.

#[local] Instance sample_wallet_crates : WalletCrates := {|
  crate_DelegationWire := unit;
  crate_VoteWire := N;
  crate_gov_nullifier_count := fun _ => 5;
  crate_van_nullifier := fun _ => "EBAQ";
  crate_delegate_and_vote_batch_sighash := fun _ _ _ => Ok sample_batch_digest;
  crate_cast_vote_batch_sighash := fun _ _ _ => Ok sample_batch_digest;
  crate_delegation_submission := fun _ _ _ _ _ => Ok tt;
  crate_wire_submission_from_recovery := fun r => Ok (rec_proposal_id r);
  crate_authorization_digest := fun _ _ => Ok sample_batch_digest;
  commitment_json := fun _ _ _ _ => [];
  null_column_text := fun _ => [];
  out_of_range_text := fun _ _ => []
|}.
#[local] Existing Instances wallet_generation wallet_confirmation wallet_store.

Definition sample_bundle_row : BundleColumns :=
  {| col_note_positions_blob := None; col_note_identity_hashes_blob := None; col_van_comm_rand := None; col_dummy_nullifiers := None;
     col_rho_signed := None; col_padded_note_data := None; col_nf_signed := None; col_cmx_new := None; col_alpha := None;
     col_rseed_signed := None; col_rseed_output := None; col_gov_comm := None; col_total_note_value := None; col_address_index := None;
     col_van_leaf_position := Some 7%Z; col_rk := None; col_gov_nullifiers_blob := None; col_padded_note_secrets := None;
     col_pczt_sighash := None; col_tx1_effects := None; col_delegation_tx_hash := None; col_delegation_pczt := None |}.

Definition sample_vote_row (document : N) : VoteColumns :=
  {| col_choice := 2; col_commitment := None; col_tx_hash := None; col_vc_tree_position := None;
     col_commitment_bundle_json := Some [0%N; document] |}.

Abbreviation sample_round_id := (hex_encode (bytes32_fill Byte.x01)).

(** A round with one bundle: a batch of two votes, and a vote of its own. *)
Definition sample_wallet : WalletTables :=
  {| rounds_table := {[(sample_round_id, "wallet") := "testnet"]};
     bundles_table := {[(sample_round_id, "wallet", 3%Z) := sample_bundle_row]};
     proofs_table := ∅;
     votes_table := <[(sample_round_id, "wallet", 3%Z, 5%Z) := sample_vote_row 5]>
                      (<[(sample_round_id, "wallet", 3%Z, 9%Z) := sample_vote_row 9]>
                         {[(sample_round_id, "wallet", 3%Z, 1%Z) := sample_vote_row 1]});
     shares_table := ∅;
     intents_table := <[(sample_round_id, "wallet", 5%Z) := {| col_skipped := 0; col_intent_choice := Some 2%Z |}]>
                        {[(sample_round_id, "wallet", 9%Z) := {| col_skipped := 0; col_intent_choice := Some 2%Z |}]};
     immediate_table := ∅; authorizations_table := ∅ |}.

Definition sample_domain : DomainState := {| tables := sample_wallet; ledger := ∅ |}.

(** The batch is admitted. *)
Definition sample_submitted : Database := (admit_submission undisturbed sample_request true 1 100 (empty_database sample_domain)).1.

Lemma sample_votes_table k v :
  votes_table sample_wallet !! k = Some v -> exists p : N, k = (sample_round_id, "wallet", 3%Z, Z.of_N p) /\ v = sample_vote_row p
    /\ (p = 1 \/ p = 5 \/ p = 9)%N.
Proof.
  cbn. intros H. apply lookup_insert_Some in H as [[<- <-]|[_ H]]; [exists 5%N; by auto|].
  apply lookup_insert_Some in H as [[<- <-]|[_ H]]; [exists 9%N; by auto|]. apply lookup_singleton_Some in H as [<- <-]. exists 1%N; by auto.
Qed.

Lemma sample_wallet_ok : wallet_ok sample_wallet.
Proof.
  split.
  - intros r wa b [x Hx]. cbn in Hx. apply lookup_singleton_Some in Hx as [[= _ _ <-] _]. done.
  - intros r wa b p [x (q & [= -> -> -> ->] & _ & Hq)%sample_votes_table]. split; [unfold is_u32; lia|].
    exists sample_bundle_row. cbn. apply lookup_singleton_eq.
  - intros r wa b p i [x Hx]. cbn in Hx. by rewrite lookup_empty in Hx.
  - intros r wa b p v json rec (q & [= -> -> -> ->] & -> & Hq)%sample_votes_table [= <-] Hp.
    apply parse_recovery_Ok in Hp as [Hd _]. f_equal. apply (f_equal (fun j => match j with Ok d => json_proposal_id d | Err _ => 0%N end)) in Hd.
    destruct Hq as [-> | [-> | ->]]; symmetry; exact Hd.
Qed.

Lemma sample_submitted_history : rtc wallet_step (empty_database sample_domain) sample_submitted.
Proof. apply rtc_once, wallet_operation, step_admit. apply sample_identity_valid. Qed.

(** The batch is on record in flight, and the round is loaded and planned. *)
Definition sample_planned : bool :=
  match load_submission sample_submitted sample_batch_identity,
        load_round_snapshot sample_submitted "wallet" sample_round_id with
  | Ok (Some r), Ok s =>
      in_flight (stored_state r) && match classify_round s [1; 5; 9]%N with Ok plan => negb (bool_decide (obligations plan = [])) | Err _ => false end
  | _, _ => false
  end.

Lemma sample_planned_true : sample_planned = true.
Proof. vm_cast_no_check (eq_refl true). Qed.

Lemma loaded_rounds_are_plannable_witness :
  exists s, load_round_snapshot sample_submitted "wallet" sample_round_id = Ok s /\ snapshot_ok s
    /\ classify_round s [1; 5; 9]%N <> Err Panicked.
Proof.
  pose proof sample_planned_true as H. unfold sample_planned in H.
  destruct (load_submission sample_submitted sample_batch_identity) as [[r|]|]; [|done|done].
  destruct (load_round_snapshot sample_submitted "wallet" sample_round_id) as [s|] eqn:Hs; [|done]. exists s. split; [done|].
  apply (loaded_rounds_are_plannable sample_domain sample_submitted "wallet" sample_round_id s [1; 5; 9]%N);
    [apply sample_wallet_ok|apply sample_submitted_history|exact Hs].
Defined.

(** The batch in flight is reconciled. *)
Lemma plan_accounts_for_submissions_witness :
  exists r s plan, load_submission sample_submitted sample_batch_identity = Ok (Some r) /\ in_flight (stored_state r) = true
    /\ load_round_snapshot sample_submitted "wallet" sample_round_id = Ok s /\ classify_round s [1; 5; 9]%N = Ok plan
    /\ needs_bundle_setup plan = false /\ accounted (tables (domain sample_submitted)) s plan sample_batch_identity (stored_state r).
Proof.
  pose proof sample_planned_true as H. unfold sample_planned in H.
  destruct (load_submission sample_submitted sample_batch_identity) as [[r|]|] eqn:Hr; [|done|done].
  destruct (load_round_snapshot sample_submitted "wallet" sample_round_id) as [s|] eqn:Hs; [|done].
  apply andb_true_iff in H as [Hf H]. destruct (classify_round s [1; 5; 9]%N) as [plan|] eqn:Hplan; [|done].
  exists r, s, plan. split; [reflexivity|]. split; [exact Hf|]. split; [reflexivity|]. split; [exact Hplan|].
  apply (plan_accounts_for_submissions sample_domain sample_submitted sample_batch_identity r s [1; 5; 9]%N plan);
    [apply sample_wallet_ok|apply sample_submitted_history|apply sample_identity_valid|exact Hr|exact Hs|exact Hplan].
Defined.
