(* ===== verification/ShareWire.v ===== *)
(** * The request body of a share

    Models [VoteShareWire] of [wire.rs] and [wire_codec.rs]: the body a helper accepts, how it
    is built from a recovered payload, its validation, and its JSON, which reads back as the same
    body.  The [base64] and [serde_json] crates are interfaces: [serde_json] writes compact JSON,
    fields in order. *)

From S2P Require Import Prelude Types Identity Confirmation NoteBundling SharePlacement Ballot RoundPlanning.

Definition MAX_SAFE_JSON_INTEGER : N := 9007199254740991.
Definition MAX_HELPER_TREE_POSITION : N := u32_max.
Definition MAX_VOTE_SHARE_JSON_BYTES : nat := 4096.

(** The fields of a body, over the form of the encrypted share. *)
Record VoteShareFields (share : Type) : Type := {
  body_vote_round_id : string;
  body_shares_hash : text;
  body_proposal_id : N;
  body_vote_decision : N;
  encrypted_share : share;
  body_share_index : N;
  body_vc_tree_position : N;
  body_share_comms : list text;
  body_primary_blind : text;
  body_submit_at : N
}.
Arguments body_vote_round_id {share} _.
Arguments body_shares_hash {share} _.
Arguments body_proposal_id {share} _.
Arguments body_vote_decision {share} _.
Arguments encrypted_share {share} _.
Arguments body_share_index {share} _.
Arguments body_vc_tree_position {share} _.
Arguments body_share_comms {share} _.
Arguments body_primary_blind {share} _.
Arguments body_submit_at {share} _.

Abbreviation VoteShareWire := (VoteShareFields WireEncryptedShare) (only parsing).

(** The document: the points of the encrypted share are strings. *)
Abbreviation VoteShareDocument := (VoteShareFields (text * text * N)) (only parsing).

Definition with_share {A B} (w : VoteShareFields A) (share : B) : VoteShareFields B :=
  {| body_vote_round_id := body_vote_round_id w; body_shares_hash := body_shares_hash w; body_proposal_id := body_proposal_id w;
     body_vote_decision := body_vote_decision w; encrypted_share := share; body_share_index := body_share_index w;
     body_vc_tree_position := body_vc_tree_position w; body_share_comms := body_share_comms w; body_primary_blind := body_primary_blind w;
     body_submit_at := body_submit_at w |}.

(** ** JSON *)

(** Text between values, strings and numbers. *)
Inductive piece : Type := Punct (t : text) | Quoted (t : text) | Number (n : N).

Definition render_piece (p : piece) : text :=
  match p with Punct t => t | Quoted t => [34%N] ++ t ++ [34%N] | Number n => decimal n end.
Definition render (l : list piece) : text := concat (map render_piece l).

(** The name of a field, after a separator. *)
Definition field (separator name : string) : piece := Punct (chars separator ++ [34%N] ++ chars name ++ [34%N; 58%N]).

Fixpoint elements (first : bool) (l : list text) : list piece :=
  match l with
  | [] => []
  | t :: l => Punct (if first then [] else chars ",") :: Quoted t :: elements false l
  end.

Definition document_pieces (w : VoteShareDocument) : list piece :=
  let '(c1, c2, share_index) := encrypted_share w in
  [field "{" "vote_round_id"; Quoted (chars (body_vote_round_id w)); field "," "shares_hash"; Quoted (body_shares_hash w);
   field "," "proposal_id"; Number (body_proposal_id w); field "," "vote_decision"; Number (body_vote_decision w);
   field "," "enc_share"; field "{" "c1"; Quoted c1; field "," "c2"; Quoted c2; field "," "share_index"; Number share_index;
   field "}," "share_index"; Number (body_share_index w); field "," "tree_position"; Number (body_vc_tree_position w);
   field "," "share_comms"; Punct (chars "[")] ++ elements true (body_share_comms w)
  ++ [field "]," "primary_blind"; Quoted (body_primary_blind w); field "," "submit_at"; Number (body_submit_at w); Punct (chars "}")].

Definition compact_json (w : VoteShareDocument) : text := render (document_pieces w).

(** Characters of base64 and hexadecimal, which JSON writes as they are. *)
Definition plain_char (c : N) : Prop := (48 <= c <= 57 \/ 65 <= c <= 90 \/ 97 <= c <= 122 \/ c = 43 \/ c = 47 \/ c = 61)%N.
Abbreviation plain := (Forall plain_char) (only parsing).

(** Documents of plain strings, with numbers of their widths and all commitments. *)
Record plain_document (w : VoteShareDocument) : Prop := {
  plain_round_id : plain (chars (body_vote_round_id w));
  plain_shares_hash : plain (body_shares_hash w);
  plain_c1 : plain (encrypted_share w).1.1;
  plain_c2 : plain (encrypted_share w).1.2;
  plain_share_comms : Forall plain (body_share_comms w);
  plain_primary_blind : plain (body_primary_blind w);
  plain_u32 : Forall (fun n => n <= u32_max)%N [body_proposal_id w; body_vote_decision w; (encrypted_share w).2; body_share_index w];
  plain_u64 : Forall (fun n => n <= u64_max)%N [body_vc_tree_position w; body_submit_at w];
  all_share_comms : length (body_share_comms w) = VOTE_COMMITMENT_SHARE_COUNT
}.

(** [base64]'s standard engine, [pallas::Point::from_bytes] with whether the point is the
    identity, and [serde_json] on the documents above.  Padded base64 of [n] bytes has
    [4 * ceil(n / 3)] characters. *)
Class WireCrates : Type := {
  base64_encode : bytes -> text;
  base64_standard_decode : text -> option bytes;
  base64_decode_encode b : base64_standard_decode (base64_encode b) = Some b;
  base64_encode_plain b : plain (base64_encode b);
  base64_encode_length b : length (base64_encode b) <= 2 * length b + 2;
  pallas_point : bytes32 -> option bool;
  serde_to_string : VoteShareDocument -> result text text;
  serde_from_str : text -> result text VoteShareDocument;
  (** A custom error of a field, with its place in the text. *)
  serde_custom_error : text -> text -> text;
  serde_to_string_compact w : plain_document w -> serde_to_string w = Ok (compact_json w);
  serde_from_compact w : plain_document w -> serde_from_str (compact_json w) = Ok w
}.

Section codec.
Context `{HX : HexCrate, RC : RoundIdCrates, WR : WireCrates}.

Definition validate_share_index (index : N) : result VotingError unit :=
  fail_if (bool_decide (15 < index)%N) (VeInvalidInput (chars "share_index must be 0..15, got " ++ decimal index)).

Definition validate_encrypted_share_point (v : bytes) (field : text) : result VotingError unit :=
  encoded ← ok_or (try_into_bytes32 v) (VeInvalidInput (field ++ chars " must be 32 bytes, got " ++ decimal_nat (length v)));
  is_identity ← ok_or (pallas_point encoded) (VeInvalidInput (field ++ chars " is not a valid compressed Pallas point"));
  fail_if is_identity (VeInvalidInput (field ++ chars " must not be the identity point")).

Definition validate_encrypted_shares (shares : list WireEncryptedShare) : result VotingError unit :=
  _ ← collect_results (fun indexed : nat * WireEncryptedShare =>
        let label := chars "enc_shares[" ++ decimal_nat indexed.1 ++ chars "]" in
        _ ← validate_encrypted_share_point (wire_c1 indexed.2) (label ++ chars ".c1");
        _ ← validate_encrypted_share_point (wire_c2 indexed.2) (label ++ chars ".c2");
        validate_share_index (wire_share_index indexed.2)) (imap pair shares);
  Ok tt.

Definition decode_canonical_b64_32 (value field : text) : result VotingError bytes32 :=
  decoded ← ok_or (base64_standard_decode value) (VeInvalidInput (field ++ chars " must be canonical padded standard Base64"));
  _ ← fail_if (negb (bool_decide (base64_encode decoded = value))) (VeInvalidInput (field ++ chars " must be canonical padded standard Base64"));
  _ ← validate_32_bytes decoded field;
  ok_or (try_into_bytes32 decoded) (VeInternal (chars "validated 32-byte value must convert to an array")).

Definition validate_canonical_field_b64_32 (value field : text) : result VotingError unit :=
  decoded ← decode_canonical_b64_32 value field;
  fail_if (negb (pallas_canonical decoded)) (VeInvalidInput (field ++ chars " is not a canonical Pallas field element")).

Definition json_safe_u64 (value : N) (field : text) : result VotingError N :=
  if bool_decide (MAX_SAFE_JSON_INTEGER < value)%N
  then Err (VeInvalidInput (chars "field " ++ field ++ chars " is too large to encode as JSON integer")) else Ok value.

Definition helper_tree_position (value : N) : result VotingError N :=
  if bool_decide (MAX_HELPER_TREE_POSITION < value)%N
  then Err (VeInvalidInput (chars "field tree_position exceeds helper protocol maximum " ++ decimal MAX_HELPER_TREE_POSITION)) else Ok value.

(** [VoteShareWire::validate]. *)
Definition validate_share_wire (w : VoteShareWire) : result VotingError unit :=
  _ ← validate_vote_round_id_hex (body_vote_round_id w);
  _ ← validate_canonical_field_b64_32 (body_shares_hash w) (chars "shares_hash");
  _ ← validate_proposal_id (body_proposal_id w);
  _ ← fail_if (bool_decide (MAX_VOTE_OPTIONS <= body_vote_decision w)%N)
        (VeInvalidInput (chars "vote_decision must be in [0, " ++ decimal MAX_VOTE_OPTIONS ++ chars "), got " ++ decimal (body_vote_decision w)));
  _ ← validate_encrypted_shares [encrypted_share w];
  _ ← validate_share_index (body_share_index w);
  _ ← fail_if (negb (bool_decide (body_share_index w = wire_share_index (encrypted_share w))))
        (VeInvalidInput (chars "share_index must match enc_share.share_index"));
  _ ← helper_tree_position (body_vc_tree_position w);
  _ ← fail_if (negb (bool_decide (length (body_share_comms w) = VOTE_COMMITMENT_SHARE_COUNT)))
        (VeInvalidInput (chars "share_comms must have exactly " ++ decimal_nat VOTE_COMMITMENT_SHARE_COUNT ++ chars " entries, got "
           ++ decimal_nat (length (body_share_comms w))));
  _ ← collect_results (fun indexed : nat * text =>
        validate_canonical_field_b64_32 indexed.2 (chars "share_comms[" ++ decimal_nat indexed.1 ++ chars "]"))
        (imap pair (body_share_comms w));
  _ ← validate_canonical_field_b64_32 (body_primary_blind w) (chars "primary_blind");
  _ ← json_safe_u64 (body_submit_at w) (chars "submit_at");
  Ok tt.

(** [VoteShareWire::from_payload]. *)
Definition share_wire_from_payload (payload : SharePayload) (vc_tree_position : option N) (submit_at : N) : result VotingError VoteShareWire :=
  _ ← validate_vote_round_id_hex (payload_vote_round_id payload);
  position ← helper_tree_position (default (payload_tree_position payload) vc_tree_position);
  submit_at ← json_safe_u64 submit_at (chars "submit_at");
  let w := {| body_vote_round_id := payload_vote_round_id payload; body_shares_hash := base64_encode (payload_shares_hash payload);
              body_proposal_id := payload_proposal_id payload; body_vote_decision := payload_vote_decision payload;
              encrypted_share := enc_share payload; body_share_index := wire_share_index (enc_share payload);
              body_vc_tree_position := position; body_share_comms := map base64_encode (payload_share_comms payload);
              body_primary_blind := base64_encode (primary_blind payload); body_submit_at := submit_at |} in
  _ ← validate_share_wire w;
  Ok w.

(** [serde_base64_bytes]. *)
Definition serialize_base64_bytes (value : bytes) : text := base64_encode value.
Definition deserialize_base64_bytes (encoded : text) : result text bytes :=
  decoded ← ok_or (base64_standard_decode encoded) (chars "invalid base64");
  _ ← fail_if (negb (bool_decide (base64_encode decoded = encoded))) (chars "byte string must use canonical padded standard Base64");
  Ok decoded.

Definition share_wire_document (w : VoteShareWire) : VoteShareDocument :=
  with_share w (serialize_base64_bytes (wire_c1 (encrypted_share w)), serialize_base64_bytes (wire_c2 (encrypted_share w)),
                wire_share_index (encrypted_share w)).

(** [VoteShareWire::to_json]. *)
Definition share_wire_to_json (w : VoteShareWire) : result VotingError text :=
  _ ← validate_share_wire w;
  map_err (fun e => VeInternal (chars "serialize vote share wire JSON failed: " ++ e)) (serde_to_string (share_wire_document w)).

(** [str::len] counts bytes. *)
Definition len_utf8 (c : N) : nat :=
  if bool_decide (c < 128)%N then 1 else if bool_decide (c < 2048)%N then 2 else if bool_decide (c < 65536)%N then 3 else 4.
Definition str_len (t : text) : nat := sum_list_with len_utf8 t.

(** [VoteShareWire::from_json]. *)
Definition share_wire_from_json (json : text) : result VotingError VoteShareWire :=
  _ ← fail_if (bool_decide (MAX_VOTE_SHARE_JSON_BYTES < str_len json))
        (VeInvalidInput (chars "vote share JSON exceeds " ++ decimal_nat MAX_VOTE_SHARE_JSON_BYTES ++ chars " bytes"));
  w ← map_err (fun e => VeInvalidInput (chars "invalid vote share JSON: " ++ e))
        (document ← serde_from_str json;
         c1 ← map_err (serde_custom_error json) (deserialize_base64_bytes (encrypted_share document).1.1);
         c2 ← map_err (serde_custom_error json) (deserialize_base64_bytes (encrypted_share document).1.2);
         Ok (with_share document {| wire_c1 := c1; wire_c2 := c2; wire_share_index := (encrypted_share document).2 |}));
  _ ← validate_share_wire w;
  Ok w.

(** [SharePayload::to_wire_json]. *)
Definition to_wire_json (payload : SharePayload) (vc_tree_position : option N) (submit_at : N) : result VotingError text :=
  w ← share_wire_from_payload payload vc_tree_position submit_at;
  share_wire_to_json w.
End codec.

(** ** Decimal numbers *)

Lemma digit_char m : (m < 10)%N -> Ascii.N_of_ascii (pretty_N_char m) = (48 + m)%N.
Proof.
  intros Hm. assert (m = 0 \/ m = 1 \/ m = 2 \/ m = 3 \/ m = 4 \/ m = 5 \/ m = 6 \/ m = 7 \/ m = 8 \/ m = 9)%N as H by lia.
  by repeat destruct H as [-> |H]; [..|subst].
Qed.

Lemma decimal_go n :
  forall s, chars (pretty_N_go n s) = chars (pretty_N_go n EmptyString) ++ chars s
    /\ Forall (fun c => 48 <= c <= 57)%N (chars (pretty_N_go n EmptyString))
    /\ parse_digits 0 (chars (pretty_N_go n EmptyString)) = Some n
    /\ forall k, (n < 10 ^ N.of_nat k)%N -> length (chars (pretty_N_go n EmptyString)) <= k.
Proof.
  induction (N.lt_wf_0 n) as [n _ IH]. destruct (decide (n = 0)%N) as [-> |Hn].
  { intros s. rewrite !pretty_N_go_0. split; [done|]. split; [constructor|]. split; [done|]. intros k _. cbn. lia. }
  assert (n `mod` 10 < 10)%N as Hm by (apply N.mod_lt; lia). pose proof (N.div_mod n 10 ltac:(lia)) as Hdm.
  intros s. rewrite !(pretty_N_go_step n) by lia. revert Hm Hdm. generalize (n `div` 10)%N, (n `mod` 10)%N. intros q m Hm Hdm.
  assert (q < n)%N as Hd by lia.
  assert (parse_snoc : forall t v c, Forall (fun c => 48 <= c <= 57)%N t -> (48 <= c <= 57)%N -> forall a, parse_digits a t = Some v ->
    parse_digits a (t ++ [c]) = Some (v * 10 + (c - 48))%N).
  { clear. induction t as [|d t IH]; intros v c Ht Hc a Ha.
    - injection Ha as ->. cbn. by rewrite bool_decide_true.
    - apply Forall_cons in Ht as [Hd Ht]. cbn in *. rewrite bool_decide_true in * by done. by apply IH. }
  destruct (IH _ Hd (String (pretty_N_char m) s)) as (-> & _).
  destruct (IH _ Hd (String (pretty_N_char m) EmptyString)) as (-> & Hf & Hp & Hl).
  assert (forall s, chars (String (pretty_N_char m) s) = (48 + m)%N :: chars s) as E.
  { intros s'. unfold chars. cbn. by rewrite digit_char. }
  rewrite !E. change (chars EmptyString) with (@nil N). split; [by rewrite <- app_assoc|].
  split; [apply Forall_app; split; [done|apply Forall_singleton; cbv beta; lia]|]. split.
  - erewrite parse_snoc; [|done|lia|exact Hp]. f_equal. lia.
  - intros [|k] Hk; [cbn in Hk; lia|]. rewrite length_app. cbn [length]. specialize (Hl k).
    rewrite Nat2N.inj_succ, N.pow_succ_r' in Hk. lia.
Qed.

Lemma decimal_digits n : Forall (fun c => 48 <= c <= 57)%N (decimal n).
Proof. unfold decimal, pretty, pretty_N. case_decide; [apply Forall_singleton; cbn; lia|]. by destruct (decimal_go n EmptyString) as (_ & ? & _). Qed.

Lemma decimal_parses n : parse_digits 0 (decimal n) = Some n.
Proof. unfold decimal, pretty, pretty_N. case_decide as Hz; [by rewrite Hz|]. by destruct (decimal_go n EmptyString) as (_ & _ & ? & _). Qed.

Lemma decimal_length n : (n <= u64_max)%N -> length (decimal n) <= 20.
Proof.
  unfold decimal, pretty, pretty_N, u64_max. intros Hn. case_decide; [cbn; lia|]. destruct (decimal_go n EmptyString) as (_ & _ & _ & Hl). apply Hl.
  change (10 ^ N.of_nat 20)%N with 100000000000000000000%N. lia.
Qed.

(** ** Reading a body back *)

(** An upper bound on the length of a document, from its layout. *)
Definition piece_bound (p : piece) : nat := match p with Punct t => str_len t | Quoted _ => 68 | Number _ => 20 end.
Definition piece_fits (p : piece) : Prop :=
  match p with Punct _ => True | Quoted t => plain t /\ length t <= 66 | Number n => (n <= u64_max)%N end.

Lemma str_len_app s t : str_len (s ++ t) = str_len s + str_len t.
Proof. apply sum_list_with_app. Qed.

Lemma str_len_ascii t : Forall (fun c => c < 128)%N t -> str_len t = length t.
Proof. induction 1 as [|c t Hc _ IH]; [done|]. change (len_utf8 c + str_len t = S (length t)). unfold len_utf8. rewrite bool_decide_true by done. lia. Qed.

Lemma render_length l : Forall piece_fits l -> str_len (render l) <= sum_list_with piece_bound l.
Proof.
  induction 1 as [|p l Hp _ IH]; [done|]. unfold render in *. cbn [map concat sum_list_with]. rewrite str_len_app.
  cut (str_len (render_piece p) <= piece_bound p); [lia|]. destruct p as [t|t|n]; cbn [render_piece piece_bound]; [done|..].
  - destruct Hp as [Hp Hl]. rewrite !str_len_app, (str_len_ascii t); [change (str_len [34%N]) with 1; lia|]. eapply Forall_impl; [exact Hp|]. unfold plain_char. lia.
  - rewrite str_len_ascii by (eapply Forall_impl; [apply decimal_digits|cbn; lia]). by apply decimal_length.
Qed.

Lemma elements_fit first l : Forall (fun t => plain t /\ length t <= 66) l -> Forall piece_fits (elements first l).
Proof.
  intros H. revert first. induction H as [|t l Ht _ IH]; intros first; [constructor|]. constructor; [done|]. constructor; [exact Ht|apply IH].
Qed.

Lemma elements_bound first l : sum_list_with piece_bound (elements first l) <= 69 * length l.
Proof.
  revert first. induction l as [|t l IH]; intros first; [done|]. specialize (IH false).
  change (str_len (if first then [] else chars ",") + (68 + sum_list_with piece_bound (elements false l)) <= 69 * S (length l)).
  destruct first; [change (str_len []) with 0|change (str_len (chars ",")) with 1]; lia.
Qed.

Section reading.
Context `{HX : HexCrate, RC : RoundIdCrates, WR : WireCrates}.

Lemma canonical_b64 value label : validate_canonical_field_b64_32 value label = Ok tt -> plain value /\ length value <= 66.
Proof.
  unfold validate_canonical_field_b64_32, decode_canonical_b64_32. intros (decoded & H & _)%result_bind_Ok.
  apply result_bind_Ok in H as (bytes & _ & H). apply result_bind_Ok in H as (? & <-%fail_if_Ok%negb_false_iff%bool_decide_eq_true & H).
  apply result_bind_Ok in H as (? & Hlen%fail_if_Ok%negb_false_iff%bool_decide_eq_true & _).
  split; [apply base64_encode_plain|]. pose proof (base64_encode_length bytes). lia.
Qed.

Lemma round_id_plain id : validate_vote_round_id_hex id = Ok tt -> plain (chars id) /\ length (chars id) <= 66.
Proof.
  unfold validate_vote_round_id_hex. intros (? & Hl%fail_if_Ok%negb_false_iff%bool_decide_eq_true & H)%result_bind_Ok.
  apply result_bind_Ok in H as (? & Hc%fail_if_Ok%negb_false_iff & _). split.
  - rewrite forallb_forall in Hc. apply Forall_forall. intros c Hin%list_elem_of_In. specialize (Hc c Hin).
    rewrite orb_true_iff, !bool_decide_eq_true in Hc. unfold plain_char. lia.
  - unfold chars. rewrite length_fmap. assert (forall s, length (String.list_ascii_of_string s) = String.length s) as ->; [|lia].
    clear. intros s. induction s; cbn; congruence.
Qed.

Lemma share_index_bound index : validate_share_index index = Ok tt -> (index <= 15)%N.
Proof. intros H%fail_if_Ok%bool_decide_eq_false. lia. Qed.

Lemma point_length v label : validate_encrypted_share_point v label = Ok tt -> length v = 32.
Proof. intros (a & <-%ok_or_Ok%try_into_bytes32_Some & _)%result_bind_Ok. apply length_bytes32. Qed.

Lemma validated_document w :
  validate_share_wire w = Ok tt -> plain_document (share_wire_document w) /\ Forall piece_fits (document_pieces (share_wire_document w)).
Proof.
  unfold validate_share_wire. intros H. apply result_bind_Ok in H as ([] & [Hround Hround']%round_id_plain & H).
  apply result_bind_Ok in H as ([] & [Hhash Hhash']%canonical_b64 & H).
  apply result_bind_Ok in H as (? & Hid%fail_if_Ok%negb_false_iff%bool_decide_eq_true & H).
  apply result_bind_Ok in H as (? & Hdec%fail_if_Ok%bool_decide_eq_false & H).
  apply result_bind_Ok in H as (? & Hshares & H). apply result_bind_Ok in Hshares as (? & Hshares%collect_results_Ok & _).
  apply result_bind_Ok in H as ([] & Hindex%share_index_bound & H).
  apply result_bind_Ok in H as (? & _ & H). apply result_bind_Ok in H as (? & Hpos & H).
  apply result_bind_Ok in H as (? & Hlen%fail_if_Ok%negb_false_iff%bool_decide_eq_true & H).
  apply result_bind_Ok in H as (? & Hcomms%collect_results_Ok & H). apply result_bind_Ok in H as ([] & [Hblind Hblind']%canonical_b64 & H).
  apply result_bind_Ok in H as (? & Hat & _).
  assert (Forall (fun t => plain t /\ length t <= 66) (body_share_comms w)) as Hc.
  { apply Forall_lookup. intros i t Hi. assert (imap pair (body_share_comms w) !! i = Some (i, t)) as Hi' by (by rewrite list_lookup_imap, Hi).
    destruct (Forall2_lookup_l _ _ _ _ _ Hcomms Hi') as ([] & _ & Hv). by apply canonical_b64 in Hv. }
  unfold helper_tree_position, MAX_HELPER_TREE_POSITION, u32_max in Hpos. case_bool_decide; [done|].
  unfold json_safe_u64, MAX_SAFE_JSON_INTEGER in Hat. case_bool_decide; [done|].
  inversion Hshares as [|? [] ? ? Hs _]; subst. apply result_bind_Ok in Hs as ([] & Hc1%point_length & Hs).
  apply result_bind_Ok in Hs as ([] & Hc2%point_length & Hidx%share_index_bound). cbn in Hc1, Hc2, Hidx. unfold MAX_PROPOSAL_ID in Hid.
  assert (forall v, length v = 32 -> plain (base64_encode v) /\ length (base64_encode v) <= 66) as Hb64.
  { intros v Hv. split; [apply base64_encode_plain|]. pose proof (base64_encode_length v). lia. }
  destruct (Hb64 _ Hc1) as [H1 H1'], (Hb64 _ Hc2) as [H2 H2']. split.
  - constructor; cbn [share_wire_document with_share encrypted_share body_vote_round_id body_shares_hash body_proposal_id body_vote_decision
      body_share_index body_vc_tree_position body_share_comms body_primary_blind body_submit_at fst snd]; try done.
    + by eapply Forall_impl; [exact Hc|intros ? []].
    + repeat (apply Forall_cons_2; [cbv beta; unfold u32_max; lia|]). apply Forall_nil_2.
    + repeat (apply Forall_cons_2; [cbv beta; unfold u64_max; lia|]). apply Forall_nil_2.
  - unfold document_pieces, share_wire_document. cbn [encrypted_share with_share]. apply Forall_app. split; [|apply Forall_app; split; [by apply elements_fit|]].
    + repeat (apply Forall_cons_2; [first [exact I|split; assumption|cbn; unfold u64_max; lia]|]). apply Forall_nil_2.
    + repeat (apply Forall_cons_2; [first [exact I|split; assumption|cbn; unfold u64_max; lia]|]). apply Forall_nil_2.
Qed.

Lemma document_length w : validate_share_wire w = Ok tt -> str_len (compact_json (share_wire_document w)) <= MAX_VOTE_SHARE_JSON_BYTES.
Proof.
  intros [Hp Hf]%validated_document. etransitivity; [by apply render_length|].
  unfold document_pieces. destruct (encrypted_share (share_wire_document w)) as [[c1 c2] index].
  rewrite !sum_list_with_app. pose proof (elements_bound true (body_share_comms (share_wire_document w))) as H.
  rewrite (all_share_comms _ Hp) in H. unfold MAX_VOTE_SHARE_JSON_BYTES.
  apply (Nat.le_trans _ (1000 + (1104 + 500))); [|lia].
  apply Nat.add_le_mono; [apply Nat.leb_le; reflexivity|]. apply Nat.add_le_mono; [exact H|apply Nat.leb_le; reflexivity].
Qed.

(** A validated body is read back from its JSON. *)
Lemma share_wire_json w :
  validate_share_wire w = Ok tt ->
  share_wire_to_json w = Ok (compact_json (share_wire_document w)) /\ share_wire_from_json (compact_json (share_wire_document w)) = Ok w.
Proof.
  intros Hw. destruct (validated_document w Hw) as [Hp _]. unfold share_wire_to_json, share_wire_from_json. split.
  { rewrite Hw. cbn. by rewrite serde_to_string_compact. }
  rewrite bool_decide_false by (pose proof (document_length w Hw); lia). cbn [fail_if]. rewrite serde_from_compact by done.
  cbn. unfold deserialize_base64_bytes, serialize_base64_bytes. rewrite !base64_decode_encode. cbn. rewrite !bool_decide_true by done. cbn.
  match goal with |- context [validate_share_wire ?x] => replace x with w by (by destruct w as [? ? ? ? [] ? ? ? ? ?]) end. by rewrite Hw.
Qed.
End reading.

(** ** Crates for examples

    Base16 in place of base64, and a reader of the documents that [compact_json] writes. *)

Fixpoint span (P : N -> bool) (t : text) : text * text :=
  match t with
  | c :: t' => if P c then let '(s, r) := span P t' in (c :: s, r) else ([], t)
  | [] => ([], [])
  end.
Definition is_digit (c : N) : bool := bool_decide (48 <= c <= 57)%N.
Definition unquoted (c : N) : bool := negb (bool_decide (c = 34)%N).

Lemma span_app P s r : Forall (fun c => P c = true) s -> match r with c :: _ => P c = false | [] => True end -> span P (s ++ r) = (s, r).
Proof. intros Hs Hr. induction Hs as [|c s Hc _ IH]; cbn; [destruct r; [done|]; cbn; by rewrite Hr|by rewrite Hc, IH]. Qed.

Fixpoint strip (p t : text) : option text :=
  match p, t with
  | [], _ => Some t
  | a :: p, c :: t => if bool_decide (a = c) then strip p t else None
  | _ :: _, [] => None
  end.

Lemma strip_app p t : strip p (p ++ t) = Some t.
Proof. induction p as [|a p IH]; cbn; [done|]. by rewrite bool_decide_true. Qed.

(** The strings and numbers of a text of a known layout. *)
Fixpoint scan (layout : list piece) (t : text) : option (list piece) :=
  match layout with
  | [] => if bool_decide (t = []) then Some [] else None
  | Punct p :: layout => t ← strip p t; scan layout t
  | Quoted _ :: layout =>
      t ← strip [34%N] t;
      let '(s, t) := span unquoted t in
      t ← strip [34%N] t; l ← scan layout t; Some (Quoted s :: l)
  | Number _ :: layout =>
      let '(s, t) := span is_digit t in
      n ← parse_digits 0 s; l ← scan layout t; Some (Number n :: l)
  end.

Definition same_layout (a b : piece) : Prop :=
  match a, b with Punct p, Punct q => p = q | Quoted _, Quoted t => plain t | Number _, Number _ => True | _, _ => False end.
Definition is_value (p : piece) : bool := match p with Punct _ => false | _ => true end.
Definition values (l : list piece) : list piece := List.filter is_value l.

(** Numbers are followed by something else. *)
Fixpoint spaced (l : list piece) : Prop :=
  match l with
  | [] => True
  | Number _ :: l => match render l with c :: _ => is_digit c = false | [] => True end /\ spaced l
  | _ :: l => spaced l
  end.

Lemma scan_render layout l : Forall2 same_layout layout l -> spaced l -> scan layout (render l) = Some (values l).
Proof.
  unfold render. induction 1 as [|a b layout l Hab _ IH]; [done|]. intros Hs.
  destruct a as [p|p|m], b as [q|q|n]; cbn in Hab, Hs; try done; subst; cbn [scan map concat render_piece values List.filter is_value].
  - rewrite strip_app. cbn. by apply IH.
  - rewrite <- !app_assoc, strip_app. cbn. rewrite span_app; [|eapply Forall_impl; [exact Hab|]|done].
    + rewrite bool_decide_true by done. cbn. by rewrite IH.
    + intros c Hc. unfold unquoted. rewrite bool_decide_false; [done|]. unfold plain_char in Hc. lia.
  - destruct Hs as [Hn Hs]. rewrite span_app; [|eapply Forall_impl; [apply decimal_digits|]|exact Hn].
    + rewrite decimal_parses. cbn. by rewrite IH.
    + intros c Hc. unfold is_digit. by rewrite bool_decide_true.
Qed.

Definition string_of_text (t : text) : string := String.string_of_list_ascii (map Ascii.ascii_of_N t).

Lemma string_of_chars s : string_of_text (chars s) = s.
Proof.
  unfold string_of_text, chars. induction s as [|a s IH]; cbn; [done|]. by rewrite Ascii.ascii_N_embedding, IH.
Qed.

Definition unquote (p : piece) : text := match p with Quoted t => t | _ => [] end.

Definition rebuild (l : list piece) : option VoteShareDocument :=
  match l with
  | Quoted round :: Quoted hash :: Number proposal :: Number decision :: Quoted c1 :: Quoted c2 :: Number i :: Number j :: Number position :: l =>
      match drop VOTE_COMMITMENT_SHARE_COUNT l with
      | [Quoted blind; Number at_] =>
          Some {| body_vote_round_id := string_of_text round; body_shares_hash := hash; body_proposal_id := proposal; body_vote_decision := decision;
                  encrypted_share := (c1, c2, i); body_share_index := j; body_vc_tree_position := position;
                  body_share_comms := map unquote (take VOTE_COMMITMENT_SHARE_COUNT l); body_primary_blind := blind; body_submit_at := at_ |}
      | _ => None
      end
  | _ => None
  end.

(** The layout of every document. *)
Definition any_document : VoteShareDocument :=
  {| body_vote_round_id := EmptyString; body_shares_hash := []; body_proposal_id := 0; body_vote_decision := 0; encrypted_share := ([], [], 0%N);
     body_share_index := 0; body_vc_tree_position := 0; body_share_comms := replicate VOTE_COMMITMENT_SHARE_COUNT []; body_primary_blind := [];
     body_submit_at := 0 |}.

Definition read_document (t : text) : result text VoteShareDocument :=
  ok_or (l ← scan (document_pieces any_document) t; rebuild l) (chars "expected value").

Lemma elements_layout first l l' :
  length l = length l' -> Forall plain l' -> Forall2 same_layout (elements first l) (elements first l').
Proof.
  intros Hl Hp. revert first l Hl. induction Hp as [|t l' Ht _ IH]; intros first [|s l] Hl; try done.
  constructor; [done|]. constructor; [done|]. apply IH. by injection Hl.
Qed.

Lemma elements_spaced first l r : spaced r -> spaced (elements first l ++ r).
Proof. intros Hr. revert first. induction l as [|t l IH]; intros first; cbn; auto. Qed.

Lemma elements_values first l r : values (elements first l ++ r) = map Quoted l ++ values r.
Proof. revert first. induction l as [|t l IH]; intros first; cbn; [done|]. f_equal. apply IH. Qed.

Lemma document_values w :
  values (document_pieces w) =
    [Quoted (chars (body_vote_round_id w)); Quoted (body_shares_hash w); Number (body_proposal_id w); Number (body_vote_decision w);
     Quoted (encrypted_share w).1.1; Quoted (encrypted_share w).1.2; Number (encrypted_share w).2; Number (body_share_index w);
     Number (body_vc_tree_position w)] ++ map Quoted (body_share_comms w) ++ [Quoted (body_primary_blind w); Number (body_submit_at w)].
Proof.
  unfold document_pieces. destruct (encrypted_share w) as [[c1 c2] i]. unfold values at 1. rewrite List.filter_app. f_equal. apply elements_values.
Qed.

Lemma read_compact w : plain_document w -> read_document (compact_json w) = Ok w.
Proof.
  intros [H1 H2 H3 H4 H5 H6 _ _ H7]. unfold read_document, compact_json. rewrite scan_render.
  - rewrite document_values. cbn [mbind option_bind rebuild app]. rewrite drop_app_length', take_app_length' by (by rewrite length_map).
    rewrite map_map, (map_ext (fun t => unquote (Quoted t)) id), map_id, string_of_chars by done. by destruct w as [r h p d [[c1 c2] i] j pos comms blind at_].
  - unfold document_pieces. destruct (encrypted_share w) as [[c1 c2] i]. change (encrypted_share any_document) with (@nil N, @nil N, 0%N).
    cbn [fst snd] in H3, H4. cbv beta iota. apply Forall2_app; [|apply Forall2_app; [apply elements_layout; [rewrite H7; apply length_replicate|done]|]];
      repeat (apply Forall2_cons_2; [first [reflexivity|assumption|exact I]|]); apply Forall2_nil_2.
  - destruct w as [r h p d [[c1 c2] i] j pos comms blind at_]. unfold document_pieces, field. cbn [encrypted_share spaced app].
    repeat (split; [reflexivity|]). apply elements_spaced. cbn [spaced]. by repeat (split; [reflexivity|]).
Qed.

Lemma lower_hex_plain l : plain (chars (lower_hex l)) /\ length (chars (lower_hex l)) = 2 * length l.
Proof.
  induction l as [|b l [IH1 IH2]]; [by split; [constructor|]|].
  assert (forall n, (n < 16)%N -> plain_char (Ascii.N_of_ascii (hex_digit n))) as Hd.
  { intros n Hn. unfold hex_digit, plain_char. case_bool_decide; rewrite Ascii.N_ascii_embedding; lia. }
  unfold chars in *. cbn [lower_hex String.list_ascii_of_string fmap list_fmap length]. rewrite length_fmap in IH2. split; [|change (fmap Ascii.N_of_ascii) with (map Ascii.N_of_ascii); rewrite length_map, IH2; lia].
  pose proof (Byte.to_N_bounded b). constructor; [apply Hd; apply N.Div0.div_lt_upper_bound; lia|]. constructor; [apply Hd; apply N.mod_lt; lia|exact IH1].
Qed.

Definition sample_wire_crates : WireCrates.
Proof.
  refine {| base64_encode := fun b => chars (lower_hex b); base64_standard_decode := decode_lower_hex;
            base64_decode_encode := decode_lower_hex_encode; base64_encode_plain := fun b => proj1 (lower_hex_plain b);
            pallas_point := fun _ => Some false; serde_to_string := fun w => Ok (compact_json w); serde_from_str := read_document;
            serde_custom_error := fun _ e => e; serde_to_string_compact := fun w _ => eq_refl; serde_from_compact := read_compact |}.
  abstract (intros b; destruct (lower_hex_plain b) as [_ ->]; lia).
Defined.
