(* ===== verification/HelperClient.v ===== *)
(** * The helper client

    Models [helper/client.rs], [helper/transport.rs] and [helper/health.rs]: the errors of a
    request, the health table that orders helpers, and the requests of the client with their
    retries.  The HTTP transport, the clock and the cancellation callback are an environment,
    indexed by the number of times it was asked. *)

From S2P Require Import Prelude Types Confirmation Protocol ShareTiming SharePlacement ShareDelivery RoundPlanning ShareWire.

(** ** Answers of a helper *)

Inductive HelperTransportError : Type := HelperTimeout | HelperAmbiguous (message : text) | HelperResponseFailed (message : text) | HelperTransport (message : text).

Inductive HelperError : Type :=
| HelperInvalidRequest (message : text)
| HelperTransportFailed (e : HelperTransportError)
| HelperStatus (status : N)
| HelperDecode (message : text)
| HelperAmbiguousSubmissionResponse (message : text)
| HelperDeadlineExceeded
| HelperCancelled.

Definition is_transient (e : HelperError) : bool :=
  match e with
  | HelperTransportFailed _ => true
  | HelperStatus status => bool_decide (status ∈ [429; 500; 502; 503; 504]%N)
  | _ => false
  end.

Definition is_ambiguous (e : HelperError) : bool :=
  match e with
  | HelperTransportFailed (HelperTransport _) => false
  | HelperTransportFailed _ | HelperAmbiguousSubmissionResponse _ => true
  | HelperStatus status => bool_decide (500 <= status <= 599)%N
  | _ => false
  end.

(** [Display] of both errors. *)
Definition transport_error_text (e : HelperTransportError) : text :=
  match e with
  | HelperTimeout => chars "helper request timed out"
  | HelperAmbiguous message => chars "helper request outcome is unknown: " ++ message
  | HelperResponseFailed message => chars "helper response failed after headers arrived: " ++ message
  | HelperTransport message => chars "helper request failed: " ++ message
  end.

Definition helper_error_text (e : HelperError) : text :=
  match e with
  | HelperInvalidRequest message => chars "invalid helper request: " ++ message
  | HelperTransportFailed e => transport_error_text e
  | HelperStatus status => chars "helper returned HTTP " ++ decimal status
  | HelperDecode message => chars "helper response was not usable: " ++ message
  | HelperAmbiguousSubmissionResponse message => chars "helper submission outcome is unknown: " ++ message
  | HelperDeadlineExceeded => chars "helper delivery deadline elapsed before request dispatch"
  | HelperCancelled => chars "helper request cancelled"
  end.

(** ** Health of helpers *)

Record HelperState : Type := { consecutive_failures : N; opened_at : option N }.

Record HelperHealth : Type := {
  failure_threshold : N;
  cooldown_seconds : N;
  health_states : gmap url HelperState
}.

Definition with_states (h : HelperHealth) (states : gmap url HelperState) : HelperHealth :=
  {| failure_threshold := failure_threshold h; cooldown_seconds := cooldown_seconds h; health_states := states |}.

Definition health_new (failure_threshold cooldown_seconds : N) : HelperHealth :=
  {| failure_threshold := N.max failure_threshold 1; cooldown_seconds := cooldown_seconds; health_states := ∅ |}.

Definition expire_cooldown_if_elapsed (h : HelperHealth) (state : HelperState) (now : N) : HelperState :=
  match opened_at state with
  | None => state
  | Some opened =>
      if bool_decide (now - opened < cooldown_seconds h)%N then state
      else {| consecutive_failures := failure_threshold h - 1; opened_at := None |}
  end.

Section health.
Context `{UC : UrlCrate, UT : UrlTexts}.

Definition helper_identity_key (server_url : url) : url :=
  match canonicalize_helper_base_url server_url with Ok u => u | Err _ => server_url end.

Definition is_available (h : HelperHealth) (server_url : url) (now : N) : HelperHealth * bool :=
  let key := helper_identity_key server_url in
  match health_states h !! key with
  | None => (h, true)
  | Some state =>
      let state := expire_cooldown_if_elapsed h state now in
      (with_states h (<[key := state]> (health_states h)), bool_decide (opened_at state = None))
  end.

Fixpoint split_by_health (h : HelperHealth) (servers : list url) (now : N) : HelperHealth * list url * list url :=
  match servers with
  | [] => (h, [], [])
  | u :: rest =>
      let '(h, ok) := is_available h u now in
      let '(h, available, degraded) := split_by_health h rest now in
      if ok then (h, u :: available, degraded) else (h, available, u :: degraded)
  end.

Definition candidate_servers (h : HelperHealth) (servers : list url) (now : N) : HelperHealth * list url :=
  let '(h, available, degraded) := split_by_health h servers now in
  (h, if bool_decide (available = []) then servers else available ++ degraded).

Definition record_success (h : HelperHealth) (server_url : url) : HelperHealth :=
  with_states h (delete (helper_identity_key server_url) (health_states h)).

Definition record_failure (h : HelperHealth) (server_url : url) (now : N) : HelperHealth :=
  let key := helper_identity_key server_url in
  let state := expire_cooldown_if_elapsed h (default {| consecutive_failures := 0; opened_at := None |} (health_states h !! key)) now in
  let failures := N.min (consecutive_failures state + 1) u32_max in
  with_states h (<[key := {| consecutive_failures := failures;
                             opened_at := if bool_decide (failure_threshold h <= failures)%N && bool_decide (opened_at state = None)
                                          then Some now else opened_at state |}]> (health_states h)).

Definition failure_count (h : HelperHealth) (server_url : url) : N :=
  match health_states h !! helper_identity_key server_url with Some state => consecutive_failures state | None => 0%N end.
End health.

(** ** Responses *)

Definition MAX_HELPER_RESPONSE_BYTES : N := 262144.

Record HelperResponse : Type := { helper_status : N; helper_body : bytes; helper_content_type : option text }.

Definition helper_is_success (r : HelperResponse) : bool := bool_decide (200 <= helper_status r < 300)%N.

Inductive ShareStatus : Type := StatusPending | StatusConfirmed.
Inductive ShareSubmissionStatus : Type := SubmissionQueued | SubmissionDuplicate.

(** A string field of a JSON object, by [serde_json]. *)
Class HelperJson : Type := { json_string_field : bytes -> text -> option text }.

Definition require_success (r : HelperResponse) : result HelperError HelperResponse :=
  if helper_is_success r then Ok r else Err (HelperStatus (helper_status r)).

Definition validate_helper_json (r : HelperResponse) : result HelperError unit :=
  _ ← fail_if (bool_decide (MAX_HELPER_RESPONSE_BYTES < N.of_nat (length (helper_body r)))%N)
        (HelperDecode (chars "helper response exceeds " ++ decimal MAX_HELPER_RESPONSE_BYTES ++ chars " byte limit"));
  fail_if (negb match helper_content_type r with
                | Some content_type => eq_ignore_ascii_case (trim (before 59 content_type)) (chars "application/json")
                | None => false
                end)
    (HelperDecode (chars "helper response Content-Type must be application/json")).

Section responses.
Context `{HJ : HelperJson}.

Definition json_field (r : HelperResponse) (field : text) : option text :=
  if bool_decide (MAX_HELPER_RESPONSE_BYTES < N.of_nat (length (helper_body r)))%N then None else json_string_field (helper_body r) field.

Definition parse_share_status (r : HelperResponse) : result HelperError ShareStatus :=
  match json_field r (chars "status") with
  | Some status =>
      if bool_decide (status = chars "confirmed") then Ok StatusConfirmed
      else if bool_decide (status = chars "pending") then Ok StatusPending
      else Err (HelperDecode (chars "unexpected helper share status"))
  | None => Err (HelperDecode (chars "helper share status response has no status field"))
  end.

Definition parse_submission_response (r : HelperResponse) : result HelperError ShareSubmissionStatus :=
  r ← require_success r;
  _ ← map_err (fun e => HelperAmbiguousSubmissionResponse (helper_error_text e)) (validate_helper_json r);
  match json_field r (chars "status") with
  | Some status =>
      if bool_decide (status = chars "queued") then Ok SubmissionQueued
      else if bool_decide (status = chars "duplicate") then Ok SubmissionDuplicate
      else Err (HelperAmbiguousSubmissionResponse (chars "unexpected helper share submit status"))
  | None => Err (HelperAmbiguousSubmissionResponse (chars "helper share submit response has no status field"))
  end.
End responses.

(** ** Routes *)

Section routes.
Context `{UC : UrlCrate, UT : UrlTexts, HX : HexCrate, RC : RoundIdCrates, WR : WireCrates}.

Definition normalize_round_id (value : text) : result VotingError text :=
  let trimmed := trim value in
  if bool_decide (str_len trimmed = 64) && forallb is_ascii_hexdigit trimmed then
    bytes ← ok_or (hex_decode trimmed) (VeInvalidInput (chars "round_id is not valid hex: " ++ hex_error_text trimmed));
    _ ← validate_vote_round_id_bytes bytes;
    Ok (chars (hex_encode bytes))
  else
    let bad := Err (VeInvalidInput (chars "round_id must be 64 hex characters or a 32-byte base64 string")) in
    match base64_standard_decode trimmed with
    | Some bytes =>
        if bool_decide (length bytes = 32) then _ ← validate_vote_round_id_bytes bytes; Ok (chars (hex_encode bytes)) else bad
    | None => bad
    end.

Definition validate_hex_path_segment (value field : text) : result VotingError text :=
  let trimmed := trim value in
  if bool_decide (str_len trimmed = 64) && forallb is_ascii_hexdigit trimmed then Ok (map ascii_lower trimmed)
  else Err (VeInvalidInput (field ++ chars " must be 64 hex characters")).

(** The base, the API prefix and the segments, each after a slash. *)
Definition join_helper_url (base_url : url) (segments : list text) : result VotingError url :=
  u ← canonicalize_helper_base_url base_url;
  Ok (fold_left (fun u segment => u ++ [47%N] ++ segment) (map chars ["shielded-vote"; "v1"] ++ segments) u).

Definition invalid_request {A} (r : result VotingError A) : result HelperError A :=
  map_err (fun e => HelperInvalidRequest (voting_error_text e)) r.

(** The body that is sent: the share, read and written again. *)
Definition validate_share_body (share_wire_json : text) : result HelperError text :=
  let bad := fun _ => HelperInvalidRequest (chars "share body does not match the vote-share wire schema") in
  share ← map_err bad (share_wire_from_json share_wire_json);
  map_err bad (share_wire_to_json share).
End routes.

(** ** Requests *)

(** Times in nanoseconds. *)
Record HelperClientConfig : Type := {
  config_request_timeout : N;
  config_post_timeout : N;
  preflight_soft_timeout : N;
  preflight_hard_timeout : N;
  retry_delays : list N
}.

Definition MILLISECOND : N := 1000000.
Definition HELPER_RETRY_DELAYS_MS : list N := [200%N; 600%N].

(** An instant of tokio's clock, and whether a later one is representable. *)
Definition require_valid_duration (representable : N -> bool) (duration : N) (name : text) : result VotingError unit :=
  _ ← fail_if (bool_decide (duration = 0)%N) (VeInvalidInput (name ++ chars " must be nonzero"));
  fail_if (negb (representable duration)) (VeInvalidInput (name ++ chars " is too large for Tokio's monotonic clock")).

Definition with_retry_delays (representable : N -> bool) (config : HelperClientConfig) (delays : list N) : result VotingError HelperClientConfig :=
  _ ← fail_if (bool_decide (length HELPER_RETRY_DELAYS_MS < length delays))
        (VeInvalidInput (chars "retry_delays supports at most " ++ decimal_nat (length HELPER_RETRY_DELAYS_MS) ++ chars " backoffs"));
  _ ← collect_results (fun indexed : nat * N =>
        require_valid_duration representable indexed.2 (chars "retry_delays[" ++ decimal_nat indexed.1 ++ chars "]")) (imap pair delays);
  Ok {| config_request_timeout := config_request_timeout config; config_post_timeout := config_post_timeout config;
        preflight_soft_timeout := preflight_soft_timeout config; preflight_hard_timeout := preflight_hard_timeout config; retry_delays := delays |}.

(** What the transport made of a request, or [None] when its deadline passed first. *)
Abbreviation HttpAnswer := (option (result HelperTransportError HelperResponse)) (only parsing).

(** A request handed to the transport; a GET has no body. *)
Record HttpExchange : Type := {
  http_url : text;
  http_body : option text;
  http_timeout : N;
  http_answer : HttpAnswer
}.

Record ClientState : Type := { client_health : HelperHealth; exchanges : list HttpExchange; client_tick : nat }.

Record ClientEnv : Type := {
  client_cancelled : nat -> bool;
  client_instant : nat -> N;
  (** [Instant::checked_add]. *)
  instant_checked_add : N -> N -> option N;
  client_transport : nat -> HttpAnswer
}.

(** An operation of the client. *)
Definition client (A : Type) : Type := ClientState -> ClientState * result HelperError A.

#[export] Instance client_ret : MRet client := fun A a s => (s, Ok a).
#[export] Instance client_bind : MBind client := fun A B f m s =>
  let '(s, r) := m s in match r with Ok a => f a s | Err e => (s, Err e) end.

Definition client_fail {A} (e : HelperError) : client A := fun s => (s, Err e).
Definition client_result {A} (r : result HelperError A) : client A := fun s => (s, r).
(** The result as a value. *)
Definition client_try {A} (m : client A) : client (result HelperError A) := fun s => let '(s, r) := m s in (s, Ok r).

Section requests.
Context `{UC : UrlCrate, UT : UrlTexts, HX : HexCrate, RC : RoundIdCrates, WR : WireCrates, HJ : HelperJson}.
Context (env : ClientEnv) (config : HelperClientConfig).

Definition client_ask {A} (f : nat -> A) : client A := fun s =>
  ({| client_health := client_health s; exchanges := exchanges s; client_tick := S (client_tick s) |}, Ok (f (client_tick s))).

Definition now_instant : client N := client_ask (client_instant env).
Definition cancelled : client bool := client_ask (client_cancelled env).

Definition update_health (f : HelperHealth -> HelperHealth) : client unit := fun s =>
  ({| client_health := f (client_health s); exchanges := exchanges s; client_tick := client_tick s |}, Ok tt).

(** Hand a request to the transport and note the answer. *)
Definition send (u : text) (body : option text) (timeout : N) : client HttpAnswer := fun s =>
  let answer := client_transport env (client_tick s) in
  ({| client_health := client_health s;
      exchanges := exchanges s ++ [{| http_url := u; http_body := body; http_timeout := timeout; http_answer := answer |}];
      client_tick := S (client_tick s) |}, Ok answer).

Definition from_answer (answer : HttpAnswer) : client HelperResponse :=
  match answer with
  | None => client_fail (HelperTransportFailed HelperTimeout)
  | Some (Err e) => client_fail (HelperTransportFailed e)
  | Some (Ok response) => mret response
  end.

Definition http_get (u : text) (timeout : N) : client HelperResponse :=
  now ← now_instant;
  match instant_checked_add env now timeout with
  | None => client_fail (HelperTransportFailed HelperTimeout)
  | Some _ => answer ← send u None timeout; from_answer answer
  end.

Definition post_json (u : text) (body : text) (timeout : N) : client HelperResponse :=
  if bool_decide (timeout = 0)%N then client_fail (HelperInvalidRequest (chars "share submission attempt timeout must be nonzero"))
  else
    now ← now_instant;
    match instant_checked_add env now timeout with
    | None => client_fail (HelperTransportFailed HelperTimeout)
    | Some _ => answer ← send u (Some body) timeout; from_answer answer
    end.

(** The time left before a deadline. *)
Definition remaining_time (deadline : option N) : client (option N) :=
  match deadline with
  | None => mret None
  | Some deadline => now ← now_instant; mret (Some (deadline - now)%N)
  end.

Definition retryable (retry_ambiguous : bool) (e : HelperError) : bool := is_transient e && (retry_ambiguous || negb (is_ambiguous e)).

(** The attempts that the delays leave. *)
Fixpoint with_retry {T} (retry_ambiguous : bool) (deadline : option N) (operation : option N -> client T) (delays : list N)
  (held : option HelperError) : client T :=
  stop ← cancelled;
  if (stop : bool) then client_fail HelperCancelled
  else
    remaining ← remaining_time deadline;
    if bool_decide (remaining = Some 0%N) then client_fail (default HelperDeadlineExceeded held)
    else
      outcome ← client_try (operation remaining);
      match outcome with
      | Ok value => mret value
      | Err e =>
          match delays with
          | [] => client_fail e
          | delay :: delays =>
              if negb (retryable retry_ambiguous e) then client_fail e
              else
                stop ← cancelled;
                if (stop : bool) then client_fail HelperCancelled
                else
                  now ← now_instant;
                  match instant_checked_add env now delay with
                  | None => client_fail e
                  | Some wake_at =>
                      if match deadline with Some deadline => bool_decide (deadline <= wake_at)%N | None => false end then client_fail e
                      else
                        stop ← cancelled;
                        if (stop : bool) then client_fail HelperCancelled
                        else with_retry retry_ambiguous deadline operation delays (Some e)
                  end
          end
      end.

(** The outcome of a request counts for the helper's health; a failure is dated at its end. *)
Definition score {T} (server_url : url) (outcome : result HelperError T) (now_seconds started : N) : client unit :=
  match outcome with
  | Err (HelperInvalidRequest _ | HelperCancelled | HelperDeadlineExceeded) => mret tt
  | Ok _ => update_health (fun h => record_success h server_url)
  | Err _ =>
      now ← now_instant;
      update_health (fun h => record_failure h server_url (saturating_add64 now_seconds ((now - started) / 1000000000)%N))
  end.

Definition post_share (server_url : url) (body : text) (single_attempt : bool) (timeout : N) (deadline : option N) :
  client ShareSubmissionStatus :=
  u ← client_result (invalid_request (join_helper_url server_url [chars "shares"]));
  if single_attempt then
    stop ← cancelled;
    if (stop : bool) then client_fail HelperCancelled
    else response ← post_json u body timeout; client_result (parse_submission_response response)
  else
    with_retry false deadline
      (fun remaining =>
         response ← post_json u body match remaining with Some remaining => N.min timeout remaining | None => timeout end;
         client_result (parse_submission_response response))
      (retry_delays config) None.

(** A POST and its score. *)
Definition scored_post (server_url : url) (share_wire_json : text) (now_seconds : N) (single_attempt : bool) (timeout : N) (deadline : option N) :
  client ShareSubmissionStatus :=
  server_url ← client_result (invalid_request (canonicalize_helper_base_url server_url));
  body ← client_result (validate_share_body share_wire_json);
  started ← now_instant;
  outcome ← client_try (post_share server_url body single_attempt timeout deadline);
  _ ← score server_url outcome now_seconds started;
  client_result outcome.

Definition submit_share_with_timeout (server_url : url) (share_wire_json : text) (now_seconds timeout : N) (deadline : option N) :
  client ShareSubmissionStatus :=
  if bool_decide (timeout = 0)%N then client_fail (HelperInvalidRequest (chars "share submission timeout must be nonzero"))
  else scored_post server_url share_wire_json now_seconds false (N.min timeout (config_post_timeout config)) deadline.

Definition execute_resubmit_share (server_url : url) (share_wire_json : text) (now_seconds : N) : client ShareSubmissionStatus :=
  scored_post server_url share_wire_json now_seconds true (config_post_timeout config) None.

Definition execute_share_status (server_url : url) (round_id share_id : text) (now_seconds : N) : client ShareStatus :=
  server_url ← client_result (invalid_request (canonicalize_helper_base_url server_url));
  round_id ← client_result (invalid_request (normalize_round_id round_id));
  share_id ← client_result (invalid_request (validate_hex_path_segment share_id (chars "share_id")));
  u ← client_result (invalid_request (join_helper_url server_url [chars "share-status"; round_id; share_id]));
  started ← now_instant;
  outcome ← client_try (with_retry true None
    (fun _ =>
       response ← http_get u (config_request_timeout config);
       response ← client_result (require_success response);
       _ ← client_result (validate_helper_json response);
       client_result (parse_share_status response))
    (retry_delays config) None);
  _ ← score server_url outcome now_seconds started;
  client_result outcome.
End requests.
