(* ===== verification/HelperClientFacts.v ===== *)
(** * What the helper client guarantees

    The theorems on the helper client: when a share may be posted again, that its body is sent
    unchanged, and when a helper is demoted. *)

From S2P Require Import Prelude Types Generation Confirmation Protocol ShareTiming SharePlacement ShareDelivery RoundPlanning VoteRecovery.
From S2P Require Import ShareWire HelperClient.

(** ** What a POST may have left at the helper *)

(** The helper does not have the share: the request failed before it was sent, or was answered
    with a status that is neither a success nor an error of the server. *)
Definition refused (answer : HttpAnswer) : Prop :=
  match answer with
  | Some (Err (HelperTransport _)) => True
  | Some (Ok r) => helper_is_success r = false /\ ~ (500 <= helper_status r <= 599)%N
  | _ => False
  end.

Definition acknowledged (x : HttpExchange) : Prop := exists r, http_answer x = Some (Ok r) /\ helper_is_success r = true.

(** The requests of a call that posts a share, and what its result says of them. *)
Definition posting (u body : text) (bound : nat) (s s' : ClientState) (r : result HelperError ShareSubmissionStatus) : Prop :=
  exists new, exchanges s' = exchanges s ++ new /\ length new <= bound
    /\ Forall (fun x => http_url x = u /\ http_body x = Some body) new
    /\ (forall i x, new !! i = Some x -> S i < length new -> refused (http_answer x))
    /\ match r with
       | Ok _ => exists x, last new = Some x /\ acknowledged x
       | Err e => is_ambiguous e = false -> Forall (fun x => refused (http_answer x)) new
       end.

Lemma posting_nothing u body bound s s' e : exchanges s' = exchanges s -> posting u body bound s s' (Err e).
Proof. intros H. exists []. rewrite app_nil_r. repeat split; [done|cbn; lia|constructor|done|constructor]. Qed.

Lemma posting_more u body a b s s1 s2 s3 e r :
  posting u body a s s1 (Err e) -> is_ambiguous e = false -> exchanges s2 = exchanges s1 -> posting u body b s2 s3 r -> posting u body (a + b) s s3 r.
Proof.
  intros (new & H1 & H2 & H3 & H4 & H5) He E (new' & K1 & K2 & K3 & K4 & K5). specialize (H5 He). exists (new ++ new').
  split; [by rewrite K1, E, H1, app_assoc|]. split; [rewrite length_app; lia|]. split; [by apply Forall_app|]. split.
  - intros i x Hi Hlt. rewrite length_app in Hlt. apply lookup_app_Some in Hi as [Hi|[Hge Hi]].
    + by apply (Forall_lookup_1 _ _ _ _ H5 Hi).
    + apply (K4 _ _ Hi). lia.
  - destruct r as [v|e']; [|intros Ha; by apply Forall_app; auto]. destruct K5 as (x & Hx & Hack). exists x. split; [|done].
    rewrite last_app, Hx. done.
Qed.

Lemma posting_same u body bound s s1 s2 s3 r :
  exchanges s1 = exchanges s -> exchanges s3 = exchanges s2 -> posting u body bound s1 s2 r -> posting u body bound s s3 r.
Proof. intros H1 H2. unfold posting. by rewrite H1, H2. Qed.

Definition posts_share (u body : text) (bound : nat) (call : client ShareSubmissionStatus) : Prop :=
  forall s s' r, call s = (s', r) -> posting u body bound s s' r.

Section posting.
Context `{UC : UrlCrate, UT : UrlTexts, HX : HexCrate, RC : RoundIdCrates, WR : WireCrates, HJ : HelperJson}.
Context (env : ClientEnv) (config : HelperClientConfig).

Lemma parse_submission_refused response e :
  parse_submission_response response = Err e -> is_ambiguous e = false -> refused (Some (Ok response)).
Proof.
  unfold parse_submission_response, require_success, refused. destruct (helper_is_success response) eqn:E.
  - cbn [mbind result_bind]. destruct (json_field response (chars "status")) as [status|];
    (destruct (validate_helper_json response) as [[]|e']; cbn; [|intros He Ha; injection He as <-; discriminate Ha]);
    repeat case_bool_decide; intros He Ha; try done; injection He as <-; discriminate Ha.
  - cbn. intros He Ha. injection He as <-. by apply bool_decide_eq_false in Ha.
Qed.

Lemma parse_submission_acknowledged response v : parse_submission_response response = Ok v -> helper_is_success response = true.
Proof. unfold parse_submission_response, require_success. by destruct (helper_is_success response). Qed.

Lemma post_json_posts u body timeout :
  posts_share u body 1 (response ← post_json env u body timeout; client_result (parse_submission_response response)).
Proof.
  intros s s' r. unfold post_json. case_bool_decide; [intros [= <- <-]; by apply posting_nothing|].
  unfold mbind, client_bind, now_instant, client_ask, send, from_answer, client_result, client_fail, mret, client_ret. cbn.
  destruct (instant_checked_add env (client_instant env (client_tick s)) timeout) as [at_|]; [|cbn; intros [= <- <-]; by apply posting_nothing].
  set (answer := client_transport env _). intros Hs.
  exists [{| http_url := u; http_body := Some body; http_timeout := timeout; http_answer := answer |}].
  split; [destruct answer as [[response|e]|]; cbn in Hs; by injection Hs as <- _|].
  split; [done|]. split; [by repeat constructor|]. split; [intros [|i] x; cbn; [lia|done]|].
  destruct answer as [[response|e]|]; cbn in Hs; injection Hs as _ <-; [|intros Ha; apply Forall_singleton; by destruct e|done].
  destruct (parse_submission_response response) as [v|e] eqn:E.
  - eexists. split; [done|]. exists response. split; [done|]. by eapply parse_submission_acknowledged.
  - intros Ha. apply Forall_singleton. by eapply parse_submission_refused.
Qed.

(** Rules for calls that post. *)
Definition quiet {A} (m : client A) : Prop := forall s, exchanges (m s).1 = exchanges s.

Lemma quiet_ask {A} (f : nat -> A) : quiet (client_ask f).
Proof. by intros s. Qed.
Lemma quiet_result {A} (r : result HelperError A) : quiet (client_result r).
Proof. by intros s. Qed.

Lemma posts_fail u body bound e : posts_share u body bound (client_fail e).
Proof. intros s s' r [= <- <-]. by apply posting_nothing. Qed.

Lemma posts_quiet {A} u body bound (m : client A) (f : A -> client ShareSubmissionStatus) :
  quiet m -> (forall a, posts_share u body bound (f a)) -> posts_share u body bound (m ≫= f).
Proof.
  intros Hm Hf s s' r. unfold mbind, client_bind. specialize (Hm s). destruct (m s) as [s1 [a|e]]; cbn in Hm.
  - intros H. by eapply posting_same; [exact Hm|reflexivity|eapply Hf].
  - intros [= <- <-]. by apply posting_nothing.
Qed.

Lemma posts_weaken u body a b call : a <= b -> posts_share u body a call -> posts_share u body b call.
Proof. intros Hab H s s' r Hs. destruct (H s s' r Hs) as (new & H1 & H2 & H3). exists new. split; [done|]. split; [lia|done]. Qed.

(** After an attempt: its result is the result, or it was refused and more follows. *)
Lemma posts_attempt u body b (m : client ShareSubmissionStatus) (f : result HelperError ShareSubmissionStatus -> client ShareSubmissionStatus) :
  posts_share u body 1 m -> (forall v, f (Ok v) = mret v) ->
  (forall e, f (Err e) = client_fail e \/ is_ambiguous e = false /\ posts_share u body b (f (Err e))) ->
  posts_share u body (S b) (client_try m ≫= f).
Proof.
  intros Hm Hok Herr s s' r. unfold mbind, client_bind, client_try. destruct (m s) as [s1 [v|e]] eqn:E.
  - rewrite Hok. intros [= <- <-]. by eapply (posts_weaken u body 1 (S b)); [lia|exact Hm|exact E].
  - destruct (Herr e) as [-> |[Ha Hf]].
    + intros [= <- <-]. by eapply (posts_weaken u body 1 (S b)); [lia|exact Hm|exact E].
    + intros H. eapply (posting_more u body 1 b); [exact (Hm _ _ _ E)|done|reflexivity|exact (Hf _ _ _ H)].
Qed.

Lemma quiet_remaining deadline : quiet (remaining_time env deadline).
Proof. by destruct deadline. Qed.

Lemma with_retry_posts u body deadline operation delays :
  (forall remaining, posts_share u body 1 (operation remaining)) ->
  forall held, posts_share u body (S (length delays)) (with_retry env false deadline operation delays held).
Proof.
  intros Hop. induction delays as [|delay delays IH]; intros held; cbn [with_retry].
  - apply posts_quiet; [apply quiet_ask|]. intros [|]; [apply posts_fail|]. apply posts_quiet; [apply quiet_remaining|]. intros remaining.
    case_bool_decide; [apply posts_fail|]. apply posts_attempt; [apply Hop|done|]. intros e. by left.
  - apply posts_quiet; [apply quiet_ask|]. intros [|]; [apply posts_fail|]. apply posts_quiet; [apply quiet_remaining|]. intros remaining.
    case_bool_decide; [apply posts_fail|]. apply posts_attempt; [apply Hop|done|]. intros e.
    destruct (retryable false e) eqn:Hr; [right|by left]. unfold retryable in Hr. apply andb_true_iff in Hr as [_ Hr].
    cbn [orb] in Hr. split; [by apply negb_true_iff|]. cbn [negb].
    apply posts_quiet; [apply quiet_ask|]. intros [|]; [apply posts_fail|]. apply posts_quiet; [apply quiet_ask|]. intros now.
    destruct (instant_checked_add env now delay) as [wake_at|]; [|apply posts_fail]. case_match; [apply posts_fail|].
    apply posts_quiet; [apply quiet_ask|]. intros [|]; [apply posts_fail|apply IH].
Qed.

Lemma quiet_score {T} server_url (outcome : result HelperError T) now started : quiet (score env server_url outcome now started).
Proof. intros s. by destruct outcome as [v|[]]. Qed.

Lemma post_share_posts (base : url) (body : text) (single : bool) timeout deadline u :
  join_helper_url base [chars "shares"] = Ok u ->
  posts_share u body (if single then 1 else S (length (retry_delays config))) (post_share env config base body single timeout deadline).
Proof.
  intros Hu. unfold post_share. rewrite Hu.
  enough (posts_share u body (if single then 1 else S (length (retry_delays config))) (
    if single then
      stop ← cancelled env;
      if (stop : bool) then client_fail HelperCancelled
      else response ← post_json env u body timeout; client_result (parse_submission_response response)
    else
      with_retry env false deadline
        (fun remaining =>
           response ← post_json env u body match remaining with Some remaining => N.min timeout remaining | None => timeout end;
           client_result (parse_submission_response response))
        (retry_delays config) None)) as Hcall by exact Hcall.
  destruct single.
  - apply posts_quiet; [apply quiet_ask|]. intros [|]; [apply posts_fail|apply post_json_posts].
  - apply with_retry_posts. intros remaining. apply post_json_posts.
Qed.

Lemma body_error json e : validate_share_body json = Err e -> is_ambiguous e = false.
Proof.
  unfold validate_share_body. destruct (share_wire_from_json json) as [w|]; cbn; [|by intros [= <-]].
  destruct (share_wire_to_json w); [done|]. by intros [= <-].
Qed.

(** A call that posts does nothing, or posts the validated body to the route of the helper. *)
Lemma scored_post_posts server_url json now single timeout deadline s s' r :
  scored_post env config server_url json now single timeout deadline s = (s', r) ->
  (exists e, r = Err e /\ is_ambiguous e = false /\ exchanges s' = exchanges s)
  \/ exists base u body, canonicalize_helper_base_url server_url = Ok base /\ join_helper_url base [chars "shares"] = Ok u
       /\ validate_share_body json = Ok body /\ posting u body (if single then 1 else S (length (retry_delays config))) s s' r.
Proof.
  unfold scored_post. destruct (canonicalize_helper_base_url server_url) as [base|e] eqn:Ebase; [|cbn; intros [= <- <-]; left; eauto].
  destruct (validate_share_body json) as [body|e] eqn:Eb; [|cbn; intros [= <- <-]; left; eauto using body_error].
  unfold mbind, client_bind, client_try, client_result, now_instant, client_ask, invalid_request. cbn.
  set (s1 := {| client_health := client_health s; exchanges := exchanges s; client_tick := S (client_tick s) |}). set (started := client_instant env _).
  destruct (post_share env config base body single timeout deadline s1) as [s2 outcome] eqn:Ep.
  pose proof (quiet_score base outcome now started s2) as Hq. destruct (score env base outcome now started s2) as [s3 scored] eqn:Es. cbn in Hq.
  assert (scored = Ok tt) as -> by (destruct outcome as [v|[]]; by injection Es as _ <-). intros [= <- <-].
  destruct (join_helper_url base [chars "shares"]) as [u|e] eqn:Eu.
  - right. exists base, u, body. split; [done|]. split; [done|]. split; [done|].
    eapply (posting_same u body _ s s1 s2 s3); [reflexivity|exact Hq|]. exact (post_share_posts _ _ _ _ _ _ Eu _ _ _ Ep).
  - left. unfold post_share in Ep. rewrite Eu in Ep. cbn in Ep. injection Ep as <- <-. eauto.
Qed.
End posting.

(** A submission does nothing, or posts the validated body to the route of the helper. *)
Lemma submission_posts `{UC : UrlCrate, UT : UrlTexts, HX : HexCrate, RC : RoundIdCrates, WR : WireCrates, HJ : HelperJson}
  env config server_url json now_seconds timeout deadline s s' r :
  submit_share_with_timeout env config server_url json now_seconds timeout deadline s = (s', r) ->
  (exists e, r = Err e /\ is_ambiguous e = false /\ exchanges s' = exchanges s)
  \/ exists base u body, canonicalize_helper_base_url server_url = Ok base /\ join_helper_url base [chars "shares"] = Ok u
       /\ validate_share_body json = Ok body /\ posting u body (S (length (retry_delays config))) s s' r.
Proof.
  unfold submit_share_with_timeout. case_bool_decide; [intros [= <- <-]; left; eauto|]. apply (scored_post_posts _ _ _ _ _ false).
Qed.

(** C12. A share is posted to a helper again only after the helper certainly refused it.  A
    submission makes at most one request more than it has retry delays, a resubmission at most
    one, each with the validated body to the route of the helper.  Every request but the last
    was refused.  When the call succeeds the last was acknowledged, and when it fails without
    being ambiguous, every request was refused: the helper does not have the share. *)
Theorem share_post_never_blindly_retried `{UC : UrlCrate, UT : UrlTexts, HX : HexCrate, RC : RoundIdCrates, WR : WireCrates, HJ : HelperJson}
  env config server_url json now_seconds timeout deadline (again : bool) s s' r :
  (if again then execute_resubmit_share env config server_url json now_seconds
   else submit_share_with_timeout env config server_url json now_seconds timeout deadline) s = (s', r) ->
  exists new, exchanges s' = exchanges s ++ new /\ length new <= (if again then 1 else S (length (retry_delays config)))
    /\ (forall x, x ∈ new -> exists base body, canonicalize_helper_base_url server_url = Ok base
          /\ join_helper_url base [chars "shares"] = Ok (http_url x) /\ validate_share_body json = Ok body /\ http_body x = Some body)
    /\ (forall i x, new !! i = Some x -> S i < length new -> refused (http_answer x))
    /\ match r with
       | Ok _ => exists x, last new = Some x /\ acknowledged x
       | Err e => is_ambiguous e = false -> Forall (fun x => refused (http_answer x)) new
       end.
Proof.
  intros H. assert ((exists e, r = Err e /\ is_ambiguous e = false /\ exchanges s' = exchanges s)
    \/ exists base u body, canonicalize_helper_base_url server_url = Ok base /\ join_helper_url base [chars "shares"] = Ok u
       /\ validate_share_body json = Ok body /\ posting u body (if again then 1 else S (length (retry_delays config))) s s' r)
    as [(e & -> & He & Hs)|(base & u & body & Hbase & Hu & Hb & new & H1 & H2 & H3 & H4)].
  { destruct again; [by apply scored_post_posts in H|by apply submission_posts in H]. }
  - exists []. rewrite app_nil_r. split; [done|]. split; [cbn; lia|]. split; [set_solver|]. split; [done|constructor].
  - exists new. split; [done|]. split; [done|]. split; [|done]. intros x Hx. rewrite Forall_forall in H3. destruct (H3 x Hx) as [<- Hbody]. eauto 10.
Qed.

(** The body of a payload: what each of its fields holds.  The other encrypted shares of the
    vote are not sent, and a tree position given by the caller replaces the payload's. *)
Record carries `{WR : WireCrates} (payload : SharePayload) (vc_tree_position : option N) (submit_at : N) (w : VoteShareFields WireEncryptedShare) : Prop := {
  carries_round : body_vote_round_id w = payload_vote_round_id payload;
  carries_choice : body_proposal_id w = payload_proposal_id payload /\ body_vote_decision w = payload_vote_decision payload;
  carries_share : encrypted_share w = enc_share payload /\ body_share_index w = wire_share_index (enc_share payload);
  carries_position : body_vc_tree_position w = default (payload_tree_position payload) vc_tree_position;
  carries_hash : base64_standard_decode (body_shares_hash w) = Some (payload_shares_hash payload);
  carries_comms : map base64_standard_decode (body_share_comms w) = map Some (payload_share_comms payload);
  carries_blind : base64_standard_decode (body_primary_blind w) = Some (primary_blind payload);
  carries_time : body_submit_at w = submit_at
}.

Lemma from_payload_carries `{HX : HexCrate, RC : RoundIdCrates, WR : WireCrates} payload vc_tree_position submit_at w :
  share_wire_from_payload payload vc_tree_position submit_at = Ok w -> carries payload vc_tree_position submit_at w.
Proof.
  unfold share_wire_from_payload. intros (? & _ & H)%result_bind_Ok. apply result_bind_Ok in H as (position & Hpos & H).
  apply result_bind_Ok in H as (at_ & Hat & H). apply result_bind_Ok in H as (? & _ & [= <-]).
  unfold helper_tree_position in Hpos. case_bool_decide; [done|]. injection Hpos as <-. unfold json_safe_u64 in Hat. case_bool_decide; [done|]. injection Hat as <-.
  constructor; cbn; try done; [apply base64_decode_encode| |apply base64_decode_encode].
  rewrite map_map. apply map_ext. intros b. apply base64_decode_encode.
Qed.

Lemma wire_json_kept `{HX : HexCrate, RC : RoundIdCrates, WR : WireCrates} payload vc_tree_position submit_at json :
  to_wire_json payload vc_tree_position submit_at = Ok json ->
  exists w, share_wire_from_payload payload vc_tree_position submit_at = Ok w /\ share_wire_from_json json = Ok w /\ validate_share_body json = Ok json.
Proof.
  unfold to_wire_json. intros (w & Hw & H)%result_bind_Ok. exists w. split; [done|].
  assert (validate_share_wire w = Ok tt) as Hv by (unfold share_wire_to_json in H; by apply result_bind_Ok in H as ([] & ? & _)).
  destruct (share_wire_json w Hv) as [Hto Hfrom]. rewrite Hto in H. injection H as <-. split; [done|].
  unfold validate_share_body. rewrite Hfrom. cbn. by rewrite Hto.
Qed.

(** C24. The body of a share passes the client's check and is sent as it was made: JSON built
    from a payload is within the size a helper accepts, and reads back as a body whose round,
    proposal, decision, encrypted share and index, shares hash, share commitments and primary
    blind are the payload's, whose tree position is the caller's, or else the payload's, and
    whose time is the caller's. *)
Theorem share_body_sent_unchanged `{HX : HexCrate, RC : RoundIdCrates, WR : WireCrates} payload vc_tree_position submit_at json :
  to_wire_json payload vc_tree_position submit_at = Ok json ->
  validate_share_body json = Ok json /\ exists w, share_wire_from_json json = Ok w /\ carries payload vc_tree_position submit_at w.
Proof. intros (w & Hw & Hfrom & Hbody)%wire_json_kept. split; [done|]. exists w. split; [done|by apply from_payload_carries]. Qed.

(** ** Demotion of helpers *)

Inductive HealthEvent : Type := HelperAnswered (u : url) | FailedAt (u : url) (at_ : N) | RankedAt (urls : list url) (at_ : N).

Section demotion.
Context `{UC : UrlCrate, UT : UrlTexts}.

Definition health_step (h : HelperHealth) (ev : HealthEvent) : HelperHealth :=
  match ev with
  | HelperAnswered u => record_success h u
  | FailedAt u t => record_failure h u t
  | RankedAt urls t => (candidate_servers h urls t).1
  end.
Definition health_run (h : HelperHealth) (events : list HealthEvent) : HelperHealth := fold_left health_step events h.

Lemma split_by_health_Permutation h servers now h' a d : split_by_health h servers now = (h', a, d) -> a ++ d ≡ₚ servers.
Proof.
  revert h h' a d. induction servers as [|u l IH]; intros h h' a d H; cbn in H; [by injection H as <- <- <-|].
  destruct (is_available h u now) as [h1 ok]. destruct (split_by_health h1 l now) as [[h2 a2] d2] eqn:E. apply IH in E.
  destruct ok; injection H as <- <- <-; [by cbn; rewrite E|]. by rewrite <- Permutation_middle, E.
Qed.

Lemma candidate_servers_Permutation h servers now : (candidate_servers h servers now).2 ≡ₚ servers.
Proof.
  unfold candidate_servers. destruct (split_by_health h servers now) as [[h' a] d] eqn:E. cbn.
  case_bool_decide; [done|]. by eapply split_by_health_Permutation.
Qed.

Context (u : url).
Let key : url := helper_identity_key u.

Definition failure_of (ev : HealthEvent) : nat := match ev with FailedAt v _ => if bool_decide (helper_identity_key v = key) then 1 else 0 | _ => 0 end.
Definition not_answered (ev : HealthEvent) : Prop := match ev with HelperAnswered v => helper_identity_key v <> key | _ => True end.
Definition within (t0 now : N) (ev : HealthEvent) : Prop := match ev with FailedAt _ t | RankedAt _ t => (t0 <= t <= now)%N | HelperAnswered _ => True end.

(** The standing of a helper that failed [f] times since it had a clean record. *)
Definition health_standing (threshold cooldown : N) (window : Prop) (t0 now : N) (f : nat) (h : HelperHealth) : Prop :=
  failure_threshold h = threshold /\ cooldown_seconds h = cooldown
  /\ ((N.of_nat f < threshold)%N ->
      match health_states h !! key with
      | None => f = 0
      | Some st => consecutive_failures st = N.of_nat f /\ opened_at st = None
      end)
  /\ ((threshold <= N.of_nat f)%N -> window -> exists st o, health_states h !! key = Some st /\ opened_at st = Some o /\ (t0 <= o <= now)%N).

Section steps.
Context (threshold cooldown : N) (window : Prop) (t0 now : N).
Context (Hthr : (1 <= threshold <= u32_max)%N) (Hwin : window -> (now - t0 < cooldown)%N).

Lemma expire_standing f h st t :
  health_standing threshold cooldown window t0 now f h -> health_states h !! key = Some st -> (window -> t0 <= t <= now)%N ->
  (N.of_nat f < threshold)%N \/ window -> expire_cooldown_if_elapsed h st t = st.
Proof.
  intros (E1 & E2 & H1 & H2) Hst Ht Hor. unfold expire_cooldown_if_elapsed. rewrite Hst in H1.
  destruct (decide (N.of_nat f < threshold)%N) as [Hlt|Hge]; [destruct (H1 Hlt) as [_ ->]; done|].
  destruct Hor as [?|Hw]; [done|]. destruct (H2 ltac:(lia) Hw) as (st' & o & Hst' & Hopen & Ho).
  rewrite Hst in Hst'. injection Hst' as <-. rewrite Hopen, bool_decide_true; [done|].
  specialize (Hwin Hw). specialize (Ht Hw). lia.
Qed.

Lemma available_standing f h v t :
  health_standing threshold cooldown window t0 now f h -> (window -> t0 <= t <= now)%N -> health_standing threshold cooldown window t0 now f (is_available h v t).1.
Proof.
  intros Hs Ht. unfold is_available. destruct (health_states h !! helper_identity_key v) as [st|] eqn:Hst; [|done]. cbn.
  destruct (decide (helper_identity_key v = key)) as [E|E].
  2:{ destruct Hs as (E1 & E2 & H1 & H2). split; [done|]. split; [done|]. cbn. by rewrite lookup_insert_ne by congruence. }
  rewrite E in *. pose proof (expire_standing f h st t Hs Hst Ht) as He. destruct Hs as (E1 & E2 & H1 & H2).
  split; [done|]. split; [done|]. cbn. rewrite lookup_insert_eq. split.
  - intros Hlt. rewrite He by auto. specialize (H1 Hlt). by rewrite Hst in H1.
  - intros Hge Hw. rewrite He by auto. destruct (H2 Hge Hw) as (st' & o & Hst' & Ho). rewrite Hst in Hst'. injection Hst' as ->. eauto.
Qed.

Lemma split_standing f h urls t :
  health_standing threshold cooldown window t0 now f h -> (window -> t0 <= t <= now)%N -> health_standing threshold cooldown window t0 now f (split_by_health h urls t).1.1.
Proof.
  intros Hs Ht. revert h Hs. induction urls as [|v urls IH]; intros h Hs; [done|]. cbn.
  pose proof (available_standing f h v t Hs Ht) as Ha. destruct (is_available h v t) as [h1 ok]. cbn in Ha.
  specialize (IH h1 Ha). destruct (split_by_health h1 urls t) as [[h2 a] d]. by destruct ok.
Qed.

Lemma failure_standing f h v t :
  health_standing threshold cooldown window t0 now f h -> (window -> t0 <= t <= now)%N ->
  health_standing threshold cooldown window t0 now (f + failure_of (FailedAt v t)) (record_failure h v t).
Proof.
  intros Hs Ht. unfold record_failure, failure_of. destruct (decide (helper_identity_key v = key)) as [E|E].
  2:{ rewrite bool_decide_false by done. destruct Hs as (E1 & E2 & H1 & H2). split; [done|]. split; [done|]. cbn. rewrite Nat.add_0_r.
      by rewrite lookup_insert_ne by congruence. }
  rewrite E, bool_decide_true by done. pose proof Hs as (E1 & E2 & H1 & H2). split; [done|]. split; [done|]. cbn [with_states health_states]. rewrite lookup_insert_eq, E1.
  destruct (decide (N.of_nat f < threshold)%N) as [Hlt|Hge].
  - assert (exists st, expire_cooldown_if_elapsed h (default {| consecutive_failures := 0; opened_at := None |} (health_states h !! key)) t = st
      /\ consecutive_failures st = N.of_nat f /\ opened_at st = None) as (st & -> & Hc & Ho).
    { specialize (H1 Hlt). destruct (health_states h !! key) as [st|] eqn:Hst; cbn.
      - exists st. split; [|done]. by eapply (expire_standing f h st t); [exact Hs|exact Hst|exact Ht|left].
      - subst f. eexists. split; [reflexivity|done]. }
    rewrite Hc, Ho. split.
    + intros Hlt'. rewrite bool_decide_false by lia. cbn. split; [unfold u32_max in *; lia|done].
    + intros Hge Hw. eexists _, t. split; [done|]. cbn. rewrite (bool_decide_true (threshold <= _)%N) by (unfold u32_max in *; lia). auto.
  - split; [lia|]. intros _ Hw. destruct (H2 ltac:(lia) Hw) as (st & o & Hst & Ho & Hb). rewrite Hst. cbn.
    rewrite (expire_standing f h st t) by auto. eexists _, o. split; [done|]. cbn. rewrite Ho. by rewrite (bool_decide_false (Some o = None)), andb_false_r by done.
Qed.

Lemma run_standing f h events :
  health_standing threshold cooldown window t0 now f h -> Forall not_answered events -> (window -> Forall (within t0 now) events) ->
  health_standing threshold cooldown window t0 now (f + sum_list_with failure_of events) (health_run h events).
Proof.
  intros Hs Hn Hw. revert f h Hs. induction Hn as [|ev events He _ IH]; intros f h Hs; [by rewrite Nat.add_0_r|].
  assert (window -> within t0 now ev) as Hev by (intros W; by apply Forall_cons in Hw as [? _]; auto).
  assert (window -> Forall (within t0 now) events) as Hevs by (intros W; specialize (Hw W); by apply Forall_cons in Hw as [_ ?]).
  specialize (IH Hevs (f + failure_of ev) (health_step h ev)). rewrite <- Nat.add_assoc in IH. apply IH. clear IH.
  destruct ev as [v|v t|urls t]; cbn [health_step].
  - cbn. rewrite Nat.add_0_r. destruct Hs as (E1 & E2 & H1 & H2). split; [done|]. split; [done|]. cbn. cbn in He. by rewrite lookup_delete_ne by done.
  - by apply failure_standing.
  - rewrite Nat.add_0_r. unfold candidate_servers. pose proof (split_standing f h urls t Hs Hev) as H.
    by destruct (split_by_health h urls t) as [[h' a] d].
Qed.
End steps.
End demotion.

(** C31. A helper is demoted for failing, and only then.  Count the failures of a helper that has
    a clean record and does not answer, under any spelling of its URL, whatever happens to other
    helpers.  Below the threshold it is available at any time.  From the threshold on it is not,
    as long as less than the cooldown passed since the first of them.  Ordering the helpers never
    drops one. *)
Theorem helper_demoted_for_failures `{UC : UrlCrate, UT : UrlTexts} h u events now :
  (1 <= failure_threshold h <= u32_max)%N -> health_states h !! helper_identity_key u = None -> Forall (not_answered u) events ->
  ((N.of_nat (sum_list_with (failure_of u) events) < failure_threshold h)%N -> (is_available (health_run h events) u now).2 = true)
  /\ ((failure_threshold h <= N.of_nat (sum_list_with (failure_of u) events))%N ->
      forall t0, Forall (within t0 now) events -> (now - t0 < cooldown_seconds h)%N -> (is_available (health_run h events) u now).2 = false)
  /\ forall urls, (candidate_servers (health_run h events) urls now).2 ≡ₚ urls.
Proof.
  intros Hthr Hclean Hn.
  assert (forall window t0, (window -> Forall (within t0 now) events) -> (window -> now - t0 < cooldown_seconds h)%N ->
    health_standing u (failure_threshold h) (cooldown_seconds h) window t0 now (sum_list_with (failure_of u) events) (health_run h events)) as Hs.
  { intros window t0 Hin Hwin. apply (run_standing u _ _ window t0 now Hthr Hwin 0); [|done|done].
    split; [done|]. split; [done|]. rewrite Hclean. split; [done|lia]. }
  split; [|split; [|intros urls; apply candidate_servers_Permutation]].
  - intros Hlt. destruct (Hs False 0%N ltac:(done) ltac:(done)) as (_ & _ & H & _). specialize (H Hlt). unfold is_available.
    destruct (health_states (health_run h events) !! helper_identity_key u) as [st|]; [|done]. cbn. destruct H as [_ H].
    unfold expire_cooldown_if_elapsed. by rewrite H, bool_decide_true.
  - intros Hge t0 Hin Hwin. destruct (Hs True t0 ltac:(done) ltac:(done)) as (_ & E2 & _ & H). destruct (H Hge I) as (st & o & Hst & Ho & Hb).
    unfold is_available. rewrite Hst. cbn. unfold expire_cooldown_if_elapsed. rewrite Ho, E2, (bool_decide_true (now - o < _)%N) by lia. by rewrite Ho, bool_decide_false.
Qed.

(** ** Examples *)

#[local] Existing Instances sample_hex any_round_id plain_urls plain_texts sample_wire_crates.

(** Helpers that answer that a share is queued. *)
#[local] Instance queued_json : HelperJson := {| json_string_field := fun _ _ => Some (chars "queued") |}.

(** The first request is answered with 429, the others are acknowledged. *)
Definition busy_env : ClientEnv :=
  {| client_cancelled := fun _ => false; client_instant := fun t => N.of_nat t; instant_checked_add := fun a b => Some (a + b)%N;
     client_transport := fun t =>
       Some (Ok {| helper_status := if bool_decide (t < 5) then 429 else 200; helper_body := []; helper_content_type := Some (chars "Application/JSON; a") |}) |}.
Definition default_config : HelperClientConfig :=
  {| config_request_timeout := 5000 * MILLISECOND; config_post_timeout := 10000 * MILLISECOND; preflight_soft_timeout := 500 * MILLISECOND;
     preflight_hard_timeout := 2000 * MILLISECOND; retry_delays := map (N.mul MILLISECOND) HELPER_RETRY_DELAYS_MS |}.
Definition fresh_client : ClientState := {| client_health := health_new 3 30; exchanges := []; client_tick := 0 |}.

Definition no_payload : SharePayload :=
  {| payload_vote_round_id := EmptyString; payload_shares_hash := []; payload_proposal_id := 0; payload_vote_decision := 0;
     enc_share := {| wire_c1 := []; wire_c2 := []; wire_share_index := 0 |}; payload_tree_position := 0; all_enc_shares := [];
     payload_share_comms := []; primary_blind := [] |}.
Definition shared_payload : SharePayload := match recover_payloads sample_shared with Ok (p :: _) => p | _ => no_payload end.
Definition shared_body : text := match to_wire_json shared_payload (Some 8%N) 2000 with Ok t => t | Err _ => [] end.

Abbreviation retried_run :=
  ((if false then execute_resubmit_share busy_env default_config (chars "https://a") shared_body 1000
    else submit_share_with_timeout busy_env default_config (chars "https://a") shared_body 1000 (7000 * MILLISECOND) None) fresh_client) (only parsing).

Definition queued_twice (run : ClientState * result HelperError ShareSubmissionStatus) : bool :=
  match run with (s, Ok SubmissionQueued) => bool_decide (length (exchanges s) = 2) | _ => false end.
Definition is_made (r : result VotingError text) : bool := match r with Ok _ => true | Err _ => false end.

Lemma queued_twice_run run : queued_twice run = true -> exists s, run = (s, Ok SubmissionQueued) /\ length (exchanges s) = 2.
Proof. destruct run as [s [[|]|e]]; [|done..]. intros H%bool_decide_eq_true. by exists s. Qed.
Lemma is_made_Ok r : is_made r = true -> r = Ok (match r with Ok t => t | Err _ => [] end).
Proof. by destruct r. Qed.

Lemma examples_hold : queued_twice retried_run && is_made (to_wire_json shared_payload (Some 8%N) 2000) = true.
Proof. vm_cast_no_check (eq_refl true). Qed.

Lemma retried_run_ends : exists s, retried_run = (s, Ok SubmissionQueued) /\ length (exchanges s) = 2.
Proof. exact (queued_twice_run _ (proj1 (andb_prop _ _ examples_hold))). Qed.

Lemma shared_body_made : to_wire_json shared_payload (Some 8%N) 2000 = Ok shared_body.
Proof. exact (is_made_Ok _ (proj2 (andb_prop _ _ examples_hold))). Qed.

Lemma share_post_never_blindly_retried_witness :
  exists s x, retried_run = (s, Ok SubmissionQueued) /\ exchanges s !! 0 = Some x /\ refused (http_answer x) /\ exists y, last (exchanges s) = Some y /\ acknowledged y.
Proof.
  destruct retried_run_ends as (s & Hrun & Hlen).
  destruct (share_post_never_blindly_retried busy_env default_config (chars "https://a") shared_body 1000 (7000 * MILLISECOND) None false
              fresh_client s (Ok SubmissionQueued) Hrun) as (new & Hnew & _ & _ & Hrefused & Hlast).
  change (exchanges s = new) in Hnew. subst new. destruct (exchanges s) as [|x [|y l]] eqn:E; [discriminate Hlen..|].
  exists s, x. split; [exact Hrun|]. rewrite E. split; [reflexivity|]. split; [|exact Hlast]. apply (Hrefused 0 x); [reflexivity|]. rewrite Hlen. lia.
Defined.

Lemma share_body_sent_unchanged_witness :
  to_wire_json shared_payload (Some 8%N) 2000 = Ok shared_body /\ validate_share_body shared_body = Ok shared_body.
Proof.
  split; [exact shared_body_made|]. destruct (share_body_sent_unchanged shared_payload (Some 8%N) 2000 shared_body shared_body_made) as [H _]. exact H.
Defined.

(** A helper fails three times within the cooldown, under two spellings, and another answers. *)
Definition bad_day : list HealthEvent :=
  [FailedAt (chars "a") 1000; HelperAnswered (chars "b"); FailedAt (chars "a/") 1003; RankedAt [chars "a"; chars "b"] 1004; FailedAt (chars "a") 1009].

Definition bad_day_counts : bool :=
  bool_decide (sum_list_with (failure_of (chars "a")) bad_day = 3) && bool_decide (helper_identity_key (chars "b") <> helper_identity_key (chars "a")).

Lemma bad_day_counts_true : bad_day_counts = true.
Proof. vm_cast_no_check (eq_refl true). Qed.

Lemma helper_demoted_for_failures_witness :
  (is_available (health_run (health_new 3 30) bad_day) (chars "a") 1020).2 = false.
Proof.
  pose proof bad_day_counts_true as H. apply andb_prop in H as [H1 H2]. apply bool_decide_eq_true in H1, H2.
  apply (helper_demoted_for_failures (health_new 3 30) (chars "a") bad_day 1020) with (t0 := 1000%N).
  - split; [done|]. unfold u32_max. cbn. lia.
  - apply lookup_empty.
  - repeat constructor. exact H2.
  - rewrite H1. cbn. lia.
  - repeat apply Forall_cons_2; try apply Forall_nil_2; cbn; lia.
  - cbn. lia.
Defined.
