(* ===== verification/ShareRecords.v ===== *)
(** * Delivery records of helper shares

    Models the writes of [storage/queries/share_delegations.rs] with the transitions of
    [ShareDeliveryState] in [share.rs].  A record lists the helpers that accepted a share,
    those whose answer was lost, and those with a request in flight.  Several connections
    update one record; each write is a loop that reads the record, computes new lists, and
    updates the row only if it still holds what was read.  One iteration is [prepare]
    followed by [settle] on the row as it is by then. *)

From S2P Require Import Prelude Sorting Types Generation Protocol ShareTiming SharePlacement Ballot ShareDelivery RoundPlanning.
From S2P Require Import VoteRecovery WalletTables RoundLoading.

(** ** Data *)

Record ShareRef : Type := {
  ref_round_id : string;
  ref_wallet_id : string;
  ref_bundle_index : N;
  ref_proposal_id : N;
  ref_share_index : N
}.

Inductive ShareAttemptReservation : Type := Started | AlreadyRecorded | PlacementCapacityReached | StaleGeneration.

Inductive ShareAttemptCapacityPolicy : Type := EnforcePlacementTarget | AllowRecoveryBeyondPlacementTarget.

Inductive HelperUrlMerge : Type := DefiniteAcceptance | OutcomeUnknown.

(** The calls, with the generation they expect if any. *)
Inductive ShareOperation : Type :=
| AddAttempting (server_url : url) (placement_server_urls : list url) (target_count : nat)
    (capacity_policy : ShareAttemptCapacityPolicy) (expected_nullifier : option bytes)
| RemoveAttempting (server_url : url) (expected_nullifier : option bytes)
| MergeUrls (new_urls : list url) (merge : HelperUrlMerge) (reset_submit_at : bool) (expected_nullifier : option bytes)
| MarkConfirmed (expected_nullifier : option bytes).

(** The generation a call expects. *)
Definition call_generation (op : ShareOperation) : option bytes :=
  match op with
  | AddAttempting _ _ _ _ expected | RemoveAttempting _ expected | MergeUrls _ _ _ expected | MarkConfirmed expected => expected
  end.

Inductive ShareAnswer : Type := Reservation (r : ShareAttemptReservation) | Updated (found : bool) | Scheduled (submit_at : N).

(** What an iteration does after its read: return, update the row under a guard, with an
    answer for a guard that fails or a further iteration, or insert the row. *)
Inductive ShareWrite : Type :=
| Return (answer : ShareAnswer)
| Update (guard : ShareColumns -> bool) (new : ShareColumns -> ShareColumns) (answer : ShareColumns -> ShareAnswer)
    (missed : option ShareAnswer)
| Insert (row : ShareColumns).

(** The statement run on the row as it is by then; no answer means another iteration. *)
Definition settle (write : ShareWrite) (row : option ShareColumns) : option ShareColumns * option ShareAnswer :=
  match write, row with
  | Return answer, _ => (row, Some answer)
  | Update guard new answer missed, Some r => if guard r then (Some (new r), Some (answer (new r))) else (row, missed)
  | Update _ _ _ missed, None => (None, missed)
  | Insert r, None => (Some r, Some (Scheduled (col_submit_at r)))
  | Insert _, Some _ => (row, None)
  end.

Definition set_urls (r : ShareColumns) (sent ambiguous attempting : text) : ShareColumns :=
  {| col_sent_to_urls := sent; col_nullifier := col_nullifier r; col_confirmed := col_confirmed r; col_submit_at := col_submit_at r;
     col_share_created_at := col_share_created_at r; col_ambiguous_urls := ambiguous; col_attempting_urls := attempting;
     col_target_count := col_target_count r |}.

Definition set_schedule (r : ShareColumns) (submit_at target_count : N) (confirmed : Z) : ShareColumns :=
  {| col_sent_to_urls := col_sent_to_urls r; col_nullifier := col_nullifier r; col_confirmed := confirmed; col_submit_at := submit_at;
     col_share_created_at := col_share_created_at r; col_ambiguous_urls := col_ambiguous_urls r;
     col_attempting_urls := col_attempting_urls r; col_target_count := target_count |}.

(** The guard of every update of the lists. *)
Definition unchanged (observed r : ShareColumns) : bool :=
  bool_decide (col_nullifier r = col_nullifier observed) && bool_decide (col_sent_to_urls r = col_sent_to_urls observed)
  && bool_decide (col_ambiguous_urls r = col_ambiguous_urls observed)
  && bool_decide (col_attempting_urls r = col_attempting_urls observed).

Definition other_generation (expected : option bytes) (r : ShareColumns) : bool :=
  match expected with Some nullifier => negb (bool_decide (nullifier = col_nullifier r)) | None => false end.

Section records.
Context `{RS : RecoverySerde, PJ : PlanJson, UC : UrlCrate, UT : UrlTexts}.

(** ** Stored lists *)

(** Entries that do not canonicalize are kept verbatim, each once. *)
Fixpoint legacy_helper_urls (legacy urls : list url) : list url :=
  match urls with
  | [] => legacy
  | u :: rest =>
      match canonicalize_helper_base_url u with
      | Ok _ => legacy_helper_urls legacy rest
      | Err _ => legacy_helper_urls (if bool_decide (u ∈ legacy) then legacy else legacy ++ [u]) rest
      end
  end.

Definition partition_stored_helper_urls (urls : list url) : list url * list url :=
  (stored_helper_urls [] urls, legacy_helper_urls [] urls).

Definition serialize_url_list (canonical legacy : list url) : text := urls_to_json (canonical ++ legacy).

(** The three lists of a row, read into a delivery state, with their legacy entries. *)
Definition read_delivery (r : ShareColumns) :
  result VotingError (ShareDeliveryState * (list url * list url * list url)) :=
  sent ← stored_url_list "sent_to_urls" (col_sent_to_urls r);
  ambiguous ← stored_url_list "ambiguous_urls" (col_ambiguous_urls r);
  attempting ← stored_url_list "attempting_urls" (col_attempting_urls r);
  let sent := partition_stored_helper_urls sent in
  let ambiguous := partition_stored_helper_urls ambiguous in
  let attempting := partition_stored_helper_urls attempting in
  state ← from_url_lists sent.1 ambiguous.1 attempting.1;
  Ok (state, (sent.2, ambiguous.2, attempting.2)).

(** ** Transitions *)

Definition mark_accepted (s : ShareDeliveryState) (u : url) : result VotingError ShareDeliveryState :=
  u ← canonicalize_helper_base_url u; Ok (mark_accepted_canonical s u).

Definition mark_outcome_unknown (s : ShareDeliveryState) (u : url) : result VotingError ShareDeliveryState :=
  u ← canonicalize_helper_base_url u; Ok (mark_outcome_unknown_canonical s u).

Definition mark_definite_failure (s : ShareDeliveryState) (u : url) : result VotingError ShareDeliveryState :=
  u ← canonicalize_helper_base_url u;
  Ok {| accepted_urls := accepted_urls s; outcome_unknown_urls := outcome_unknown_urls s;
        in_flight_urls := filter (fun c => c <> u) (in_flight_urls s) |}.

Definition begin (s : ShareDeliveryState) (u : url) : result VotingError ShareDeliveryState :=
  u ← canonicalize_helper_base_url u; Ok (begin_in_flight s u).

Definition merge_persisted_report (s : ShareDeliveryState) (accepted unknown : list url) : result VotingError ShareDeliveryState :=
  accepted ← canonical_helper_url_list accepted;
  let s := foldl mark_accepted_canonical s accepted in
  unknown ← canonical_helper_url_list unknown;
  Ok (foldl mark_outcome_unknown_canonical s unknown).

Definition share_place (ref : ShareRef) : text :=
  chars "round=" ++ chars (ref_round_id ref) ++ chars ", wallet=" ++ chars (ref_wallet_id ref)
  ++ chars ", bundle=" ++ decimal (ref_bundle_index ref) ++ chars ", proposal=" ++ decimal (ref_proposal_id ref).

Definition ensure_share_matches_ballot_intent (w : WalletTables) (ref : ShareRef) : result VotingError unit :=
  match intents_table w !! (ref_round_id ref, ref_wallet_id ref, Z.of_N (ref_proposal_id ref)) with
  | None => Ok tt
  | Some intent =>
      _ ← fail_if (negb (bool_decide (col_skipped intent = 0)%Z))
            (VeInvalidInput (chars "cannot record share delegation for skipped proposal " ++ share_place ref));
      choice ← ok_or (col_intent_choice intent)
            (VeInvalidInput (chars "ballot intent choice missing for round=" ++ chars (ref_round_id ref) ++ chars ", wallet="
               ++ chars (ref_wallet_id ref) ++ chars ", proposal=" ++ decimal (ref_proposal_id ref)));
      fail_if (negb (bool_decide (col_choice <$> vote_at w (ref_round_id ref) (ref_wallet_id ref) (ref_bundle_index ref) (ref_proposal_id ref)
                                  = Some choice)))
        (VeInvalidInput (chars "share delegation conflicts with ballot intent for " ++ share_place ref))
  end.

(** ** One iteration *)

(** Capacity used by a record among the helpers of a placement. *)
Definition reserved_placements (placement : list url) (s : ShareDeliveryState) : nat :=
  length (filter (fun u => u ∈ placement) (accepted_urls s ++ in_flight_urls s)).

(** [add_attempting_server_for_generation]. *)
Definition prepare_attempt (w : WalletTables) (ref : ShareRef) (server_url : url) (placement_server_urls : list url) (target_count : nat)
  (capacity_policy : ShareAttemptCapacityPolicy) (expected : option bytes) (row : option ShareColumns) : result VotingError ShareWrite :=
  placement ← canonical_helper_url_list placement_server_urls;
  server_url ← canonicalize_helper_base_url server_url;
  _ ← fail_if (negb (bool_decide (server_url ∈ placement)))
        (VeInvalidInput (chars "attempted helper must belong to the placement fleet"));
  match row with
  | None => Ok (Return (Reservation StaleGeneration))
  | Some r =>
      if other_generation expected r then Ok (Return (Reservation StaleGeneration))
      else
        _ ← ensure_share_matches_ballot_intent w ref;
        read ← read_delivery r;
        let state := read.1 in
        let placement_capacity_reached :=
          match capacity_policy with
          | EnforcePlacementTarget => bool_decide (target_count <= reserved_placements placement state)
          | AllowRecoveryBeyondPlacementTarget => false
          end in
        if negb (bool_decide (col_confirmed r = 0)%Z) || delivery_contains state server_url then Ok (Return (Reservation AlreadyRecorded))
        else if placement_capacity_reached then Ok (Return (Reservation PlacementCapacityReached))
        else
          state ← begin state server_url;
          Ok (Update (fun r' => bool_decide (col_confirmed r' = 0)%Z && unchanged r r')
                (fun r' => set_urls r' (col_sent_to_urls r') (col_ambiguous_urls r')
                             (serialize_url_list (in_flight_urls state) read.2.2))
                (fun _ => Reservation Started) None)
  end.

(** [remove_attempting_server_for_generation]. *)
Definition prepare_remove (w : WalletTables) (ref : ShareRef) (server_url : url) (expected : option bytes) (row : option ShareColumns) :
  result VotingError ShareWrite :=
  match row with
  | None => Ok (Return (Updated false))
  | Some r =>
      if other_generation expected r then Ok (Return (Updated false))
      else
        _ ← ensure_share_matches_ballot_intent w ref;
        attempting ← stored_url_list "attempting_urls" (col_attempting_urls r);
        let attempting := partition_stored_helper_urls attempting in
        state ← from_url_lists [] [] attempting.1;
        state ← mark_definite_failure state server_url;
        Ok (Update (unchanged r)
              (fun r' => set_urls r' (col_sent_to_urls r') (col_ambiguous_urls r') (serialize_url_list (in_flight_urls state) attempting.2))
              (fun _ => Updated true) None)
  end.

(** [merge_share_delegation_urls]. *)
Definition prepare_merge (w : WalletTables) (ref : ShareRef) (new_urls : list url) (merge : HelperUrlMerge) (reset_submit_at : bool)
  (expected : option bytes) (row : option ShareColumns) : result VotingError ShareWrite :=
  match row with
  | None => Ok (Return (Updated false))
  | Some r =>
      if other_generation expected r then Ok (Return (Updated false))
      else
        _ ← ensure_share_matches_ballot_intent w ref;
        read ← read_delivery r;
        state ← fold_results (match merge with DefiniteAcceptance => mark_accepted | OutcomeUnknown => mark_outcome_unknown end) read.1 new_urls;
        Ok (Update (unchanged r)
              (fun r' => set_schedule
                 (set_urls r' (serialize_url_list (accepted_urls state) read.2.1.1) (serialize_url_list (outcome_unknown_urls state) read.2.1.2)
                    (serialize_url_list (in_flight_urls state) read.2.2))
                 (if reset_submit_at then 0%N else col_submit_at r') (col_target_count r') (col_confirmed r'))
              (fun _ => Updated true) None)
  end.

(** [mark_share_confirmed]; it does not loop. *)
Definition prepare_confirmed (w : WalletTables) (ref : ShareRef) (expected : option bytes) (row : option ShareColumns) :
  result VotingError ShareWrite :=
  match row with
  | None => Ok (Return (Updated false))
  | Some r =>
      if other_generation expected r then Ok (Return (Updated false))
      else
        _ ← ensure_share_matches_ballot_intent w ref;
        Ok (Update (fun r' => bool_decide (col_nullifier r' = col_nullifier r))
              (fun r' => set_schedule r' (col_submit_at r') (col_target_count r') 1) (fun _ => Updated true) (Some (Updated false)))
  end.

Definition prepare (w : WalletTables) (ref : ShareRef) (op : ShareOperation) (row : option ShareColumns) : result VotingError ShareWrite :=
  match op with
  | AddAttempting server placement target policy expected => prepare_attempt w ref server placement target policy expected row
  | RemoveAttempting server expected => prepare_remove w ref server expected row
  | MergeUrls urls merge reset expected => prepare_merge w ref urls merge reset expected row
  | MarkConfirmed expected => prepare_confirmed w ref expected row
  end.

(** The public updates of the lists. *)
Definition add_sent_servers_for_generation (new_urls : list url) (expected : option bytes) : ShareOperation :=
  MergeUrls new_urls DefiniteAcceptance true expected.

Definition add_sent_servers_preserving_schedule_for_generation (new_urls : list url) (expected : option bytes) : ShareOperation :=
  MergeUrls new_urls DefiniteAcceptance false expected.

Definition add_ambiguous_servers_for_generation (new_urls : list url) (reset_submit_at : bool) (expected : option bytes) : ShareOperation :=
  MergeUrls new_urls OutcomeUnknown reset_submit_at expected.

Definition share_is_confirmed_for_generation (w : WalletTables) (ref : ShareRef) (expected : option bytes) (row : option ShareColumns) :
  result VotingError (option bool) :=
  match row with
  | None => Ok None
  | Some r =>
      if other_generation expected r then Ok None
      else
        _ ← ensure_share_matches_ballot_intent w ref;
        Ok (Some (negb (bool_decide (col_confirmed r = 0)%Z)))
  end.

(** An iteration of [record_share_delegation_inner], after its check of the intent; the
    times fit SQLite's integers. *)
Definition prepare_record (ref : ShareRef) (sent_to_urls ambiguous_urls : list url) (target_count : N) (nullifier : bytes) (submit_at now : N)
  (row : option ShareColumns) : result VotingError ShareWrite :=
  match row with
  | None =>
      state ← from_url_lists sent_to_urls ambiguous_urls [];
      Ok (Insert {| col_sent_to_urls := serialize_url_list (accepted_urls state) []; col_nullifier := nullifier; col_confirmed := 0;
                    col_submit_at := submit_at; col_share_created_at := now;
                    col_ambiguous_urls := serialize_url_list (outcome_unknown_urls state) [];
                    col_attempting_urls := serialize_url_list [] []; col_target_count := target_count |})
  | Some r =>
      _ ← fail_if (negb (bool_decide (col_nullifier r = nullifier)))
            (VeInvalidInput (chars "share nullifier conflict for " ++ share_place ref ++ chars ", share=" ++ decimal (ref_share_index ref)));
      read ← read_delivery r;
      state ← merge_persisted_report read.1 sent_to_urls ambiguous_urls;
      let '(legacy_sent, legacy_ambiguous, legacy_attempting) := read.2 in
      let legacy_ambiguous := filter (fun u => u ∉ legacy_sent) legacy_ambiguous in
      let legacy_attempting := filter (fun u => (u ∉ legacy_sent) /\ (u ∉ legacy_ambiguous)) legacy_attempting in
      Ok (Update (fun r' => unchanged r r' && bool_decide (col_target_count r' = col_target_count r))
            (fun r' => set_schedule
               (set_urls r' (serialize_url_list (accepted_urls state) legacy_sent) (serialize_url_list (outcome_unknown_urls state) legacy_ambiguous)
                  (serialize_url_list (in_flight_urls state) legacy_attempting))
               (col_submit_at r') (N.max (col_target_count r) target_count) (col_confirmed r'))
            (fun r' => Scheduled (col_submit_at r')) None)
  end.

(** [record_share_delegation_for_vote_generation]: one transaction holds the write lock, so
    the row is still as read. *)
Definition record_for_vote_generation (w : WalletTables) (ref : ShareRef) (sent_to_urls ambiguous_urls : list url) (target_count : N)
  (nullifier : bytes) (submit_at now : N) (expected_json : text) (row : option ShareColumns) : result VotingError (option ShareColumns * option ShareAnswer) :=
  let json := vote_at w (ref_round_id ref) (ref_wallet_id ref) (ref_bundle_index ref) (ref_proposal_id ref) ≫= col_commitment_bundle_json in
  _ ← fail_if (negb (bool_decide (json = Some expected_json)))
        (VeInvalidInput (chars "committed vote changed before helper share delivery for " ++ share_place ref));
  _ ← ensure_share_matches_ballot_intent w ref;
  write ← prepare_record ref sent_to_urls ambiguous_urls target_count nullifier submit_at now row;
  Ok (settle write row).

(** ** Connections sharing a record *)

(** Calls in progress, each between iterations or holding a prepared write. *)
Record ShareSystem : Type := {
  share_row : option ShareColumns;
  calls : gmap nat (ShareOperation * option ShareWrite)
}.

Inductive ShareEvent : Type := Silent | Answered (op : ShareOperation) (answer : ShareAnswer) | Recorded | Replaced.

(** Statements of different calls interleave; the other tables may change between them.
    Replacing the vote deletes its records. *)
Inductive record_step (ref : ShareRef) : ShareSystem -> ShareEvent -> ShareSystem -> Prop :=
| share_call sys t op :
    calls sys !! t = None ->
    record_step ref sys Silent {| share_row := share_row sys; calls := <[t := (op, None)]> (calls sys) |}
| share_read sys t op w write :
    calls sys !! t = Some (op, None) -> prepare w ref op (share_row sys) = Ok write ->
    record_step ref sys Silent {| share_row := share_row sys; calls := <[t := (op, Some write)]> (calls sys) |}
| share_fail sys t op w e :
    calls sys !! t = Some (op, None) -> prepare w ref op (share_row sys) = Err e ->
    record_step ref sys Silent {| share_row := share_row sys; calls := delete t (calls sys) |}
| share_settle sys t op write row answer :
    calls sys !! t = Some (op, Some write) -> settle write (share_row sys) = (row, Some answer) ->
    record_step ref sys (Answered op answer) {| share_row := row; calls := delete t (calls sys) |}
| share_retry sys t op write row :
    calls sys !! t = Some (op, Some write) -> settle write (share_row sys) = (row, None) ->
    record_step ref sys Silent {| share_row := row; calls := <[t := (op, None)]> (calls sys) |}
| share_record_delivery sys w sent ambiguous target nullifier submit_at now json row answer :
    record_for_vote_generation w ref sent ambiguous target nullifier submit_at now json (share_row sys) = Ok (row, answer) ->
    record_step ref sys Recorded {| share_row := row; calls := calls sys |}
| share_replace sys : record_step ref sys Replaced {| share_row := None; calls := calls sys |}.

Inductive record_run (ref : ShareRef) : ShareSystem -> list ShareEvent -> ShareSystem -> Prop :=
| record_run_nil sys : record_run ref sys [] sys
| record_run_step sys ev sys' evs sys'' : record_step ref sys ev sys' -> record_run ref sys' evs sys'' -> record_run ref sys (ev :: evs) sys''.

(** Whether an event reserves a helper, or clears its reservation. *)
Definition names_helper (server_url u : url) : bool :=
  match canonicalize_helper_base_url server_url with Ok u' => bool_decide (u' = u) | Err _ => false end.

Definition starts (u : url) (ev : ShareEvent) : bool :=
  match ev with Answered (AddAttempting server _ _ _ _) (Reservation Started) => names_helper server u | _ => false end.

Definition clears (u : url) (ev : ShareEvent) : bool :=
  match ev with Answered (RemoveAttempting server _) (Updated true) => names_helper server u | _ => false end.

Definition replaces (ev : ShareEvent) : bool := match ev with Replaced => true | _ => false end.

Definition count (p : ShareEvent -> bool) (evs : list ShareEvent) : nat := length (List.filter p evs).

(** ** Evidence about a helper *)

(** The helpers a stored list names. *)
Definition named_helpers (json : text) : list url :=
  match urls_from_json json with
  | Ok urls => omap (fun u => match canonicalize_helper_base_url u with Ok u' => Some u' | Err _ => None end) (stored_helper_urls [] urls)
  | Err _ => []
  end.

(** Accepted, unknown, in flight, or nothing. *)
Definition level (accepted unknown in_flight : list url) (u : url) : nat :=
  if bool_decide (u ∈ accepted) then 3 else if bool_decide (u ∈ unknown) then 2 else if bool_decide (u ∈ in_flight) then 1 else 0.

Definition helper_level (r : ShareColumns) : url -> nat :=
  level (named_helpers (col_sent_to_urls r)) (named_helpers (col_ambiguous_urls r)) (named_helpers (col_attempting_urls r)).

(** Entries that are no URLs, as older schemas accepted. *)
Definition legacy_entry (u : url) : Prop := is_ok (canonicalize_helper_base_url u) = false.

Definition raw_entries (json : text) : list url := match urls_from_json json with Ok urls => urls | Err _ => [] end.

Definition legacy_level (r : ShareColumns) : url -> nat :=
  level (raw_entries (col_sent_to_urls r)) (raw_entries (col_ambiguous_urls r)) (raw_entries (col_attempting_urls r)).

Definition state_level (s : ShareDeliveryState) : url -> nat := level (accepted_urls s) (outcome_unknown_urls s) (in_flight_urls s).

(** A call that runs with no other connection. *)
Definition complete_call (w : WalletTables) (ref : ShareRef) (op : ShareOperation) (row : option ShareColumns) :
  option (option ShareColumns * ShareAnswer) :=
  match prepare w ref op row with
  | Ok write => match settle write row with (row', Some answer) => Some (row', answer) | (_, None) => None end
  | Err _ => None
  end.
End records.
