(* ===== verification/ShareEvidence.v ===== *)
(** * Delivery evidence is never lost

    Facts about [ShareRecords]: reading a record and writing it back, the transitions of a
    delivery state, and the histories of connections that share one record. *)

From S2P Require Import Prelude Sorting Types Generation Protocol ShareTiming SharePlacement Ballot ShareDelivery RoundPlanning.
From S2P Require Import VoteRecovery WalletTables RoundLoading RoundSubmissions ShareRecords.

(** ** Levels *)

Lemma level_spec accepted unknown in_flight u :
  (3 <= level accepted unknown in_flight u <-> u ∈ accepted)
  /\ (2 <= level accepted unknown in_flight u <-> u ∈ accepted \/ u ∈ unknown)
  /\ (1 <= level accepted unknown in_flight u <-> u ∈ accepted \/ u ∈ unknown \/ u ∈ in_flight)
  /\ level accepted unknown in_flight u <= 3.
Proof.
  unfold level. destruct (bool_decide_reflect (u ∈ accepted)), (bool_decide_reflect (u ∈ unknown)), (bool_decide_reflect (u ∈ in_flight)).
  all: repeat split; try lia; tauto.
Qed.

(** A level is at least another when its lists cover the other's from each strength up. *)
Lemma level_le a1 u1 f1 a2 u2 f2 u :
  (u ∈ a1 -> u ∈ a2) -> (u ∈ u1 -> u ∈ a2 \/ u ∈ u2) -> (u ∈ f1 -> u ∈ a2 \/ u ∈ u2 \/ u ∈ f2) ->
  level a1 u1 f1 u <= level a2 u2 f2 u.
Proof.
  intros Ha Hu Hf. pose proof (level_spec a1 u1 f1 u) as (A1 & B1 & C1 & D1). pose proof (level_spec a2 u2 f2 u) as (A2 & B2 & C2 & D2).
  destruct (le_lt_dec 3 (level a1 u1 f1 u)) as [H3|H3]; [assert (3 <= level a2 u2 f2 u) by tauto; lia|].
  destruct (le_lt_dec 2 (level a1 u1 f1 u)) as [H2|H2]; [assert (2 <= level a2 u2 f2 u) by tauto; lia|].
  destruct (le_lt_dec 1 (level a1 u1 f1 u)) as [H1|H1]; [assert (1 <= level a2 u2 f2 u) by tauto; lia|]. lia.
Qed.

Lemma level_0 accepted unknown in_flight u :
  level accepted unknown in_flight u = 0 <-> (u ∉ accepted) /\ (u ∉ unknown) /\ (u ∉ in_flight).
Proof.
  pose proof (level_spec accepted unknown in_flight u) as (_ & _ & H & _).
  assert (level accepted unknown in_flight u = 0 <-> ~ 1 <= level accepted unknown in_flight u) as -> by lia. tauto.
Qed.

Lemma level_1 a b f u : u ∉ a -> u ∉ b -> 1 <= level a b f u -> level a b f u = 1.
Proof.
  intros Ha Hb H. pose proof (level_spec a b f u) as (_ & B & _). destruct (decide (2 <= level a b f u)) as [H2%B|]; [tauto|lia].
Qed.

(** Beyond a reservation, the reserved helpers do not matter. *)
Lemma level_strong a b f f' u : 2 <= level a b f u -> level a b f u <= level a b f' u.
Proof. intros H. pose proof (level_spec a b f u) as (_ & B & _). apply B in H. apply level_le; tauto. Qed.

(** Equal levels name the same helpers from each strength up. *)
Lemma level_eq a1 u1 f1 a2 u2 f2 u :
  level a1 u1 f1 u = level a2 u2 f2 u ->
  (u ∈ a1 <-> u ∈ a2) /\ (u ∈ a1 \/ u ∈ u1 <-> u ∈ a2 \/ u ∈ u2)
  /\ (u ∈ a1 \/ u ∈ u1 \/ u ∈ f1 <-> u ∈ a2 \/ u ∈ u2 \/ u ∈ f2).
Proof.
  intros E. pose proof (level_spec a1 u1 f1 u) as (A1 & B1 & C1 & _). pose proof (level_spec a2 u2 f2 u) as (A2 & B2 & C2 & _).
  by rewrite <- C1, <- C2, <- B1, <- B2, <- A1, <- A2, E.
Qed.

(** ** Transitions *)

Lemma elem_of_push (x u : url) l : u ∈ (if bool_decide (x ∈ l) then l else l ++ [x]) <-> u ∈ l \/ u = x.
Proof. case_bool_decide; [|by rewrite elem_of_app, list_elem_of_singleton]. split; [tauto|]. by intros [? | ->]. Qed.

Lemma elem_of_others (x u : url) (l : list url) : u ∈ filter (fun c => c <> x) l <-> u <> x /\ u ∈ l.
Proof. by rewrite list_elem_of_filter. Qed.

Lemma level_determined a b f u n :
  n <= 3 -> (u ∈ a <-> 3 <= n) -> (u ∈ a \/ u ∈ b <-> 2 <= n) -> (u ∈ a \/ u ∈ b \/ u ∈ f <-> 1 <= n) -> level a b f u = n.
Proof.
  pose proof (level_spec a b f u) as (A & B & C & D). intros Hn HA HB HC. rewrite HA in A. rewrite HB in B. rewrite HC in C. lia.
Qed.

Ltac decide_level s u :=
  let A := fresh in let B := fresh in let C := fresh in let D := fresh in
  pose proof (level_spec (accepted_urls s) (outcome_unknown_urls s) (in_flight_urls s) u) as (A & B & C & D);
  unfold state_level; apply level_determined; cbn;
  rewrite ?elem_of_push, ?elem_of_others; case_bool_decide; try lia; rewrite ?Nat.max_le_iff, ?A, ?B, ?C; intuition (try lia).

Lemma state_level_accepted s x u :
  state_level (mark_accepted_canonical s x) u = Nat.max (if bool_decide (u = x) then 3 else 0) (state_level s u).
Proof. decide_level s u. Qed.

Lemma state_level_unknown s x u :
  state_level (mark_outcome_unknown_canonical s x) u = Nat.max (if bool_decide (u = x) then 2 else 0) (state_level s u).
Proof.
  destruct (decide (x ∈ accepted_urls s)) as [Hx|Hx].
  - unfold mark_outcome_unknown_canonical. rewrite (bool_decide_true (x ∈ accepted_urls s)) by done. cbn [orb].
    decide_level s u; subst; tauto.
  - unfold mark_outcome_unknown_canonical. rewrite (bool_decide_false (x ∈ accepted_urls s)) by done. cbn [orb].
    decide_level s u; subst; tauto.
Qed.

Lemma delivery_contains_level s u : delivery_contains s u = true <-> 1 <= state_level s u.
Proof.
  pose proof (level_spec (accepted_urls s) (outcome_unknown_urls s) (in_flight_urls s) u) as (_ & _ & C & _).
  unfold delivery_contains, state_level. rewrite C, !orb_true_iff, !bool_decide_eq_true. tauto.
Qed.

Lemma state_level_begin s x u :
  state_level (begin_in_flight s x) u = Nat.max (if bool_decide (u = x) then 1 else 0) (state_level s u).
Proof.
  unfold begin_in_flight. destruct (delivery_contains s x) eqn:E.
  - apply delivery_contains_level in E. case_bool_decide; subst; lia.
  - clear E. decide_level s u; rewrite ?elem_of_app, ?list_elem_of_singleton in *; tauto.
Qed.

(** A fold of such marks raises each of its helpers. *)
Lemma state_level_fold (f : ShareDeliveryState -> url -> ShareDeliveryState) k s l u :
  (forall s x, state_level (f s x) u = Nat.max (if bool_decide (u = x) then k else 0) (state_level s u)) ->
  state_level (foldl f s l) u = Nat.max (if bool_decide (u ∈ l) then k else 0) (state_level s u).
Proof.
  intros Hf. revert s. induction l as [|x l IH]; intros s; cbn [foldl].
  { rewrite bool_decide_false by set_solver. done. }
  rewrite IH, Hf. destruct (decide (u = x)) as [->|Hne].
  - rewrite (bool_decide_true (x = x)), (bool_decide_true (x ∈ x :: l)) by set_solver. case_bool_decide; lia.
  - rewrite (bool_decide_false (u = x)) by done.
    by rewrite (bool_decide_ext (u ∈ x :: l) (u ∈ l)) by set_solver.
Qed.

(** ** Reading and writing a record *)

Section reading.
Context `{RS : RecoverySerde, PJ : PlanJson, UC : UrlCrate, UT : UrlTexts}.

Lemma elem_of_canonical_urls acc urls l x :
  canonical_urls acc urls = Ok l -> x ∈ l <-> x ∈ acc \/ exists u, u ∈ urls /\ canonicalize_helper_base_url u = Ok x.
Proof.
  revert acc. induction urls as [|u urls IH]; intros acc H; cbn [canonical_urls] in H.
  { injection H as <-. set_solver. }
  apply result_bind_Ok in H as (u' & Hu & H). rewrite (IH _ H), elem_of_push. setoid_rewrite elem_of_cons.
  split; [intros [[Hx | ->]|(v & Hv & Hc)]; eauto|]. intros [Hx|(v & [-> | Hv] & Hc)]; [auto| |eauto]. left. right. congruence.
Qed.

Lemma elem_of_stored_helper_urls acc urls x :
  x ∈ stored_helper_urls acc urls <-> x ∈ acc \/ exists u, u ∈ urls /\ canonicalize_helper_base_url u = Ok x.
Proof.
  revert acc. induction urls as [|u urls IH]; intros acc; cbn [stored_helper_urls]; [set_solver|].
  setoid_rewrite elem_of_cons. destruct (canonicalize_helper_base_url u) as [u'|e] eqn:Hu; rewrite IH; [rewrite elem_of_push|].
  - split; [intros [[Hx | ->]|(v & Hv & Hc)]; eauto|]. intros [Hx|(v & [-> | Hv] & Hc)]; [auto| |eauto]. left. right. congruence.
  - split; [intros [Hx|(v & Hv & Hc)]; eauto|]. intros [Hx|(v & [-> | Hv] & Hc)]; [auto|congruence|eauto].
Qed.

Lemma elem_of_legacy_helper_urls acc urls x : legacy_entry x -> x ∈ legacy_helper_urls acc urls <-> x ∈ acc \/ x ∈ urls.
Proof.
  intros Hx. revert acc. induction urls as [|u urls IH]; intros acc; cbn [legacy_helper_urls]; [set_solver|].
  rewrite elem_of_cons. destruct (canonicalize_helper_base_url u) as [u'|e] eqn:Hu; rewrite IH, ?elem_of_push; [|tauto].
  unfold legacy_entry in Hx. split; [tauto|]. intros [?|[-> | ?]]; [tauto| |tauto]. by rewrite Hu in Hx.
Qed.

(** The helpers a list names are those its reader takes up. *)
Lemma elem_of_named_helpers json urls l x :
  urls_from_json json = Ok urls -> canonical_helper_url_list (stored_helper_urls [] urls) = Ok l -> x ∈ l <-> x ∈ named_helpers json.
Proof.
  intros Hj Hl. rewrite (elem_of_canonical_urls _ _ _ x Hl). unfold named_helpers. rewrite Hj, list_elem_of_omap.
  split; [intros [H|(u & Hu & Hc)]; [set_solver|]|intros (u & Hu & Hc); right]; exists u; (split; [done|]).
  - by rewrite Hc.
  - destruct (canonicalize_helper_base_url u); congruence.
Qed.

Lemma stored_url_list_Ok name json urls : stored_url_list name json = Ok urls -> urls_from_json json = Ok urls.
Proof. unfold stored_url_list. by destruct (urls_from_json json); cbn; intros [=->]. Qed.

Lemma from_url_lists_level a b f s : 
  from_url_lists a b f = Ok s ->
  exists a' b' f', canonical_helper_url_list a = Ok a' /\ canonical_helper_url_list b = Ok b' /\ canonical_helper_url_list f = Ok f'
    /\ forall u, state_level s u = level a' b' f' u.
Proof.
  unfold from_url_lists. intros H. apply result_bind_Ok in H as (a' & Ha & H). apply result_bind_Ok in H as (b' & Hb & H).
  apply result_bind_Ok in H as (f' & Hf & H). injection H as <-. exists a', b', f'. repeat (split; [done|]). intros u.
  rewrite (state_level_fold begin_in_flight 1) by (intros; apply state_level_begin).
  rewrite (state_level_fold mark_outcome_unknown_canonical 2) by (intros; apply state_level_unknown).
  rewrite (state_level_fold mark_accepted_canonical 3) by (intros; apply state_level_accepted).
  unfold state_level, level. cbn.
  by destruct (bool_decide (u ∈ a')), (bool_decide (u ∈ b')), (bool_decide (u ∈ f')).
Qed.

(** What a reader takes up has the levels of the record, and sets no legacy entry apart
    from its list. *)
Lemma read_delivery_levels r s ls la lf :
  read_delivery r = Ok (s, (ls, la, lf)) ->
  (forall u, state_level s u = helper_level r u)
  /\ forall u, legacy_entry u -> (u ∈ raw_entries (col_sent_to_urls r) <-> u ∈ ls) /\ (u ∈ raw_entries (col_ambiguous_urls r) <-> u ∈ la)
                /\ (u ∈ raw_entries (col_attempting_urls r) <-> u ∈ lf).
Proof.
  unfold read_delivery. intros H. apply result_bind_Ok in H as (a & Ha & H). apply result_bind_Ok in H as (b & Hb & H).
  apply result_bind_Ok in H as (f & Hf & H). apply result_bind_Ok in H as (s' & Hs & H). cbn in H, Hs. injection H as <- <- <- <-.
  apply stored_url_list_Ok in Ha, Hb, Hf. split.
  - destruct (from_url_lists_level _ _ _ _ Hs) as (a' & b' & f' & Ca & Cb & Cf & Hl). intros u. rewrite Hl. unfold helper_level, level.
    rewrite (bool_decide_ext _ _ (elem_of_named_helpers _ _ _ u Ha Ca)), (bool_decide_ext _ _ (elem_of_named_helpers _ _ _ u Hb Cb)).
    by rewrite (bool_decide_ext _ _ (elem_of_named_helpers _ _ _ u Hf Cf)).
  - intros u Hu. unfold raw_entries. rewrite Ha, Hb, Hf, !elem_of_legacy_helper_urls by done. set_solver.
Qed.

(** A helper in its canonical form that is written is named by what is written. *)
Lemma named_after_write l legacy u : stable u -> u ∈ l -> u ∈ named_helpers (serialize_url_list l legacy).
Proof.
  intros Hu Hl. unfold named_helpers, serialize_url_list. rewrite urls_round_trip, list_elem_of_omap. exists u. rewrite Hu.
  split; [|done]. rewrite elem_of_stored_helper_urls. right. exists u. set_solver.
Qed.

Lemma raw_after_write l legacy u : u ∈ legacy -> u ∈ raw_entries (serialize_url_list l legacy).
Proof. intros H. unfold raw_entries, serialize_url_list. rewrite urls_round_trip. set_solver. Qed.

Lemma unchanged_spec o r :
  unchanged o r = true -> col_nullifier r = col_nullifier o /\ col_sent_to_urls r = col_sent_to_urls o
    /\ col_ambiguous_urls r = col_ambiguous_urls o /\ col_attempting_urls r = col_attempting_urls o.
Proof. unfold unchanged. rewrite !andb_true_iff, !bool_decide_eq_true. tauto. Qed.

Lemma unchanged_refl r : unchanged r r = true.
Proof. unfold unchanged. by rewrite !bool_decide_true. Qed.
End reading.

(** ** Effects of a settled write *)

Section effects.
Context `{RS : RecoverySerde, PJ : PlanJson, UC : UrlCrate, UT : UrlTexts}.

Definition merge_mark (merge : HelperUrlMerge) : ShareDeliveryState -> url -> result VotingError ShareDeliveryState :=
  match merge with DefiniteAcceptance => mark_accepted | OutcomeUnknown => mark_outcome_unknown end.

(** What a call did to the record it found, in terms of that record alone. *)
Inductive call_effect : ShareOperation -> option ShareAnswer -> ShareColumns -> ShareColumns -> Prop :=
| effect_none op answer r :
    answer <> Some (Reservation Started) -> answer <> Some (Updated true) -> call_effect op answer r r
| effect_start server fleet target policy expected u u' placement r s ls la lf :
    canonicalize_helper_base_url server = Ok u -> canonicalize_helper_base_url u = Ok u' -> canonical_helper_url_list fleet = Ok placement -> u ∈ placement ->
    other_generation expected r = false -> col_confirmed r = 0%Z -> read_delivery r = Ok (s, (ls, la, lf)) ->
    delivery_contains s u = false -> (policy = EnforcePlacementTarget -> reserved_placements placement s < target) ->
    call_effect (AddAttempting server fleet target policy expected) (Some (Reservation Started)) r
      (set_urls r (col_sent_to_urls r) (col_ambiguous_urls r) (serialize_url_list (in_flight_urls (begin_in_flight s u')) lf))
| effect_clear server expected u urls s r :
    canonicalize_helper_base_url server = Ok u -> other_generation expected r = false ->
    urls_from_json (col_attempting_urls r) = Ok urls -> from_url_lists [] [] (stored_helper_urls [] urls) = Ok s ->
    call_effect (RemoveAttempting server expected) (Some (Updated true)) r
      (set_urls r (col_sent_to_urls r) (col_ambiguous_urls r)
         (serialize_url_list (filter (fun c => c <> u) (in_flight_urls s)) (legacy_helper_urls [] urls)))
| effect_merge urls merge reset expected s s' ls la lf r :
    other_generation expected r = false -> read_delivery r = Ok (s, (ls, la, lf)) -> fold_results (merge_mark merge) s urls = Ok s' ->
    call_effect (MergeUrls urls merge reset expected) (Some (Updated true)) r
      (set_schedule
         (set_urls r (serialize_url_list (accepted_urls s') ls) (serialize_url_list (outcome_unknown_urls s') la)
            (serialize_url_list (in_flight_urls s') lf))
         (if reset then 0%N else col_submit_at r) (col_target_count r) (col_confirmed r))
| effect_confirm expected r :
    other_generation expected r = false ->
    call_effect (MarkConfirmed expected) (Some (Updated true)) r (set_schedule r (col_submit_at r) (col_target_count r) 1).

Lemma unchanged_read o r : unchanged o r = true -> read_delivery o = read_delivery r.
Proof. intros (_ & Hs & Ha & Ht)%unchanged_spec. unfold read_delivery. by rewrite Hs, Ha, Ht. Qed.

Lemma unchanged_generation expected o r : col_nullifier r = col_nullifier o -> other_generation expected o = other_generation expected r.
Proof. intros H. unfold other_generation. by rewrite H. Qed.

(** Case analysis of a prepared write. *)
Ltac prepared_cases H :=
  repeat match type of H with
         | Ok _ = Ok _ => injection H as <-
         | Err _ = Ok _ => discriminate H
         | (if ?b then _ else _) = Ok _ => let E := fresh "E" in destruct b eqn:E
         | match ?row with Some _ => _ | None => _ end = Ok _ => destruct row
         | (_ ≫= _) = Ok _ => let x := fresh "x" in let E := fresh "E" in apply result_bind_Ok in H as (x & E & H)
         end.

Definition settles (op : ShareOperation) (row row' : option ShareColumns) (answer : option ShareAnswer) : Prop :=
  match row with
  | None => row' = None /\ answer <> Some (Reservation Started) /\ answer <> Some (Updated true)
  | Some r => exists r', row' = Some r' /\ call_effect op answer r r'
  end.

Lemma settle_return op row row' answer answer' :
  answer <> Reservation Started -> answer <> Updated true -> settle (Return answer) row = (row', answer') -> settles op row row' answer'.
Proof.
  intros H1 H2 [= <- <-]. unfold settles. destruct row; [eexists; split; [done|]; constructor|]; repeat split; congruence.
Qed.

(** An update does what its effect says when its guard holds, and nothing otherwise. *)
Lemma settle_update op guard new answer missed row row' answer' :
  missed <> Some (Reservation Started) -> missed <> Some (Updated true) ->
  (forall r, guard r = true -> call_effect op (Some (answer (new r))) r (new r)) ->
  settle (Update guard new answer missed) row = (row', answer') -> settles op row row' answer'.
Proof.
  intros H1 H2 Hnew Hs. unfold settles. destruct row as [r|]; cbn in Hs; [|by injection Hs as <- <-].
  destruct (guard r) eqn:Hg; injection Hs as <- <-; eexists; (split; [done|]); [by apply Hnew|by constructor].
Qed.

Lemma prepare_attempt_effect w ref server fleet target policy expected observed write row row' answer :
  prepare_attempt w ref server fleet target policy expected observed = Ok write -> settle write row = (row', answer) ->
  settles (AddAttempting server fleet target policy expected) row row' answer.
Proof.
  unfold prepare_attempt, begin. intros H Hs. prepared_cases H; try (by eapply settle_return in Hs).
  eapply settle_update; [..|exact Hs]; [done|done|]. intros r Hg. cbn beta.
  apply andb_true_iff in Hg as [Hc Hg]. apply bool_decide_eq_true in Hc.
  match goal with H : (_ ≫= _) = Ok _ |- _ => apply result_bind_Ok in H as (? & ? & H); injection H as <- end.
  apply fail_if_Ok in E1. apply negb_false_iff, bool_decide_eq_true in E1. apply orb_false_iff in E5 as [_ E5].
  rewrite (unchanged_read _ _ Hg) in E4. apply unchanged_spec in Hg as (Hn & _).
  rewrite (unchanged_generation _ _ _ Hn) in E2. destruct x3 as [st [[ls la] lf]]; cbn [fst snd] in *.
  eapply effect_start; eauto. intros ->. apply bool_decide_eq_false in E6. lia.
Qed.

Lemma prepare_remove_effect w ref server expected observed write row row' answer :
  prepare_remove w ref server expected observed = Ok write -> settle write row = (row', answer) ->
  settles (RemoveAttempting server expected) row row' answer.
Proof.
  unfold prepare_remove, mark_definite_failure. intros H Hs. prepared_cases H; try (by eapply settle_return in Hs).
  eapply settle_update; [..|exact Hs]; [done|done|]. intros r Hg. cbn beta.
  match goal with H : (_ ≫= _) = Ok _ |- _ => apply result_bind_Ok in H as (? & ? & H); injection H as <- end.
  apply stored_url_list_Ok in E1. apply unchanged_spec in Hg as (Hn & _ & _ & Ht). rewrite <- Ht in E1.
  rewrite (unchanged_generation _ _ _ Hn) in E. eapply effect_clear; eauto.
Qed.

Lemma prepare_merge_effect w ref urls merge reset expected observed write row row' answer :
  prepare_merge w ref urls merge reset expected observed = Ok write -> settle write row = (row', answer) ->
  settles (MergeUrls urls merge reset expected) row row' answer.
Proof.
  unfold prepare_merge. intros H Hs. prepared_cases H; try (by eapply settle_return in Hs).
  eapply settle_update; [..|exact Hs]; [done|done|]. intros r Hg. cbn beta.
  rewrite (unchanged_read _ _ Hg) in E1. apply unchanged_spec in Hg as (Hn & _).
  rewrite (unchanged_generation _ _ _ Hn) in E. destruct x0 as [st [[ls la] lf]]; cbn [fst snd] in *.
  by eapply effect_merge.
Qed.

Lemma prepare_confirmed_effect w ref expected observed write row row' answer :
  prepare_confirmed w ref expected observed = Ok write -> settle write row = (row', answer) ->
  settles (MarkConfirmed expected) row row' answer.
Proof.
  unfold prepare_confirmed. intros H Hs. prepared_cases H; try (by eapply settle_return in Hs).
  eapply settle_update; [..|exact Hs]; [done|done|]. intros r Hg. cbn beta. apply bool_decide_eq_true in Hg.
  rewrite (unchanged_generation _ _ _ Hg) in E. by constructor.
Qed.

Lemma prepare_effect w ref op observed write row row' answer :
  prepare w ref op observed = Ok write -> settle write row = (row', answer) -> settles op row row' answer.
Proof.
  destruct op; cbn [prepare].
  - apply prepare_attempt_effect.
  - apply prepare_remove_effect.
  - apply prepare_merge_effect.
  - apply prepare_confirmed_effect.
Qed.

(** An iteration on the record it read always answers. *)
Lemma prepare_settles w ref op row write :
  prepare w ref op row = Ok write -> (settle write row).2 <> None.
Proof.
  destruct op; cbn [prepare]; unfold prepare_attempt, prepare_remove, prepare_merge, prepare_confirmed; intros H; prepared_cases H; try done.
  - cbn. apply orb_false_iff in E5 as [E5%negb_false_iff _]. by rewrite E5, unchanged_refl.
  - cbn. by rewrite unchanged_refl.
  - cbn. by rewrite unchanged_refl.
  - cbn. by rewrite bool_decide_true.
Qed.
End effects.

(** ** What an effect keeps *)

Section keeping.
Context `{RS : RecoverySerde, PJ : PlanJson, UC : UrlCrate, UT : UrlTexts}.

(** A later record of the same generation: nothing known of a share is forgotten, but for
    the reservations of helpers that definitely refused it. *)
Record keeps (cleared : url -> Prop) (r r' : ShareColumns) : Prop := {
  keeps_nullifier : col_nullifier r' = col_nullifier r;
  keeps_created : col_share_created_at r' = col_share_created_at r;
  keeps_confirmed : col_confirmed r <> 0%Z -> col_confirmed r' <> 0%Z;
  keeps_target : (col_target_count r <= col_target_count r')%N;
  keeps_schedule : col_submit_at r' = col_submit_at r \/ col_submit_at r' = 0%N;
  keeps_level : forall u, stable u -> helper_level r u <= helper_level r' u \/ (cleared u /\ helper_level r u = 1);
  keeps_legacy : forall u, legacy_entry u -> legacy_level r u <= legacy_level r' u
}.

Lemma keeps_refl cleared r : keeps cleared r r.
Proof. by constructor; auto with lia. Qed.

Lemma keeps_trans (c c1 c2 : url -> Prop) r r' r'' :
  (forall u, c1 u -> c u) -> (forall u, c2 u -> c u) -> keeps c1 r r' -> keeps c2 r' r'' -> keeps c r r''.
Proof.
  intros Hc1 Hc2 [N1 C1 F1 T1 S1 L1 G1] [N2 C2 F2 T2 S2 L2 G2]. constructor; [congruence|congruence|auto|lia| | |].
  - destruct S2 as [-> | ->]; auto.
  - intros u Hu. destruct (L1 u Hu) as [H1|[H1 H1']]; [|auto].
    destruct (L2 u Hu) as [H2|[H2 H2']]; [left; lia|]. destruct (decide (helper_level r u = 1)); [auto|left; lia].
  - intros u Hu. specialize (G1 u Hu). specialize (G2 u Hu). lia.
Qed.

Lemma keeps_weaken (c c' : url -> Prop) r r' : (forall u, c u -> c' u) -> keeps c r r' -> keeps c' r r'.
Proof. intros Hc H. apply (keeps_trans c' c c r r' r'); [done|done|done|apply keeps_refl]. Qed.

(** The marks of a report only raise levels. *)
Lemma merge_mark_raises merge s s' x u : merge_mark merge s x = Ok s' -> state_level s u <= state_level s' u.
Proof.
  destruct merge; cbn; unfold mark_accepted, mark_outcome_unknown; intros (y & _ & [= <-])%result_bind_Ok;
    rewrite ?state_level_accepted, ?state_level_unknown; lia.
Qed.

Lemma merge_marks_raise merge urls s s' u : fold_results (merge_mark merge) s urls = Ok s' -> state_level s u <= state_level s' u.
Proof.
  apply (fold_results_invariant _ (fun _ st => state_level s u <= state_level st u)); [done|].
  intros _ x st st' _ H Hm. apply (merge_mark_raises _ _ _ _ u) in Hm. lia.
Qed.

(** Writing a delivery state with legacy entries keeps both. *)
Lemma written_level s ls la lf u :
  stable u -> state_level s u <= level (named_helpers (serialize_url_list (accepted_urls s) ls))
    (named_helpers (serialize_url_list (outcome_unknown_urls s) la)) (named_helpers (serialize_url_list (in_flight_urls s) lf)) u.
Proof. intros Hu. apply level_le; eauto using named_after_write. Qed.

Lemma written_in_flight r s s' lf u :
  stable u -> (forall v, state_level s v = helper_level r v) -> accepted_urls s' = accepted_urls s -> outcome_unknown_urls s' = outcome_unknown_urls s ->
  state_level s' u <= level (named_helpers (col_sent_to_urls r)) (named_helpers (col_ambiguous_urls r))
                        (named_helpers (serialize_url_list (in_flight_urls s') lf)) u.
Proof.
  intros Hu Hl Ha Hb. destruct (level_eq _ _ _ _ _ _ _ (Hl u)) as (A & B & _).
  apply level_le; rewrite ?Ha, ?Hb; [tauto|tauto|]. eauto using named_after_write.
Qed.

Lemma legacy_written r ls la lf u sent unknown in_flight :
  (u ∈ raw_entries (col_sent_to_urls r) -> u ∈ ls) -> (u ∈ raw_entries (col_ambiguous_urls r) -> u ∈ ls \/ u ∈ la) ->
  (u ∈ raw_entries (col_attempting_urls r) -> u ∈ ls \/ u ∈ la \/ u ∈ lf) ->
  legacy_level r u <= level (raw_entries (serialize_url_list sent ls)) (raw_entries (serialize_url_list unknown la))
                        (raw_entries (serialize_url_list in_flight lf)) u.
Proof. intros H1 H2 H3. apply level_le; naive_solver eauto using raw_after_write. Qed.

Lemma begin_keeps_lists s x :
  accepted_urls (begin_in_flight s x) = accepted_urls s /\ outcome_unknown_urls (begin_in_flight s x) = outcome_unknown_urls s.
Proof. unfold begin_in_flight. by destruct (delivery_contains s x). Qed.

Lemma start_keeps cleared r s ls la lf x :
  read_delivery r = Ok (s, (ls, la, lf)) ->
  keeps cleared r (set_urls r (col_sent_to_urls r) (col_ambiguous_urls r) (serialize_url_list (in_flight_urls (begin_in_flight s x)) lf)).
Proof.
  intros Hr. apply read_delivery_levels in Hr as [Hl Hg]. destruct (begin_keeps_lists s x) as [Ha Hb].
  constructor; cbn; auto with lia.
  - intros u Hu. left. pose proof (written_in_flight r s (begin_in_flight s x) lf u Hu Hl Ha Hb) as H.
    rewrite state_level_begin, Hl in H. unfold helper_level at 2. cbn. lia.
  - intros u Hu. destruct (Hg u Hu) as (_ & _ & Hf). apply level_le; [tauto|tauto|]. intros Hin. right. right. apply raw_after_write. by apply Hf.
Qed.

(** The helper list of a record read alone. *)
Lemma attempting_read r urls s u :
  urls_from_json (col_attempting_urls r) = Ok urls -> from_url_lists [] [] (stored_helper_urls [] urls) = Ok s ->
  u ∈ in_flight_urls s <-> u ∈ named_helpers (col_attempting_urls r).
Proof.
  intros Hj Hs. destruct (from_url_lists_level _ _ _ _ Hs) as (a & b & f & [= <-] & [= <-] & Hf & Hl).
  rewrite <- (elem_of_named_helpers _ _ _ u Hj Hf). destruct (level_eq _ _ _ _ _ _ _ (Hl u)) as (A & B & C). set_solver.
Qed.

Lemma clear_keeps (cleared : url -> Prop) r urls s x :
  urls_from_json (col_attempting_urls r) = Ok urls -> from_url_lists [] [] (stored_helper_urls [] urls) = Ok s -> cleared x ->
  keeps cleared r (set_urls r (col_sent_to_urls r) (col_ambiguous_urls r)
         (serialize_url_list (filter (fun c => c <> x) (in_flight_urls s)) (legacy_helper_urls [] urls))).
Proof.
  intros Hj Hs Hx. constructor; cbn; auto with lia.
  - intros u Hu. destruct (decide (u = x)) as [-> | Hne].
    + destruct (decide (helper_level r x = 1)) as [H1|H1]; [auto|left].
      destruct (decide (2 <= helper_level r x)) as [H2|H2]; [by apply level_strong|lia].
    + left. apply level_le; [tauto|tauto|]. intros Hin. right. right. cbn. apply named_after_write; [done|].
      rewrite elem_of_others. by rewrite (attempting_read r urls s u Hj Hs).
  - intros u Hu. apply level_le; [tauto|tauto|]. intros Hin. right. right. cbn. apply raw_after_write.
    rewrite elem_of_legacy_helper_urls by done. right. unfold raw_entries in Hin. by rewrite Hj in Hin.
Qed.

Lemma effect_keeps op answer r r' :
  call_effect op answer r r' -> keeps (fun u => exists a, answer = Some a /\ clears u (Answered op a) = true) r r'.
Proof.
  destruct 1 as [| |server expected u urls s r Hc| urls merge reset expected s s' ls la lf r Ho Hr Hm|].
  - apply keeps_refl.
  - by eapply start_keeps.
  - eapply clear_keeps; [done|done|]. eexists. split; [done|]. cbn. unfold names_helper. by rewrite Hc, bool_decide_true.
  - apply read_delivery_levels in Hr as [Hl Hg]. constructor; cbn; [done|done|done|done|by destruct reset; auto| |].
    + intros v Hv. left. rewrite <- Hl. etrans; [by eapply merge_marks_raise|]. by apply written_level.
    + intros v Hv. destruct (Hg v Hv) as (G1 & G2 & G3). apply legacy_written; tauto.
  - constructor; cbn; auto with lia.
Qed.
End keeping.

(** ** Histories *)

Section histories.
Context `{RS : RecoverySerde, PJ : PlanJson, UC : UrlCrate, UT : UrlTexts}.

Lemma merge_persisted_report_raises s accepted unknown s' u :
  merge_persisted_report s accepted unknown = Ok s' -> state_level s u <= state_level s' u.
Proof.
  unfold merge_persisted_report. intros (a & _ & (b & _ & [= <-])%result_bind_Ok)%result_bind_Ok.
  rewrite (state_level_fold mark_outcome_unknown_canonical 2) by (intros; apply state_level_unknown).
  rewrite (state_level_fold mark_accepted_canonical 3) by (intros; apply state_level_accepted). lia.
Qed.

(** Recording a delivery report on a record, or creating one. *)
Lemma record_effect w ref sent ambiguous target nullifier submit_at now json row row' answer :
  record_for_vote_generation w ref sent ambiguous target nullifier submit_at now json row = Ok (row', answer) ->
  exists r' at', row' = Some r' /\ answer = Some (Scheduled at')
    /\ match row with Some r => keeps (fun _ => False) r r' /\ col_submit_at r' = col_submit_at r | None => True end.
Proof.
  unfold record_for_vote_generation, prepare_record.
  intros (? & _ & (? & _ & (write & Hw & [= Hs])%result_bind_Ok)%result_bind_Ok)%result_bind_Ok.
  destruct row as [r|].
  - apply result_bind_Ok in Hw as (? & _ & Hw). apply result_bind_Ok in Hw as ([s [[ls la] lf]] & Hr & Hw).
    apply result_bind_Ok in Hw as (s' & Hm & Hw). injection Hw as <-. cbn [settle] in Hs.
    rewrite unchanged_refl, bool_decide_true in Hs by done. injection Hs as <- <-. do 2 eexists. do 2 (split; [done|]). split; [|done].
    apply read_delivery_levels in Hr as [Hl Hg]. constructor; cbn; auto with lia.
    + intros u Hu. left. rewrite <- Hl. etrans; [by eapply merge_persisted_report_raises|]. by apply written_level.
    + intros u Hu. destruct (Hg u Hu) as (G1 & G2 & G3). apply legacy_written; rewrite ?list_elem_of_filter, ?G1, ?G2, ?G3; [tauto| |].
      * destruct (decide (u ∈ ls)); tauto.
      * destruct (decide (u ∈ ls)); [tauto|]. destruct (decide (u ∈ la)); tauto.
  - apply result_bind_Ok in Hw as (s & _ & [= <-]). injection Hs as <- <-. by do 2 eexists.
Qed.

(** Every held write was prepared from some record. *)
Definition calls_prepared (ref : ShareRef) (sys : ShareSystem) : Prop :=
  forall t op write, calls sys !! t = Some (op, Some write) -> exists w observed, prepare w ref op observed = Ok write.

Lemma calls_prepared_step ref sys ev sys' : record_step ref sys ev sys' -> calls_prepared ref sys -> calls_prepared ref sys'.
Proof.
  intros Hstep Hc t' op' write'.
  destruct Hstep; cbn; rewrite ?lookup_insert_Some, ?lookup_delete_Some; naive_solver.
Qed.

Lemma calls_prepared_idle ref row : calls_prepared ref {| share_row := row; calls := ∅ |}.
Proof. intros t op write. cbn. by rewrite lookup_empty. Qed.

(** The outcome of a step, by its event. *)
Lemma step_outcome ref sys ev sys' :
  calls_prepared ref sys -> record_step ref sys ev sys' ->
  match ev with
  | Silent => share_row sys' = share_row sys
  | Answered op answer => settles op (share_row sys) (share_row sys') (Some answer)
  | Recorded => exists r', share_row sys' = Some r' /\ match share_row sys with Some r => keeps (fun _ => False) r r' | None => True end
  | Replaced => share_row sys' = None
  end.
Proof.
  intros Hc Hstep. destruct Hstep; cbn; try done.
  - destruct (Hc _ _ _ H) as (w & o & Hp). by eapply prepare_effect.
  - destruct write as [|guard new ans missed|]; cbn in H0; [done| |by destruct (share_row sys); congruence].
    destruct (share_row sys); [destruct (guard _)|]; congruence.
  - apply record_effect in H as (r' & at' & -> & _ & H). exists r'. split; [done|]. destruct (share_row sys); [apply H|done].
Qed.
Lemma record_run_app ref sys evs sys' evs' sys'' :
  record_run ref sys evs sys' -> record_run ref sys' evs' sys'' -> record_run ref sys (evs ++ evs') sys''.
Proof. induction 1; intros H'; [done|]. cbn. econstructor; eauto. Qed.

Lemma record_run_split ref sys evs evs' sys'' :
  record_run ref sys (evs ++ evs') sys'' -> exists sys', record_run ref sys evs sys' /\ record_run ref sys' evs' sys''.
Proof.
  revert sys. induction evs as [|ev evs IH]; intros sys H; [exists sys; split; [constructor|done]|].
  inversion H; subst. edestruct IH as (mid & H1 & H2); [done|]. exists mid. split; [by econstructor|done].
Qed.

Lemma calls_prepared_run ref sys evs sys' : record_run ref sys evs sys' -> calls_prepared ref sys -> calls_prepared ref sys'.
Proof. induction 1; eauto using calls_prepared_step. Qed.

Lemma count_pos p evs : 0 < count p evs <-> exists ev, ev ∈ evs /\ p ev = true.
Proof.
  unfold count. induction evs as [|ev evs IH]; cbn; [split; [lia|set_solver]|]. setoid_rewrite elem_of_cons.
  destruct (p ev) eqn:Hp; cbn; [split; [eauto|lia]|]. rewrite IH. split; intros (x & Hx & Hpx); [eauto|].
  destruct Hx as [-> | Hx]; [congruence|eauto].
Qed.

Lemma step_keeps ref sys ev sys' r :
  calls_prepared ref sys -> record_step ref sys ev sys' -> replaces ev = false -> share_row sys = Some r ->
  exists r', share_row sys' = Some r' /\ keeps (fun u => clears u ev = true) r r'.
Proof.
  intros Hc Hstep%step_outcome Hr Hrow; [|done]. destruct ev as [|op answer| |]; [| | |done]; rewrite Hrow in Hstep.
  - exists r. split; [done|apply keeps_refl].
  - destruct Hstep as (r' & -> & He). exists r'. split; [done|]. apply effect_keeps in He.
    eapply keeps_weaken; [|exact He]. cbn beta. by intros u (a & [= <-] & H).
  - destruct Hstep as (r' & -> & H). exists r'. split; [done|]. by eapply keeps_weaken; [|exact H].
Qed.

Lemma run_keeps ref sys evs sys' r :
  calls_prepared ref sys -> record_run ref sys evs sys' -> Forall (fun ev => replaces ev = false) evs -> share_row sys = Some r ->
  exists r', share_row sys' = Some r' /\ keeps (fun u => 0 < count (clears u) evs) r r'.
Proof.
  intros Hc Hrun. revert r. induction Hrun as [sys|sys ev sys1 evs sys2 Hstep Hrun IH]; intros r Hf Hrow.
  { exists r. split; [done|apply keeps_refl]. }
  apply Forall_cons in Hf as [Hev Hf]. destruct (step_keeps _ _ _ _ _ Hc Hstep Hev Hrow) as (r1 & Hr1 & Hk1).
  destruct (IH (calls_prepared_step _ _ _ _ Hstep Hc) r1 Hf Hr1) as (r2 & Hr2 & Hk2). exists r2. split; [done|].
  eapply keeps_trans; [..|exact Hk1|exact Hk2]; cbn beta; intros u; rewrite !count_pos; setoid_rewrite elem_of_cons; naive_solver.
Qed.

Lemma silent_run ref sys evs sys' :
  calls_prepared ref sys -> record_run ref sys evs sys' -> Forall (eq Silent) evs -> share_row sys' = share_row sys.
Proof.
  intros Hc Hrun. induction Hrun as [|sys ev sys1 evs sys2 Hstep Hrun IH]; intros Hf; [done|].
  apply Forall_cons in Hf as [<- Hf]. rewrite IH; [|by eapply calls_prepared_step|done]. by apply step_outcome in Hstep.
Qed.

(** What is on record about a helper when its reservation is granted, and right after. *)
Lemma start_levels ref sys ev sys' u :
  calls_prepared ref sys -> record_step ref sys ev sys' -> starts u ev = true ->
  exists r r', share_row sys = Some r /\ share_row sys' = Some r' /\ helper_level r u = 0 /\ (stable u -> helper_level r' u = 1).
Proof.
  intros Hc Hstep%step_outcome Hev; [|done].
  destruct ev as [|[server fleet target policy expected| | |] [[]| |]| |]; try discriminate Hev. cbn in Hev, Hstep.
  unfold settles in Hstep. destruct (share_row sys) as [r|]; [|by destruct Hstep as (_ & [] & _)].
  destruct Hstep as (r' & Hrow & He). exists r, r'. split; [done|]. split; [done|].
  inversion He as [|? ? ? ? ? v v' placement ? s ls la lf Hv Hv' _ _ _ _ Hr Hd| | |]; subst; [done|].
  unfold names_helper in Hev. rewrite Hv in Hev. apply bool_decide_eq_true in Hev as ->.
  apply read_delivery_levels in Hr as [Hl _]. assert (helper_level r u = 0) as H0.
  { rewrite <- Hl. destruct (state_level s u) eqn:E; [done|]. assert (delivery_contains s u = true); [|congruence].
    apply delivery_contains_level. lia. }
  split; [done|]. intros Hu. unfold stable in Hu. assert (v' = u) as -> by congruence. destruct (begin_keeps_lists s u) as [Ha Hb].
  pose proof (written_in_flight r s (begin_in_flight s u) lf u Hu Hl Ha Hb) as Hw. rewrite state_level_begin, bool_decide_true, Hl, H0 in Hw by done.
  apply level_0 in H0 as (N1 & N2 & _). unfold helper_level. cbn.
  by apply level_1.
Qed.
(** C8. Connections that share a delivery record interleave their reads and guarded writes in
    any order, with delivery reports in between.  As long as the vote is not replaced, the
    record stays, of the same generation and creation time; a confirmation is never taken
    back, the target never lowered, the send time kept or cleared.  What is known of a helper
    never weakens: accepted stays accepted, an unknown outcome stays or becomes acceptance,
    and a reservation is dropped only when a call reported that helper's definite failure.
    Entries of older schemas keep their place too. *)
Theorem share_evidence_survives ref r evs sys :
  record_run ref {| share_row := Some r; calls := ∅ |} evs sys -> Forall (fun ev => replaces ev = false) evs ->
  exists r', share_row sys = Some r' /\ keeps (fun u => 0 < count (clears u) evs) r r'.
Proof. intros Hrun Hf. by eapply run_keeps; [apply calls_prepared_idle|..]. Qed.



(** C27. A call that expects a generation leaves a record of another generation as it is and
    reports neither a reservation nor an update, also when the vote was replaced and delivered
    anew between its read and its write. *)
Theorem share_calls_respect_generation ref row evs sys op answer sys' r nullifier :
  record_run ref {| share_row := row; calls := ∅ |} evs sys -> record_step ref sys (Answered op answer) sys' ->
  share_row sys = Some r -> call_generation op = Some nullifier -> nullifier <> col_nullifier r ->
  share_row sys' = Some r /\ answer <> Reservation Started /\ answer <> Updated true.
Proof.
  intros Hrun Hstep Hrow Hexp Hne. pose proof (calls_prepared_run _ _ _ _ Hrun (calls_prepared_idle _ _)) as Hc.
  pose proof (step_outcome _ _ _ _ Hc Hstep) as Ho. cbn in Ho. rewrite Hrow in Ho. destruct Ho as (r' & -> & He).
  assert (other_generation (call_generation op) r = true) as Hg.
  { rewrite Hexp. cbn. by rewrite bool_decide_false. }
  inversion He; subst; cbn in *; [|congruence..]. repeat split; congruence.
Qed.

(** The steps of an undisturbed call. *)
Lemma complete_call_run w ref op row row' answer :
  complete_call w ref op row = Some (row', answer) ->
  record_run ref {| share_row := row; calls := ∅ |} [Silent; Silent; Answered op answer] {| share_row := row'; calls := ∅ |}.
Proof.
  unfold complete_call. destruct (prepare w ref op row) as [write|] eqn:Hp; [|done].
  destruct (settle write row) as [row1 [a|]] eqn:Hs; [|done]. intros [= -> ->].
  eapply record_run_step; [by apply (share_call ref _ 0 op); cbn; rewrite lookup_empty|].
  eapply record_run_step; [by eapply (share_read ref _ 0 op w write); cbn; [rewrite lookup_insert_eq|]|].
  eapply record_run_step; [|apply record_run_nil]. cbn [calls share_row]. rewrite insert_insert_eq.
  rewrite <- (delete_insert_id ∅ 0 (op, Some write)) at 2 by apply lookup_empty.
  eapply (share_settle ref {| share_row := row; calls := _ |}); cbn; [by rewrite lookup_insert_eq|done].
Qed.
End histories.

(** ** Calls on one record *)

#[export] Instance ShareAttemptReservation_eq_dec : EqDecision ShareAttemptReservation.
Proof. solve_decision. Defined.

#[export] Instance ShareAnswer_eq_dec : EqDecision ShareAnswer.
Proof. solve_decision. Defined.

#[local] Existing Instances sample_hex sample_recovery_serde plain_urls plain_texts numbered_json.

Definition sample_ref : ShareRef :=
  {| ref_round_id := sample_round_id; ref_wallet_id := "wallet"; ref_bundle_index := 3; ref_proposal_id := 5; ref_share_index := 0 |}.

Definition fresh_nullifier : bytes := repeat Byte.x07 32.

(** Nothing known yet of the three helpers. *)
Definition fresh_record : ShareColumns :=
  {| col_sent_to_urls := urls_to_json []; col_nullifier := fresh_nullifier; col_confirmed := 0; col_submit_at := 1000; col_share_created_at := 10;
     col_ambiguous_urls := urls_to_json []; col_attempting_urls := urls_to_json []; col_target_count := 2 |}.

Definition sample_attempt : ShareOperation :=
  AddAttempting (chars "a") (map chars ["a"; "b"; "c"]) 2 EnforcePlacementTarget (Some fresh_nullifier).
Definition sample_failure : ShareOperation := RemoveAttempting (chars "a") (Some fresh_nullifier).
Definition sample_stale : ShareOperation := MergeUrls [chars "a"] DefiniteAcceptance false (Some [Byte.x01]).

Definition row_after (op : ShareOperation) (row : option ShareColumns) : option ShareColumns :=
  match complete_call sample_wallet sample_ref op row with Some (row', _) => row' | None => None end.

Definition answered (op : ShareOperation) (row : option ShareColumns) (answer : ShareAnswer) : bool :=
  match complete_call sample_wallet sample_ref op row with Some (_, answer') => bool_decide (answer = answer') | None => false end.

Lemma answered_run op row answer :
  answered op row answer = true ->
  record_run sample_ref {| share_row := row; calls := ∅ |} [Silent; Silent; Answered op answer] {| share_row := row_after op row; calls := ∅ |}.
Proof.
  unfold answered, row_after. intros H. eapply complete_call_run.
  destruct (complete_call _ _ _ _) as [[row' a]|] eqn:E; [|done]. apply bool_decide_eq_true in H as ->. exact E.
Qed.

Abbreviation reserved_record := (row_after sample_attempt (Some fresh_record)) (only parsing).
Abbreviation cleared_record := (row_after sample_failure reserved_record) (only parsing).

Lemma sample_answers :
  answered sample_attempt (Some fresh_record) (Reservation Started) && answered sample_failure reserved_record (Updated true)
  && answered sample_attempt cleared_record (Reservation Started) && answered sample_stale (Some fresh_record) (Updated false) = true.
Proof. vm_cast_no_check (eq_refl true). Qed.

Lemma sample_answers_each :
  answered sample_attempt (Some fresh_record) (Reservation Started) = true /\ answered sample_failure reserved_record (Updated true) = true
  /\ answered sample_attempt cleared_record (Reservation Started) = true /\ answered sample_stale (Some fresh_record) (Updated false) = true.
Proof. pose proof sample_answers as H. rewrite !andb_true_iff in H. tauto. Qed.

Lemma sample_stable : stable (chars "a").
Proof. reflexivity. Qed.

Lemma share_evidence_survives_witness :
  exists sys r', record_run sample_ref {| share_row := Some fresh_record; calls := ∅ |} [Silent; Silent; Answered sample_attempt (Reservation Started)] sys
    /\ share_row sys = Some r' /\ keeps (fun u => 0 < count (clears u) [Silent; Silent; Answered sample_attempt (Reservation Started)]) fresh_record r'.
Proof.
  destruct sample_answers_each as (H1 & _). pose proof (answered_run _ _ _ H1) as Hrun.
  edestruct (share_evidence_survives sample_ref fresh_record _ _ Hrun) as (r' & Hr & Hk); [by repeat constructor|]. eauto.
Defined.


(** The last step of an undisturbed call. *)
Lemma answered_step op row answer :
  answered op row answer = true ->
  exists sys, record_run sample_ref {| share_row := row; calls := ∅ |} [Silent; Silent] sys
    /\ record_step sample_ref sys (Answered op answer) {| share_row := row_after op row; calls := ∅ |} /\ share_row sys = row.
Proof.
  intros H%answered_run. apply (record_run_split _ _ [Silent; Silent] [Answered op answer]) in H as (sys & Hr & Hs). exists sys. split; [done|].
  inversion Hs as [|? ? ? ? ? Hstep Hn]; subst. inversion Hn; subst. split; [done|].
  apply silent_run in Hr; [exact Hr|apply calls_prepared_idle|by repeat constructor].
Qed.


Lemma share_calls_respect_generation_witness :
  exists sys, record_run sample_ref {| share_row := Some fresh_record; calls := ∅ |} [Silent; Silent] sys
    /\ record_step sample_ref sys (Answered sample_stale (Updated false)) {| share_row := row_after sample_stale (Some fresh_record); calls := ∅ |}
    /\ row_after sample_stale (Some fresh_record) = Some fresh_record.
Proof.
  destruct sample_answers_each as (_ & _ & _ & H4). destruct (answered_step _ _ _ H4) as (sys & Hrun & Hstep & Hrow). exists sys.
  split; [exact Hrun|]. split; [exact Hstep|].
  apply (share_calls_respect_generation sample_ref (Some fresh_record) _ sys sample_stale _ _ fresh_record [Byte.x01] Hrun Hstep Hrow);
    [reflexivity|discriminate].
Defined.
