(* ===== verification/ShareDispatch.v ===== *)
(** * Delivery of shares to helpers

    Models [share_tracking/initial_delivery.rs] and [share_tracking/configured_fleet.rs], with
    the calls of [share.rs] they make.  A delivery is
    a task over a [ShareWorld]: the delivery records of a round and the shares posted so far.  Every
    answer of the outside world is chosen by an environment, indexed by the number of times it
    was asked.  Other connections may change the records between any two steps; the environment
    is told whether the delivery holds the lock of its share.  A POST runs the helper client,
    whose requests are logged.  A call on a record runs in one write transaction
    ([storage/operations.rs]), so it is [prepare] and [settle] on the same record. *)

From S2P Require Import Prelude Sorting Types Generation Protocol ShareTiming SharePlacement Ballot ShareDelivery RoundPlanning.
From S2P Require Import VoteRecovery WalletTables RoundLoading ShareWire HelperClient ShareRecords.

Section fleet.
Context `{UC : UrlCrate, UT : UrlTexts}.

(** [ConfiguredHelperFleet::new]. *)
Definition configured_helper_fleet (configured : list url) : result VotingError (list url) :=
  _ ← fail_if (bool_decide (configured = [])) (VeInvalidInput (chars "configured_server_urls must not be empty"));
  urls ← canonical_helper_url_list configured;
  _ ← fail_if (negb (bool_decide (length urls = length configured)))
        (VeInvalidInput (chars "configured_server_urls must contain distinct canonical helpers"));
  Ok urls.
End fleet.

(** ** Recovery material of a share *)

(** The share nullifier hash of [voting_circuits]. *)
Class ShareCrates : Type := { share_nullifier_hash : bytes32 -> N -> bytes32 -> bytes32 }.

Inductive HelperRecoveryMaterial : Type :=
| MaterialReady (commitment_bundle_json : text) (vc_tree_position : N)
| MaterialAwaitingVcPosition
| MaterialMissing.

Section material.
Context `{RS : RecoverySerde, HX : HexCrate, RC : RoundIdCrates, SC : ShareCrates, WR : WireCrates}.

Definition helper_recovery_material (w : WalletTables) (ref : ShareRef) : result VotingError HelperRecoveryMaterial :=
  match vote_at w (ref_round_id ref) (ref_wallet_id ref) (ref_bundle_index ref) (ref_proposal_id ref) with
  | Some vote =>
      match col_commitment_bundle_json vote, col_vc_tree_position vote with
      | Some json, Some position =>
          position ← ok_or (u64_try_from position)
                       (VeInternal (chars "stored vc_tree_position must be non-negative, got " ++ decimal_Z position));
          Ok (MaterialReady json position)
      | Some _, None => Ok MaterialAwaitingVcPosition
      | None, _ => Ok MaterialMissing
      end
  | None => Ok MaterialMissing
  end.

Definition compute_nullifier (vote_commitment : bytes32) (share_index : N) (primary_blind : bytes32) : result VotingError bytes32 :=
  _ ← fail_if (bool_decide (15 < share_index)%N) (VeInvalidInput (chars "share_index must be 0..15, got " ++ decimal share_index));
  _ ← fail_if (negb (pallas_canonical vote_commitment)) (VeInternal (chars "invalid vote_commitment field element"));
  _ ← fail_if (negb (pallas_canonical primary_blind)) (VeInternal (chars "invalid primary_blind field element"));
  Ok (share_nullifier_hash vote_commitment share_index primary_blind).

Definition ensure_recovery_proposal (bundle : VoteRecoveryBundle) (proposal_id : N) : result VotingError unit :=
  fail_if (negb (bool_decide (rec_proposal_id bundle = proposal_id)))
    (VeInvalidInput (chars "recovery proposal_id " ++ decimal (rec_proposal_id bundle) ++ chars " does not match requested " ++ decimal proposal_id)).

Definition recover_payload (bundle : VoteRecoveryBundle) (share_index : N) : result VotingError SharePayload :=
  payloads ← recover_payloads bundle;
  ok_or (List.find (fun payload => bool_decide (wire_share_index (enc_share payload) = share_index)) payloads)
    (VeInvalidInput (chars "share_index " ++ decimal share_index ++ chars " not found in vote recovery bundle")).

Definition nullifier_from_recovery_json (json : text) (proposal_id share_index : N) : result VotingError bytes32 :=
  bundle ← parse_recovery json;
  _ ← ensure_recovery_proposal bundle proposal_id;
  payload ← recover_payload bundle share_index;
  blind ← ok_or (try_into_bytes32 (primary_blind payload))
            (VeInternal (chars "primary_blind must be 32 bytes, got " ++ decimal_nat (length (primary_blind payload))));
  compute_nullifier (rec_vote_commitment bundle) share_index blind.

Definition recover_wire_json (json : text) (proposal_id share_index vc_tree_position submit_at : N) : result VotingError text :=
  bundle ← parse_recovery json;
  _ ← ensure_recovery_proposal bundle proposal_id;
  payload ← recover_payload bundle share_index;
  to_wire_json payload (Some vc_tree_position) submit_at.
End material.

(** ** Tasks *)

Abbreviation SlotKey := (N * N * N)%type (only parsing).

(** How a task ends. *)
Inductive ending (E A : Type) : Type :=
| Done (a : A)
| Failed (e : E)
| Exhausted.
Arguments Done {E A} a.
Arguments Failed {E A} e.
Arguments Exhausted {E A}.

(** The end of one POST: the deadline elapsed, or the client answered. *)
Abbreviation PostAnswer := (option (result HelperError ShareSubmissionStatus)) (only parsing).

(** A share posted to a helper by one call of the client: the record the delivery saw right
    before, the requests the client made, and its answer. *)
Record SharePost : Type := {
  post_key : SlotKey;
  post_url : url;
  post_body : text;
  post_record : option ShareColumns;
  post_requests : list HttpExchange;
  post_answer : PostAnswer
}.

Record ShareWorld : Type := {
  records : gmap SlotKey ShareColumns;
  share_posts : list SharePost;
  lock_held : bool;
  tick : nat
}.

Definition with_record (w : ShareWorld) (key : SlotKey) (row : option ShareColumns) : ShareWorld :=
  {| records := partial_alter (fun _ => row) key (records w); share_posts := share_posts w; lock_held := lock_held w; tick := tick w |}.
Definition with_share_post (w : ShareWorld) (p : SharePost) : ShareWorld :=
  {| records := records w; share_posts := share_posts w ++ [p]; lock_held := lock_held w; tick := tick w |}.
Definition with_lock (held : bool) (w : ShareWorld) : ShareWorld :=
  {| records := records w; share_posts := share_posts w; lock_held := held; tick := tick w |}.

Definition task (E A : Type) : Type := ShareWorld -> ShareWorld * ending E A.

#[export] Instance task_ret E : MRet (task E) := fun A a w => (w, Done a).
#[export] Instance task_bind E : MBind (task E) := fun A B f m w =>
  let '(w, o) := m w in
  match o with
  | Done a => f a w
  | Failed e => (w, Failed e)
  | Exhausted => (w, Exhausted)
  end.

Definition abort {E A} (e : E) : task E A := fun w => (w, Failed e).
Definition exhausted {E A} : task E A := fun w => (w, Exhausted).
Definition record_now {E} (key : SlotKey) : task E (option ShareColumns) := fun w => (w, Done (records w !! key)).
Definition log_post {E} (p : SharePost) : task E unit := fun w => (with_share_post w p, Done tt).
Definition from_result {E A} (r : result E A) : task E A := match r with Ok a => mret a | Err e => abort e end.

(** The guard of the share's lock is dropped however the task ends. *)
Definition holding_lock {E A} (m : task E A) : task E A := fun w => let '(w, o) := m (with_lock true w) in (with_lock false w, o).

(** A future joined with others: its failure is a value. *)
Definition caught {E F A} (m : task E A) : task F (result E A) := fun w =>
  let '(w, o) := m w in
  (w, match o with Done a => Done (Ok a) | Failed e => Done (Err e) | Exhausted => Exhausted end).

Definition map_failed {E F A} (f : E -> F) (m : task E A) : task F A := fun w =>
  let '(w, o) := m w in
  (w, match o with Done a => Done a | Failed e => Failed (f e) | Exhausted => Exhausted end).

Fixpoint each {E A B} (f : A -> task E B) (l : list A) : task E (list B) :=
  match l with
  | [] => mret []
  | a :: l => b ← f a; bs ← each f l; mret (b :: bs)
  end.

Fixpoint fold_task {E A S} (f : S -> A -> task E S) (s : S) (l : list A) : task E S :=
  match l with
  | [] => mret s
  | a :: l => s ← f s a; fold_task f s l
  end.

(** How the wait for a POST permit ends. *)
Inductive Admission : Type := PermitGiven | AdmissionCancelled | AdmissionLate | AdmissionClosed.

(** [post_capacity::acquire]: why the permit was not given. *)
Definition acquire (a : Admission) : option HelperError :=
  match a with
  | PermitGiven => None
  | AdmissionCancelled => Some HelperCancelled
  | AdmissionLate => Some HelperDeadlineExceeded
  | AdmissionClosed => Some (HelperInvalidRequest (chars "helper POST capacity semaphore closed"))
  end.

(** [timeout_at] around a call of the client: when the deadline passes while a request is in
    flight, the call is dropped and that request has no answer. *)
Definition timeout_at {A} (dropped : option nat) (run : ClientState * result HelperError A) : list HttpExchange * option (result HelperError A) :=
  let requests := exchanges run.1 in
  match dropped with
  | Some k =>
      match requests !! k with
      | Some x => (take k requests ++ [{| http_url := http_url x; http_body := http_body x; http_timeout := http_timeout x; http_answer := None |}], None)
      | None => (requests, Some run.2)
      end
  | None => (requests, Some run.2)
  end.

Definition idle_client (health : HelperHealth) : ClientState := {| client_health := health; exchanges := []; client_tick := 0 |}.

(** In nanoseconds. *)
Definition SHARE_INITIAL_DELIVERY_TIMEOUT : N := 60000 * MILLISECOND.
Definition SHARE_DELIVERY_MIN_ATTEMPT_BUDGET : N := 1000 * MILLISECOND.

(** Answers of the outside world. *)
Record DeliveryEnv : Type := {
  (** What other connections write, by whether the delivery holds the share's lock. *)
  env_interference : bool -> nat -> gmap SlotKey ShareColumns -> gmap SlotKey ShareColumns;
  env_tables : nat -> WalletTables;
  (** A statement that fails has no effect. *)
  env_statement : nat -> option VotingError;
  env_cancelled : nat -> bool;
  (** The lock of the share: an error, refused on cancellation, or granted. *)
  env_lock : nat -> result VotingError bool;
  env_health : nat -> HelperHealth;
  env_instant : nat -> N;
  env_admission : nat -> Admission;
  env_config : HelperClientConfig;
  env_client : nat -> ClientEnv;
  (** The request in flight when the deadline of the delivery passes. *)
  env_dropped : nat -> option nat;
  env_clock : nat -> N
}.

Record ShareSubmissionReport : Type := {
  report_accepted_urls : list url;
  report_ambiguous_urls : list url;
  report_target_count : nat
}.

Inductive ShareDeliveryAttemptOutcome : Type := AttemptAccepted | AttemptAmbiguous | AttemptDefiniteFailure.

(** Answers by the kind of call. *)
Definition reservation_of (answer : ShareAnswer) : ShareAttemptReservation :=
  match answer with Reservation r => r | _ => StaleGeneration end.
Definition updated_of (answer : ShareAnswer) : bool := match answer with Updated found => found | _ => false end.

Section tasks.
Context `{WC : WalletCrates, PJ : PlanJson, UC : UrlCrate, UT : UrlTexts, HX : HexCrate, RC : RoundIdCrates, WR : WireCrates, HJ : HelperJson}.
Context (env : DeliveryEnv) (round_id wallet_id : string).

(** Ask the environment; others may have written meanwhile. *)
Definition ask_env {E A} (f : nat -> A) : task E A := fun w =>
  ({| records := env_interference env (lock_held w) (tick w) (records w); share_posts := share_posts w; lock_held := lock_held w; tick := S (tick w) |},
   Done (f (tick w))).

Definition slot_ref (key : SlotKey) : ShareRef :=
  {| ref_round_id := round_id; ref_wallet_id := wallet_id; ref_bundle_index := key.1.1; ref_proposal_id := key.1.2; ref_share_index := key.2 |}.

(** One transaction on a record. *)
Definition share_transact {A} (key : SlotKey)
  (body : WalletTables -> option ShareColumns -> result VotingError (option ShareColumns * A)) : task VotingError A :=
  t ← ask_env (fun t => (env_statement env t, env_tables env t));
  match t.1 with
  | Some e => abort e
  | None => fun w =>
      match body t.2 (records w !! key) with
      | Err e => (w, Failed e)
      | Ok (row, a) => (with_record w key row, Done a)
      end
  end.

(** A call on a record; one that is not disturbed needs one iteration. *)
Definition call (key : SlotKey) (op : ShareOperation) : task VotingError ShareAnswer :=
  answer ← share_transact key (fun tables row => write ← prepare tables (slot_ref key) op row; Ok (settle write row));
  match answer with Some answer => mret answer | None => exhausted end.

Definition get_delegation_for_scope (key : SlotKey) : task VotingError (option ShareDelegationRecord) :=
  share_transact key (fun _ row =>
    match row with
    | None => Ok (row, None)
    | Some r =>
        share ← share_record round_id (Z.of_N key.1.1, Z.of_N key.1.2, Z.of_N key.2, r);
        Ok (row, Some share)
    end).

Definition begin_attempt (key : SlotKey) (server_url : url) (placement : list url) (target_count : nat)
  (policy : ShareAttemptCapacityPolicy) (nullifier : bytes) : task VotingError ShareAttemptReservation :=
  answer ← call key (AddAttempting server_url placement target_count policy (Some nullifier));
  mret (reservation_of answer).

Definition resolve_delivery_attempt_for_generation (key : SlotKey) (server_url : url) (nullifier : bytes)
  (outcome : ShareDeliveryAttemptOutcome) (reset_submit_at : bool) : task VotingError bool :=
  answer ← call key
    match outcome with
    | AttemptAccepted =>
        (if reset_submit_at then add_sent_servers_for_generation else add_sent_servers_preserving_schedule_for_generation)
          [server_url] (Some nullifier)
    | AttemptAmbiguous => add_ambiguous_servers_for_generation [server_url] reset_submit_at (Some nullifier)
    | AttemptDefiniteFailure => RemoveAttempting server_url (Some nullifier)
    end;
  mret (updated_of answer).

(** ** The initial fan-out of a share *)

Definition stale_delivery_error (key : SlotKey) : VotingError :=
  VeInvalidInput (chars "committed share changed while helper delivery was in flight for round=" ++ chars round_id
    ++ chars ", bundle=" ++ decimal key.1.1 ++ chars ", proposal=" ++ decimal key.1.2 ++ chars ", share=" ++ decimal key.2).

Definition load_current_delivery_state (key : SlotKey) (nullifier : bytes) (candidates : list url) : task VotingError ShareDeliveryState :=
  share ← get_delegation_for_scope key;
  match share with
  | Some share =>
      if bool_decide (share_nullifier share = nullifier) then
        from_result (from_url_lists (filter (fun u => u ∈ candidates) (sent_to_urls share))
                       (filter (fun u => u ∈ candidates) (ambiguous_urls share)) (filter (fun u => u ∈ candidates) (attempting_urls share)))
      else abort (stale_delivery_error key)
  | None => abort (stale_delivery_error key)
  end.

Definition delivery_report (state : ShareDeliveryState) (target_count : nat) : ShareSubmissionReport :=
  {| report_accepted_urls := accepted_urls state; report_ambiguous_urls := outcome_unknown_urls state ++ in_flight_urls state;
     report_target_count := target_count |}.

Section fan_out.
Context (key : SlotKey) (nullifier : bytes) (wire : text) (planned fallback : list url) (target_count : nat) (now deadline : N).
Let candidates : list url := planned ++ fallback.

Definition without (server_url : url) (l : list url) : list url := filter (fun u => u <> server_url) l.

(** Reservations of one wave, planned helpers first, in health order; with what is left and
    whether the fan-out stops after it. *)
Fixpoint reserve_wave (fuel need target : nat) (wave remaining : list url) : task VotingError (list url * list url * bool) :=
  if bool_decide (need <= length wave) || bool_decide (remaining = []) then mret (wave, remaining, false)
  else
    match fuel with
    | 0 => exhausted
    | S fuel =>
        cancel ← ask_env (env_cancelled env);
        if (cancel : bool) then mret (wave, remaining, true)
        else
          let active := filter (fun u => u ∈ planned) remaining in
          health ← ask_env (env_health env);
          match (candidate_servers health (if bool_decide (active = []) then remaining else active) now).2 with
          | [] => mret (wave, remaining, false)
          | server_url :: _ =>
              late ← ask_env (fun t => bool_decide (deadline - env_instant env t < SHARE_DELIVERY_MIN_ATTEMPT_BUDGET)%N);
              if (late : bool) then mret (wave, remaining, true)
              else
                reservation ← begin_attempt key server_url candidates target EnforcePlacementTarget nullifier;
                match reservation with
                | Started => reserve_wave fuel need target (wave ++ [server_url]) (without server_url remaining)
                | AlreadyRecorded => reserve_wave fuel need target wave (without server_url remaining)
                | PlacementCapacityReached => mret (wave, remaining, false)
                | StaleGeneration => abort (stale_delivery_error key)
                end
          end
    end.

(** One POST of a wave: admission, the check of its reservation, and the call of the client. *)
Definition post_reserved_helper (server_url : url) : task VotingError PostAnswer :=
  admission ← ask_env (env_admission env);
  match acquire admission with
  | Some e => mret (Some (Err e))
  | None =>
      current ← load_current_delivery_state key nullifier candidates;
      if bool_decide (server_url ∈ in_flight_urls current) then
        row ← record_now key;
        posted ← ask_env (fun t => timeout_at (env_dropped env t)
          (submit_share_with_timeout (env_client env t) (env_config env) server_url wire now (deadline - env_instant env t) (Some deadline)
             (idle_client (env_health env t))));
        _ ← log_post {| post_key := key; post_url := server_url; post_body := wire; post_record := row; post_requests := posted.1;
                        post_answer := posted.2 |};
        mret posted.2
      else abort (stale_delivery_error key)
  end.

Definition share_attempt_outcome (answer : PostAnswer) : ShareDeliveryAttemptOutcome :=
  match answer with
  | None => AttemptAmbiguous
  | Some (Ok _) => AttemptAccepted
  | Some (Err e) => if is_ambiguous e then AttemptAmbiguous else AttemptDefiniteFailure
  end.

(** An outcome is written before it counts. *)
Definition apply_outcome (s : ShareDeliveryState * bool) (joined : url * result VotingError PostAnswer) :
  task VotingError (ShareDeliveryState * bool) :=
  let '(state, elapsed) := s in
  let server_url := joined.1 in
  answer ← from_result joined.2;
  updated ← resolve_delivery_attempt_for_generation key server_url nullifier (share_attempt_outcome answer) false;
  if (updated : bool) then
    state ← from_result match share_attempt_outcome answer with
                        | AttemptAccepted => mark_accepted state server_url
                        | AttemptAmbiguous => mark_outcome_unknown state server_url
                        | AttemptDefiniteFailure => Ok state
                        end;
    mret (state, elapsed || bool_decide (answer = None))
  else abort (stale_delivery_error key).

Fixpoint fan_out (fuel target : nat) (state : ShareDeliveryState) (remaining : list url) : task VotingError unit :=
  if bool_decide (remaining = []) || bool_decide (target <= length (accepted_urls state)) then mret tt
  else
    match fuel with
    | 0 => exhausted
    | S fuel =>
        cancel ← ask_env (env_cancelled env);
        if (cancel : bool) then mret tt
        else
          reserved ← reserve_wave (length remaining) (target - length (accepted_urls state)) target [] remaining;
          let '(wave, remaining, stop_after_wave) := reserved in
          if bool_decide (wave = []) then mret tt
          else
            (* Concurrent in the code; a POST only reads the record. *)
            outcomes ← each (fun u => caught (post_reserved_helper u)) wave;
            applied ← fold_task apply_outcome (state, false) (zip wave outcomes);
            let '(state, deadline_elapsed) := applied in
            if deadline_elapsed || stop_after_wave then mret tt else fan_out fuel target state remaining
    end.
End fan_out.

Section dispatch.
Context (key : SlotKey) (nullifier : bytes) (wire : text) (planned fallback : list url) (target_count : nat) (now : N).
Let candidates : list url := planned ++ fallback.

(** The delivery under the share's lock. *)
Definition locked_delivery : task VotingError ShareSubmissionReport :=
  state ← load_current_delivery_state key nullifier candidates;
  let remaining := filter (fun u => delivery_contains state u = false) candidates in
  let target := Nat.min target_count (length (accepted_urls state) + length remaining) in
  started ← ask_env (env_instant env);
  _ ← fan_out key nullifier wire planned fallback now (started + SHARE_INITIAL_DELIVERY_TIMEOUT) (length remaining) target state remaining;
  state ← load_current_delivery_state key nullifier candidates;
  mret (delivery_report state target_count).

Definition dispatch_share_to_canonical_helpers : task VotingError ShareSubmissionReport :=
  lock ← ask_env (env_lock env);
  granted ← from_result lock;
  if (granted : bool) then holding_lock locked_delivery
  else
    state ← load_current_delivery_state key nullifier candidates;
    mret (delivery_report state target_count).
End dispatch.
End tasks.

(** ** The delivery of a committed share *)

(** [CommittedShareSubmissionRequest], with the vote it belongs to. *)
Record CommittedShareRequest : Type := {
  request_key : SlotKey;
  request_plan : ShareSubmissionPlan;
  request_planning_urls : list url;
  request_configured_urls : list url;
  request_now : N;
  request_vote_commitment : bytes32;
  request_payloads : list SharePayload;
  request_json : text
}.

Section committed.
Context `{WC : WalletCrates, PJ : PlanJson, UC : UrlCrate, UT : UrlTexts, RS : RecoverySerde, HX : HexCrate, RC : RoundIdCrates, SC : ShareCrates, WR : WireCrates, HJ : HelperJson}.
Context (env : DeliveryEnv) (round_id wallet_id : string) (request : CommittedShareRequest).
Let key : SlotKey := request_key request.
Let plan : ShareSubmissionPlan := request_plan request.

Definition vote_changed_error : VotingError :=
  VeInvalidInput (chars "committed vote changed before helper share submission for round=" ++ chars round_id ++ chars ", bundle="
    ++ decimal key.1.1 ++ chars ", proposal=" ++ decimal key.1.2 ++ chars "; recover the current committed vote").

(** The checks of the request: the configured fleet and the planned helpers. *)
Definition check_request : result VotingError (list url * list url) :=
  configured ← configured_helper_fleet (request_configured_urls request);
  planning_fleet ← configured_helper_fleet (request_planning_urls request);
  planned ← canonical_helper_url_list (target_servers plan);
  _ ← fail_if (negb (bool_decide (length planned = length (target_servers plan))))
        (VeInvalidInput (chars "plan target_servers must contain distinct canonical helpers"));
  let expected_target := share_submission_target_count (length planning_fleet) in
  _ ← fail_if (negb (bool_decide (plan_target_count plan = expected_target)) || negb (bool_decide (length planned = plan_target_count plan)))
        (VeInvalidInput (chars "plan target_count and target_servers must match the persisted planning fleet target " ++ decimal_nat expected_target));
  match List.find (fun u => negb (bool_decide (u ∈ planning_fleet))) planned with
  | Some u => Err (VeInvalidInput (chars "planned helper is not in the persisted planning fleet: " ++ u))
  | None => Ok (configured, planned)
  end.

Definition committed_payload : result VotingError SharePayload :=
  payload ← ok_or (List.find (fun p => bool_decide (wire_share_index (enc_share p) = key.2)) (request_payloads request))
              (VeInvalidInput (chars "share_index " ++ decimal key.2 ++ chars " is not present in the committed vote"));
  _ ← fail_if (negb (bool_decide (payload_vote_round_id payload = round_id)) || negb (bool_decide (payload_proposal_id payload = key.1.2)))
        (VeInternal (chars "committed share payload identity does not match its vote handle"));
  Ok payload.

(** The tree position and the nullifier of the vote on file, which must be the committed one. *)
Definition committed_material (material : HelperRecoveryMaterial) : result VotingError (N * bytes32) :=
  match material with
  | MaterialReady json position =>
      _ ← fail_if (negb (bool_decide (json = request_json request))) vote_changed_error;
      recovery ← parse_recovery json;
      _ ← fail_if (negb (bool_decide (rec_vote_commitment recovery = request_vote_commitment request))) vote_changed_error;
      nullifier ← nullifier_from_recovery_json json key.1.2 key.2;
      Ok (position, nullifier)
  | MaterialAwaitingVcPosition => Err (VeInvalidInput (chars "committed vote must be confirmed before submitting helper shares"))
  | MaterialMissing => Err (VeInternal (chars "committed vote is missing durable helper recovery material"))
  end.

(** The record is created or merged before anything is posted; its time is write-once. *)
Definition prepare_committed_share_delivery (nullifier : bytes32) : task VotingError N :=
  target ← from_result (ok_or (if bool_decide (N.of_nat (plan_target_count plan) <= u32_max)%N then Some (N.of_nat (plan_target_count plan)) else None)
             (VeInvalidInput (chars "target_count " ++ decimal_nat (plan_target_count plan) ++ chars " does not fit u32")));
  now ← ask_env env (env_clock env);
  answer ← share_transact env key (fun tables row =>
    record_for_vote_generation tables (slot_ref round_id wallet_id key) [] [] target (bytes32_bytes nullifier) (plan_submit_at plan) now
      (request_json request) row);
  share ← get_delegation_for_scope env round_id key;
  match share, answer with
  | Some share, Some (Scheduled submit_at) =>
      if bool_decide (share_nullifier share = bytes32_bytes nullifier) then mret submit_at
      else abort (VeInternal (chars "newly journaled helper share was not found"))
  | _, _ => abort (VeInternal (chars "newly journaled helper share was not found"))
  end.

Definition submit_committed_share_to_helpers : task VotingError ShareSubmissionReport :=
  fleets ← from_result check_request;
  let '(configured, planned) := fleets in
  payload ← from_result committed_payload;
  material ← share_transact env key (fun tables row => material ← helper_recovery_material tables (slot_ref round_id wallet_id key); Ok (row, material));
  committed ← from_result (committed_material material);
  let '(vc_tree_position, nullifier) := committed in
  _ ← from_result (to_wire_json payload (Some vc_tree_position) (plan_submit_at plan));
  let eligible := filter (fun u => u ∈ configured) planned in
  let fallback := filter (fun u => u ∉ eligible) configured in
  submit_at ← prepare_committed_share_delivery nullifier;
  wire ← from_result (to_wire_json payload (Some vc_tree_position) submit_at);
  dispatch_share_to_canonical_helpers env round_id wallet_id key (bytes32_bytes nullifier) wire eligible fallback (plan_target_count plan) (request_now request).
End committed.
