(* ===== verification/ShareDispatchFacts.v ===== *)
(** * Facts about the delivery of shares

    Proofs about [ShareDispatch]: the rules of tasks, what reading and calls do to a record, the
    requests of a POST, the invariant of the initial fan-out, and that deliveries end. *)

From S2P Require Import Prelude Sorting Types Generation Protocol ShareTiming SharePlacement Ballot ShareDelivery RoundPlanning.
From S2P Require Import VoteRecovery WalletTables RoundLoading ShareWire HelperClient HelperClientFacts ShareRecords ShareEvidence ShareDispatch.

(** ** Rules of tasks *)

(** From worlds with [P] the task ends, with [Q] on success and [X] on failure. *)
Definition triple {E A} (P : ShareWorld -> Prop) (m : task E A) (Q : A -> ShareWorld -> Prop) (X : ShareWorld -> Prop) : Prop :=
  forall w, P w -> match m w with
                   | (w', Done a) => Q a w'
                   | (w', Failed _) => X w'
                   | (_, Exhausted) => False
                   end.

Lemma triple_ret {E A} (a : A) (P : ShareWorld -> Prop) (Q : A -> ShareWorld -> Prop) X :
  (forall w, P w -> Q a w) -> triple P (mret a : task E A) Q X.
Proof. intros H w Hw. cbn. auto. Qed.

Lemma triple_bind {E A B} (m : task E A) (f : A -> task E B) P R Q X :
  triple P m R X -> (forall a, triple (R a) (f a) Q X) -> triple P (m ≫= f) Q X.
Proof.
  intros Hm Hf w Hw. specialize (Hm w Hw). unfold mbind, task_bind. destruct (m w) as [w1 [a|e|]]; [by apply Hf|done|done].
Qed.

Lemma triple_conseq {E A} (m : task E A) (P P' : ShareWorld -> Prop) (Q Q' : A -> ShareWorld -> Prop) (X X' : ShareWorld -> Prop) :
  triple P' m Q' X' -> (forall w, P w -> P' w) -> (forall a w, Q' a w -> Q a w) -> (forall w, X' w -> X w) -> triple P m Q X.
Proof. intros Hm HP HQ HX w Hw. specialize (Hm w (HP w Hw)). destruct (m w) as [w1 [a|e|]]; auto. Qed.

Lemma triple_pre {E A} (m : task E A) (P P' : ShareWorld -> Prop) Q X : (forall w, P w -> P' w) -> triple P' m Q X -> triple P m Q X.
Proof. intros H Hm. eapply triple_conseq; eauto. Qed.

Lemma triple_abort {E A} (e : E) (P : ShareWorld -> Prop) (Q : A -> ShareWorld -> Prop) X : (forall w, P w -> X w) -> triple P (abort e) Q X.
Proof. intros H w Hw. cbn. auto. Qed.

Lemma triple_from_result {E A} (r : result E A) (P : ShareWorld -> Prop) (Q : A -> ShareWorld -> Prop) X :
  (forall a w, r = Ok a -> P w -> Q a w) -> (forall w, P w -> X w) -> triple P (from_result r) Q X.
Proof. intros HQ HX. destruct r; [apply triple_ret; eauto|apply triple_abort; auto]. Qed.

Lemma triple_caught {E F A} (m : task E A) P Q (X Y : ShareWorld -> Prop) :
  triple P m (fun a w => Q (Ok a) w) X -> (forall e w, X w -> Q (Err e) w) -> triple P (caught m : task F (result E A)) Q Y.
Proof. intros Hm HX w Hw. specialize (Hm w Hw). unfold caught. destruct (m w) as [w1 [a|e|]]; auto. Qed.

(** A fold with an invariant on what is still to do. *)
Lemma triple_fold {E A S} (f : S -> A -> task E S) (I : S -> list A -> ShareWorld -> Prop) X l s :
  (forall s a rest, triple (I s (a :: rest)) (f s a) (fun s' => I s' rest) X) ->
  triple (I s l) (fold_task f s l) (fun s' => I s' []) X.
Proof.
  intros Hf. revert s. induction l as [|a l IH]; intros s; cbn [fold_task]; [by apply triple_ret|].
  eapply triple_bind; [apply Hf|]. intros s'. apply IH.
Qed.

Lemma triple_exists {E A T} (P : T -> ShareWorld -> Prop) (m : task E A) Q X :
  (forall x, triple (P x) m Q X) -> triple (fun w => exists x, P x w) m Q X.
Proof. intros H w [x Hx]. by eapply H. Qed.

Lemma triple_pure {E A} (phi : Prop) (P : ShareWorld -> Prop) (m : task E A) Q X :
  (forall w, P w -> phi) -> (phi -> triple P m Q X) -> triple P m Q X.
Proof. intros Hp Hm w Hw. apply Hm; [by eapply Hp|done]. Qed.

(** The world after the lock is dropped. *)
Definition unlocked (P : ShareWorld -> Prop) (w : ShareWorld) : Prop :=
  exists w0, P w0 /\ records w = records w0 /\ share_posts w = share_posts w0.

Lemma triple_holding {E A} (m : task E A) (P : ShareWorld -> Prop) (P' : ShareWorld -> Prop) Q X :
  (forall w, P w -> P' (with_lock true w)) -> triple P' m Q X -> triple P (holding_lock m) (fun a => unlocked (Q a)) (unlocked X).
Proof.
  intros HP Hm w Hw. specialize (Hm _ (HP w Hw)). unfold holding_lock. destruct (m (with_lock true w)) as [w1 [a|e|]]; [by exists w1..|done].
Qed.

(** ** Helpers left to try *)

Lemma elem_of_without x u l : u ∈ without x l <-> u ∈ l /\ u <> x.
Proof. unfold without. rewrite list_elem_of_filter. tauto. Qed.

Lemma length_without x l : x ∈ l -> length (without x l) < length l.
Proof.
  unfold without. induction l as [|y l IH]; [set_solver|]. intros Hx. destruct (decide (y = x)) as [->|Hne].
  - rewrite filter_cons_False by tauto. cbn. pose proof (length_filter (fun u => u <> x) l). lia.
  - rewrite filter_cons_True by done. cbn. assert (x ∈ l) as Hl by set_solver. specialize (IH Hl). lia.
Qed.

(** ** Reading a record *)

Section reading.
Context `{WC : WalletCrates, PJ : PlanJson, UC : UrlCrate, UT : UrlTexts}.

(** A helper in flight is neither accepted nor unknown. *)
Definition in_flight_apart (s : ShareDeliveryState) : Prop :=
  forall u, u ∈ in_flight_urls s -> (u ∉ accepted_urls s) /\ (u ∉ outcome_unknown_urls s).

Lemma marks_apart s x : in_flight_apart s ->
  in_flight_apart (mark_accepted_canonical s x) /\ in_flight_apart (mark_outcome_unknown_canonical s x) /\ in_flight_apart (begin_in_flight s x).
Proof.
  intros H. split; [|split]; intros u Hu.
  - cbn in *. rewrite elem_of_others in Hu. rewrite elem_of_push, elem_of_others. specialize (H u). naive_solver.
  - cbn in *. rewrite elem_of_others in Hu. specialize (H u). destruct Hu as [Hne Hu]. specialize (H Hu). split; [tauto|].
    case_match; [tauto|]. set_solver.
  - unfold begin_in_flight in *. destruct (delivery_contains s x) eqn:E; [auto|]. cbn in *.
    rewrite elem_of_app, list_elem_of_singleton in Hu. destruct Hu as [Hu| ->]; [auto|].
    apply not_true_iff_false in E. rewrite delivery_contains_level in E. pose proof (level_0 (accepted_urls s) (outcome_unknown_urls s) (in_flight_urls s) x) as H0.
    unfold state_level in E. destruct H0 as [H0 _]. destruct H0 as (? & ? & ?); [lia|done].
Qed.

Lemma foldl_apart (f : ShareDeliveryState -> url -> ShareDeliveryState) l s : (forall s x, in_flight_apart s -> in_flight_apart (f s x)) -> in_flight_apart s -> in_flight_apart (foldl f s l).
Proof. intros Hf. revert s. induction l as [|x l IH]; intros s Hs; cbn; auto. Qed.

Lemma from_url_lists_apart a b f s : from_url_lists a b f = Ok s -> in_flight_apart s.
Proof.
  unfold from_url_lists. intros (a' & _ & (b' & _ & (f' & _ & [= <-])%result_bind_Ok)%result_bind_Ok)%result_bind_Ok.
  apply foldl_apart; [intros; by apply marks_apart|]. apply foldl_apart; [intros; by apply marks_apart|].
  apply foldl_apart; [intros; by apply marks_apart|]. intros u Hu. cbn in Hu. set_solver.
Qed.

Lemma in_flight_level s u : in_flight_apart s -> u ∈ in_flight_urls s -> state_level s u = 1.
Proof.
  intros Hs Hu. destruct (Hs u Hu) as [Ha Hb]. apply level_1; [done|done|]. apply level_spec. auto.
Qed.

(** A canonical list of stable helpers has the same helpers. *)
Lemma elem_of_stable_list l l' u : Forall stable l -> canonical_helper_url_list l = Ok l' -> u ∈ l' <-> u ∈ l.
Proof.
  intros Hst Hl. rewrite (elem_of_canonical_urls _ _ _ u Hl). rewrite Forall_forall in Hst. unfold stable in Hst. split.
  - intros [Hu|(v & Hv & Hc)]; [set_solver|]. assert (v = u) as <-; [|done]. specialize (Hst v Hv). congruence.
  - intros Hu. right. exists u. auto.
Qed.

(** A delivery state restricted to some stable helpers has their levels. *)
Lemma restricted_level st (cand : list url) s u :
  Forall stable cand ->
  from_url_lists (filter (fun u => u ∈ cand) (accepted_urls st)) (filter (fun u => u ∈ cand) (outcome_unknown_urls st))
    (filter (fun u => u ∈ cand) (in_flight_urls st)) = Ok s ->
  state_level s u = if bool_decide (u ∈ cand) then state_level st u else 0.
Proof.
  intros Hc Hs. destruct (from_url_lists_level _ _ _ _ Hs) as (a' & b' & f' & Ha & Hb & Hf & Hl). rewrite Hl.
  assert (forall l l' : list url, canonical_helper_url_list (filter (fun u => u ∈ cand) l) = Ok l' -> u ∈ l' <-> u ∈ cand /\ u ∈ l) as Hel.
  { intros l l' Hl'. rewrite (elem_of_stable_list (filter (fun u => u ∈ cand) l) l' u); [by rewrite list_elem_of_filter| |exact Hl'].
    apply Forall_forall. intros v Hv. apply list_elem_of_filter in Hv as [Hv _]. rewrite Forall_forall in Hc. auto. }
  unfold state_level, level.
  rewrite (bool_decide_ext _ _ (Hel _ _ Ha)), (bool_decide_ext _ _ (Hel _ _ Hb)), (bool_decide_ext _ _ (Hel _ _ Hf)).
  destruct (decide (u ∈ cand)) as [Hin|Hin].
  - rewrite (bool_decide_true (u ∈ cand)) by done. by rewrite !(bool_decide_ext (u ∈ cand /\ _) _ (conj (@proj2 _ _) (conj Hin))).
  - rewrite (bool_decide_false (u ∈ cand)) by done. by rewrite !bool_decide_false by tauto.
Qed.

(** The record a reader returns shows what is on the row. *)
Lemma share_record_levels round_id k r share :
  share_record round_id (k, r) = Ok share ->
  share_nullifier share = col_nullifier r /\ share_confirmed share = negb (bool_decide (col_confirmed r = 0)%Z)
  /\ exists a b f st, from_url_lists a b f = Ok st /\ sent_to_urls share = accepted_urls st /\ ambiguous_urls share = outcome_unknown_urls st
       /\ attempting_urls share = in_flight_urls st /\ forall u, state_level st u = helper_level r u.
Proof.
  unfold share_record. destruct k as [[b p] i]. intros H. do 3 (apply result_bind_Ok in H as (? & _ & H)).
  apply result_bind_Ok in H as (sent & Hs & H). apply result_bind_Ok in H as (amb & Ha & H).
  apply result_bind_Ok in H as (att & Ht & H). apply result_bind_Ok in H as (st & Hst & [= <-]). cbn.
  split; [done|]. split; [done|]. do 4 eexists. split; [exact Hst|]. do 3 (split; [done|]).
  destruct (read_delivery_levels r st (legacy_helper_urls [] sent) (legacy_helper_urls [] amb) (legacy_helper_urls [] att)) as [Hl _]; [|done].
  unfold read_delivery, partition_stored_helper_urls. rewrite Hs. cbn [mbind result_bind]. rewrite Ha. cbn [mbind result_bind].
  rewrite Ht. cbn [mbind result_bind fst snd]. by rewrite Hst.
Qed.
End reading.

(** ** Calls on a record *)

Section calls.
Context `{WC : WalletCrates, PJ : PlanJson, UC : UrlCrate, UT : UrlTexts}.
Context (env : DeliveryEnv) (round_id wallet_id : string) (key : SlotKey) (n : bytes).

(** Later records of the generation come from earlier ones and forget nothing but what was
    cleared. *)
Definition evolves (cleared : url -> Prop) (w w' : ShareWorld) : Prop :=
  forall r', records w' !! key = Some r' -> col_nullifier r' = n ->
    exists r, records w !! key = Some r /\ col_nullifier r = n /\ keeps cleared r r'.

(** Other connections, while the delivery holds the share's lock: they do not bring a deleted
    record of the generation back, and keep what is known of it. *)
Definition respects_lock : Prop :=
  forall t rows r', env_interference env true t rows !! key = Some r' -> col_nullifier r' = n ->
    exists r, rows !! key = Some r /\ col_nullifier r = n /\ keeps (fun _ => False) r r'.

(** Calls of other connections that clear no reservation, and reports of deliveries, in any
    interleaving, are such writes. *)
Lemma calls_respect_lock ref sys evs sys' r r' :
  calls_prepared ref sys -> record_run ref sys evs sys' -> Forall (fun ev => replaces ev = false /\ forall u, clears u ev = false) evs ->
  share_row sys = Some r -> share_row sys' = Some r' -> keeps (fun _ => False) r r'.
Proof.
  intros Hc Hrun Hevs Hr Hr'. rewrite Forall_forall in Hevs. destruct (run_keeps ref sys evs sys' r Hc Hrun) as (r2 & Hr2 & Hk); [|done|].
  { apply Forall_forall. intros ev Hev. by apply Hevs. }
  assert (r2 = r') as -> by congruence. eapply keeps_weaken; [|exact Hk]. intros u (ev & Hin & Hcl)%count_pos.
  destruct (Hevs ev Hin) as [_ Hno]. by rewrite Hno in Hcl.
Qed.

(** Steps that post nothing; under the lock they forget nothing. *)
Record silent (w w' : ShareWorld) : Prop := {
  silent_evolves : respects_lock -> lock_held w = true -> evolves (fun _ => False) w w';
  silent_posts : share_posts w' = share_posts w;
  silent_lock : lock_held w' = lock_held w
}.

Lemma evolves_trans (c c1 c2 : url -> Prop) w w1 w2 :
  (forall u, c1 u -> c u) -> (forall u, c2 u -> c u) -> evolves c1 w w1 -> evolves c2 w1 w2 -> evolves c w w2.
Proof.
  intros H1 H2 E1 E2 r2 Hr2 Hn2. destruct (E2 r2 Hr2 Hn2) as (r1 & Hr1 & Hn1 & K2). destruct (E1 r1 Hr1 Hn1) as (r & Hr & Hn & K1).
  exists r. split; [done|]. split; [done|]. by apply (keeps_trans c c1 c2 r r1 r2).
Qed.

Lemma evolves_weaken (c c' : url -> Prop) w w' : (forall u, c u -> c' u) -> evolves c w w' -> evolves c' w w'.
Proof.
  intros Hc E r' Hr' Hn. destruct (E r' Hr' Hn) as (r & Hr & Hnr & K). exists r. split; [done|]. split; [done|]. by eapply keeps_weaken.
Qed.

Lemma evolves_level (c : url -> Prop) w w' r r' u :
  evolves c w w' -> records w !! key = Some r -> records w' !! key = Some r' -> col_nullifier r' = n -> stable u ->
  helper_level r u <= helper_level r' u \/ c u.
Proof.
  intros E Hr Hr' Hn Hu. destruct (E r' Hr' Hn) as (r0 & Hr0 & _ & K). assert (r0 = r) as -> by congruence.
  destruct (keeps_level _ _ _ K u Hu) as [?|[? _]]; auto.
Qed.

Lemma ask_silent {E A} (f : nat -> A) w : exists w', @ask_env env E A f w = (w', Done (f (tick w))) /\ silent w w' /\ tick w' = S (tick w).
Proof.
  eexists. split; [reflexivity|]. split; [|done]. split; [|done|done]. intros Henv Hw r' Hr' Hn. cbn in Hr'. rewrite Hw in Hr'. by eapply Henv.
Qed.

Lemma triple_ask {E A} (f : nat -> A) (P : ShareWorld -> Prop) (Q : A -> ShareWorld -> Prop) X :
  (forall w w' t, P w -> silent w w' -> Q (f t) w') -> triple P (ask_env env f : task E A) Q X.
Proof. intros H w Hw. destruct (@ask_silent E A f w) as (w' & -> & Hs & _). by eapply H. Qed.

Lemma with_record_eq w row : records (with_record w key row) !! key = row.
Proof. cbn. by rewrite lookup_partial_alter_eq. Qed.

Lemma triple_transact {A} (body : WalletTables -> option ShareColumns -> result VotingError (option ShareColumns * A)) P (Q : A -> ShareWorld -> Prop) X :
  (forall w w', P w -> silent w w' -> X w') ->
  (forall w w1 tables row a, P w -> silent w w1 -> body tables (records w1 !! key) = Ok (row, a) -> Q a (with_record w1 key row)) ->
  triple P (share_transact env key body) Q X.
Proof.
  intros HX HQ. unfold share_transact. eapply triple_bind with (R := fun _ w => exists w0, P w0 /\ silent w0 w); [apply triple_ask; eauto|].
  intros [[e|] tables] w1 (w & Hw & Hs); cbn; [by eapply HX|].
  destruct (body tables (records w1 !! key)) as [[row a]|e] eqn:Hb; [by eapply HQ|by eapply HX].
Qed.

(** A call always answers, and does what its effect says. *)
Lemma triple_call op P (Q : ShareAnswer -> ShareWorld -> Prop) X :
  (forall w w', P w -> silent w w' -> X w') ->
  (forall w w1 w2 answer, P w -> silent w w1 -> share_posts w2 = share_posts w1 -> lock_held w2 = lock_held w1 ->
     settles op (records w1 !! key) (records w2 !! key) (Some answer) -> Q answer w2) ->
  triple P (call env round_id wallet_id key op) Q X.
Proof.
  intros HX HQ. unfold call.
  eapply triple_bind with (R := fun answer w2 => exists a w w1, answer = Some a /\ P w /\ silent w w1 /\ share_posts w2 = share_posts w1
                                  /\ lock_held w2 = lock_held w1 /\ settles op (records w1 !! key) (records w2 !! key) answer).
  - apply triple_transact; [done|]. intros w w1 tables row answer Hw Hs (write & Hp & [= Hst])%result_bind_Ok.
    pose proof (prepare_settles _ _ _ _ _ Hp) as Hne. rewrite Hst in Hne. destruct answer as [a|]; [|done].
    exists a, w, w1. do 5 (split; [done|]). rewrite with_record_eq. by eapply prepare_effect.
  - intros answer w2 (a & w & w1 & -> & Hw & Hs & Hp & Hlk & Hset). cbn. by eapply HQ.
Qed.

Lemma settles_evolves op w w' answer :
  settles op (records w !! key) (records w' !! key) (Some answer) -> evolves (fun u => clears u (Answered op answer) = true) w w'.
Proof.
  unfold settles. intros H r' Hr' Hn. destruct (records w !! key) as [r|]; [|destruct H as (H & _); congruence].
  destruct H as (r1 & Hr1 & He). assert (r1 = r') as -> by congruence. apply effect_keeps in He. exists r.
  split; [done|]. split; [by rewrite <- (keeps_nullifier _ _ _ He)|]. eapply keeps_weaken; [|exact He]. cbn beta. by intros u (a & [= <-] & Hc).
Qed.
End calls.

(** ** Settled outcomes *)

Section outcomes.
Context `{WC : WalletCrates, PJ : PlanJson, UC : UrlCrate, UT : UrlTexts, HX : HexCrate, RC : RoundIdCrates, WR : WireCrates, HJ : HelperJson}.

(** The level a merge leaves its helper at. *)
Definition merge_level (merge : HelperUrlMerge) : nat := match merge with DefiniteAcceptance => 3 | OutcomeUnknown => 2 end.

Lemma settles_merge u merge reset expected row row' :
  stable u -> settles (MergeUrls [u] merge reset expected) row row' (Some (Updated true)) ->
  exists r', row' = Some r' /\ merge_level merge <= helper_level r' u.
Proof.
  intros Hu H. unfold settles in H. destruct row as [r|]; [|by destruct H as (_ & _ & [])]. destruct H as (r' & -> & He).
  exists r'. split; [done|]. inversion He as [| | |urls m rs ex s s' ls la lf r0 _ Hr Hm|]; subst; [done|].
  cbn [fold_results] in Hm. apply result_bind_Ok in Hm as (s1 & Hm & [= <-]). unfold helper_level. cbn.
  etrans; [|by apply written_level]. destruct merge; cbn in Hm; unfold mark_accepted, mark_outcome_unknown in Hm;
    rewrite (Hu : canonicalize_helper_base_url u = Ok u) in Hm; injection Hm as <-;
    rewrite ?state_level_accepted, ?state_level_unknown, bool_decide_true by done; cbn; lia.
Qed.

Lemma clears_only u v expected answer :
  stable u -> clears v (Answered (RemoveAttempting u expected) answer) = true -> v = u.
Proof.
  intros Hu H. destruct answer as [|[]|]; try done. unfold clears, names_helper in H. rewrite Hu in H. by apply bool_decide_eq_true in H.
Qed.

(** What a finished POST says of the helper: it has the share, it may have it, or it does not. *)
Definition evidence (answer : option (result HelperError ShareSubmissionStatus)) : nat :=
  match answer with None => 2 | Some (Ok _) => 3 | Some (Err e) => if is_ambiguous e then 2 else 0 end.

Lemma evidence_outcome answer :
  evidence answer = match share_attempt_outcome answer with AttemptAccepted => 3 | AttemptAmbiguous => 2 | AttemptDefiniteFailure => 0 end.
Proof. destruct answer as [[|e]|]; [done| |done]. unfold evidence, share_attempt_outcome. by destruct (is_ambiguous e). Qed.

(** The requests of one call of the client for a helper, and what its answer says of them. *)
Record requested (config : HelperClientConfig) (u : url) (body : text) (requests : list HttpExchange)
  (answer : option (result HelperError ShareSubmissionStatus)) : Prop := {
  requested_route : forall x, x ∈ requests -> join_helper_url u [chars "shares"] = Ok (http_url x) /\ http_body x = Some body;
  requested_count : length requests <= S (length (retry_delays config));
  requested_refused : forall i x, requests !! i = Some x -> S i < length requests -> refused (http_answer x);
  requested_answer : match answer with
    | Some (Ok _) => exists x, last requests = Some x /\ acknowledged x
    | Some (Err e) => is_ambiguous e = false -> Forall (fun x => refused (http_answer x)) requests
    | None => True
    end
}.

Lemma submission_requested env config u wire now timeout deadline health s r :
  stable u -> validate_share_body wire = Ok wire ->
  submit_share_with_timeout env config u wire now timeout deadline (idle_client health) = (s, r) ->
  requested config u wire (exchanges s) (Some r).
Proof.
  intros Hu Hw [(e & -> & He & Hs)|(base & v & body & Hb & Hv & Hbody & new & H1 & H2 & H3 & H4 & H5)]%submission_posts.
  - cbn in Hs. rewrite Hs. constructor; [set_solver|cbn; lia|done|constructor].
  - unfold stable in Hu. assert (base = u) as -> by congruence. assert (body = wire) as -> by congruence. cbn in H1. rewrite H1.
    constructor; [|done|done|exact H5]. intros x Hx. rewrite Forall_forall in H3. destruct (H3 x Hx) as [-> ->]. done.
Qed.

(** Dropping the call at the deadline leaves the requests made so far, the last unanswered. *)
Lemma timeout_requested config u wire dropped (run : ClientState * result HelperError ShareSubmissionStatus) :
  requested config u wire (exchanges run.1) (Some run.2) -> requested config u wire (timeout_at dropped run).1 (timeout_at dropped run).2.
Proof.
  intros H. unfold timeout_at. destruct dropped as [k|]; [|done]. destruct (exchanges run.1 !! k) as [x|] eqn:Hx; [|done]. destruct H as [H1 H2 H3 _].
  pose proof (lookup_lt_Some _ _ _ Hx) as Hk. constructor; cbn [fst snd]; [| | |done].
  - intros y [Hy|Hy%list_elem_of_singleton]%elem_of_app; [apply H1; rewrite <- (take_drop k (exchanges run.1)); apply elem_of_app; by left|]. subst y. cbn. apply H1. by eapply list_elem_of_lookup_2.
  - rewrite length_app, length_take. cbn. lia.
  - intros i y Hy Hi. rewrite length_app, length_take in Hi. cbn in Hi. rewrite lookup_app_l in Hy by (rewrite length_take; lia).
    apply lookup_take_Some in Hy as [Hy _]. apply (H3 i y Hy). lia.
Qed.
End outcomes.

(** ** The fan-out *)

Section fan_out.
Context `{WC : WalletCrates, PJ : PlanJson, UC : UrlCrate, UT : UrlTexts, HX : HexCrate, RC : RoundIdCrates, WR : WireCrates, HJ : HelperJson}.
Context (env : DeliveryEnv) (round_id wallet_id : string) (key : SlotKey) (n : bytes).
Context (wire : text) (planned fallback : list url) (posts0 : list SharePost).
Let candidates : list url := planned ++ fallback.
Context (Hstable : Forall stable candidates) (Hwire : validate_share_body wire = Ok wire).

(** A POST follows a reservation on record. *)
Definition posted_reserved (p : SharePost) : Prop :=
  post_key p = key /\ post_url p ∈ candidates /\ post_body p = wire
  /\ requested (env_config env) (post_url p) wire (post_requests p) (post_answer p)
  /\ exists r, post_record p = Some r /\ col_nullifier r = n /\ helper_level r (post_url p) = 1.

Definition new_posts (w : ShareWorld) : list SharePost := drop (length posts0) (share_posts w).

(** Helpers not posted to yet are [open], those whose outcome is not written yet [pending]. *)
Record fan_inv (open pending : list url) (w : ShareWorld) : Prop := {
  inv_prefix : posts0 `prefix_of` share_posts w;
  inv_distinct : NoDup (map post_url (new_posts w));
  inv_posted : forall p, p ∈ new_posts w -> posted_reserved p /\ (post_url p ∉ open);
  inv_held : lock_held w = true;
  inv_evidence : respects_lock env key n -> forall p r, p ∈ new_posts w -> records w !! key = Some r -> col_nullifier r = n ->
    (if bool_decide (post_url p ∈ pending) then Nat.min 1 (evidence (post_answer p)) else evidence (post_answer p)) <= helper_level r (post_url p)
}.

Lemma candidate_stable u : u ∈ candidates -> stable u.
Proof. apply (proj1 (Forall_forall _ _) Hstable). Qed.

Lemma fan_inv_evolves (c : url -> Prop) open pending w w' :
  (respects_lock env key n -> evolves key n c w w') -> share_posts w' = share_posts w -> lock_held w' = lock_held w ->
  (forall p, p ∈ new_posts w -> c (post_url p) -> evidence (post_answer p) = 0) ->
  fan_inv open pending w -> fan_inv open pending w'.
Proof.
  intros He Hp Hlk Hc [H1 H2 H3 Hh H4]. unfold new_posts in *. constructor; unfold new_posts; rewrite ?Hp; [done|done|done|congruence|].
  intros Henv p r' Hin Hr' Hn. destruct (He Henv r' Hr' Hn) as (r & Hr & Hnr & Hk). specialize (H4 Henv p r Hin Hr Hnr).
  destruct (keeps_level _ _ _ Hk (post_url p)) as [Hle|[Hcl _]]; [apply candidate_stable, H3, Hin|lia|].
  rewrite (Hc p Hin Hcl). case_bool_decide; lia.
Qed.

Lemma fan_inv_silent open pending w w' : silent env key n w w' -> fan_inv open pending w -> fan_inv open pending w'.
Proof. intros [He Hp Hlk] H. eapply (fan_inv_evolves (fun _ => False)); [|done|done|done|exact H]. intros Henv. apply (He Henv), H. Qed.

(** Fewer helpers open, or more pending. *)
Lemma fan_inv_weaken open open' pending pending' w :
  open' ⊆ open -> pending ⊆ pending' -> fan_inv open pending w -> fan_inv open' pending' w.
Proof.
  intros Ho Hp [H1 H2 H3 Hh H4]. constructor; [done|done| |done|].
  - intros p Hin. destruct (H3 p Hin) as [? Hn]. split; [done|]. set_solver.
  - intros Henv p r Hin Hr Hn. specialize (H4 Henv p r Hin Hr Hn). repeat case_bool_decide; [done|set_solver|lia|done].
Qed.

(** Posts and outcomes correspond. *)
Definition answers_match (joined : list (url * result VotingError (option (result HelperError ShareSubmissionStatus)))) (w : ShareWorld) : Prop :=
  forall u o p, (u, o) ∈ joined -> p ∈ new_posts w -> post_url p = u -> o = Ok (post_answer p).

Definition crashed (w : ShareWorld) : Prop := exists pending, fan_inv [] pending w.

Lemma fan_inv_crashed open pending w : fan_inv open pending w -> crashed w.
Proof. intros H. exists pending. by eapply fan_inv_weaken; [..|exact H]; set_solver. Qed.
(** Steps that clear nothing and post nothing keep what such steps cannot change. *)
Definition closed (I : ShareWorld -> Prop) : Prop := forall w w', silent env key n w w' -> I w -> I w'.

Lemma fan_inv_closed open pending : closed (fan_inv open pending).
Proof. intros w w' Hs H. by eapply fan_inv_silent. Qed.

Lemma closed_posts (I : ShareWorld -> Prop) old : closed I -> closed (fun w => I w /\ new_posts w = old).
Proof. intros HI w w' Hs [H Ho]. split; [by eapply HI|]. destruct Hs as [_ Hp _]. unfold new_posts in *. by rewrite Hp. Qed.

Lemma ask_closed {E A} I (f : nat -> A) : closed I -> triple I (ask_env env f : task E A) (fun _ => I) I.
Proof. intros HI. eapply (triple_ask env key n). intros w w' t H Hs. by eapply HI. Qed.

Lemma begin_closed I server target policy :
  closed I -> triple I (begin_attempt env round_id wallet_id key server candidates target policy n) (fun _ => I) I.
Proof.
  intros HI. unfold begin_attempt. eapply triple_bind with (R := fun _ => I); [|intros a; by apply triple_ret].
  eapply (triple_call env round_id wallet_id key n).
  - intros w w' H Hs. by eapply HI.
  - intros w w1 w2 answer H Hs Hp Hlk Hset. apply (settles_evolves key n) in Hset. eapply (HI w1); [|by eapply HI]. split; [|done|done].
    intros _ _. by eapply evolves_weaken; [|exact Hset].
Qed.

(** A state loaded for some helpers shows the record as it is. *)
Definition loaded (cand : list url) (s : ShareDeliveryState) (w : ShareWorld) : Prop :=
  exists r, records w !! key = Some r /\ col_nullifier r = n /\ in_flight_apart s
    /\ forall u, state_level s u = if bool_decide (u ∈ cand) then helper_level r u else 0.

Lemma load_closed I cand :
  closed I -> Forall stable cand -> triple I (load_current_delivery_state env round_id key n cand) (fun s w => I w /\ loaded cand s w) I.
Proof.
  intros HI Hcand. unfold load_current_delivery_state, get_delegation_for_scope.
  eapply triple_bind with (R := fun share w => I w /\ match share with
    | Some share => exists r k, records w !! key = Some r /\ share_record round_id (k, r) = Ok share | None => True end).
  - eapply (triple_transact env key n); [intros w w' H Hs; by eapply HI|]. intros w w1 _ row a H Hs Hb.
    assert (row = records w1 !! key /\ match a with Some share => exists r k, records w1 !! key = Some r /\ share_record round_id (k, r) = Ok share | None => True end) as [-> Ha].
    { destruct (records w1 !! key) as [r|]; [|by injection Hb as <- <-]. apply result_bind_Ok in Hb as (share & Hsh & [= <- <-]). eauto. }
    rewrite with_record_eq. split; [|done]. eapply (HI w1); [|by eapply HI]. split; [|done|done].
    intros _ _ r' Hr' Hn. rewrite with_record_eq in Hr'. exists r'. auto using keeps_refl.
  - intros [share|]; [|apply triple_abort; tauto]. case_bool_decide as Hnul; [|apply triple_abort; tauto].
    apply triple_from_result; [|tauto]. intros s w Hs (HIw & r & k & Hr & Hsh). split; [done|].
    apply share_record_levels in Hsh as (Hn & _ & a & b & f & st & Hst & Ha & Hb & Hf & Hl). rewrite Ha, Hb, Hf in Hs.
    exists r. split; [done|]. split; [congruence|]. split; [by eapply from_url_lists_apart|]. intros u.
    rewrite (restricted_level st cand s u Hcand Hs). by rewrite Hl.
Qed.

(** Helpers of a wave, and what is left of those open before it. *)
Record split_of (open wave remaining : list url) : Prop := {
  split_distinct : NoDup wave;
  split_apart : forall u, u ∈ wave -> u ∉ remaining;
  split_within : wave ++ remaining ⊆ open;
  split_length : length wave + length remaining <= length open
}.

Lemma split_start open : split_of open [] open.
Proof. constructor; [constructor|set_solver|done|cbn; lia]. Qed.

Lemma split_without open wave remaining x (keep : bool) :
  split_of open wave remaining -> x ∈ remaining ->
  split_of open (if keep then wave ++ [x] else wave) (without x remaining).
Proof.
  intros [H1 H2 H3 H4] Hx. pose proof (length_without x remaining Hx) as Hl. destruct keep; constructor.
  - apply NoDup_app. split; [done|]. split; [|apply NoDup_singleton]. intros u Hu ->%list_elem_of_singleton. by apply (H2 x).
  - intros u Hu. rewrite elem_of_without. apply elem_of_app in Hu as [Hu|Hu]; [specialize (H2 u Hu); tauto|set_solver].
  - intros u Hu. rewrite !elem_of_app, elem_of_without in Hu. apply H3. set_solver.
  - rewrite length_app. cbn. lia.
  - done.
  - intros u Hu. rewrite elem_of_without. specialize (H2 u Hu). tauto.
  - intros u Hu. rewrite !elem_of_app, elem_of_without in Hu. apply H3. set_solver.
  - lia.
Qed.

Lemma closed_crashed {E A} open pending (m : task E A) Q :
  triple (fan_inv open pending) m Q (fan_inv open pending) -> triple (fan_inv open pending) m Q crashed.
Proof. intros H. eapply triple_conseq; [exact H|done|done|]. apply fan_inv_crashed. Qed.

Lemma reserve_wave_triple open fuel need target now deadline wave remaining :
  split_of open wave remaining -> length remaining <= fuel ->
  triple (fan_inv open []) (reserve_wave env round_id wallet_id key n planned fallback now deadline fuel need target wave remaining)
    (fun result w => split_of open result.1.1 result.1.2 /\ fan_inv open [] w) crashed.
Proof.
  revert wave remaining. induction fuel as [|fuel IH]; intros wave remaining Hs Hl; cbn [reserve_wave].
  { destruct remaining; [|cbn in Hl; lia]. rewrite (bool_decide_true ([] = [])), orb_true_r by done. by apply triple_ret. }
  case_match; [by apply triple_ret|]. eapply triple_bind; [apply closed_crashed, ask_closed, fan_inv_closed|]. intros [|]; [by apply triple_ret|].
  eapply triple_bind; [apply closed_crashed, ask_closed, fan_inv_closed|]. intros health.
  pose proof (candidate_servers_Permutation health (if bool_decide (filter (fun u => u ∈ planned) remaining = []) then remaining else filter (fun u => u ∈ planned) remaining) now) as Hp.
  destruct (candidate_servers _ _ _).2 as [|server rest]; [by apply triple_ret|].
  assert (server ∈ remaining) as Hin.
  { assert (server ∈ server :: rest) as Hin by set_solver. rewrite Hp in Hin. case_bool_decide; [done|]. by apply list_elem_of_filter in Hin as [_ Hin]. }
  pose proof (length_without server remaining Hin). eapply triple_bind; [apply closed_crashed, ask_closed, fan_inv_closed|]. intros [|]; [by apply triple_ret|].
  eapply triple_bind; [apply closed_crashed, begin_closed, fan_inv_closed|]. intros [].
  - apply IH; [by apply (split_without _ _ _ _ true)|lia].
  - apply IH; [by apply (split_without _ _ _ _ false)|lia].
  - by apply triple_ret.
  - apply triple_abort. intros w. apply fan_inv_crashed.
Qed.

Lemma new_posts_app w p : posts0 `prefix_of` share_posts w -> new_posts (with_share_post w p) = new_posts w ++ [p].
Proof. intros [l Hl]. unfold new_posts. cbn. rewrite Hl, <- app_assoc, !drop_app_length. done. Qed.

(** Logging a POST that follows its reservation. *)
Lemma fan_inv_post p open pending w :
  fan_inv (post_url p :: open) pending w -> posted_reserved p -> post_url p ∉ open ->
  (respects_lock env key n -> forall r', records w !! key = Some r' -> col_nullifier r' = n -> 1 <= helper_level r' (post_url p)) ->
  fan_inv open (post_url p :: pending) (with_share_post w p).
Proof.
  intros [H1 H2 H3 Hh H4] Hp Hu Hl. constructor; rewrite ?new_posts_app by done.
  - by apply prefix_app_r.
  - rewrite map_app. apply NoDup_app. split; [done|]. split; [|apply NoDup_singleton]. cbn. intros v (q & -> & Hq)%list_elem_of_fmap Hv.
    destruct (H3 q Hq) as [_ Hopen]. set_solver.
  - intros q [Hq|Hq%list_elem_of_singleton]%elem_of_app; [|by subst q]. destruct (H3 q Hq). set_solver.
  - done.
  - intros Henv q r' [Hq|Hq%list_elem_of_singleton]%elem_of_app Hr' Hn; cbn in Hr'.
    + specialize (H4 Henv q r' Hq Hr' Hn). destruct (H3 q Hq). repeat case_bool_decide; [done|set_solver|lia|done].
    + subst q. rewrite bool_decide_true by set_solver. specialize (Hl Henv r' Hr' Hn). lia.
Qed.

(** A POST is made only where it is reserved, and once. *)
Lemma post_triple now deadline u open pending old :
  (u ∉ open) ->
  triple (fun w => fan_inv (u :: open) pending w /\ new_posts w = old) (post_reserved_helper env round_id key n wire planned fallback now deadline u)
    (fun answer w => fan_inv open (u :: pending) w
       /\ (new_posts w = old \/ exists p, new_posts w = old ++ [p] /\ post_url p = u /\ post_answer p = answer))
    (fun w => fan_inv (u :: open) pending w /\ new_posts w = old).
Proof.
  intros Hu. assert (closed (fun w => fan_inv (u :: open) pending w /\ new_posts w = old)) as Hcl by apply closed_posts, fan_inv_closed.
  unfold post_reserved_helper. eapply triple_bind; [by apply ask_closed|]. intros admission. destruct (acquire admission) as [e|].
  { apply triple_ret. intros w [H Ho]. split; [|auto]. eapply fan_inv_weaken; [..|exact H]; set_solver. }
  eapply triple_bind; [by apply load_closed|]. intros st. case_bool_decide as Hin; [|apply triple_abort; tauto].
  eapply triple_bind with (R := fun row w => (fan_inv (u :: open) pending w /\ new_posts w = old) /\ row = records w !! key /\ loaded candidates st w).
  { intros w H. cbn. tauto. }
  intros row. eapply triple_bind with (R := fun posted w => (fan_inv (u :: open) pending w /\ new_posts w = old)
     /\ posted_reserved {| post_key := key; post_url := u; post_body := wire; post_record := row; post_requests := posted.1; post_answer := posted.2 |}
     /\ (respects_lock env key n -> forall r', records w !! key = Some r' -> col_nullifier r' = n -> 1 <= helper_level r' u)).
  { eapply (triple_ask env key n). intros w w' t (HI & -> & r & Hr & Hn & Hap & Hl) Hs. split; [by eapply Hcl|].
    pose proof (in_flight_level st u Hap Hin) as Hl1. rewrite Hl in Hl1. case_bool_decide as Hc; [|done]. pose proof (candidate_stable u Hc) as Hst. split.
    - do 3 (split; [done|]). split; [|by exists r]. apply timeout_requested. cbn. by eapply submission_requested; [..|apply surjective_pairing].
    - intros Henv r' Hr' Hn'. destruct HI as [HI _]. pose proof (silent_evolves _ _ _ _ _ Hs Henv (inv_held _ _ _ HI)) as He.
      destruct (evolves_level key n _ _ _ _ _ u He Hr Hr' Hn' Hst) as [?|[]]. lia. }
  intros posted. eapply triple_bind with (R := fun _ w => fan_inv open (u :: pending) w
       /\ (new_posts w = old \/ exists p, new_posts w = old ++ [p] /\ post_url p = u /\ post_answer p = posted.2)); [|intros _; by apply triple_ret].
  intros w ((HI & Ho) & Hp & Hfut). cbn [log_post]. split; [by apply (fan_inv_post {| post_key := key |})|].
  right. eexists. split; [rewrite new_posts_app by apply HI; by rewrite Ho|done].
Qed.

Lemma each_post_triple now deadline wave open pending old :
  NoDup wave -> (forall u, u ∈ wave -> u ∉ open) ->
  triple (fun w => fan_inv (wave ++ open) pending w /\ new_posts w = old)
    (each (fun u => caught (F := VotingError) (post_reserved_helper env round_id key n wire planned fallback now deadline u)) wave)
    (fun outcomes w => length outcomes = length wave /\ fan_inv open (wave ++ pending) w /\ answers_match (zip wave outcomes) w
       /\ exists added, new_posts w = old ++ added /\ forall p, p ∈ added -> post_url p ∈ wave) crashed.
Proof.
  revert pending old. induction wave as [|u wave IH]; intros pending old Hnd Hap; cbn [each].
  { apply triple_ret. intros w [H Ho]. split; [done|]. split; [done|]. split; [intros ? ? ?; cbn; set_solver|]. exists []. rewrite app_nil_r. set_solver. }
  apply NoDup_cons in Hnd as [Hu Hnd]. apply (triple_pure (forall p, p ∈ old -> post_url p <> u)).
  { intros w [H <-] p Hp. destruct (inv_posted _ _ _ H p Hp). set_solver. }
  intros Hold. eapply triple_bind with (R := fun o w => exists old', (fan_inv (wave ++ open) (u :: pending) w /\ new_posts w = old')
     /\ (old' = old \/ exists p, old' = old ++ [p] /\ post_url p = u /\ o = Ok (post_answer p))).
  - eapply triple_caught with (X := fun w => fan_inv (u :: wave ++ open) pending w /\ new_posts w = old).
    + eapply triple_conseq; [apply (post_triple now deadline u (wave ++ open) pending old); set_solver|done| |done].
      intros answer w [H [Ho|(p & Ho & Hpu & Hpa)]]; exists (new_posts w); (split; [done|]); [auto|right]. exists p. by rewrite Hpa.
    + intros e w [H Ho]. exists old. split; [|auto]. split; [|done]. eapply fan_inv_weaken; [..|exact H]; set_solver.
  - intros o. apply triple_exists. intros old'. eapply triple_pure; [intros w [_ H]; exact H|]. intros Hold'.
    eapply triple_bind; [eapply triple_pre; [|apply (IH (u :: pending) old')]; [tauto|done|set_solver]|].
    intros os. apply triple_ret. intros w (Hlen & H & Hm & added & Hnew & Hadd). cbn. split; [lia|]. split; [|split].
    + eapply fan_inv_weaken; [..|exact H]; set_solver.
    + intros v o' p Hin Hp Hv. cbn in Hin. apply elem_of_cons in Hin as [[= -> ->]|Hin]; [|by eapply Hm].
      rewrite Hnew in Hp. apply elem_of_app in Hp as [Hp|Hp]; [|specialize (Hadd p Hp); set_solver].
      destruct Hold' as [-> |(q & -> & Hq & ->)]; [by apply Hold in Hp|].
      apply elem_of_app in Hp as [Hp|Hp%list_elem_of_singleton]; [by apply Hold in Hp|by subst q].
    + destruct Hold' as [-> |(q & -> & Hq & _)]; [exists added|exists (q :: added)]; (split; [by rewrite ?Hnew, <- ?app_assoc|]); set_solver.
Qed.

(** Writing the outcome of a helper's POST, by the answers of the posts made to it. *)
Lemma resolve_triple u answer open pending reset old :
  stable u -> (forall p, p ∈ old -> post_url p = u -> post_answer p = answer) ->
  triple (fun w => fan_inv open (u :: pending) w /\ new_posts w = old)
    (resolve_delivery_attempt_for_generation env round_id wallet_id key u n (share_attempt_outcome answer) reset)
    (fun updated w => fan_inv open (if updated then pending else u :: pending) w /\ new_posts w = old) crashed.
Proof.
  intros Hu Hans. unfold resolve_delivery_attempt_for_generation.
  eapply triple_bind with (R := fun a w => fan_inv open (if updated_of a then pending else u :: pending) w /\ new_posts w = old); [|intros a; by apply triple_ret].
  eapply (triple_call env round_id wallet_id key n).
  { intros w w' [H _] Hs. by eapply fan_inv_crashed, fan_inv_silent. }
  intros w w1 w2 a [H Hold] Hs Hp Hlk Hset. pose proof (settles_evolves key n _ _ _ _ Hset) as He.
  assert (new_posts w1 = new_posts w) as Hnp by (unfold new_posts; by rewrite (silent_posts _ _ _ _ _ Hs)).
  assert (new_posts w2 = new_posts w1) as Hnp2 by (unfold new_posts; by rewrite Hp).
  assert (fan_inv open (u :: pending) w2) as H2.
  { eapply fan_inv_evolves; [intros _; exact He|done|done| |by eapply fan_inv_silent]. intros p Hin Hcl. rewrite Hnp, Hold in Hin.
    rewrite evidence_outcome. destruct (share_attempt_outcome answer) eqn:Ho; [by destruct reset, a as [|[]|]|by destruct a as [|[]|]|].
    apply clears_only in Hcl; [|done]. by rewrite (Hans p Hin Hcl), Ho. }
  split; [|by rewrite Hnp2, Hnp]. destruct (updated_of a) eqn:Hup; [|done]. assert (a = Updated true) as -> by (destruct a as [|[]|]; done).
  destruct H2 as [I1 I2 I3 Ih I4]. constructor; [done|done|done|done|]. intros Henv p r Hin Hr Hn. specialize (I4 Henv p r Hin Hr Hn).
  destruct (decide (post_url p = u)) as [Hpu|Hpu]; [|by rewrite (bool_decide_ext (post_url p ∈ pending) (post_url p ∈ u :: pending)) by set_solver].
  assert (evidence (post_answer p) <= helper_level r (post_url p)) as Hev; [|destruct (bool_decide (post_url p ∈ pending)); lia].
  rewrite Hnp2, Hnp, Hold in Hin. rewrite (Hans p Hin Hpu), Hpu. rewrite evidence_outcome. destruct (share_attempt_outcome answer) eqn:Ho; [| |lia].
  - assert (exists b, settles (MergeUrls [u] DefiniteAcceptance b (Some n)) (records w1 !! key) (records w2 !! key) (Some (Updated true))) as (b & Hb) by (destruct reset; eauto).
    destruct (settles_merge u _ _ _ _ _ Hu Hb) as (r1 & Hr1 & Hl). assert (r1 = r) as -> by congruence. done.
  - destruct (settles_merge u _ _ _ _ _ Hu Hset) as (r1 & Hr1 & Hl). assert (r1 = r) as -> by congruence. done.
Qed.

Lemma apply_triple open s joined :
  Forall stable joined.*1 -> NoDup joined.*1 ->
  triple (fun w => fan_inv open joined.*1 w /\ answers_match joined w)
    (fold_task (apply_outcome env round_id wallet_id key n) s joined) (fun _ w => fan_inv open [] w) crashed.
Proof.
  intros Hst Hnd. eapply triple_conseq; [apply (triple_fold _ (fun _ l w => Forall stable l.*1 /\ NoDup l.*1 /\ fan_inv open l.*1 w /\ answers_match l w) crashed joined s)|..].
  - clear s joined Hst Hnd. intros [st elapsed] [u o] rest. apply (triple_pure (stable u /\ (u ∉ rest.*1) /\ Forall stable rest.*1 /\ NoDup rest.*1)).
    { intros w (Hst & Hnd & _). apply Forall_cons in Hst. apply NoDup_cons in Hnd. tauto. }
    intros (Hu & Hnin & Hst & Hnd). unfold apply_outcome. cbn [fst snd].
    eapply triple_bind with (R := fun answer w => o = Ok answer /\ fan_inv open (u :: rest.*1) w /\ answers_match ((u, o) :: rest) w).
    { apply triple_from_result; [intros a w Ho (_ & _ & H); tauto|]. intros w (_ & _ & H & _). by eapply fan_inv_crashed. }
    intros answer. apply (triple_pure (o = Ok answer)); [tauto|]. intros ->.
    apply triple_pre with (P' := fun w => exists old, (fan_inv open (u :: rest.*1) w /\ new_posts w = old)
      /\ (forall v o p, (v, o) ∈ (u, Ok answer) :: rest -> p ∈ old -> post_url p = v -> o = Ok (post_answer p))).
    { intros w (_ & H & Hm). exists (new_posts w). split; [done|]. exact Hm. }
    apply triple_exists. intros old. eapply triple_pure; [intros w [_ H]; exact H|]. intros Hm.
    eapply triple_bind; [eapply triple_pre; [|apply (resolve_triple u answer open rest.*1 false old Hu)]; [tauto|]|].
    { intros p Hp Hpu. specialize (Hm u (Ok answer) p). set_solver. }
    intros [|]; [|apply triple_abort; intros w [H _]; by eapply fan_inv_crashed].
    eapply triple_bind with (R := fun _ w => fan_inv open rest.*1 w /\ new_posts w = old).
    { apply triple_from_result; [done|]. intros w [H _]. by eapply fan_inv_crashed. }
    intros st'. apply triple_ret. intros w [H Ho]. do 2 (split; [done|]). split; [done|].
    intros v o p Hin Hp Hv. rewrite Ho in Hp. eapply Hm; [|done|done]. by right.
  - tauto.
  - intros a w (_ & _ & H & _). exact H.
  - done.
Qed.

Lemma zip_fst {A B} (l : list A) (k : list B) : length k = length l -> (zip l k).*1 = l.
Proof. intros H. by rewrite fst_zip by lia. Qed.

Lemma fan_out_triple fuel target state remaining now deadline :
  Forall stable remaining -> length remaining <= fuel ->
  triple (fan_inv remaining []) (fan_out env round_id wallet_id key n wire planned fallback now deadline fuel target state remaining)
    (fun _ => fan_inv [] []) crashed.
Proof.
  revert state remaining. induction fuel as [|fuel IH]; intros state remaining Hst Hl; cbn [fan_out].
  { destruct remaining; [|cbn in Hl; lia]. rewrite (bool_decide_true ([] = [])) by done. by apply triple_ret. }
  assert (forall w, fan_inv remaining [] w -> fan_inv [] [] w) as Hweak by (intros w H; by eapply fan_inv_weaken; [..|exact H]; set_solver).
  case_match eqn:Hgo; [by apply triple_ret|]. clear Hgo. eapply triple_bind; [apply closed_crashed, ask_closed, fan_inv_closed|]. intros [|]; [by apply triple_ret|].
  eapply triple_bind; [apply reserve_wave_triple; [apply split_start|done]|].
  intros [[wave rest] stop]. apply (triple_pure (split_of remaining wave rest)); [by intros w [H _]|]. intros [Hnd Hap Hin Hlen]. cbn [fst snd] in *.
  case_bool_decide as Hw; [apply triple_ret; intros w [_ H]; auto|].
  eapply triple_bind with (R := fun outcomes w => length outcomes = length wave /\ fan_inv rest wave w /\ answers_match (zip wave outcomes) w).
  { eapply triple_pre with (P' := fun w => exists old, fan_inv (wave ++ rest) [] w /\ new_posts w = old).
    - intros w [_ H]. exists (new_posts w). split; [|done]. eapply fan_inv_weaken; [..|exact H]; set_solver.
    - apply triple_exists. intros old. eapply triple_conseq; [by apply (each_post_triple now deadline wave rest [] old)|done| |done].
      intros os w (H1 & H2 & H3 & _). rewrite app_nil_r in H2. done. }
  intros outcomes. apply (triple_pure (length outcomes = length wave)); [tauto|]. intros Hol.
  assert (Forall stable wave) as Hsw. { apply Forall_forall. intros u Hu. rewrite Forall_forall in Hst. apply Hst, Hin. set_solver. }
  eapply triple_bind; [eapply triple_pre; [|apply (apply_triple rest); rewrite zip_fst by done]|]; [intros w (_ & H2 & H3); by rewrite zip_fst|done|done|].
  intros [state' elapsed]. destruct (elapsed || stop); [apply triple_ret; intros w H; by eapply fan_inv_weaken; [..|exact H]; set_solver|].
  apply IH; [|destruct wave; [done|cbn in Hlen; lia]]. apply Forall_forall. intros u Hu. rewrite Forall_forall in Hst. apply Hst, Hin. set_solver.
Qed.

(** What a report says of the record at the end. *)
Definition report_true (report : ShareSubmissionReport) (w : ShareWorld) : Prop :=
  exists r, records w !! key = Some r /\ col_nullifier r = n
    /\ (forall u, u ∈ report_accepted_urls report <-> u ∈ candidates /\ helper_level r u = 3)
    /\ forall u, u ∈ report_accepted_urls report \/ u ∈ report_ambiguous_urls report <-> u ∈ candidates /\ 1 <= helper_level r u.

Lemma loaded_report s w target : loaded candidates s w -> report_true (delivery_report s target) w.
Proof.
  intros (r & Hr & Hn & _ & Hl). exists r. split; [done|]. split; [done|].
  assert (forall u, let l := if bool_decide (u ∈ candidates) then helper_level r u else 0 in
            (u ∈ accepted_urls s <-> 3 <= l) /\ (u ∈ accepted_urls s \/ u ∈ outcome_unknown_urls s \/ u ∈ in_flight_urls s <-> 1 <= l) /\ l <= 3) as H.
  { intros u. cbv zeta. rewrite <- Hl. destruct (level_spec (accepted_urls s) (outcome_unknown_urls s) (in_flight_urls s) u) as (A & _ & C & D).
    split; [symmetry; exact A|]. split; [symmetry; exact C|exact D]. }
  split; intros u; destruct (H u) as (A & C & D); cbv zeta in *; cbn; rewrite ?elem_of_app, ?A, ?C; case_bool_decide; intuition lia.
Qed.

Lemma start_inv open w : share_posts w = posts0 -> lock_held w = true -> fan_inv open [] w.
Proof.
  intros H Hh. assert (new_posts w = []) as Hn by (unfold new_posts; by rewrite H, drop_all).
  constructor; rewrite ?Hn, ?H; try done; [constructor|set_solver|set_solver].
Qed.

Lemma load_report I target_count :
  closed I -> triple I (s ← load_current_delivery_state env round_id key n candidates; mret (delivery_report s target_count))
    (fun report w => I w /\ report_true report w) I.
Proof.
  intros HI. eapply triple_bind; [by apply load_closed|]. intros s. apply triple_ret. intros w [H Hl]. split; [done|by apply loaded_report].
Qed.

Lemma locked_triple target_count now :
  triple (fan_inv candidates []) (locked_delivery env round_id wallet_id key n wire planned fallback target_count now)
    (fun report w => fan_inv [] [] w /\ report_true report w) crashed.
Proof.
  unfold locked_delivery. eapply triple_bind; [apply closed_crashed, load_closed; [apply fan_inv_closed|done]|]. intros s. cbv zeta.
  set (remaining := filter (fun u => delivery_contains s u = false) candidates).
  assert (remaining ⊆ candidates) as Hsub by (intros u Hu; by apply list_elem_of_filter in Hu as [_ Hu]).
  eapply triple_bind with (R := fun _ => fan_inv remaining []).
  { eapply triple_pre; [|apply closed_crashed, ask_closed, fan_inv_closed]. intros w [H _]. by eapply fan_inv_weaken; [..|exact H]. }
  intros started. eapply triple_bind with (R := fun _ => fan_inv [] []).
  { apply fan_out_triple; [|done]. apply Forall_forall. intros u Hu. by apply candidate_stable, Hsub. }
  intros _. apply closed_crashed, load_report, fan_inv_closed.
Qed.

Definition untouched (w : ShareWorld) : Prop := share_posts w = posts0.

Lemma untouched_closed : closed untouched.
Proof. intros w w' [_ Hp _] H. unfold untouched. congruence. Qed.

Lemma untouched_unlocked open w : untouched w -> unlocked (fan_inv open []) w.
Proof. intros H. exists (with_lock true w). split; [by apply start_inv|done]. Qed.

Lemma dispatch_triple target_count now :
  triple untouched (dispatch_share_to_canonical_helpers env round_id wallet_id key n wire planned fallback target_count now)
    (fun report w => unlocked (fan_inv [] []) w /\ report_true report w) (unlocked crashed).
Proof.
  assert (forall w, untouched w -> unlocked crashed w) as Hcr.
  { intros w (w0 & H & E)%(untouched_unlocked []). exists w0. split; [by eapply fan_inv_crashed|done]. }
  unfold dispatch_share_to_canonical_helpers.
  eapply triple_bind with (R := fun _ => untouched); [eapply triple_conseq; [apply ask_closed, untouched_closed|done|done|exact Hcr]|]. intros lock.
  eapply triple_bind; [apply (triple_from_result _ _ (fun _ => untouched)); [done|exact Hcr]|]. intros [|].
  - eapply triple_conseq; [apply (triple_holding _ untouched (fan_inv candidates []) _ _ (fun w Hw => start_inv candidates (with_lock true w) Hw eq_refl) (locked_triple target_count now))|done| |done].
    intros report w (w0 & [H (r & Hr)] & E1 & E2). split; [by exists w0|]. exists r. by rewrite E1.
  - eapply triple_conseq; [apply load_report, untouched_closed|done| |exact Hcr].
    intros report w [H Hr]. split; [by apply untouched_unlocked|done].
Qed.
End fan_out.

(** ** Deliveries end *)

Section ends.
Context `{WC : WalletCrates, PJ : PlanJson, UC : UrlCrate, UT : UrlTexts, HX : HexCrate, RC : RoundIdCrates, WR : WireCrates, HJ : HelperJson}.
Context (env : DeliveryEnv) (round_id wallet_id : string).

(** A task that ends, with [phi] of its value. *)
Definition ends {E A} (m : task E A) (phi : A -> Prop) : Prop := triple (fun _ => True) m (fun a _ => phi a) (fun _ => True).

Lemma ends_ret {E A} (a : A) (phi : A -> Prop) : phi a -> ends (mret a : task E A) phi.
Proof. intros H. by apply triple_ret. Qed.
Lemma ends_abort {E A} (e : E) (phi : A -> Prop) : ends (abort e) phi.
Proof. by apply triple_abort. Qed.
Lemma ends_bind {E A B} (m : task E A) (f : A -> task E B) (phi : A -> Prop) (psi : B -> Prop) :
  ends m phi -> (forall a, phi a -> ends (f a) psi) -> ends (m ≫= f) psi.
Proof. intros Hm Hf. eapply triple_bind; [exact Hm|]. intros a. apply (triple_pure (phi a)); [done|]. intros Ha w _. by apply Hf. Qed.
Lemma ends_ask {E A} (f : nat -> A) : ends (ask_env env f : task E A) (fun _ => True).
Proof. by intros w _. Qed.
Lemma ends_result {E A} (r : result E A) : ends (from_result r) (fun _ => True).
Proof. by destruct r. Qed.
Lemma ends_transact {A} key (body : WalletTables -> option ShareColumns -> result VotingError (option ShareColumns * A)) :
  ends (share_transact env key body) (fun _ => True).
Proof. by apply (triple_transact env key []). Qed.
Lemma ends_call key op : ends (call env round_id wallet_id key op) (fun _ => True).
Proof. by apply (triple_call env round_id wallet_id key []). Qed.

Lemma ends_load key n cand : ends (load_current_delivery_state env round_id key n cand) (fun _ => True).
Proof.
  eapply ends_bind; [apply ends_transact|]. intros [share|] _; [|apply ends_abort]. case_bool_decide; [apply ends_result|apply ends_abort].
Qed.

Section fan_out.
Context (key : SlotKey) (n : bytes) (wire : text) (planned fallback : list url) (now deadline : N).

Lemma ends_reserve fuel need target wave remaining :
  length remaining <= fuel ->
  ends (reserve_wave env round_id wallet_id key n planned fallback now deadline fuel need target wave remaining)
    (fun result => length result.1.1 + length result.1.2 <= length wave + length remaining).
Proof.
  revert wave remaining. induction fuel as [|fuel IH]; intros wave remaining Hl; cbn [reserve_wave].
  { destruct remaining; [|cbn in Hl; lia]. rewrite (bool_decide_true ([] = [])), orb_true_r by done. by apply ends_ret. }
  case_match; [by apply ends_ret|]. eapply ends_bind; [apply ends_ask|]. intros [|] _; [by apply ends_ret|].
  eapply ends_bind; [apply ends_ask|]. intros health _.
  pose proof (candidate_servers_Permutation health (if bool_decide (filter (fun u => u ∈ planned) remaining = []) then remaining else filter (fun u => u ∈ planned) remaining) now) as Hp.
  destruct (candidate_servers _ _ _).2 as [|server rest]; [by apply ends_ret|].
  assert (server ∈ remaining) as Hin.
  { assert (server ∈ server :: rest) as Hin by set_solver. rewrite Hp in Hin. case_bool_decide; [done|]. by apply list_elem_of_filter in Hin as [_ Hin]. }
  pose proof (length_without server remaining Hin). eapply ends_bind; [apply ends_ask|]. intros [|] _; [by apply ends_ret|].
  eapply ends_bind with (phi := fun _ => True); [eapply ends_bind; [apply ends_call|]; intros answer _; by apply ends_ret|]. intros [] _.
  - eapply triple_conseq; [apply (IH (wave ++ [server]) (without server remaining)); lia|done| |done].
    intros a w Ha. cbn beta in Ha. rewrite length_app in Ha. cbn [length] in Ha. lia.
  - eapply triple_conseq; [apply (IH wave (without server remaining)); lia|done| |done]. intros a w Ha. cbn beta in Ha. lia.
  - by apply ends_ret.
  - apply ends_abort.
Qed.

Lemma ends_each {A B} (f : A -> task VotingError B) l : (forall a, ends (f a) (fun _ => True)) -> ends (each f l) (fun _ => True).
Proof.
  intros Hf. induction l as [|a l IH]; cbn [each]; [by apply ends_ret|].
  eapply ends_bind; [apply Hf|]. intros b _. eapply ends_bind; [apply IH|]. intros bs _. by apply ends_ret.
Qed.

Lemma ends_post u : ends (caught (F := VotingError) (post_reserved_helper env round_id key n wire planned fallback now deadline u)) (fun _ => True).
Proof.
  eapply triple_caught with (X := fun _ => True); [|done]. eapply ends_bind; [apply ends_ask|]. intros admission _. destruct (acquire admission); [by apply ends_ret|].
  eapply ends_bind; [apply ends_load|]. intros st _. case_bool_decide; [|apply ends_abort].
  eapply ends_bind with (phi := fun _ => True); [by intros w _|]. intros row _. eapply ends_bind; [apply ends_ask|]. intros posted _.
  eapply ends_bind with (phi := fun _ => True); [by intros w _|]. intros _ _. by apply ends_ret.
Qed.

Lemma ends_apply s joined : ends (fold_task (apply_outcome env round_id wallet_id key n) s joined) (fun _ => True).
Proof.
  revert s. induction joined as [|[u o] joined IH]; intros [st elapsed]; cbn [fold_task]; [by apply ends_ret|].
  eapply ends_bind with (phi := fun _ => True); [|intros s _; apply IH]. eapply ends_bind; [apply ends_result|]. intros answer _.
  eapply ends_bind with (phi := fun _ => True); [eapply ends_bind; [apply ends_call|]; intros a _; by apply ends_ret|].
  intros [|] _; [|apply ends_abort]. eapply ends_bind; [apply ends_result|]. intros st' _. by apply ends_ret.
Qed.

Lemma ends_fan_out fuel target state remaining :
  length remaining <= fuel ->
  ends (fan_out env round_id wallet_id key n wire planned fallback now deadline fuel target state remaining) (fun _ => True).
Proof.
  revert state remaining. induction fuel as [|fuel IH]; intros state remaining Hl; cbn [fan_out].
  { destruct remaining; [|cbn in Hl; lia]. rewrite (bool_decide_true ([] = [])) by done. by apply ends_ret. }
  case_match eqn:Hgo; [by apply ends_ret|]. clear Hgo. eapply ends_bind; [apply ends_ask|]. intros [|] _; [by apply ends_ret|].
  eapply ends_bind; [apply ends_reserve; done|]. intros [[wave rest] stop] Hlen. cbn in Hlen. case_bool_decide as Hw; [by apply ends_ret|].
  eapply ends_bind; [apply ends_each, ends_post|]. intros outcomes _. eapply ends_bind; [apply ends_apply|]. intros [state' elapsed] _.
  destruct (elapsed || stop); [by apply ends_ret|]. apply IH. destruct wave; [done|cbn in Hlen; lia].
Qed.
End fan_out.

Lemma ends_dispatch key n wire planned fallback target_count now :
  ends (dispatch_share_to_canonical_helpers env round_id wallet_id key n wire planned fallback target_count now) (fun _ => True).
Proof.
  eapply ends_bind; [apply ends_ask|]. intros lock _. eapply ends_bind; [apply ends_result|]. intros [|] _.
  - eapply triple_conseq; [apply (triple_holding _ (fun _ => True) (fun _ => True) (fun _ _ => True) (fun _ => True)); [done|]|done|done|done].
    eapply (ends_bind _ _ _ (fun _ => True)); [apply ends_load|]. intros s _. cbv zeta. eapply ends_bind; [apply ends_ask|]. intros started _.
    eapply ends_bind; [by apply ends_fan_out|]. intros _ _. eapply ends_bind; [apply ends_load|]. intros s' _. by apply ends_ret.
  - eapply ends_bind; [apply ends_load|]. intros s _. by apply ends_ret.
Qed.
End ends.
