(* ===== verification/ShareDelivered.v ===== *)
(** * What a delivery guarantees

    The theorems on the delivery of a committed share: every POST follows its reservation, every
    outcome is on record, and the report is true of the record. *)

From S2P Require Import Prelude Sorting Types Generation Protocol ShareTiming SharePlacement Ballot ShareDelivery RoundPlanning.
From S2P Require Import VoteRecovery WalletTables RoundLoading ShareWire HelperClient HelperClientFacts RoundSubmissions ShareRecords ShareEvidence ShareDispatch ShareDispatchFacts.

Section delivered.
Context `{WC : WalletCrates, PJ : PlanJson, UC : UrlCrate, UT : UrlTexts, RS : RecoverySerde, HX : HexCrate, RC : RoundIdCrates, SC : ShareCrates, WR : WireCrates, HJ : HelperJson}.
Context (env : DeliveryEnv) (round_id wallet_id : string).

Lemma triple_ask_posts {E A} (f : nat -> A) posts0 (X : ShareWorld -> Prop) :
  triple (fun w => share_posts w = posts0) (ask_env env f : task E A) (fun _ w => share_posts w = posts0) X.
Proof. intros w H. exact H. Qed.

Lemma triple_transact_posts {A} key (body : WalletTables -> option ShareColumns -> result VotingError (option ShareColumns * A)) posts0 :
  triple (fun w => share_posts w = posts0) (share_transact env key body) (fun _ w => share_posts w = posts0) (fun w => share_posts w = posts0).
Proof.
  unfold share_transact. eapply triple_bind; [apply triple_ask_posts|]. intros [[e|] tables] w H; cbn; [done|].
  destruct (body tables (records w !! key)) as [[row a]|e]; done.
Qed.

Lemma triple_result_bind {A B} (r : result VotingError A) (f : A -> task VotingError B) P Q (X : ShareWorld -> Prop) :
  (forall w, P w -> X w) -> (forall a, r = Ok a -> triple P (f a) Q X) -> triple P (from_result r ≫= f) Q X.
Proof. intros Hcr Hf. destruct r as [a|e]; [by apply Hf|by apply triple_abort]. Qed.

Lemma prepare_committed_posts request nullifier posts0 :
  triple (fun w => share_posts w = posts0) (prepare_committed_share_delivery env round_id wallet_id request nullifier)
    (fun _ w => share_posts w = posts0) (fun w => share_posts w = posts0).
Proof.
  unfold prepare_committed_share_delivery. apply triple_result_bind; [done|]. intros target _.
  eapply triple_bind; [apply triple_ask_posts|]. intros now.
  eapply triple_bind; [apply triple_transact_posts|]. intros answer.
  eapply triple_bind; [apply triple_transact_posts|]. intros [share|]; [|by apply triple_abort].
  destruct answer as [[]|]; try by apply triple_abort. case_bool_decide; [by apply triple_ret|by apply triple_abort].
Qed.

(** A POST of a delivery: to a helper of the fleet, with its reservation on record right
    before, of a body made from the committed payload, by one call of the client. *)
Record delivery_post (request : CommittedShareRequest) (n : bytes) (fleet : list url) (p : SharePost) : Prop := {
  delivery_post_key : post_key p = request_key request;
  delivery_post_helper : post_url p ∈ fleet;
  delivery_post_reserved : exists r, post_record p = Some r /\ col_nullifier r = n /\ helper_level r (post_url p) = 1;
  delivery_post_body : exists payload vc_tree_position submit_at, committed_payload round_id request = Ok payload
    /\ to_wire_json payload (Some vc_tree_position) submit_at = Ok (post_body p);
  delivery_post_requests : requested (env_config env) (post_url p) (post_body p) (post_requests p) (post_answer p)
}.

(** What is true at the end of a delivery: its posts and their evidence on record. *)
Record delivered (request : CommittedShareRequest) (n : bytes) (fleet : list url) (posts0 : list SharePost) (written : bool) (w : ShareWorld) : Prop := {
  delivered_prefix : posts0 `prefix_of` share_posts w;
  delivered_once : NoDup (map post_url (drop (length posts0) (share_posts w)));
  delivered_posts : forall p, p ∈ drop (length posts0) (share_posts w) -> delivery_post request n fleet p;
  delivered_recorded : respects_lock env (request_key request) n -> forall p r, p ∈ drop (length posts0) (share_posts w) ->
    records w !! request_key request = Some r -> col_nullifier r = n ->
    (if written then evidence (post_answer p) else Nat.min 1 (evidence (post_answer p))) <= helper_level r (post_url p)
}.

Lemma fan_inv_delivered request n wire planned fallback fleet posts0 pending w (written : bool) :
  planned ++ fallback ⊆ fleet -> (written = true -> pending = []) ->
  (exists payload vc_tree_position submit_at, committed_payload round_id request = Ok payload
    /\ to_wire_json payload (Some vc_tree_position) submit_at = Ok wire) ->
  unlocked (fan_inv env (request_key request) n wire planned fallback posts0 [] pending) w -> delivered request n fleet posts0 written w.
Proof.
  intros Hf Hw Hwire (w0 & [H1 H2 H3 _ H4] & Er & Ep). unfold new_posts in *. constructor; rewrite ?Ep; [done|done| |].
  - intros p Hp. destruct (H3 p Hp) as [(Hk & Hu & <- & Hreq & Hr) _]. constructor; auto.
  - intros Henv p r Hp Hr Hn. rewrite Er in Hr. specialize (H4 Henv p r Hp Hr Hn). destruct written; [|case_bool_decide; lia].
    rewrite Hw, bool_decide_false in H4 by set_solver. done.
Qed.

Lemma nothing_delivered request n fleet written w : delivered request n fleet (share_posts w) written w.
Proof. constructor; rewrite ?drop_all; [done|constructor|set_solver|set_solver]. Qed.

Section committed.
Context (request : CommittedShareRequest) (nf : bytes32).
Let key : SlotKey := request_key request.
Let n : bytes := bytes32_bytes nf.
Context (Hnf : nullifier_from_recovery_json (request_json request) key.1.2 key.2 = Ok nf).

(** What a report says of the record. *)
Definition truthful (fleet : list url) (report : ShareSubmissionReport) (w : ShareWorld) : Prop :=
  exists r, records w !! key = Some r /\ col_nullifier r = n
    /\ (forall u, u ∈ report_accepted_urls report <-> u ∈ fleet /\ helper_level r u = 3)
    /\ forall u, u ∈ report_accepted_urls report \/ u ∈ report_ambiguous_urls report <-> u ∈ fleet /\ 1 <= helper_level r u.

Lemma committed_material_nullifier material position nf' :
  committed_material round_id request material = Ok (position, nf') -> nf' = nf.
Proof.
  unfold committed_material. destruct material as [json pos| |]; [|done|done]. intros H.
  apply result_bind_Ok in H as (? & Hj & H). apply fail_if_Ok, negb_false_iff, bool_decide_eq_true in Hj. subst json.
  apply result_bind_Ok in H as (? & _ & H). apply result_bind_Ok in H as (? & _ & H). apply result_bind_Ok in H as (nf1 & Hn & [= _ <-]).
  subst key. congruence.
Qed.

Lemma submit_committed_triple posts0 configured planned :
  Forall stable configured -> check_request request = Ok (configured, planned) ->
  triple (fun w => share_posts w = posts0) (submit_committed_share_to_helpers env round_id wallet_id request)
    (fun report w => delivered request n configured posts0 true w /\ truthful configured report w) (delivered request n configured posts0 false).
Proof.
  intros Hst Hcheck. assert (forall w, share_posts w = posts0 -> delivered request n configured posts0 false w) as H0 by (intros w <-; apply nothing_delivered).
  unfold submit_committed_share_to_helpers. rewrite Hcheck. apply triple_result_bind; [exact H0|]. intros ? [= <-].
  apply triple_result_bind; [exact H0|]. intros payload Hpayload.
  eapply triple_bind with (R := fun _ w => share_posts w = posts0); [eapply triple_conseq; [apply (triple_transact_posts _ _ posts0)|done|done|exact H0]|]. intros material.
  apply triple_result_bind; [exact H0|]. intros [position nf'] ->%committed_material_nullifier.
  apply triple_result_bind; [exact H0|]. intros _ _.
  eapply triple_bind with (R := fun _ w => share_posts w = posts0); [eapply triple_conseq; [apply (prepare_committed_posts _ _ posts0)|done|done|exact H0]|]. intros submit_at.
  apply triple_result_bind; [exact H0|]. intros wire Hwire.
  assert (exists payload vc_tree_position submit_at, committed_payload round_id request = Ok payload
    /\ to_wire_json payload (Some vc_tree_position) submit_at = Ok wire) as Hbody by eauto.
  destruct (wire_json_kept _ _ _ _ Hwire) as (_ & _ & _ & Hvalid).
  assert (forall u, u ∈ filter (fun u => u ∈ configured) planned ++ filter (fun u => u ∉ filter (fun u => u ∈ configured) planned) configured <-> u ∈ configured) as Hc.
  { intros u. rewrite elem_of_app, !list_elem_of_filter. destruct (decide (u ∈ filter (fun u => u ∈ configured) planned)) as [Hd|Hd]; rewrite list_elem_of_filter in Hd; tauto. }
  eapply triple_conseq; [apply (dispatch_triple env round_id wallet_id key n wire _ _ posts0); [|exact Hvalid]|done|..].
  - apply Forall_forall. intros u Hu%Hc. by apply (proj1 (Forall_forall _ _) Hst).
  - intros report w [H (r & Hr & Hn & Ha & Hb)]. split; [eapply fan_inv_delivered; [|done|exact Hbody|exact H]; intros u; apply Hc|].
    exists r. split; [done|]. split; [done|]. split; intros u; [rewrite Ha|rewrite Hb]; by rewrite Hc.
  - intros w (w0 & [pending H] & E). eapply (fan_inv_delivered _ _ _ _ _ _ _ pending); [|discriminate|exact Hbody|by exists w0]. intros u. apply Hc.
Qed.
End committed.

Lemma submit_committed_delivers request nf fleet planned w w' o :
  nullifier_from_recovery_json (request_json request) (request_key request).1.2 (request_key request).2 = Ok nf ->
  Forall stable fleet -> check_request request = Ok (fleet, planned) ->
  submit_committed_share_to_helpers env round_id wallet_id request w = (w', o) ->
  match o with
  | Done report => delivered request (bytes32_bytes nf) fleet (share_posts w) true w' /\ truthful request nf fleet report w'
  | Failed _ => delivered request (bytes32_bytes nf) fleet (share_posts w) false w'
  | Exhausted => False
  end.
Proof.
  intros Hnf Hst Hcheck Hrun. pose proof (submit_committed_triple request nf Hnf (share_posts w) fleet planned Hst Hcheck w eq_refl) as H.
  rewrite Hrun in H. by destruct o.
Qed.

Lemma submit_committed_ends request : ends (submit_committed_share_to_helpers env round_id wallet_id request) (fun _ => True).
Proof.
  unfold submit_committed_share_to_helpers. eapply ends_bind; [apply ends_result|]. intros [configured planned] _.
  eapply ends_bind; [apply ends_result|]. intros payload _. eapply ends_bind; [apply ends_transact|]. intros material _.
  eapply ends_bind; [apply ends_result|]. intros [position nf] _. eapply ends_bind; [apply ends_result|]. intros _ _.
  eapply ends_bind with (phi := fun _ => True).
  - unfold prepare_committed_share_delivery. eapply ends_bind; [apply ends_result|]. intros target _. eapply ends_bind; [apply ends_ask|]. intros now _.
    eapply ends_bind; [apply ends_transact|]. intros answer _. eapply ends_bind; [apply ends_transact|]. intros [share|] _; [|apply ends_abort].
    destruct answer as [[]|]; try apply ends_abort. case_bool_decide; [by apply ends_ret|apply ends_abort].
  - intros submit_at _. eapply ends_bind; [apply ends_result|]. intros wire _. apply ends_dispatch.
Qed.

(** C10. However a delivery of a committed share ends, each call of the client it makes is for a
    helper of the configured fleet, at most one for each, with the helper's reservation on
    record: right before it the record is of the share's generation and has the helper in
    flight, neither accepted nor unknown.  All requests of a call go to the helper's route with
    a body made from the committed payload, and every request but the last was refused: not
    sent, or answered with neither success nor a server error.  So a helper can have taken the
    share from at most one request of a delivery.  The configured helpers are assumed to be
    fixed points of canonicalization; other connections may write anything at any time. *)
Theorem delivery_posts_reserved request nf fleet planned w w' o :
  nullifier_from_recovery_json (request_json request) (request_key request).1.2 (request_key request).2 = Ok nf ->
  Forall stable fleet -> check_request request = Ok (fleet, planned) ->
  submit_committed_share_to_helpers env round_id wallet_id request w = (w', o) ->
  exists new, share_posts w' = share_posts w ++ new /\ NoDup (map post_url new)
    /\ forall p, p ∈ new -> delivery_post request (bytes32_bytes nf) fleet p.
Proof.
  intros Hnf Hst Hcheck Hrun. pose proof (submit_committed_delivers _ _ _ _ _ _ _ Hnf Hst Hcheck Hrun) as H.
  assert (exists written, delivered request (bytes32_bytes nf) fleet (share_posts w) written w') as (written & [H1 H2 H3 _]).
  { destruct o; [destruct H; eauto|eauto|done]. }
  destruct H1 as [new Hnew]. rewrite Hnew, drop_app_length in H2, H3. eauto.
Qed.

(** The helper may have received a request of this POST. *)
Definition may_have_arrived (p : SharePost) : Prop := exists x, x ∈ post_requests p /\ ~ refused (http_answer x).

Lemma arrived_evidence request n fleet p : delivery_post request n fleet p -> may_have_arrived p -> 2 <= evidence (post_answer p).
Proof.
  intros [_ _ _ _ [_ _ _ Hans]] (x & Hx & Hnot). destruct (post_answer p) as [[v|e]|]; cbn; [lia| |lia].
  destruct (is_ambiguous e); [lia|]. specialize (Hans eq_refl). rewrite Forall_forall in Hans. destruct (Hnot (Hans x Hx)).
Qed.

(** C11. Every delivery ends.  No POST with a request that was not refused is lost, as long as,
    while the delivery holds the share's lock, other connections neither clear a reservation nor
    create the record of the generation again: when the delivery returns and the record is
    still there, a helper that may have received the share is on record as unknown or
    accepted, and one that acknowledged it as accepted; when the delivery fails anywhere, also
    because a write failed, such a helper is still on record, at least in flight.  Before the
    lock is granted others may write anything.  The configured helpers are assumed to be fixed
    points of canonicalization. *)
Theorem delivery_outcomes_on_record request w w' o :
  submit_committed_share_to_helpers env round_id wallet_id request w = (w', o) ->
  o <> Exhausted /\
  forall nf fleet planned p r,
    nullifier_from_recovery_json (request_json request) (request_key request).1.2 (request_key request).2 = Ok nf ->
    Forall stable fleet -> check_request request = Ok (fleet, planned) -> respects_lock env (request_key request) (bytes32_bytes nf) ->
    p ∈ drop (length (share_posts w)) (share_posts w') -> records w' !! request_key request = Some r -> col_nullifier r = bytes32_bytes nf ->
    match o with
    | Done _ => (may_have_arrived p -> 2 <= helper_level r (post_url p)) /\ (forall v, post_answer p = Some (Ok v) -> helper_level r (post_url p) = 3)
    | _ => may_have_arrived p -> 1 <= helper_level r (post_url p)
    end.
Proof.
  intros Hrun. split.
  { pose proof (submit_committed_ends request w I) as H. rewrite Hrun in H. by destruct o. }
  intros nf fleet planned p r Hnf Hst Hcheck Henv Hp Hr Hn. pose proof (submit_committed_delivers _ _ _ _ _ _ _ Hnf Hst Hcheck Hrun) as H.
  destruct o as [report|e|]; [destruct H as [H _]|..|done];
    pose proof (delivered_recorded _ _ _ _ _ _ H Henv p r Hp Hr Hn) as Hev; pose proof (arrived_evidence _ _ _ _ (delivered_posts _ _ _ _ _ _ H p Hp)) as Harr; cbv beta iota in Hev.
  - split; [intros Ha; specialize (Harr Ha); lia|]. intros v Hv. rewrite Hv in Hev. cbn in Hev. assert (helper_level r (post_url p) <= 3) by apply level_spec. lia.
  - intros Ha. specialize (Harr Ha). lia.
Qed.

(** C23. The report of a delivery is true of the record at its end, whatever other connections
    wrote meanwhile: its accepted helpers are the configured helpers on record as accepted,
    and with the ambiguous ones it names exactly the configured helpers on record.  The
    configured helpers are assumed to be fixed points of canonicalization. *)
Theorem delivery_report_truthful request nf fleet planned w w' report :
  nullifier_from_recovery_json (request_json request) (request_key request).1.2 (request_key request).2 = Ok nf ->
  Forall stable fleet -> check_request request = Ok (fleet, planned) ->
  submit_committed_share_to_helpers env round_id wallet_id request w = (w', Done report) ->
  exists r, records w' !! request_key request = Some r /\ col_nullifier r = bytes32_bytes nf
    /\ (forall u, u ∈ report_accepted_urls report <-> u ∈ fleet /\ helper_level r u = 3)
    /\ forall u, u ∈ report_accepted_urls report \/ u ∈ report_ambiguous_urls report <-> u ∈ fleet /\ 1 <= helper_level r u.
Proof.
  intros Hnf Hst Hcheck Hrun. by destruct (submit_committed_delivers _ _ _ _ _ _ _ Hnf Hst Hcheck Hrun) as [_ H].
Qed.
End delivered.

(** ** A delivery *)

#[local] Existing Instances sample_hex sample_recovery_serde any_round_id sample_wallet_crates plain_urls plain_texts numbered_json queued_json.

Definition sample_share_crates : ShareCrates :=
  {| share_nullifier_hash := fun c _ _ => c |}.

#[local] Existing Instances sample_share_crates sample_wire_crates.

Definition three_helpers : list url := map chars ["a"; "b"; "c"].

Lemma three_helpers_stable : Forall stable three_helpers.
Proof. by repeat apply Forall_cons_2; try apply Forall_nil_2. Qed.

(** The vote with one share, on file with its tree position. *)
Definition shared_vote : VoteColumns :=
  {| col_choice := 1; col_commitment := None; col_tx_hash := None; col_vc_tree_position := Some 8%Z; col_commitment_bundle_json := Some [0%N; 2%N] |}.
Definition shared_wallet : WalletTables := with_votes sample_wallet {[(sample_round_id, "wallet", 3%Z, 2%Z) := shared_vote]}.

(** A client whose requests are acknowledged, or lost. *)
Definition steady_client (acknowledges : bool) : ClientEnv :=
  {| client_cancelled := fun _ => false; client_instant := fun t => N.of_nat t; instant_checked_add := fun a b => Some (a + b)%N;
     client_transport := fun _ =>
       if acknowledges then Some (Ok {| helper_status := 200; helper_body := []; helper_content_type := Some (chars "application/json") |}) else None |}.

(** The first POST is accepted, the answers of the others are lost.  Before the lock is granted
    another connection deletes every record but the one of this share. *)
Definition calm_env : DeliveryEnv :=
  {| env_interference := fun held _ rows => if held then rows else filter (fun e => e.1 = (3, 2, 0)%N) rows;
     env_tables := fun _ => shared_wallet; env_statement := fun _ => None;
     env_cancelled := fun _ => false; env_lock := fun _ => Ok true; env_health := fun _ => health_new 3 30; env_instant := fun _ => 0%N;
     env_admission := fun _ => PermitGiven; env_config := default_config;
     env_client := fun t => steady_client (bool_decide (t < 20)); env_dropped := fun _ => None; env_clock := fun _ => 1000%N |}.

Definition shared_request : CommittedShareRequest :=
  {| request_key := (3, 2, 0)%N;
     request_plan := {| plan_immediate := false; plan_submit_at := 2000; plan_target_count := 2; target_servers := map chars ["b"; "a"] |};
     request_planning_urls := three_helpers; request_configured_urls := three_helpers; request_now := 1000;
     request_vote_commitment := bytes32_fill Byte.x12;
     request_payloads := match recover_payloads sample_shared with Ok l => l | Err _ => [] end; request_json := [0%N; 2%N] |}.

Definition idle_world : ShareWorld := {| records := ∅; share_posts := []; lock_held := false; tick := 0 |}.

Definition shared_run : ShareWorld * ending VotingError ShareSubmissionReport :=
  submit_committed_share_to_helpers calm_env sample_round_id "wallet" shared_request idle_world.

Lemma calm_respects key n : respects_lock calm_env key n.
Proof. intros t rows r' Hr' Hn. exists r'. split; [exact Hr'|]. split; [exact Hn|apply keeps_refl]. Qed.

Definition is_queued (answer : option (result HelperError ShareSubmissionStatus)) : bool :=
  match answer with Some (Ok SubmissionQueued) => true | _ => false end.
Lemma is_queued_Some answer : is_queued answer = true -> answer = Some (Ok SubmissionQueued).
Proof. by destruct answer as [[[|]|]|]. Qed.

(** The run ends with a report, an accepted helper and a record; its inputs are in order. *)
Definition shared_run_done : bool :=
  match shared_run, nullifier_from_recovery_json (request_json shared_request) 2 0, check_request shared_request with
  | (w, Done report), Ok nf, Ok (fleet, _) =>
      negb (bool_decide (report_accepted_urls report = [])) && bool_decide (nf = bytes32_fill Byte.x12) && bool_decide (fleet = three_helpers)
      && match records w !! request_key shared_request, share_posts w with
         | Some r, p :: _ => bool_decide (col_nullifier r = bytes32_bytes nf) && is_queued (post_answer p)
                             && bool_decide (length (post_requests p) = 1)
         | _, _ => false
         end
  | _, _, _ => false
  end.

Lemma shared_run_done_true : shared_run_done = true.
Proof. vm_cast_no_check (eq_refl true). Qed.

Lemma shared_run_inputs :
  exists w report r p posts planned, shared_run = (w, Done report)
    /\ nullifier_from_recovery_json (request_json shared_request) (request_key shared_request).1.2 (request_key shared_request).2 = Ok (bytes32_fill Byte.x12)
    /\ check_request shared_request = Ok (three_helpers, planned) /\ report_accepted_urls report <> []
    /\ share_posts w = p :: posts /\ records w !! request_key shared_request = Some r
    /\ col_nullifier r = bytes32_bytes (bytes32_fill Byte.x12) /\ post_answer p = Some (Ok SubmissionQueued) /\ length (post_requests p) = 1.
Proof.
  pose proof shared_run_done_true as H. unfold shared_run_done in H. change (request_key shared_request).1.2 with 2%N. change (request_key shared_request).2 with 0%N.
  destruct shared_run as [w [report|e|]]; [|done|done]. destruct (nullifier_from_recovery_json (request_json shared_request) 2 0) as [nf|]; [|done].
  destruct (check_request shared_request) as [[fleet planned]|]; [|done].
  destruct (records w !! request_key shared_request) as [r|] eqn:Hr; [|by rewrite andb_false_r in H]. destruct (share_posts w) as [|p posts] eqn:Hp; [by rewrite andb_false_r in H|].
  rewrite !andb_true_iff, negb_true_iff, bool_decide_eq_false, !bool_decide_eq_true in H. destruct H as (((Ha & ->) & ->) & (Hn & He%is_queued_Some) & Hl).
  exists w, report, r, p, posts, planned. auto 12.
Qed.

Lemma delivery_posts_reserved_witness :
  exists w report p new, shared_run = (w, Done report) /\ share_posts w = [] ++ (p :: new) /\ NoDup (map post_url (p :: new))
    /\ exists r, post_record p = Some r /\ helper_level r (post_url p) = 1.
Proof.
  destruct shared_run_inputs as (w & report & r & p & posts & planned & Hrun & Hnf & Hcheck & _ & Hp & _).
  destruct (delivery_posts_reserved calm_env sample_round_id "wallet" shared_request _ _ _ idle_world w (Done report)
              Hnf three_helpers_stable Hcheck Hrun) as (new & Hnew & Hnd & Hall).
  assert (new = p :: posts) as -> by (rewrite <- Hp; symmetry; exact Hnew). exists w, report, p, posts. split; [exact Hrun|]. split; [exact Hnew|]. split; [exact Hnd|].
  destruct (Hall p) as [_ _ (r' & Hr' & _ & Hl) _ _]; [by left|]. exists r'. split; [exact Hr'|exact Hl].
Defined.

Lemma delivery_outcomes_on_record_witness :
  exists w report r p, shared_run = (w, Done report) /\ records w !! request_key shared_request = Some r
    /\ post_answer p = Some (Ok SubmissionQueued) /\ helper_level r (post_url p) = 3.
Proof.
  destruct shared_run_inputs as (w & report & r & p & posts & planned & Hrun & Hnf & Hcheck & _ & Hp & Hr & Hn & He & _).
  exists w, report, r, p. split; [exact Hrun|]. split; [exact Hr|]. split; [exact He|].
  destruct (delivery_outcomes_on_record calm_env sample_round_id "wallet" shared_request idle_world w (Done report) Hrun) as [_ H].
  eapply (H _ _ _ p r Hnf three_helpers_stable Hcheck (calm_respects _ _)); [|exact Hr|exact Hn|exact He].
  rewrite Hp. left.
Defined.

Lemma delivery_report_truthful_witness :
  exists w report r u, shared_run = (w, Done report) /\ records w !! request_key shared_request = Some r
    /\ u ∈ report_accepted_urls report /\ helper_level r u = 3.
Proof.
  destruct shared_run_inputs as (w & report & r & p & posts & planned & Hrun & Hnf & Hcheck & Hne & _ & Hr & _).
  destruct (delivery_report_truthful calm_env sample_round_id "wallet" shared_request _ _ _ idle_world w report
              Hnf three_helpers_stable Hcheck Hrun) as (r' & Hr' & _ & Ha & _).
  assert (r' = r) as -> by (rewrite Hr in Hr'; by injection Hr').
  destruct (report_accepted_urls report) as [|u rest] eqn:Hacc; [destruct (Hne eq_refl)|]. exists w, report, r, u. split; [exact Hrun|]. split; [exact Hr|].
  rewrite Hacc. split; [left|]. apply Ha. left.
Defined.
